(* ===== verification/_CoqProject ===== *)
-Q . S2P
Prelude.v
RustStr.v
Vga.v
Console.v
Context.v
Tools.v
Agent.v
UnstableSort.v
MemoryMap.v
X86.v
X86Huge.v
FrameAllocator.v
MapOrder.v
MapLife.v
EntryCost.v
BootRegions.v
Level4.v
Memory.v
Paging.v
Heap.v
BuildConfig.v
BuildHost.v
BuildScript.v
ConfigFile.v
BuildTheorems.v
BootInfo.v
PageTable.v
BootPaging.v
KernelLoad.v
KernelMapping.v
TableBudget.v
KernelTheorems.v
Printer.v
BootMain.v
BootSteps.v
Boot.v
Bootloader.v
BootLayout.v
BootTheorems.v
Gdt.v
Interrupts.v
Kernel.v
Handover.v
LowKernel.v
System.v
