(* ===== verification/Prelude.v ===== *)
(** * LLM OS: a verification development

    ** The program

    The repository holds a bare-metal x86_64 kernel whose only process is an
    agent (src/src), and the bootloader that loads it (src/bootloader).  At power
    on, assembly stages collect the firmware's memory regions and enter the
    bootloader's Rust code.  It builds a map of the physical memory, marks what
    is in use, picks free entries of the level 4 page table, maps the kernel and
    passes it the boot information.  The kernel prints to a VGA text screen and
    a serial port, sets up interrupts, allocates frames from the memory map, maps
    a heap, boots the agent and waits for interrupts.  The agent keeps a context
    window of messages with a token budget and a registry of tools.

    ** Files

    Shared:
    - [Prelude]: panics as the [outcome] monad, Rust's [Result], [u64] and
      [i64] arithmetic with the overflow behaviour of both build profiles (class
      [Build]), loops, lemmas on lists, tactics.
    - [RustStr]: strings as UTF-8 bytes; trimming, splitting, parsing and
      printing of numbers as the standard library does them.
    - [UnstableSort]: [slice::sort_unstable_by] as an interface with its laws.
    - [X86]: addresses, frames, pages and table indices of the crate x86_64 as
      interfaces with laws from its documentation, and instances on numbers.
    - [X86Huge]: the same for 2 MiB pages and pages by table indices.

    The kernel (src/src):
    - [Vga]: the screen writer of vga_buffer.rs: cells, colours, [write_byte],
      [write_string], scrolling.
    - [Console]: the global writer and serial port behind [println!] and
      [serial_println!]; the UART crate is an interface.
    - [Context]: agent/context.rs: messages, token estimate, [push_message] with
      its eviction loop, [status].
    - [Tools]: agent/tools.rs: the registry and the four tools.
    - [Agent]: agent/mod.rs: [boot], [process_input], [handle_tool_call].
    - [Memory]: memory.rs: [BootInfoFrameAllocator] over the lazy chain of
      iterators of [usable_frames], and the address of the page table.
    - [Paging]: the traits [FrameAllocator] and [Mapper] as classes with laws;
      the kernel's allocator is an instance.
    - [Heap]: allocator.rs: [init_heap], against the interfaces of [Paging].
    - [Interrupts]: interrupts.rs, [init] of lib.rs and the critical sections of
      the two [_print] functions as a machine with locks, the interrupt flag and
      the interrupt controller.
    - [Gdt]: the tables of gdt.rs; [Kernel] has the order in which [init] loads them.
    - [Kernel]: main.rs, the test runner and the test kernel of lib.rs.

    The bootloader (src/bootloader/src):
    - [MemoryMap]: bootinfo/memory_map.rs and boot_info.rs.
    - [FrameAllocator]: frame_allocator.rs and the range conversions of main.rs.
    - [EntryCost]: the entries of the memory map its allocations take.
    - [MapOrder]: the memory map with two different sorts; [MapLife]: the steps of
      its life and what they preserve.
    - [BootRegions]: the ranges main.rs marks before it allocates.
    - [Level4]: level4_entries.rs.
    - [BootInfo]: bootinfo/mod.rs, with both optional fields present, and the macro
      [entry_point!] of lib.rs.
    - [PageTable]: page_table.rs over a state of page table, memory map and bytes
      of memory, and a program logic for it; [KernelLoad]: the lemmas for one
      segment; [KernelMapping]: the loop over the segments and the stack;
      [TableBudget]: the entries a kernel needs; [KernelTheorems].
    - [BootPaging]: the page table operations of main.rs as an interface, and a
      page table that obeys all the laws.
    - [BootMain]: main.rs and sse.rs: [stage_4], [bootloader_main], the panic
      handler; [BootSteps]: a program logic for steps that panic, and the loops
      over 2 MiB pages; [Boot]: what [boot_kernel] achieves; [Bootloader]: the
      whole of [bootloader_main]; [BootLayout]: the addresses it chooses;
      [BootTheorems]: the theorems and a machine they apply to.
    - [Printer]: the text and graphics printers of printer/.

    The build script (src/bootloader/build.rs):
    - [BuildConfig]: the configuration it reads from the kernel's manifest.
    - [BuildHost]: paths, text and scripts: trees of calls to the host, with a
      continuation for every answer, their runs, and hosts that answer.
    - [BuildScript]: [main], step by step; [ConfigFile]: the constants it writes,
      read back; [BuildTheorems]: what a build does, and when.

    Both:
    - [Handover]: what the kernel sees of the page table the bootloader left: the
      active table stays the same, the crate's [OffsetPageTable] reads it through
      the mapped physical memory.
    - [LowKernel]: the addresses the bootloader chooses for a kernel below 512 GiB.
    - [System]: the bootloader, compiled with the constants of a build, then the
      kernel's entry point on what it left.

    Records are the structs, inductive types the enums, and one definition
    models each function, under the function's name where it is free.  State is
    passed explicitly; code that prints is in the monad [io] of [Console], which
    threads both devices.  A [Panic] ends the program, as both crates abort on
    panic.

    ** What the theorems show

    - Agent: after boot every sequence of inputs is answered without a panic,
      unless one asks the calculator for an overflow ([agent_run_safe], in a heap
      large enough); what is stored is recalled ([agent_remembers]); what a tool call logs
      ([tool_call_logged]).
    - Context: a push evicts the fewest oldest messages that make room and never
      a system message ([push_message_evicts_least], [push_history]); the bound
      that results ([push_message_bound]).
    - Tools: the calculator is exact and panics exactly on overflow; the memory
      tools; what a call may change.
    - Screen: [write_string] refines an unbounded layout of rows of which the
      screen shows the last 25; no access is out of bounds; only printable bytes
      reach it.
    - Memory: the abstraction of a memory map is the owner of each frame.
      [create_from] yields a sorted map whose usable regions are cut at the next
      region; the bootloader's [allocate_frame] and [mark_allocated_region]
      refine moves of ownership; frames are never handed out twice, neither by
      the bootloader nor by the kernel afterwards; allocations for one type never
      fill the map ([allocations_fit]).  Through any sequence of allocations, sorts
      and marks inside one usable region the map stays well formed and a frame
      changes its owner at most once ([memory_map_well_formed]); nothing depends on how the unstable sort orders
      equivalent regions ([memory_map_sort_independent]).  The heap is mapped to
      usable frames of its own.
    - Loading: [map_kernel] puts every byte of every segment where the kernel file
      says, with its flags, in frames that belong to the kernel, or fails for a
      reason that was there before ([map_kernel_loads]); a second segment that
      needs the temporary page is refused ([second_copy_refused]).
    - The bootloader: on a bootable machine it enters the kernel with everything
      in place, or panics for want of memory map entries or frames, and for no
      other reason ([bootloader_boots]); with enough of both it enters it
      ([bootloader_enters_kernel]).  The addresses it chooses do not collide
      ([default_layout_free]), the ranges in use are marked
      ([boot_regions_marked]), the physical memory is where the boot information
      says ([physical_memory_at_offset]).
    - The system: the kernel's allocator never hands out a frame that holds part of
      the kernel ([kernel_memory_is_safe]); [memory::init] finds the page table
      ([kernel_finds_page_table]).  From power on to the agent's run loop
      ([system_boots]): the kernel's page table is the bootloader's with the heap
      added, on frames that hold nothing else.  With a build that configures
      nothing for the bootloader and a kernel below 512 GiB, the addresses follow
      ([built_system_boots]).
    - Level 4 entries: first fit.
    - Interrupts: for every interleaving of kernel code with the two hardware
      interrupts nothing waits for a lock forever; each interrupt is acknowledged
      and its handler returns.
    - Kernel: on a machine with enough memory [kernel_main] reaches its loop.
    - Printers: writes stay within a bound; what a message leaves on the screen.
    - The build: a manifest is accepted exactly when its entries are well formed
      ([parse_to_config_spec]), and the constants written for it read back as its
      configuration ([config_file_roundtrip]).  A build that finishes has made
      one specified sequence of calls ([build_refines]); one in which something
      fails only prints messages from then on ([build_stops_on_failure]); the
      constants and the link directives come after everything else has succeeded
      ([build_links_last]).  The kernel's symbols get the names the bootloader
      links against exactly for file names of certain characters
      ([kernel_symbols_renamed]).
    - Theorems that a concrete input behaves badly: overlaps that [create_from]
      and [mark_allocated_region] leave behind, keys that cannot be recalled.

    Properties are numbered C1 to C40 in the comments above them; a property
    with hypotheses is followed by a witness, named after it, at a concrete
    input.

    ** Bounds and fuel

    The eviction loop runs on fuel: the number of messages plus one, enough
    because each round removes a message, which the totality of [push_message]
    proves.  The digits of a number are printed with as many rounds as it has binary
    digits.  Other loops follow the list or range they iterate over.  The
    kernel's counters are 64 bits wide; [agent_run_safe] allows fewer than 2^60
    inputs.  Frame numbers stay below 2^40, the end of the 52-bit physical address
    space.  The heap needs at most 1024 frames, one for each of its 256 pages and
    three page tables for each.  Usable frames are counted generously:
    [kernel_room] and [boot_room] allow four per page (three tables and the page
    itself) and two per 2 MiB page.  The 64 entries of the memory map are counted
    exactly enough for kernels of a realistic size: allocations for one type cost
    one entry and the usable regions they use up, however many there are
    ([EntryCost], [allocations_fit]), so only a change of type costs entries, two
    for every 2 MiB of the kernel and every 1 GiB of physical memory that may need
    a new table ([TableBudget], [boot_entries]).  The level 4 entries of a default boot
    are 1, 2 and those from 3 on, which leaves 31 to the temporary page and 136 to
    the heap with less than 14 TiB of memory.  The sample machine has 128 MiB
    and the default stack of 512 pages.

    ** Not modelled

    - What the commands of the build script do, and the parser of its TOML file:
      the script's theorems hold for all their answers.
    - The assembly stages and linker scripts.  What the assembly leaves is
      described by hypotheses: the page table maps the kernel file, and the
      firmware's regions are at their place.
    - What [expect] appends to the text of a panic: the [Debug] output of errors of
      other crates.
    - The linked-list heap allocator: its range and the frames under it are
      modelled, allocations from it are not.  Strings, vectors and maps of the
      model have all the memory they need; the kernel would panic when the 1 MiB
      is used up, for one by values stored with the store tool, which are never
      removed.
    - [OffsetPageTable::new] is an interface ([KernelView]); its law is the
      contract the crate documents: given the active level 4 table and the offset
      at which all memory is mapped, it translates as the processor does.
    - Flushing the translation cache and volatile accesses have no effect on the
      modelled state.  The bytes of page tables are the page table's own state. *)

From Stdlib Require Import Lia.
From stdpp Require Import base decidable strings numbers gmap list.

Open Scope Z_scope.

#[global] Arguments String.append !_ _ / : simpl nomatch.

(** ** Fallible computations

    [outcome A] is a computation that either returns or panics; both crates
    are built with [panic = "abort"], so a panic ends the program and no code
    after it runs.  [result A E] is Rust's [Result]. *)

Inductive outcome (A : Type) : Type :=
| Ret (a : A)
| Panic (why : string).
Arguments Ret {A} a.
Arguments Panic {A} why.

Inductive result (A E : Type) : Type :=
| Ok (a : A)
| Err (e : E).
Arguments Ok {A E} a.
Arguments Err {A E} e.

#[export] Instance outcome_ret : MRet outcome := @Ret.
#[export] Instance outcome_bind : MBind outcome := fun A B f m =>
  match m with Ret a => f a | Panic why => Panic why end.
#[export] Instance outcome_fmap : FMap outcome := fun A B f m =>
  match m with Ret a => Ret (f a) | Panic why => Panic why end.

#[export] Instance outcome_eq_dec `{EqDecision A} : EqDecision (outcome A).
Proof. solve_decision. Defined.
#[export] Instance result_eq_dec `{EqDecision A, EqDecision E} :
  EqDecision (result A E).
Proof. solve_decision. Defined.

Definition returns {A} (m : outcome A) : Prop := exists a, m = Ret a.
Definition panics {A} (m : outcome A) : Prop := exists why, m = Panic why.

(** [Option::expect] and [Option::unwrap]. *)
Definition expect {A} (o : option A) (why : string) : outcome A :=
  match o with Some a => Ret a | None => Panic why end.

(** [Result::expect], without the text of the error it appends. *)
Definition expect_ok {A E} (r : result A E) (why : string) : outcome A :=
  match r with Ok a => Ret a | Err _ => Panic why end.

(** [Option::ok_or]. *)
Definition ok_or {A E} (o : option A) (e : E) : result A E :=
  match o with Some a => Ok a | None => Err e end.

Lemma bind_Ret_inv {A B} (m : outcome A) (f : A -> outcome B) b :
  m ≫= f = Ret b -> exists a, m = Ret a /\ f a = Ret b.
Proof. destruct m; simpl; [eauto | discriminate]. Qed.

Lemma bind_assoc {A B C} (m : outcome A) (f : A -> outcome B) (g : B -> outcome C) :
  (m ≫= f) ≫= g = m ≫= (fun a => f a ≫= g).
Proof. by destruct m. Qed.

Lemma bind_panics {A B} (m : outcome A) (f : A -> outcome B) :
  (forall a, panics (f a)) -> panics (m ≫= f).
Proof. destruct m; simpl; [auto | intros _; by eexists]. Qed.

Lemma panics_not_returns {A} (m : outcome A) : panics m -> ~ returns m.
Proof. intros [why ->] [a ?]; discriminate. Qed.

Lemma returns_or_panics {A} (m : outcome A) : returns m \/ panics m.
Proof. destruct m; [left | right]; eexists; eauto. Qed.

(** ** Machine integers

    [u64] and [usize] (64 bits on both targets) are [Z] in [0, 2^64), [i64] is
    [Z] in [-2^63, 2^63).  A Rust arithmetic operator panics on overflow in a
    build with overflow checks (the dev profile) and wraps in one without (the
    release profile): [Build] says which build is meant, and the theorems hold
    for both unless they name one. *)

Class Build := overflow_checks : bool.

Definition wrap64 (z : Z) : Z := z mod 2 ^ 64.
Definition swrap64 (z : Z) : Z := (z + 2 ^ 63) mod 2 ^ 64 - 2 ^ 63.

Definition is_u64 (z : Z) : Prop := 0 <= z < 2 ^ 64.
Definition is_i64 (z : Z) : Prop := - 2 ^ 63 <= z < 2 ^ 63.

#[export] Instance is_u64_dec z : Decision (is_u64 z).
Proof. unfold is_u64. apply _. Defined.
#[export] Instance is_i64_dec z : Decision (is_i64 z).
Proof. unfold is_i64. apply _. Defined.

Section arithmetic.
Context {B : Build}.

Definition u64_arith (what : string) (v : Z) : outcome Z :=
  if decide (is_u64 v) then Ret v
  else if overflow_checks
       then Panic ("attempt to " +:+ what +:+ " with overflow")
       else Ret (wrap64 v).

Definition i64_arith (what : string) (v : Z) : outcome Z :=
  if decide (is_i64 v) then Ret v
  else if overflow_checks
       then Panic ("attempt to " +:+ what +:+ " with overflow")
       else Ret (swrap64 v).

Definition u64_add (a b : Z) : outcome Z := u64_arith "add" (a + b).
Definition u64_sub (a b : Z) : outcome Z := u64_arith "subtract" (a - b).
Definition u64_mul (a b : Z) : outcome Z := u64_arith "multiply" (a * b).
Definition i64_add (a b : Z) : outcome Z := i64_arith "add" (a + b).
Definition i64_sub (a b : Z) : outcome Z := i64_arith "subtract" (a - b).
Definition i64_mul (a b : Z) : outcome Z := i64_arith "multiply" (a * b).

(** Division checks for a zero divisor and for [i64::MIN / -1] in every
    build; it rounds towards zero. *)
Definition i64_div (a b : Z) : outcome Z :=
  if decide (b = 0) then Panic "attempt to divide by zero"
  else if decide (is_i64 (Z.quot a b)) then Ret (Z.quot a b)
  else Panic "attempt to divide with overflow".

Lemma u64_arith_ok what v : is_u64 v -> u64_arith what v = Ret v.
Proof. intros. unfold u64_arith. by rewrite decide_True. Qed.

Lemma i64_arith_ok what v : is_i64 v -> i64_arith what v = Ret v.
Proof. intros. unfold i64_arith. by rewrite decide_True. Qed.

Lemma wrap64_range v : is_u64 (wrap64 v).
Proof. unfold is_u64, wrap64. apply Z.mod_pos_bound. lia. Qed.

Lemma swrap64_range v : is_i64 (swrap64 v).
Proof.
  unfold is_i64, swrap64. pose proof (Z.mod_pos_bound (v + 2 ^ 63) (2 ^ 64)). lia.
Qed.

Lemma u64_arith_range what v r : u64_arith what v = Ret r -> is_u64 r.
Proof.
  unfold u64_arith. repeat case_match; intros; simplify_eq; auto using wrap64_range.
Qed.

Lemma i64_arith_range what v r : i64_arith what v = Ret r -> is_i64 r.
Proof.
  unfold i64_arith. repeat case_match; intros; simplify_eq; auto using swrap64_range.
Qed.

Lemma u64_add_ok a b : is_u64 (a + b) -> u64_add a b = Ret (a + b).
Proof. apply u64_arith_ok. Qed.
Lemma u64_sub_ok a b : is_u64 (a - b) -> u64_sub a b = Ret (a - b).
Proof. apply u64_arith_ok. Qed.
Lemma u64_mul_ok a b : is_u64 (a * b) -> u64_mul a b = Ret (a * b).
Proof. apply u64_arith_ok. Qed.
End arithmetic.

(** A [for] loop over an iterator: the body runs on each element in order and
    a panic in it ends the loop. *)
Fixpoint for_each {A S} (l : list A) (body : A -> S -> outcome S) (s : S) : outcome S :=
  match l with
  | [] => Ret s
  | x :: l' => s' ← body x s; for_each l' body s'
  end.

Lemma for_each_app {A S} (l k : list A) (body : A -> S -> outcome S) s :
  for_each (l ++ k) body s = for_each l body s ≫= for_each k body.
Proof.
  revert s. induction l as [|x l IH]; intros s; simpl; [done|].
  destruct (body x s); simpl; [apply IH | done].
Qed.

(** Loop invariant rule: [P] holds of the elements done so far and the state. *)
Lemma for_each_inv {A S} (P : list A -> S -> Prop) (l : list A) body s :
  P [] s ->
  (forall pre x post s, l = pre ++ x :: post -> P pre s ->
     exists s', body x s = Ret s' /\ P (pre ++ [x]) s') ->
  exists s', for_each l body s = Ret s' /\ P l s'.
Proof.
  intros H0 Hstep.
  assert (forall post pre s, l = pre ++ post -> P pre s ->
    exists s', for_each post body s = Ret s' /\ P l s') as Hgen.
  { induction post as [|x post IH]; intros pre s1 Hl Hp; simpl.
    { exists s1. by rewrite Hl, app_nil_r. }
    destruct (Hstep _ _ _ _ Hl Hp) as (s2 & -> & Hp2). simpl.
    apply (IH (pre ++ [x])); [by rewrite <-app_assoc | done]. }
  by apply (Hgen l []).
Qed.

(** [usize::saturating_sub]. *)
Definition saturating_sub (a b : Z) : Z := Z.max 0 (a - b).

(** [Iterator::position]: the index of the first element that satisfies [p]. *)
Fixpoint position {A} (p : A -> bool) (l : list A) : option nat :=
  match l with
  | [] => None
  | x :: l' => if p x then Some 0%nat else S <$> position p l'
  end.

(** The sum of a measure over a list. *)
Definition sumZ {A} (f : A -> Z) (l : list A) : Z :=
  foldr (fun x acc => f x + acc) 0 l.

Section lists.
Context {A : Type}.
Implicit Types (p : A -> bool) (l k : list A) (f : A -> Z).

Lemma position_Some p l i :
  position p l = Some i <->
  exists pre x post, l = pre ++ x :: post /\ length pre = i /\ p x = true /\
    Forall (fun y => p y = false) pre.
Proof.
  revert i; induction l as [|y l IH]; intros i; simpl.
  { split; [discriminate|]. intros (pre & x & post & H & _). by destruct pre. }
  destruct (p y) eqn:Hy.
  - split.
    + intros [= <-]. exists [], y, l. auto.
    + intros ([|z pre] & x & post & [= <- ->] & <- & Hx & Hpre); [done|].
      apply Forall_cons in Hpre as [? _]. congruence.
  - rewrite fmap_Some. setoid_rewrite IH. split.
    + intros (j & (pre & x & post & -> & <- & Hx & Hpre) & ->).
      exists (y :: pre), x, post. auto.
    + intros ([|z pre] & x & post & [= <- ->] & <- & Hx & Hpre).
      { congruence. }
      apply Forall_cons in Hpre as [_ ?].
      exists (length pre). split; [|done]. by exists pre, x, post.
Qed.

Lemma position_lookup p l i :
  position p l = Some i ->
  (exists x, l !! i = Some x /\ p x = true) /\
  (forall j y, (j < i)%nat -> l !! j = Some y -> p y = false).
Proof.
  intros (pre & x & post & -> & <- & Hx & Hpre)%position_Some. split.
  - exists x. split; [by apply list_lookup_middle | done].
  - intros j y Hj Hy. rewrite lookup_app_l in Hy by done.
    by eapply (Forall_lookup_1 _ _ _ _ Hpre).
Qed.

Lemma position_None p l :
  position p l = None <-> Forall (fun y => p y = false) l.
Proof.
  induction l as [|y l IH]; simpl; [done|].
  rewrite Forall_cons. destruct (p y); [by split; [|intros [? _]]|].
  rewrite fmap_None, IH. tauto.
Qed.

Lemma sumZ_app f l k : sumZ f (l ++ k) = sumZ f l + sumZ f k.
Proof. unfold sumZ. induction l; simpl; lia. Qed.

Lemma sumZ_nonneg f l : Forall (fun x => 0 <= f x) l -> 0 <= sumZ f l.
Proof. unfold sumZ. induction 1; simpl; lia. Qed.

(** [List.filter] on a boolean predicate and its complement. *)
Lemma sumZ_filter_split f p l :
  sumZ f l = sumZ f (List.filter p l) + sumZ f (List.filter (fun x => negb (p x)) l).
Proof.
  unfold sumZ. induction l as [|x l IH]; simpl; [done|].
  destruct (p x); simpl; lia.
Qed.

Lemma bfilter_Forall_true p l :
  Forall (fun y => p y = true) l -> List.filter p l = l.
Proof. induction 1 as [|x l Hx _ IH]; simpl; [done|]. by rewrite Hx, IH. Qed.

Lemma bfilter_Forall_false p l :
  Forall (fun y => p y = false) l -> List.filter p l = [].
Proof. induction 1 as [|x l Hx _ IH]; simpl; [done|]. by rewrite Hx, IH. Qed.

Lemma bfilter_permutation p l k :
  Permutation l k -> Permutation (List.filter p l) (List.filter p k).
Proof.
  induction 1; simpl; repeat case_match; eauto using Permutation.
Qed.
End lists.

(** One more element of [l] copied over [k] in place. *)
Lemma insert_take_drop {A} (l k : list A) (i : nat) (x : A) :
  l !! i = Some x -> (i < length k)%nat ->
  <[i := x]> (take i l ++ drop i k) = take (S i) l ++ drop (S i) k.
Proof.
  intros Hx Hi. assert (i < length l)%nat by (by apply lookup_lt_Some in Hx).
  destruct (lookup_lt_is_Some_2 k i Hi) as [y Hy].
  rewrite (drop_S k y i Hy), (take_S_r l i x Hx).
  rewrite insert_app_r_alt by (rewrite length_take; lia).
  rewrite length_take, Nat.min_l, Nat.sub_diag by lia. simpl. by rewrite <-app_assoc.
Qed.

Lemma insert_take_drop' {A} (l : list A) (i : nat) (x : A) :
  (i < length l)%nat -> <[i := x]> l = take i l ++ x :: drop (S i) l.
Proof.
  intros Hi. destruct (lookup_lt_is_Some_2 l i Hi) as [y Hy].
  rewrite <-(take_drop_middle l i y Hy) at 1.
  rewrite insert_app_r_alt by (rewrite length_take; lia).
  rewrite length_take, Nat.min_l, Nat.sub_diag by lia. done.
Qed.

Lemma length_tail {A} (l : list A) : length (tail l) = (length l - 1)%nat.
Proof. destruct l; simpl; lia. Qed.

(** The loop index of a range is the number of rounds done. *)
Lemma seq_split_elem (a n x : nat) (pre post : list nat) :
  seq a n = pre ++ x :: post -> x = (a + length pre)%nat /\ (length pre < n)%nat.
Proof.
  intros Heq. assert (seq a n !! length pre = Some x) as Hx.
  { rewrite Heq. by apply list_lookup_middle. }
  apply lookup_seq in Hx. lia.
Qed.

(** ** Automation

    [ret_inv] splits the hypothesis that a sequence of fallible steps returned
    into the value of each step; [arith] closes range side conditions. *)

Ltac ret_inv :=
  repeat match goal with
  | H : mbind _ _ = Ret _ |- _ =>
      apply bind_Ret_inv in H; destruct H as (? & ? & ?)
  | H : Ret _ = Ret _ |- _ => injection H as H
  | H : Panic _ = Ret _ |- _ => discriminate H
  | H : Ret _ = Panic _ |- _ => discriminate H
  | H : mret _ = Ret _ |- _ => injection H as H
  end.

(** A decidable closed proposition, by evaluation. *)
Ltac by_compute := refine (bool_decide_unpack _ _); vm_compute; exact I.

(** Linear arithmetic with division and remainder. *)
Ltac dlia := Z.to_euclidean_division_equations; lia.

Ltac arith := unfold is_u64, is_i64, saturating_sub in *; lia.

Create HintDb llm_os.
#[export] Hint Resolve wrap64_range swrap64_range : llm_os.
#[export] Hint Extern 1 (is_u64 _) => arith : llm_os.
#[export] Hint Extern 1 (is_i64 _) => arith : llm_os.
