(* ===== verification/RustStr.v ===== *)
(** * Rust strings and formatting

    What the program uses of [core::str] and [core::fmt].  A [&str] or
    [String] is the byte sequence it is in memory, a [string] of 8-bit
    characters; [chars] cuts it into its UTF-8 encoded scalar values, on which
    the Unicode-aware operations ([trim], [split_whitespace]) work.  Then come
    integer parsing ([from_str_radix] with its checked loop), decimal and
    floating-point [Display], and [Debug] of a list of names. *)

From Stdlib Require Import Lia Ascii Floats.SpecFloat.
From stdpp Require Import base decidable strings numbers gmap list.
From S2P Require Import Prelude.

Open Scope Z_scope.

(** ** Bytes and characters *)

Definition byte_of (a : ascii) : Z := Z.of_N (N_of_ascii a).

Definition str_len (s : string) : Z := Z.of_nat (String.length s).

(** The number of bytes of the scalar value a lead byte starts. *)
Definition utf8_width (a : ascii) : nat :=
  if byte_of a <? 128 then 1%nat
  else if byte_of a <? 224 then 2%nat
  else if byte_of a <? 240 then 3%nat
  else 4%nat.

Fixpoint chars (s : string) : list string :=
  match s with
  | EmptyString => []
  | String a s1 =>
      match utf8_width a with
      | 1%nat => String a "" :: chars s1
      | 2%nat =>
          match s1 with
          | String b s2 => String a (String b "") :: chars s2
          | _ => [s]
          end
      | 3%nat =>
          match s1 with
          | String b (String c s3) => String a (String b (String c "")) :: chars s3
          | _ => [s]
          end
      | _ =>
          match s1 with
          | String b (String c (String d s4)) =>
              String a (String b (String c (String d ""))) :: chars s4
          | _ => [s]
          end
      end
  end.

Definition str_of_chars (l : list string) : string := foldr String.append "" l.

Fixpoint str_bytes (s : string) : list Z :=
  match s with EmptyString => [] | String a s' => byte_of a :: str_bytes s' end.

Definition is_continuation (b : Z) : bool := (128 <=? b) && (b <? 192).

(** The bytes of one scalar value: a lead byte and its continuation bytes. *)
Definition is_char (c : string) : bool :=
  match c with
  | EmptyString => false
  | String a rest =>
      negb (is_continuation (byte_of a)) &&
      (S (String.length rest) =? utf8_width a)%nat &&
      forallb is_continuation (str_bytes rest)
  end.

(** What the type [str] guarantees of its bytes, as far as it matters here. *)
Definition valid_str (s : string) : bool := forallb is_char (chars s).

(** The scalar value of an encoded character. *)
Definition code_point (c : string) : Z :=
  match str_bytes c with
  | [a] => a
  | [a; b] => (a mod 32) * 64 + b mod 64
  | [a; b; c] => (a mod 16) * 4096 + (b mod 64) * 64 + c mod 64
  | [a; b; c; d] => (a mod 8) * 262144 + (b mod 64) * 4096 + (c mod 64) * 64 + d mod 64
  | _ => 65533
  end.

(** [char::is_whitespace]: the Unicode property [White_Space]. *)
Definition is_whitespace (c : string) : bool :=
  let u := code_point c in
  ((9 <=? u) && (u <=? 13)) || (u =? 32) || (u =? 133) || (u =? 160) ||
  (u =? 5760) || ((8192 <=? u) && (u <=? 8202)) || (u =? 8232) || (u =? 8233) ||
  (u =? 8239) || (u =? 8287) || (u =? 12288).

(** ** [str] methods *)

Fixpoint skip_while (p : string -> bool) (l : list string) : list string :=
  match l with
  | [] => []
  | c :: l' => if p c then skip_while p l' else l
  end.

Definition str_trim (s : string) : string :=
  str_of_chars
    (rev (skip_while is_whitespace (rev (skip_while is_whitespace (chars s))))).

(** [str::split] on a character predicate: the pieces between the matches. *)
Fixpoint split_chars (p : string -> bool) (l : list string) : list string :=
  match l with
  | [] => [""]
  | c :: l' =>
      if p c then "" :: split_chars p l'
      else match split_chars p l' with
           | w :: ws => (c +:+ w) :: ws
           | [] => [c]
           end
  end.

Definition split_whitespace (s : string) : list string :=
  List.filter (fun w => negb (String.eqb w "")) (split_chars is_whitespace (chars s)).

Definition space : ascii := " "%char.

Fixpoint split_once_space (s : string) : option (string * string) :=
  match s with
  | EmptyString => None
  | String a s' =>
      if Ascii.eqb a space then Some ("", s')
      else match split_once_space s' with
           | Some (k, v) => Some (String a k, v)
           | None => None
           end
  end.

(** [s.splitn(2, ' ').collect()]. *)
Definition splitn2_space (s : string) : list string :=
  match split_once_space s with Some (k, v) => [k; v] | None => [s] end.

Definition starts_with (s prefix : string) : bool := String.prefix prefix s.

Fixpoint str_drop (n : nat) (s : string) : string :=
  match n, s with
  | S n', String _ s' => str_drop n' s'
  | _, _ => s
  end.

(** [str::is_char_boundary] and the slice [&s[n..]]. *)
Definition is_char_boundary (s : string) (n : nat) : bool :=
  if (n =? 0)%nat || (n =? String.length s)%nat then true
  else match String.get n s with
       | Some a => negb (is_continuation (byte_of a))
       | None => false
       end.

Definition str_from (n : nat) (s : string) : outcome string :=
  if is_char_boundary s n then Ret (str_drop n s)
  else Panic "byte index is not a char boundary or out of bounds".

(** ** Integers: [FromStr] and [Display] *)

Inductive IntErrorKind := Empty | InvalidDigit | PosOverflow | NegOverflow.

#[export] Instance IntErrorKind_eq_dec : EqDecision IntErrorKind.
Proof. solve_decision. Defined.

(** [char::to_digit] for a radix up to 36. *)
Definition to_digit (radix : Z) (a : ascii) : option Z :=
  let b := byte_of a in
  let d := if (48 <=? b) && (b <=? 57) then b - 48
           else if (97 <=? b) && (b <=? 122) then b - 87
           else if (65 <=? b) && (b <=? 90) then b - 55
           else radix in
  if d <? radix then Some d else None.

(** The digit loop: [sign] is 1 or -1, [lo] and [hi] the bounds of the type;
    an invalid digit is reported before an overflow. *)
Fixpoint parse_digits (radix sign lo hi : Z) (s : string) (acc : Z)
  : result Z IntErrorKind :=
  let overflow := if 0 <? sign then PosOverflow else NegOverflow in
  match s with
  | EmptyString => Ok acc
  | String a s' =>
      match to_digit radix a with
      | None => Err InvalidDigit
      | Some d =>
          if decide (lo <= acc * radix < hi) then
            if decide (lo <= acc * radix + sign * d < hi)
            then parse_digits radix sign lo hi s' (acc * radix + sign * d)
            else Err overflow
          else Err overflow
      end
  end.

Definition from_str_radix (signed : bool) (lo hi radix : Z) (s : string)
  : result Z IntErrorKind :=
  match s with
  | EmptyString => Err Empty
  | String a rest =>
      if (Ascii.eqb a "+"%char || Ascii.eqb a "-"%char) && String.eqb rest ""
      then Err InvalidDigit
      else if Ascii.eqb a "+"%char then parse_digits radix 1 lo hi rest 0
      else if signed && Ascii.eqb a "-"%char then parse_digits radix (-1) lo hi rest 0
      else parse_digits radix 1 lo hi s 0
  end.

(** [str::parse::<i64>] and [u64::from_str_radix]. *)
Definition parse_i64 (s : string) : result Z IntErrorKind :=
  from_str_radix true (- 2 ^ 63) (2 ^ 63) 10 s.
Definition u64_from_str_radix (s : string) (radix : Z) : result Z IntErrorKind :=
  from_str_radix false 0 (2 ^ 64) radix s.

Definition digit_char (d : Z) : ascii := ascii_of_N (Z.to_N (48 + d)).

(** The decimal digits of [n] in front of [acc], at most [fuel] of them. *)
Fixpoint show_digits (fuel : nat) (n : Z) (acc : string) : string :=
  match fuel with
  | O => acc
  | S fuel' =>
      let acc' := String (digit_char (n mod 10)) acc in
      if n <? 10 then acc' else show_digits fuel' (n / 10) acc'
  end.

(** [Display] of an unsigned and of a signed integer; a number has at most as
    many decimal digits as binary ones, which bounds the loop. *)
Definition display_uint (n : Z) : string :=
  show_digits (S (Z.to_nat (Z.log2 n))) n "".
Definition display_int (z : Z) : string :=
  if z <? 0 then "-" +:+ display_uint (- z) else display_uint z.

(** [{:#x}] of an unsigned integer, with at most as many digits as bits. *)
Definition hex_char (d : Z) : ascii := ascii_of_N (Z.to_N (if d <? 10 then 48 + d else 87 + d)).

Fixpoint show_hex (fuel : nat) (n : Z) (acc : string) : string :=
  match fuel with
  | O => acc
  | S fuel' =>
      let acc' := String (hex_char (n mod 16)) acc in
      if n <? 16 then acc' else show_hex fuel' (n / 16) acc'
  end.

Definition display_hex (n : Z) : string := "0x" +:+ show_hex (S (Z.to_nat (Z.log2 n))) n "".

(** ** [{:.1}] of an [f64] *)

Definition f64_of_usize (n : Z) : spec_float := binary_normalize 53 1024 n 0 false.
Definition f64_div : spec_float -> spec_float -> spec_float := SFdiv 53 1024.
Definition f64_mul : spec_float -> spec_float -> spec_float := SFmul 53 1024.

(** [num / 2^k] rounded to the nearest integer, ties to even. *)
Definition div_pow2_half_even (num : Z) (k : Z) : Z :=
  let q := num / 2 ^ k in
  let r := 2 * (num mod 2 ^ k) in
  if (2 ^ k <? r) || ((2 ^ k =? r) && Z.odd q) then q + 1 else q.

Definition display_f64_1 (f : spec_float) : string :=
  match f with
  | S754_nan => "NaN"
  | S754_infinity s => if s then "-inf" else "inf"
  | S754_zero s => if s then "-0.0" else "0.0"
  | S754_finite s m e =>
      let tenths :=
        if 0 <=? e then Z.pos m * 2 ^ e * 10 else div_pow2_half_even (Z.pos m * 10) (- e) in
      (if s then "-" else "") +:+
      display_uint (tenths / 10) +:+ "." +:+ display_uint (tenths mod 10)
  end.

Definition newline_str : string := String "010"%char "".

(** ** [{:?}] of a list of names *)

(** The escapes of [str]'s [Debug] on ASCII; the other characters are copied. *)
Definition debug_char (c : string) : string :=
  if String.eqb c (String "034"%char "") then "\" +:+ c
  else if String.eqb c "\" then "\\"
  else if String.eqb c (String "009"%char "") then "\t"
  else if String.eqb c (String "010"%char "") then "\n"
  else if String.eqb c (String "013"%char "") then "\r"
  else if String.eqb c (String "000"%char "") then "\0"
  else c.

Definition quote : string := String "034"%char "".

Definition debug_str (s : string) : string :=
  quote +:+ str_of_chars (map debug_char (chars s)) +:+ quote.

Definition debug_list (l : list string) : string :=
  "[" +:+ String.concat ", " (map debug_str l) +:+ "]".

(** ** Lemmas: characters *)

Lemma byte_of_range a : 0 <= byte_of a < 256.
Proof. unfold byte_of. pose proof (N_ascii_bounded a). lia. Qed.

Lemma string_length_ind (P : string -> Prop) :
  (forall s, (forall t, (String.length t < String.length s)%nat -> P t) -> P s) ->
  forall s, P s.
Proof.
  intros Hstep s. remember (String.length s) as n eqn:Hn. revert s Hn.
  induction n as [n IH] using lt_wf_ind. intros s ->. apply Hstep. eauto.
Qed.

Lemma str_app_assoc (a b c : string) : (a +:+ b) +:+ c = a +:+ (b +:+ c).
Proof. induction a as [|x a IH]; [done|]. simpl. by f_equal. Qed.

Lemma str_app_nil_r (a : string) : a +:+ "" = a.
Proof. induction a as [|x a IH]; [done|]. simpl. by f_equal. Qed.

Lemma str_length_app (a b : string) :
  String.length (a +:+ b) = (String.length a + String.length b)%nat.
Proof. induction a as [|x a IH]; [done|]. simpl. by f_equal. Qed.

Lemma str_bytes_app a b : str_bytes (a +:+ b) = str_bytes a ++ str_bytes b.
Proof. induction a as [|x a IH]; [done|]. simpl. by f_equal. Qed.

Lemma str_of_chars_chars s : str_of_chars (chars s) = s.
Proof.
  unfold str_of_chars. induction s as [s IH] using string_length_ind.
  destruct s as [|a s1]; [done|]. simpl.
  destruct (utf8_width a) as [|[|[|[|]]]];
    repeat case_match; subst; cbn [foldr]; rewrite ?str_app_nil_r; try done;
    by rewrite IH by (simpl; lia).
Qed.

Lemma utf8_width_range a : (1 <= utf8_width a <= 4)%nat.
Proof. unfold utf8_width. repeat case_match; lia. Qed.

Lemma chars_cons_char c s : is_char c = true -> chars (c +:+ s) = c :: chars s.
Proof.
  intros Hc. destruct c as [|a r]; [done|].
  apply andb_prop in Hc as [Hc _]. apply andb_prop in Hc as [_ Hlen].
  apply Nat.eqb_eq in Hlen. change (String a r +:+ s) with (String a (r +:+ s)).
  cbn [chars]. rewrite <-Hlen. pose proof (utf8_width_range a).
  by destruct r as [|? [|? [|? [|? r]]]]; simpl in *; try lia.
Qed.

Lemma chars_str_of_chars l :
  Forall (fun c => is_char c = true) l -> chars (str_of_chars l) = l.
Proof.
  induction 1 as [|c l Hc _ IH]; [done|]. simpl. by rewrite chars_cons_char, IH.
Qed.

Lemma valid_str_chars s :
  valid_str s = true <-> Forall (fun c => is_char c = true) (chars s).
Proof. unfold valid_str. by rewrite forallb_forall, List.Forall_forall. Qed.

(** ** Lemmas: trimming *)

Lemma skip_while_suffix p l : exists pre, l = pre ++ skip_while p l.
Proof.
  induction l as [|c l [pre IH]]; simpl; [by exists []|].
  destruct (p c); [exists (c :: pre); simpl; by f_equal | by exists []].
Qed.

Lemma skip_while_head p l :
  match skip_while p l with [] => True | c :: _ => p c = false end.
Proof. induction l as [|c l IH]; simpl; [done|]. by destruct (p c) eqn:?. Qed.

Lemma skip_while_id p l :
  match l with [] => True | c :: _ => p c = false end -> skip_while p l = l.
Proof. destruct l as [|c l]; simpl; [done|]. by intros ->. Qed.

(** [trim] on the characters. *)
Definition trim_chars (l : list string) : list string :=
  rev (skip_while is_whitespace (rev (skip_while is_whitespace l))).

Lemma trim_chars_sublist l : exists pre post, l = pre ++ trim_chars l ++ post.
Proof.
  unfold trim_chars. destruct (skip_while_suffix is_whitespace l) as [pre Hpre].
  set (k := skip_while is_whitespace l) in *.
  destruct (skip_while_suffix is_whitespace (rev k)) as [post Hpost].
  exists pre, (rev post). rewrite Hpre at 1. f_equal.
  rewrite <-rev_app_distr, <-Hpost. by rewrite rev_involutive.
Qed.

Lemma trim_chars_idemp l : trim_chars (trim_chars l) = trim_chars l.
Proof.
  unfold trim_chars at 1 3.
  set (k := skip_while is_whitespace (rev (skip_while is_whitespace l))).
  assert (Hend : skip_while is_whitespace k = k).
  { apply skip_while_id, skip_while_head. }
  assert (Hstart : skip_while is_whitespace (rev k) = rev k).
  { apply skip_while_id.
    pose proof (skip_while_head is_whitespace l) as Hh.
    destruct (skip_while_suffix is_whitespace (rev (skip_while is_whitespace l)))
      as [pre Hpre]. fold k in Hpre.
    apply (f_equal (@rev string)) in Hpre. rewrite rev_involutive, rev_app_distr in Hpre.
    rewrite Hpre in Hh. by destruct (rev k). }
  unfold trim_chars. fold k. by rewrite Hstart, rev_involutive, Hend.
Qed.

Lemma str_trim_chars s :
  valid_str s = true -> chars (str_trim s) = trim_chars (chars s).
Proof.
  intros Hs%valid_str_chars. unfold str_trim. fold (trim_chars (chars s)).
  apply chars_str_of_chars.
  destruct (trim_chars_sublist (chars s)) as (pre & post & Heq).
  rewrite Heq in Hs. apply Forall_app in Hs as [_ Hs]. by apply Forall_app in Hs as [? _].
Qed.

Lemma str_trim_idemp s : valid_str s = true -> str_trim (str_trim s) = str_trim s.
Proof.
  intros Hs. unfold str_trim at 1. fold (trim_chars (chars (str_trim s))).
  by rewrite str_trim_chars, trim_chars_idemp.
Qed.

Lemma str_trim_valid s : valid_str s = true -> valid_str (str_trim s) = true.
Proof.
  intros Hs. apply valid_str_chars. rewrite str_trim_chars by done.
  apply valid_str_chars in Hs.
  destruct (trim_chars_sublist (chars s)) as (pre & post & Heq).
  rewrite Heq in Hs. apply Forall_app in Hs as [_ Hs]. by apply Forall_app in Hs as [? _].
Qed.

(** ** Lemmas: splitting *)

Definition non_empty (w : string) : bool := negb (String.eqb w "").

Lemma split_chars_nonnil p l : split_chars p l <> [].
Proof. destruct l as [|c l]; simpl; [done|]. repeat case_match; done. Qed.

Lemma split_chars_ws_only p l :
  Forall (fun c => p c = true) l -> List.filter non_empty (split_chars p l) = [].
Proof. induction 1 as [|c l Hc _ IH]; simpl; [done|]. by rewrite Hc. Qed.

Lemma split_chars_ws_prefix p pre l :
  Forall (fun c => p c = true) pre ->
  List.filter non_empty (split_chars p (pre ++ l)) =
  List.filter non_empty (split_chars p l).
Proof. induction 1 as [|c pre Hc _ IH]; simpl; [done|]. by rewrite Hc. Qed.

Lemma split_chars_ws_suffix p l post :
  Forall (fun c => p c = true) post ->
  exists w ws ws', split_chars p l = w :: ws /\ split_chars p (l ++ post) = w :: ws' /\
    List.filter non_empty ws = List.filter non_empty ws'.
Proof.
  intros Hpost. induction l as [|c l (w & ws & ws' & Hl & Hlp & Hf)]; simpl.
  - destruct Hpost as [|c post Hc Hpost]; simpl; [by exists "", [], []|].
    rewrite Hc. eexists "", [], _. split_and!; [done..|].
    by rewrite split_chars_ws_only.
  - destruct (p c).
    + exists "", (w :: ws), (w :: ws'). rewrite Hl, Hlp. split_and!; [done..|].
      simpl. by rewrite Hf.
    + rewrite Hl, Hlp. by exists (c +:+ w), ws, ws'.
Qed.

Lemma skip_while_split p l :
  exists pre, l = pre ++ skip_while p l /\ Forall (fun c => p c = true) pre.
Proof.
  induction l as [|c l (pre & IH & Hpre)]; simpl; [by exists []|].
  destruct (p c) eqn:Hc; [|by exists []].
  exists (c :: pre). simpl. split; [by f_equal | by constructor].
Qed.

(** Trimming first does not change the words of a string. *)
Lemma split_whitespace_trim s :
  valid_str s = true -> split_whitespace (str_trim s) = split_whitespace s.
Proof.
  intros Hs. unfold split_whitespace. rewrite str_trim_chars by done.
  unfold trim_chars. fold non_empty.
  destruct (skip_while_split is_whitespace (chars s)) as (pre & Hl & Hpre).
  set (k := skip_while is_whitespace (chars s)) in *. rewrite Hl.
  rewrite split_chars_ws_prefix by done.
  destruct (skip_while_split is_whitespace (rev k)) as (post & Hk & Hpost).
  set (k' := skip_while is_whitespace (rev k)) in *.
  apply (f_equal (@rev string)) in Hk. rewrite rev_involutive, rev_app_distr in Hk.
  rewrite Hk.
  destruct (split_chars_ws_suffix is_whitespace (rev k') (rev post)) as (w & ws & ws' & -> & -> & Hf).
  { by apply Forall_rev. }
  simpl. by rewrite Hf.
Qed.

(** A plain word: printable ASCII without a space. *)
Definition plain_byte (b : Z) : bool := (33 <=? b) && (b <=? 126).
Definition plain_word (w : string) : bool :=
  non_empty w && forallb plain_byte (str_bytes w).

Lemma chars_ascii_cons a s :
  byte_of a < 128 -> chars (String a s) = String a "" :: chars s.
Proof.
  intros Ha. simpl. unfold utf8_width. by rewrite (proj2 (Z.ltb_lt _ _) Ha).
Qed.

Lemma plain_byte_not_ws a :
  plain_byte (byte_of a) = true -> is_whitespace (String a "") = false.
Proof.
  unfold plain_byte, is_whitespace, code_point. cbn [str_bytes]. lia.
Qed.

Lemma split_chars_plain w s :
  forallb plain_byte (str_bytes w) = true ->
  split_chars is_whitespace (chars (w +:+ s)) =
  match split_chars is_whitespace (chars s) with
  | v :: vs => (w +:+ v) :: vs
  | [] => []
  end.
Proof.
  induction w as [|a w IH]; intros Hw.
  { simpl. by destruct (split_chars _ _). }
  apply andb_prop in Hw as [Ha Hw].
  change (String a w +:+ s) with (String a (w +:+ s)).
  rewrite chars_ascii_cons by (unfold plain_byte in Ha; lia). cbn [split_chars].
  rewrite plain_byte_not_ws, IH by done.
  pose proof (split_chars_nonnil is_whitespace (chars s)).
  by destruct (split_chars is_whitespace (chars s)).
Qed.

Lemma split_whitespace_word w : plain_word w = true -> split_whitespace w = [w].
Proof.
  intros [Hne Hw]%andb_prop. unfold split_whitespace.
  rewrite <-(str_app_nil_r w), split_chars_plain by done. simpl.
  rewrite str_app_nil_r. fold (non_empty w). by rewrite Hne.
Qed.

Lemma split_whitespace_cons w s :
  plain_word w = true -> split_whitespace (w +:+ " " +:+ s) = w :: split_whitespace s.
Proof.
  intros [Hne Hw]%andb_prop. unfold split_whitespace.
  rewrite split_chars_plain by done.
  change (" " +:+ s) with (String " " s). rewrite chars_ascii_cons by done.
  cbn [split_chars]. change (is_whitespace (String " " "")) with true. simpl.
  rewrite str_app_nil_r. fold (non_empty w). by rewrite Hne.
Qed.

Definition no_space (s : string) : bool :=
  match split_once_space s with None => true | Some _ => false end.

Lemma split_once_space_app k v :
  no_space k = true -> split_once_space (k +:+ " " +:+ v) = Some (k, v).
Proof.
  unfold no_space. induction k as [|a k IH]; [done|]. simpl.
  destruct (Ascii.eqb a space); [done|].
  destruct (split_once_space k) as [[]|]; [done|]. intros _. simpl in IH.
  by rewrite IH.
Qed.

Lemma splitn2_space_app k v :
  no_space k = true -> splitn2_space (k +:+ " " +:+ v) = [k; v].
Proof. intros. unfold splitn2_space. by rewrite split_once_space_app. Qed.

Lemma split_once_space_Some s k v :
  split_once_space s = Some (k, v) -> s = k +:+ " " +:+ v /\ no_space k = true.
Proof.
  revert k v. induction s as [|a s IH]; simpl; [done|]. intros k v.
  destruct (Ascii.eqb a space) eqn:Ha.
  - intros [= <- <-]. apply Ascii.eqb_eq in Ha as ->. done.
  - destruct (split_once_space s) as [[k' v']|]; [|done]. intros [= <- <-].
    destruct (IH _ _ eq_refl) as [-> Hk]. split; [done|].
    unfold no_space in *. simpl. rewrite Ha. by destruct (split_once_space k').
Qed.

(** ** Lemmas: prefixes and slices *)

Lemma starts_with_app p s : starts_with (p +:+ s) p = true.
Proof.
  unfold starts_with. induction p as [|a p IH]; [by destruct s|]. simpl.
  by destruct (Ascii.ascii_dec a a).
Qed.

Lemma str_drop_app p s : str_drop (String.length p) (p +:+ s) = s.
Proof. induction p as [|a p IH]; [by destruct s|]. done. Qed.

(** ** Lemmas: printing and parsing integers *)

Lemma byte_of_digit_char d : 0 <= d < 10 -> byte_of (digit_char d) = 48 + d.
Proof.
  intros. unfold byte_of, digit_char. rewrite N_ascii_embedding by lia. lia.
Qed.

Lemma to_digit_digit_char d : 0 <= d < 10 -> to_digit 10 (digit_char d) = Some d.
Proof.
  intros. unfold to_digit. rewrite byte_of_digit_char by done.
  replace ((48 <=? 48 + d) && (48 + d <=? 57)) with true by lia.
  replace (48 + d - 48) with d by lia. by replace (d <? 10) with true by lia.
Qed.

Lemma show_digits_bytes fuel n acc :
  0 <= n ->
  forallb plain_byte (str_bytes acc) = true ->
  forallb plain_byte (str_bytes (show_digits fuel n acc)) = true.
Proof.
  revert n acc. induction fuel as [|fuel IH]; intros n acc Hn Hacc; [done|].
  assert (forallb plain_byte (str_bytes (String (digit_char (n mod 10)) acc)) = true).
  { cbn [str_bytes forallb]. rewrite Hacc, byte_of_digit_char by dlia.
    unfold plain_byte. dlia. }
  simpl. case_match; [done|]. apply IH; [dlia | done].
Qed.

Lemma show_digits_head fuel n acc :
  0 <= n ->
  exists d r, 0 <= d < 10 /\ show_digits (S fuel) n acc = String (digit_char d) r.
Proof.
  revert n acc. induction fuel as [|fuel IH]; intros n acc Hn.
  - exists (n mod 10), acc. split; [dlia|]. simpl. by case_match.
  - cbn [show_digits]. case_match; [exists (n mod 10), acc; split; [dlia|done]|].
    apply IH. dlia.
Qed.

Section parse_show.
Context (sign lo hi : Z).
Hypothesis Hsign : sign = 1 \/ sign = -1.
Hypothesis Hzero : lo <= 0 < hi.

Lemma parse_digits_cons d s acc :
  0 <= d < 10 -> lo <= acc * 10 < hi -> lo <= acc * 10 + sign * d < hi ->
  parse_digits 10 sign lo hi (String (digit_char d) s) acc =
  parse_digits 10 sign lo hi s (acc * 10 + sign * d).
Proof.
  intros. cbn [parse_digits]. rewrite to_digit_digit_char by done.
  by rewrite !decide_True by done.
Qed.

Lemma parse_show_digits fuel n acc :
  0 <= n < 10 ^ Z.of_nat fuel -> lo <= sign * n < hi ->
  parse_digits 10 sign lo hi (show_digits fuel n acc) 0 =
  parse_digits 10 sign lo hi acc (sign * n).
Proof.
  revert n acc. induction fuel as [|fuel IH]; intros n acc Hn Hr.
  { simpl in *. f_equal. lia. }
  assert (sign * n = sign * (n / 10) * 10 + sign * (n mod 10)) as Hdiv.
  { rewrite (Z.div_mod n 10) at 1 by done. ring. }
  assert (0 <= n / 10 /\ 0 <= n mod 10 < 10) as [? ?] by dlia.
  cbn [show_digits]. destruct (n <? 10) eqn:Hlt.
  - rewrite parse_digits_cons by (rewrite ?Z.mod_small; lia).
    f_equal. rewrite Z.mod_small; lia.
  - rewrite IH; [| rewrite Nat2Z.inj_succ, Z.pow_succ_r in Hn by lia; dlia
                 | destruct Hsign as [-> | ->]; lia].
    rewrite parse_digits_cons; [by rewrite Hdiv | done
      | destruct Hsign as [-> | ->]; lia | by rewrite <-Hdiv].
Qed.
End parse_show.

Lemma log2_digits n : 0 <= n -> n < 10 ^ Z.of_nat (S (Z.to_nat (Z.log2 n))).
Proof.
  intros Hn. destruct (decide (n = 0)) as [->|]; [done|].
  pose proof (Z.log2_spec n ltac:(lia)) as [_ H].
  pose proof (Z.log2_nonneg n).
  eapply Z.lt_le_trans; [exact H|].
  rewrite Nat2Z.inj_succ, Z2Nat.id by done. apply Z.pow_le_mono_l. lia.
Qed.

Lemma parse_display_uint sign lo hi n :
  sign = 1 \/ sign = -1 -> lo <= 0 < hi -> 0 <= n -> lo <= sign * n < hi ->
  parse_digits 10 sign lo hi (display_uint n) 0 = Ok (sign * n).
Proof.
  intros. unfold display_uint. rewrite parse_show_digits; auto using log2_digits.
Qed.

Lemma display_uint_head n :
  0 <= n -> exists d r, 0 <= d < 10 /\ display_uint n = String (digit_char d) r.
Proof. intros. by apply show_digits_head. Qed.

Lemma digit_char_not_sign d :
  0 <= d < 10 ->
  Ascii.eqb (digit_char d) "+"%char = false /\ Ascii.eqb (digit_char d) "-"%char = false.
Proof.
  intros Hd. pose proof (byte_of_digit_char d Hd) as Hb.
  split; apply Ascii.eqb_neq; intros He; rewrite He in Hb;
    [change (byte_of "+") with 43 in Hb | change (byte_of "-") with 45 in Hb]; lia.
Qed.

(** Parsing what [Display] prints gives the number back. *)
Lemma parse_i64_display z : is_i64 z -> parse_i64 (display_int z) = Ok z.
Proof.
  unfold is_i64. intros Hz. unfold display_int, parse_i64.
  assert (Hi : - 2 ^ 63 <= 0 < 2 ^ 63) by lia.
  destruct (z <? 0) eqn:Hneg.
  - pose proof (parse_display_uint (-1) _ _ (- z) (or_intror eq_refl) Hi ltac:(lia) ltac:(lia)) as Hp.
    destruct (display_uint_head (- z)) as (d & r & Hd & Heq); [lia|].
    rewrite Heq in Hp |- *. transitivity (@Ok Z IntErrorKind (-1 * - z));
      [exact Hp | f_equal; lia].
  - pose proof (parse_display_uint 1 _ _ z (or_introl eq_refl) Hi ltac:(lia) ltac:(lia)) as Hp.
    destruct (display_uint_head z) as (d & r & Hd & Heq); [lia|].
    destruct (digit_char_not_sign d Hd) as [Hp1 Hm1].
    rewrite Heq in Hp |- *. cbn [from_str_radix]. rewrite Hp1, Hm1. simpl andb.
    cbv iota. rewrite Hp. f_equal. lia.
Qed.

Lemma parse_digits_range radix sign lo hi s acc z :
  lo <= acc < hi -> parse_digits radix sign lo hi s acc = Ok z -> lo <= z < hi.
Proof.
  revert acc. induction s as [|a s IH]; cbn [parse_digits]; intros acc Hacc H;
    [by simplify_eq|]. repeat case_match; try done; eauto.
Qed.

Lemma parse_i64_range s z : parse_i64 s = Ok z -> is_i64 z.
Proof.
  unfold parse_i64, from_str_radix. assert (- 2 ^ 63 <= 0 < 2 ^ 63) by lia.
  repeat case_match; try done; apply parse_digits_range; done.
Qed.

Lemma display_uint_plain n :
  0 <= n -> plain_word (display_uint n) = true.
Proof.
  intros Hn. unfold plain_word. apply andb_true_intro. split.
  - by destruct (display_uint_head n Hn) as (d & r & _ & ->).
  - by apply show_digits_bytes.
Qed.

Lemma display_int_plain z : plain_word (display_int z) = true.
Proof.
  unfold display_int. case_match; [|apply display_uint_plain; lia].
  unfold plain_word. cbn [String.append str_bytes forallb]. simpl.
  pose proof (display_uint_plain (- z) ltac:(lia)) as [_ H']%andb_prop.
  by rewrite H'.
Qed.

(** ** Lemmas: lengths *)

Lemma str_len_nonneg s : 0 <= str_len s.
Proof. unfold str_len. lia. Qed.

Lemma str_len_app a b : str_len (a +:+ b) = str_len a + str_len b.
Proof. unfold str_len. rewrite str_length_app. lia. Qed.

Lemma str_of_chars_app l k : str_of_chars (l ++ k) = str_of_chars l +:+ str_of_chars k.
Proof.
  unfold str_of_chars. induction l as [|c l IH]; [done|]. simpl. by rewrite IH, str_app_assoc.
Qed.

Lemma str_trim_len s : str_len (str_trim s) <= str_len s.
Proof.
  unfold str_trim. fold (trim_chars (chars s)).
  destruct (trim_chars_sublist (chars s)) as (pre & post & Heq).
  rewrite <-(str_of_chars_chars s) at 2. rewrite Heq at 2.
  rewrite !str_of_chars_app, !str_len_app.
  pose proof (str_len_nonneg (str_of_chars pre)). pose proof (str_len_nonneg (str_of_chars post)).
  lia.
Qed.

Lemma split_chars_len p l w : w ∈ split_chars p l -> str_len w <= str_len (str_of_chars l).
Proof.
  revert w. unfold str_of_chars. induction l as [|c l IH]; simpl; intros w.
  { rewrite list_elem_of_singleton. by intros ->. }
  rewrite str_len_app. pose proof (str_len_nonneg c). destruct (p c).
  - rewrite elem_of_cons. intros [-> | Hw].
    + pose proof (str_len_nonneg (foldr String.append "" l)). unfold str_len in *. simpl. lia.
    + apply IH in Hw. lia.
  - pose proof (split_chars_nonnil p l).
    destruct (split_chars p l) as [|v vs]; [done|]. rewrite elem_of_cons. intros [-> | Hw].
    + rewrite str_len_app. specialize (IH v (list_elem_of_here _ _)). lia.
    + specialize (IH w (list_elem_of_further _ _ _ Hw)). lia.
Qed.

Lemma split_whitespace_len s w : w ∈ split_whitespace s -> str_len w <= str_len s.
Proof.
  unfold split_whitespace. rewrite list_elem_of_In. intros [Hw _]%List.filter_In.
  rewrite <-list_elem_of_In in Hw. apply split_chars_len in Hw.
  by rewrite str_of_chars_chars in Hw.
Qed.

Lemma show_digits_len fuel n acc :
  str_len (show_digits fuel n acc) <= Z.of_nat fuel + str_len acc.
Proof.
  revert n acc. induction fuel as [|fuel IH]; intros n acc; [simpl; lia|].
  cbn [show_digits]. assert (str_len (String (digit_char (n mod 10)) acc) = 1 + str_len acc) as Hl.
  { unfold str_len. simpl. lia. }
  case_match; [lia|]. specialize (IH (n / 10) (String (digit_char (n mod 10)) acc)). lia.
Qed.

(** [Display] of a number below [2^k] prints at most [k] digits (and one for 0). *)
Lemma display_uint_len n k : 0 < k -> n < 2 ^ k -> str_len (display_uint n) <= k.
Proof.
  intros Hk Hn. unfold display_uint. etransitivity; [apply show_digits_len|].
  rewrite Nat2Z.inj_succ, Z2Nat.id by apply Z.log2_nonneg.
  change (str_len "") with 0.
  destruct (decide (0 < n)).
  - pose proof (proj1 (Z.log2_lt_pow2 n k ltac:(lia)) Hn). lia.
  - rewrite Z.log2_nonpos by lia. lia.
Qed.

Lemma display_int_len z : is_i64 z -> str_len (display_int z) <= 65.
Proof.
  unfold is_i64. intros. unfold display_int. case_match.
  - rewrite str_len_app. change (str_len "-") with 1.
    pose proof (display_uint_len (- z) 64). lia.
  - pose proof (display_uint_len z 64). lia.
Qed.

(** ** Lemmas: prefixes of a valid string *)

Lemma starts_with_inv s p : starts_with s p = true -> exists rest, s = p +:+ rest.
Proof.
  unfold starts_with. revert s. induction p as [|a p IH]; intros s; [by exists s|].
  destruct s as [|b s]; [done|]. simpl. destruct (Ascii.ascii_dec a b) as [->|]; [|done].
  intros [rest ->]%IH. by exists rest.
Qed.

Lemma str_get_app p s :
  String.get (String.length p) (p +:+ s) = String.get 0 s.
Proof. induction p as [|a p IH]; [done|]. simpl. exact IH. Qed.

Lemma valid_str_head a s : valid_str (String a s) = true -> is_continuation (byte_of a) = false.
Proof.
  unfold valid_str. cbn [chars]. intros H.
  assert (exists c, is_char (String a c) = true) as [c Hc].
  { pose proof (utf8_width_range a). destruct (utf8_width a) as [|[|[|[|]]]]; [lia|..];
      repeat case_match; cbn [forallb] in H; apply andb_prop in H as [H _]; eauto. }
  cbn [is_char] in Hc. apply andb_prop in Hc as [Hc _]. apply andb_prop in Hc as [Hc _].
  by destruct (is_continuation (byte_of a)).
Qed.

Lemma valid_str_plain_app p s :
  forallb (fun b => b <? 128) (str_bytes p) = true ->
  valid_str (p +:+ s) = true -> valid_str s = true.
Proof.
  induction p as [|a p IH]; [done|]. cbn [str_bytes forallb].
  intros [Ha Hp]%andb_prop. change (String a p +:+ s) with (String a (p +:+ s)).
  unfold valid_str. rewrite chars_ascii_cons by lia. cbn [forallb].
  intros [_ H]%andb_prop. by apply IH.
Qed.

(** Slicing off an ASCII prefix of a valid string never panics. *)
Lemma str_from_prefix p s :
  forallb (fun b => b <? 128) (str_bytes p) = true -> valid_str (p +:+ s) = true ->
  str_from (String.length p) (p +:+ s) = Ret s.
Proof.
  intros Hp Hv. unfold str_from, is_char_boundary.
  rewrite str_drop_app, str_length_app, str_get_app.
  apply valid_str_plain_app in Hv; [|done].
  destruct s as [|a s].
  - cbn [String.length]. by rewrite Nat.add_0_r, Nat.eqb_refl, orb_true_r.
  - destruct (_ || _); [done|]. cbn [String.get]. by rewrite (valid_str_head a s Hv).
Qed.

(** ** Lemmas: the length of a printed [f64]

    Rounding leaves a mantissa of at most 53 bits and an exponent of at most
    971, which bounds the digits printed. *)

Lemma digits2_pos_spec p : Z.pos p < 2 ^ Z.pos (digits2_pos p).
Proof.
  induction p as [p IH|p IH|]; cbn [digits2_pos]; [..|done];
    rewrite Pos2Z.inj_succ, Z.pow_succ_r by lia; lia.
Qed.

Lemma shr_1_spec mrs : 0 <= shr_m mrs -> shr_m (shr_1 mrs) = shr_m mrs / 2.
Proof.
  destruct mrs as [m r s]. cbn [shr_m]. intros Hm. rewrite <-Z.div2_div.
  destruct m as [|[p|p|]|p]; simpl; lia || done.
Qed.

Lemma div_pow2_twice m p :
  m / 2 ^ Z.pos p / 2 ^ Z.pos p = m / 2 ^ Z.pos (p~0).
Proof.
  assert (0 < 2 ^ Z.pos p) by (apply Z.pow_pos_nonneg; lia).
  rewrite Z.div_div by lia. f_equal. rewrite <-Z.pow_add_r by lia. f_equal. lia.
Qed.

Lemma iter_shr_1_spec p mrs :
  0 <= shr_m mrs ->
  shr_m (SpecFloat.iter_pos shr_1 p mrs) = shr_m mrs / 2 ^ Z.pos p /\
  0 <= shr_m (SpecFloat.iter_pos shr_1 p mrs).
Proof.
  intros Hm. enough (shr_m (SpecFloat.iter_pos shr_1 p mrs) = shr_m mrs / 2 ^ Z.pos p) as He.
  { split; [done|]. rewrite He. apply Z.div_pos; [done|]. apply Z.pow_pos_nonneg; lia. }
  revert mrs Hm. induction p as [p IH|p IH|]; intros mrs Hm; cbn [SpecFloat.iter_pos].
  - pose proof (shr_1_spec mrs Hm) as H1. assert (0 <= shr_m (shr_1 mrs)) by (rewrite H1; dlia).
    pose proof (IH _ H) as H2. rewrite IH, H2, H1, div_pow2_twice.
    + by rewrite Z.div_div by lia.
    + rewrite H2. apply Z.div_pos; [done|]. apply Z.pow_pos_nonneg; lia.
  - pose proof (IH _ Hm) as H2. rewrite IH, H2, div_pow2_twice; [done|].
    rewrite H2. apply Z.div_pos; [done|]. apply Z.pow_pos_nonneg; lia.
  - by rewrite shr_1_spec.
Qed.

Lemma shr_fexp_bound m e l :
  0 <= m -> 0 <= shr_m (shr_fexp 53 1024 m e l).1 < 2 ^ 53.
Proof.
  intros Hm. unfold shr_fexp.
  assert (shr_m (shr_record_of_loc m l) = m) as Hl by (by destruct l as [|[]]).
  assert (m < 2 ^ Zdigits2 m /\ 0 <= Zdigits2 m) as [Hd Hd0].
  { destruct m as [|p|p]; simpl; [done| |lia]. split; [apply digits2_pos_spec | lia]. }
  set (n := fexp 53 1024 (Zdigits2 m + e) - e).
  assert (Zdigits2 m - 53 <= n) as Hn by (unfold n, fexp; lia).
  destruct n as [|p|p]; cbn [shr fst].
  - rewrite Hl. split; [done|]. eapply Z.lt_le_trans; [exact Hd|]. apply Z.pow_le_mono_r; lia.
  - rewrite (proj1 (iter_shr_1_spec p (shr_record_of_loc m l) ltac:(lia))), Hl.
    assert (0 < 2 ^ Z.pos p) by (apply Z.pow_pos_nonneg; lia).
    split; [apply Z.div_pos; lia|]. apply Z.div_lt_upper_bound; [lia|].
    rewrite <-Z.pow_add_r by lia. eapply Z.lt_le_trans; [exact Hd|]. apply Z.pow_le_mono_r; lia.
  - rewrite Hl. split; [done|]. eapply Z.lt_le_trans; [exact Hd|]. apply Z.pow_le_mono_r; lia.
Qed.

(** A binary64 value as rounding produces it. *)
Definition rounded_f64 (f : spec_float) : Prop :=
  match f with S754_finite _ m e => Z.pos m < 2 ^ 53 /\ e <= 971 | _ => True end.

Lemma f64_mul_rounded x y : rounded_f64 (f64_mul x y).
Proof.
  destruct x as [| | |sx mx ex], y as [| | |sy my ey]; cbn; try done.
  unfold binary_round_aux.
  destruct (shr_fexp 53 1024 (Z.pos (mx * my)) (ex + ey) loc_Exact) as [mrs1 e1] eqn:H1.
  pose proof (shr_fexp_bound (Z.pos (mx * my)) (ex + ey) loc_Exact ltac:(lia)) as B1.
  rewrite H1 in B1. cbn [fst] in B1.
  set (mr := round_nearest_even (shr_m mrs1) (loc_of_shr_record mrs1)).
  assert (0 <= mr) as Hmr.
  { unfold mr, round_nearest_even. repeat case_match; lia. }
  destruct (shr_fexp 53 1024 mr e1 loc_Exact) as [mrs2 e2] eqn:H2.
  pose proof (shr_fexp_bound mr e1 loc_Exact Hmr) as B2. rewrite H2 in B2. cbn [fst] in B2.
  destruct (shr_m mrs2); [done| |done].
  destruct (Z.leb_spec e2 (1024 - 53)); simpl; [lia | done].
Qed.

Lemma display_f64_1_len f : rounded_f64 f -> str_len (display_f64_1 f) <= 1100.
Proof.
  destruct f as [[]|[]| |s m e]; cbn [rounded_f64 display_f64_1];
    try (intros _; vm_compute; discriminate). intros [Hm He].
  set (tenths := if 0 <=? e then _ else _).
  assert (0 <= tenths < 2 ^ 1030) as Ht.
  { unfold tenths. destruct (Z.leb_spec 0 e).
    - assert (0 < 2 ^ e <= 2 ^ 971) by (split; [apply Z.pow_pos_nonneg | apply Z.pow_le_mono_r]; lia).
      change (2 ^ 1030) with (2 ^ 53 * 2 ^ 971 * 64). split; [nia|].
      apply Z.mul_lt_mono_nonneg; [nia| |lia|lia]. nia.
    - assert (0 < 2 ^ (- e)) by (apply Z.pow_pos_nonneg; lia).
      assert (0 <= Z.pos m * 10 / 2 ^ (- e) <= Z.pos m * 10) as Hq.
      { split; [apply Z.div_pos; lia|]. apply Z.div_le_upper_bound; [done|]. nia. }
      assert (2 ^ 53 * 10 + 1 < 2 ^ 1030) by (vm_compute; reflexivity).
      unfold div_pow2_half_even. case_match; lia. }
  rewrite !str_len_app. change (str_len ".") with 1.
  assert (str_len (if s then "-" else "") <= 1) by (destruct s; vm_compute; discriminate).
  pose proof (display_uint_len (tenths / 10) 1030 ltac:(lia) ltac:(dlia)).
  pose proof (display_uint_len (tenths mod 10) 4 ltac:(lia) ltac:(dlia)). lia.
Qed.

Lemma str_len_nil : str_len "" = 0.
Proof. done. Qed.

Lemma str_len_cons a s : str_len (String a s) = 1 + str_len s.
Proof. unfold str_len. simpl. lia. Qed.

(** Lengths of concatenations of literals and variables. *)
Ltac str_lens :=
  repeat first [rewrite !str_len_app in * | rewrite !str_len_cons in * | rewrite !str_len_nil in *].
