(* ===== verification/Vga.v ===== *)
(** * The VGA text-mode driver (src/src/vga_buffer.rs)

    The writer keeps a column, a colour and the 25 x 80 cell array at 0xb8000.
    A [Volatile] cell is the memory cell it wraps.  Array indices are [nat]:
    no index exceeds 80, and an index out of range panics as in Rust.  The file
    ends with the reference layout of a text (lines cut at newlines and at 80
    columns) and the refinement of [write_string] to it. *)

From Stdlib Require Import Lia Ascii.
From stdpp Require Import base decidable strings numbers gmap list.
From S2P Require Import Prelude RustStr.

Open Scope Z_scope.

Inductive Color :=
| Black | Blue | Green | Cyan | Red | Magenta | Brown | LightGray
| DarkGray | LightBlue | LightGreen | LightCyan | LightRed | Pink | Yellow | White.

#[export] Instance Color_eq_dec : EqDecision Color.
Proof. solve_decision. Defined.

(** The [repr(u8)] discriminant, the [as u8] cast. *)
Definition color_u8 (c : Color) : Z :=
  match c with
  | Black => 0 | Blue => 1 | Green => 2 | Cyan => 3 | Red => 4 | Magenta => 5
  | Brown => 6 | LightGray => 7 | DarkGray => 8 | LightBlue => 9 | LightGreen => 10
  | LightCyan => 11 | LightRed => 12 | Pink => 13 | Yellow => 14 | White => 15
  end.

(** [ColorCode(u8)]: a transparent wrapper of its byte. *)
Definition ColorCode := Z.

Definition ColorCode_new (foreground background : Color) : ColorCode :=
  Z.lor (Z.shiftl (color_u8 background) 4 mod 256) (color_u8 foreground).

Record ScreenChar := { ascii_character : Z; color_code : ColorCode }.

#[export] Instance ScreenChar_eq_dec : EqDecision ScreenChar.
Proof. solve_decision. Defined.

Definition BUFFER_HEIGHT : nat := 25.
Definition BUFFER_WIDTH : nat := 80.

Abbreviation Buffer := (list (list ScreenChar)).

Record Writer := {
  column_position : nat;
  writer_color : ColorCode;
  buffer : Buffer;
}.

Definition set_column (c : nat) (w : Writer) : Writer :=
  {| column_position := c; writer_color := writer_color w; buffer := buffer w |}.
Definition set_buffer (b : Buffer) (w : Writer) : Writer :=
  {| column_position := column_position w; writer_color := writer_color w; buffer := b |}.

Definition out_of_bounds {A} : outcome A := Panic "index out of bounds".

(** [self.buffer.chars[row][col].read()] and [.write(ch)]. *)
Definition read_char (row col : nat) (w : Writer) : outcome ScreenChar :=
  match buffer w !! row with
  | Some r => match r !! col with Some ch => Ret ch | None => out_of_bounds end
  | None => out_of_bounds
  end.

Definition write_char (row col : nat) (ch : ScreenChar) (w : Writer) : outcome Writer :=
  match buffer w !! row with
  | Some r =>
      if decide (col < length r)%nat
      then Ret (set_buffer (<[row := <[col := ch]> r]> (buffer w)) w)
      else out_of_bounds
  | None => out_of_bounds
  end.

Definition blank (color : ColorCode) : ScreenChar :=
  {| ascii_character := 32; color_code := color |}.

Definition clear_row (row : nat) (w : Writer) : outcome Writer :=
  for_each (seq 0 BUFFER_WIDTH)
    (fun col w' => write_char row col (blank (writer_color w)) w') w.

Definition copy_char (row col : nat) (w : Writer) : outcome Writer :=
  character ← read_char row col w; write_char (row - 1) col character w.

Definition new_line (w : Writer) : outcome Writer :=
  w1 ← for_each (seq 1 (BUFFER_HEIGHT - 1))
         (fun row w' => for_each (seq 0 BUFFER_WIDTH) (copy_char row) w') w;
  w2 ← clear_row (BUFFER_HEIGHT - 1) w1;
  Ret (set_column 0 w2).

Definition newline_byte : Z := 10.

Definition write_byte (byte : Z) (w : Writer) : outcome Writer :=
  if byte =? newline_byte then new_line w
  else
    w1 ← (if decide (BUFFER_WIDTH <= column_position w)%nat then new_line w else Ret w);
    let row := (BUFFER_HEIGHT - 1)%nat in
    let col := column_position w1 in
    w2 ← write_char row col
           {| ascii_character := byte; color_code := writer_color w1 |} w1;
    Ret (set_column (S (column_position w2)) w2).

(** The byte [write_string] passes on for a byte of the string. *)
Definition printable_byte (byte : Z) : Z :=
  if ((32 <=? byte) && (byte <=? 126)) || (byte =? newline_byte) then byte else 254.

Definition write_string (s : string) (w : Writer) : outcome Writer :=
  for_each (str_bytes s) (fun byte w' => write_byte (printable_byte byte) w') w.

(** The writer the global [WRITER] starts with, over the memory [b] at 0xb8000. *)
Definition WRITER_init (b : Buffer) : Writer :=
  {| column_position := 0; writer_color := ColorCode_new LightCyan Black; buffer := b |}.

(** ** Shape of the buffer *)

Definition wf_buffer (b : Buffer) : Prop :=
  length b = BUFFER_HEIGHT /\ Forall (fun r => length r = BUFFER_WIDTH) b.

Definition wf_writer (w : Writer) : Prop :=
  wf_buffer (buffer w) /\ (column_position w <= BUFFER_WIDTH)%nat.

#[export] Instance wf_writer_dec w : Decision (wf_writer w).
Proof. unfold wf_writer, wf_buffer. apply _. Defined.

Lemma wf_buffer_lookup b i : wf_buffer b -> (i < BUFFER_HEIGHT)%nat ->
  exists r, b !! i = Some r /\ length r = BUFFER_WIDTH.
Proof.
  intros [Hlen Hrows] Hi. rewrite <-Hlen in Hi.
  destruct (lookup_lt_is_Some_2 b i Hi) as [r Hr]. exists r. split; [done|].
  by eapply Forall_lookup_1 in Hrows.
Qed.

Lemma wf_buffer_insert b i r : wf_buffer b -> length r = BUFFER_WIDTH ->
  wf_buffer (<[i := r]> b).
Proof.
  intros [Hlen Hrows] Hr. split; [by rewrite length_insert|]. by apply Forall_insert.
Qed.

Lemma set_buffer_id w : set_buffer (buffer w) w = w.
Proof. by destruct w. Qed.

(** ** The loops of [new_line] *)

Lemma write_char_ok row col ch r w :
  buffer w !! row = Some r -> (col < length r)%nat ->
  write_char row col ch w = Ret (set_buffer (<[row := <[col := ch]> r]> (buffer w)) w).
Proof. intros Hr Hc. unfold write_char. by rewrite Hr, decide_True. Qed.

(** Copying a row cell by cell copies the row. *)
Lemma copy_row_spec i src dst w :
  buffer w !! S i = Some src -> buffer w !! i = Some dst ->
  length src = BUFFER_WIDTH -> length dst = BUFFER_WIDTH ->
  for_each (seq 0 BUFFER_WIDTH) (copy_char (S i)) w =
  Ret (set_buffer (<[i := src]> (buffer w)) w).
Proof.
  intros Hsrc Hdst Hls Hld.
  destruct (for_each_inv
    (fun pre w' => w' = set_buffer
       (<[i := take (length pre) src ++ drop (length pre) dst]> (buffer w)) w)
    (seq 0 BUFFER_WIDTH) (copy_char (S i)) w) as (w' & -> & ->).
  - simpl. rewrite drop_0, list_insert_id by done. by rewrite set_buffer_id.
  - intros pre col post w' Hseq ->. apply seq_split_elem in Hseq as [-> Hlt]. simpl.
    destruct (lookup_lt_is_Some_2 src (length pre)) as [ch Hch]; [lia|].
    unfold copy_char, read_char. simpl.
    rewrite list_lookup_insert_ne, Hsrc, Hch by lia. simpl. rewrite Nat.sub_0_r.
    assert (i < length (buffer w))%nat by (by eapply lookup_lt_Some).
    erewrite write_char_ok; [|simpl; by rewrite list_lookup_insert_eq
      |rewrite length_app, length_take, length_drop; lia].
    eexists; split; [done|]. unfold set_buffer; simpl. f_equal.
    rewrite list_insert_insert_eq. f_equal.
    rewrite insert_take_drop by (done || lia). by rewrite length_app, Nat.add_1_r.
  - rewrite length_seq. rewrite <-Hls at 1. rewrite firstn_all, <-Hld, drop_all, app_nil_r.
    done.
Qed.

Lemma clear_row_spec i w r :
  buffer w !! i = Some r -> length r = BUFFER_WIDTH ->
  clear_row i w =
  Ret (set_buffer (<[i := replicate BUFFER_WIDTH (blank (writer_color w))]> (buffer w)) w).
Proof.
  intros Hr Hlen. unfold clear_row.
  set (src := replicate BUFFER_WIDTH (blank (writer_color w))).
  assert (length src = BUFFER_WIDTH) as Hsrc by apply length_replicate.
  destruct (for_each_inv
    (fun pre w' => w' = set_buffer
       (<[i := take (length pre) src ++ drop (length pre) r]> (buffer w)) w)
    (seq 0 BUFFER_WIDTH)
    (fun col w' => write_char i col (blank (writer_color w)) w') w) as (w' & -> & ->).
  - simpl. rewrite drop_0, list_insert_id by done. by rewrite set_buffer_id.
  - intros pre col post w' Hseq ->. apply seq_split_elem in Hseq as [-> Hlt]. simpl.
    assert (i < length (buffer w))%nat by (by eapply lookup_lt_Some).
    erewrite write_char_ok; [|simpl; by rewrite list_lookup_insert_eq
      |rewrite length_app, length_take, length_drop; lia].
    eexists; split; [done|]. unfold set_buffer; simpl. f_equal.
    rewrite list_insert_insert_eq. f_equal.
    rewrite insert_take_drop; [by rewrite length_app, Nat.add_1_r| |lia].
    by apply lookup_replicate_2.
  - rewrite length_seq. rewrite <-Hsrc at 1. rewrite firstn_all, <-Hlen, drop_all, app_nil_r.
    done.
Qed.

(** Shifting every row up one place. *)
Lemma shift_rows_spec w :
  wf_buffer (buffer w) ->
  for_each (seq 1 (BUFFER_HEIGHT - 1))
    (fun row w' => for_each (seq 0 BUFFER_WIDTH) (copy_char row) w') w =
  Ret (set_buffer (tail (buffer w) ++ drop (BUFFER_HEIGHT - 1) (buffer w)) w).
Proof.
  intros Hwf. pose proof Hwf as [Hlen Hrows]. set (b := buffer w) in *.
  assert (length (tail b) = (BUFFER_HEIGHT - 1)%nat) as Hlt.
  { by rewrite length_tail, Hlen. }
  destruct (for_each_inv
    (fun pre w' => w' = set_buffer (take (length pre) (tail b) ++ drop (length pre) b) w)
    (seq 1 (BUFFER_HEIGHT - 1))
    (fun row w' => for_each (seq 0 BUFFER_WIDTH) (copy_char row) w') w) as (w' & -> & ->).
  - simpl. rewrite drop_0. symmetry. apply set_buffer_id.
  - intros pre row post w' Hseq ->. apply seq_split_elem in Hseq as [-> Hpre].
    set (k := length pre) in *. change (1 + k)%nat with (S k).
    destruct (wf_buffer_lookup b (S k) Hwf) as (src & Hsrc & Hsl); [unfold BUFFER_HEIGHT in *; lia|].
    destruct (wf_buffer_lookup b k Hwf) as (dst & Hdst & Hdl); [unfold BUFFER_HEIGHT in *; lia|].
    assert (length (take k (tail b)) = k) as Hk by (rewrite length_take; lia).
    assert (tail b !! k = Some src) as Htail by (rewrite <-Hsrc; by destruct b).
    erewrite (copy_row_spec k src dst); [|simpl..]; [ | | |done|done].
    + eexists; split; [done|]. unfold set_buffer; simpl. f_equal.
      rewrite insert_take_drop by (done || lia). by rewrite length_app, Nat.add_1_r.
    + rewrite lookup_app_r, Hk, lookup_drop by lia. by replace (k + (S k - k))%nat with (S k) by lia.
    + rewrite lookup_app_r, Hk, lookup_drop by lia. by replace (k + (k - k))%nat with k by lia.
  - rewrite length_seq. by rewrite <-Hlt, firstn_all.
Qed.

(** [new_line] drops the top row, adds a blank one and returns the carriage. *)
Lemma new_line_spec w :
  wf_buffer (buffer w) ->
  new_line w =
  Ret {| column_position := 0; writer_color := writer_color w;
         buffer := tail (buffer w) ++ [replicate BUFFER_WIDTH (blank (writer_color w))] |}.
Proof.
  intros Hwf. pose proof Hwf as [Hlen Hrows]. unfold new_line.
  rewrite shift_rows_spec by done. cbn [mbind outcome_bind].
  destruct (wf_buffer_lookup (buffer w) 24 Hwf) as (r & Hr & Hrl); [unfold BUFFER_HEIGHT; lia|].
  assert (drop (BUFFER_HEIGHT - 1) (buffer w) = [r]) as Hdrop.
  { change (BUFFER_HEIGHT - 1)%nat with 24%nat. rewrite (drop_S _ _ _ Hr).
    rewrite drop_ge; [done|]. rewrite Hlen. done. }
  assert (length (tail (buffer w)) = 24%nat) as Hlt by (by rewrite length_tail, Hlen).
  rewrite Hdrop. change (BUFFER_HEIGHT - 1)%nat with 24%nat. rewrite <-Hlt.
  erewrite clear_row_spec; [|simpl; by apply list_lookup_middle|done].
  simpl. unfold set_column, set_buffer; simpl. do 2 f_equal.
  by rewrite insert_app_r_alt, Nat.sub_diag.
Qed.

(** ** The reference layout

    The text as a terminal with unlimited scrollback holds it: [history] is
    the list of finished rows, oldest first; [row] and [col] are the row being
    written and the next free column.  The screen shows the last 25 rows. *)

Record Layout := { history : list (list ScreenChar); row : list ScreenChar; col : nat }.

Definition blank_row (color : ColorCode) : list ScreenChar :=
  replicate BUFFER_WIDTH (blank color).
#[global] Arguments blank_row : simpl never.

Definition finish_row (color : ColorCode) (t : Layout) : Layout :=
  {| history := history t ++ [row t]; row := blank_row color; col := 0 |}.

Definition put (color : ColorCode) (byte : Z) (t : Layout) : Layout :=
  {| history := history t;
     row := <[col t := {| ascii_character := byte; color_code := color |}]> (row t);
     col := S (col t) |}.

Definition layout_byte (color : ColorCode) (t : Layout) (byte : Z) : Layout :=
  if byte =? newline_byte then finish_row color t
  else if decide (BUFFER_WIDTH <= col t)%nat then put color byte (finish_row color t)
  else put color byte t.

Definition layout (color : ColorCode) (bytes : list Z) (t : Layout) : Layout :=
  foldl (layout_byte color) t bytes.

Definition screen (t : Layout) : Buffer :=
  drop (length (history t) - (BUFFER_HEIGHT - 1)) (history t) ++ [row t].

(** The layout a screen starts from: its upper rows are finished. *)
Definition layout_of (w : Writer) : Layout :=
  {| history := take (BUFFER_HEIGHT - 1) (buffer w);
     row := default [] (buffer w !! (BUFFER_HEIGHT - 1)%nat);
     col := column_position w |}.

Definition wf_layout (t : Layout) : Prop :=
  (BUFFER_HEIGHT - 1 <= length (history t))%nat /\
  Forall (fun r => length r = BUFFER_WIDTH) (history t) /\
  length (row t) = BUFFER_WIDTH /\ (col t <= BUFFER_WIDTH)%nat.

(** [w] shows the layout [t]. *)
Definition shows (w : Writer) (t : Layout) : Prop :=
  wf_layout t /\ buffer w = screen t /\ column_position w = col t.

Lemma shows_wf w t : shows w t -> wf_writer w.
Proof.
  intros ((Hlen & Hh & Hr & Hc) & Hb & Hcol). split; [|by rewrite Hcol].
  rewrite Hb. split.
  - unfold screen. rewrite length_app, length_drop. simpl in *.
    unfold BUFFER_HEIGHT in *. lia.
  - unfold screen. apply Forall_app. split; [by apply Forall_drop | by constructor].
Qed.

Lemma layout_of_shows w : wf_writer w -> shows w (layout_of w).
Proof.
  intros [[Hlen Hrows] Hcol].
  destruct (exists_last (l := buffer w)) as (top & r & Heq); [by destruct (buffer w)|].
  assert (length top = (BUFFER_HEIGHT - 1)%nat) as Htop.
  { rewrite Heq, length_app in Hlen. simpl in Hlen. unfold BUFFER_HEIGHT in *. lia. }
  rewrite Heq in Hrows. apply Forall_app in Hrows as [Hrows Hr].
  apply Forall_cons in Hr as [Hr _].
  unfold shows, wf_layout, layout_of, screen. cbn [history row col].
  rewrite Heq, <-Htop, take_app_length, Nat.sub_diag, drop_0.
  by rewrite list_lookup_middle.
Qed.

Lemma layout_of_buffer w :
  wf_writer w -> history (layout_of w) ++ [row (layout_of w)] = buffer w.
Proof.
  intros Hw. destruct (layout_of_shows w Hw) as (_ & Hb & _).
  rewrite Hb. unfold screen. f_equal.
  destruct Hw as [[Hlen _] _]. unfold layout_of. cbn [history].
  by rewrite length_take, Hlen.
Qed.

Lemma shows_new_line w t :
  shows w t ->
  exists w', new_line w = Ret w' /\ writer_color w' = writer_color w /\
    shows w' (finish_row (writer_color w) t).
Proof.
  intros Hs. pose proof (shows_wf _ _ Hs) as [Hwf _].
  destruct Hs as ((Hlen & Hh & Hr & Hc) & Hb & Hcol).
  rewrite new_line_spec by done. eexists; split; [done|]. split; [done|].
  split; [|split; [simpl|done]].
  - unfold wf_layout, finish_row; simpl. rewrite length_app. split_and!.
    + simpl in *. unfold BUFFER_HEIGHT in *. lia.
    + apply Forall_app. split; [done | by constructor].
    + done.
    + unfold BUFFER_WIDTH. lia.
  - unfold screen, finish_row; simpl. rewrite Hb. unfold screen.
    change (BUFFER_HEIGHT - 1)%nat with 24%nat in *. rewrite length_app. simpl.
    f_equal. set (n := length (history t)) in *.
    rewrite drop_app_le by lia.
    replace (n + 1 - 24)%nat with (S (n - 24)) by lia.
    destruct (lookup_lt_is_Some_2 (history t) (n - 24)) as [x Hx]; [lia|].
    by rewrite (drop_S _ _ _ Hx).
Qed.

Lemma shows_put w t byte :
  shows w t -> (col t < BUFFER_WIDTH)%nat ->
  exists w', write_char (BUFFER_HEIGHT - 1) (column_position w)
      {| ascii_character := byte; color_code := writer_color w |} w = Ret w' /\
    writer_color w' = writer_color w /\ column_position w' = column_position w /\
    shows (set_column (S (column_position w')) w') (put (writer_color w) byte t).
Proof.
  intros ((Hlen & Hh & Hr & Hc) & Hb & Hcol) Hlt.
  set (top := drop (length (history t) - (BUFFER_HEIGHT - 1)) (history t)) in *.
  assert (length top = (BUFFER_HEIGHT - 1)%nat) as Htop.
  { unfold top. rewrite length_drop. lia. }
  erewrite write_char_ok;
    [|rewrite Hb; unfold screen; fold top; rewrite <-Htop; by apply list_lookup_middle|lia].
  eexists; split; [done|]. split_and!; [done..|].
  split; [|split; simpl; [|by rewrite Hcol]].
  - unfold wf_layout, put; simpl. rewrite length_insert. auto with lia.
  - rewrite Hb, Hcol. unfold screen, put; simpl. fold top. rewrite <-Htop at 1.
    by rewrite insert_app_r_alt, Nat.sub_diag.
Qed.

Lemma shows_write_byte w t byte :
  shows w t ->
  exists w', write_byte byte w = Ret w' /\ writer_color w' = writer_color w /\
    shows w' (layout_byte (writer_color w) t byte).
Proof.
  intros Hs. unfold write_byte, layout_byte.
  destruct (byte =? newline_byte); [by apply shows_new_line|].
  pose proof Hs as ((_ & _ & _ & Hc) & _ & Hcol). rewrite <-Hcol.
  destruct (decide (BUFFER_WIDTH <= column_position w)%nat).
  - destruct (shows_new_line w t Hs) as (w1 & -> & Hcl & Hs1). cbn [mbind outcome_bind].
    destruct (shows_put w1 _ byte Hs1) as (w2 & Hw & Hcl2 & Hcp & Hs2); [simpl; unfold BUFFER_WIDTH; lia|].
    cbn zeta. rewrite Hw. simpl. rewrite Hcl in *. eauto.
  - cbn [mbind outcome_bind]. cbn zeta. destruct (shows_put w t byte Hs) as (w2 & Hw & Hcl2 & Hcp & Hs2); [lia|].
    rewrite Hw. simpl. eauto.
Qed.

Lemma shows_write_string w t s :
  shows w t ->
  exists w', write_string s w = Ret w' /\ writer_color w' = writer_color w /\
    shows w' (layout (writer_color w) (map printable_byte (str_bytes s)) t).
Proof.
  unfold write_string. generalize (str_bytes s). intros bytes.
  revert w t. induction bytes as [|b bytes IH]; intros w t Hs; simpl; [eauto|].
  destruct (shows_write_byte w t (printable_byte b) Hs) as (w1 & -> & Hcl & Hs1).
  simpl. destruct (IH _ _ Hs1) as (w2 & Hw2 & Hcl2 & Hs2).
  rewrite Hcl in *. eauto.
Qed.

(** ** What the layout holds *)

Definition printable_cell (ch : ScreenChar) : Prop :=
  32 <= ascii_character ch <= 126 \/ ascii_character ch = 254.

#[export] Instance printable_cell_dec ch : Decision (printable_cell ch).
Proof. unfold printable_cell. apply _. Defined.

Definition printable_rows (b : Buffer) : Prop := Forall (Forall printable_cell) b.

#[export] Instance printable_rows_dec b : Decision (printable_rows b).
Proof. unfold printable_rows. apply _. Defined.

Lemma printable_byte_cases b :
  printable_byte b = newline_byte \/ 32 <= printable_byte b <= 126 \/ printable_byte b = 254.
Proof. unfold printable_byte, newline_byte. case_match; lia. Qed.

Lemma layout_printable color bytes t :
  printable_rows (history t ++ [row t]) ->
  Forall (fun b => b = newline_byte \/ 32 <= b <= 126 \/ b = 254) bytes ->
  printable_rows (history (layout color bytes t) ++ [row (layout color bytes t)]).
Proof.
  intros Ht Hb. revert t Ht. induction Hb as [|b bytes Hb _ IH]; intros t Ht; [done|].
  apply IH. clear IH. unfold printable_rows in *.
  assert (Forall (Forall printable_cell) (history t ++ [row t] ++ [blank_row color])) as Hf.
  { rewrite app_assoc. apply Forall_app. split; [done|]. constructor; [|done].
    apply Forall_replicate. unfold printable_cell; simpl. lia. }
  unfold layout_byte. destruct (b =? newline_byte) eqn:Hnl; simpl.
  { by rewrite <-app_assoc. }
  assert (printable_cell {| ascii_character := b; color_code := color |}) as Hc.
  { unfold printable_cell; simpl. apply Z.eqb_neq in Hnl. tauto. }
  rewrite app_assoc in Hf. apply Forall_app in Hf as [_ Hf].
  apply Forall_cons in Hf as [Hblank _].
  case_decide; unfold put; cbn [finish_row history row col]; apply Forall_app; (split; [|constructor; [|done]]).
  - done.
  - by apply Forall_insert.
  - by apply Forall_app in Ht as [? _].
  - apply Forall_app in Ht as [_ Ht]. apply Forall_cons in Ht as [? _].
    by apply Forall_insert.
Qed.

(** A text without a newline that fits the rest of the row is written there. *)
Lemma layout_in_row color bytes t :
  Forall (fun b => b <> newline_byte) bytes ->
  length (row t) = BUFFER_WIDTH -> (col t + length bytes <= BUFFER_WIDTH)%nat ->
  history (layout color bytes t) = history t /\
  col (layout color bytes t) = (col t + length bytes)%nat /\
  (forall i b, bytes !! i = Some b ->
     row (layout color bytes t) !! (col t + i)%nat =
     Some {| ascii_character := b; color_code := color |}) /\
  (forall i, (i < col t)%nat -> row (layout color bytes t) !! i = row t !! i).
Proof.
  intros Hb. revert t. induction Hb as [|b bytes Hb _ IH]; intros t Hr Hc; simpl in *.
  { split_and!; [done | lia | by intros | done]. }
  assert (layout_byte color t b = put color b t) as ->.
  { unfold layout_byte. rewrite (proj2 (Z.eqb_neq _ _) Hb), decide_False by lia. done. }
  destruct (IH (put color b t)) as (IH1 & IH2 & IH3 & IH4);
    [simpl; by rewrite length_insert | simpl; lia|]. simpl in *.
  split_and!.
  - done.
  - rewrite IH2. lia.
  - intros [|i] b' Hi; simpl in Hi.
    + simplify_eq. rewrite Nat.add_0_r, IH4 by lia. apply list_lookup_insert_eq. lia.
    + rewrite <-(IH3 i b' Hi). f_equal. lia.
  - intros i Hi. rewrite IH4 by lia. by apply list_lookup_insert_ne; lia.
Qed.

(** ** Properties *)

(** C22 (refinement). On a well-formed writer [write_string] returns (no index
    is ever out of bounds), keeps the 25 x 80 shape and the column within the
    row, and leaves on the screen the last 25 rows of the reference layout of
    the text: lines cut at newlines and at 80 columns, non-printable bytes
    replaced by 0xfe, scrolled up as rows are finished. *)
Theorem write_string_refines_layout w s :
  wf_writer w ->
  exists w', write_string s w = Ret w' /\ wf_writer w' /\
    writer_color w' = writer_color w /\
    buffer w' =
      screen (layout (writer_color w) (map printable_byte (str_bytes s)) (layout_of w)) /\
    column_position w' =
      col (layout (writer_color w) (map printable_byte (str_bytes s)) (layout_of w)).
Proof.
  intros Hw. destruct (shows_write_string w _ s (layout_of_shows w Hw)) as (w' & Hr & Hcl & Hs).
  exists w'. pose proof (shows_wf _ _ Hs). destruct Hs as (_ & ? & ?). auto.
Qed.

Definition blank_writer : Writer :=
  WRITER_init (replicate BUFFER_HEIGHT (blank_row (ColorCode_new LightCyan Black))).

Lemma write_string_refines_layout_witness :
  wf_writer blank_writer /\
  exists w', write_string "boot ok" blank_writer = Ret w' /\ column_position w' = 7%nat.
Proof.
  assert (wf_writer blank_writer) as Hw by by_compute.
  split; [exact Hw|].
  destruct (write_string_refines_layout blank_writer "boot ok" Hw) as (w' & H & _ & _ & _ & Hc).
  exists w'. split; [exact H|]. rewrite Hc. vm_compute. reflexivity.
Defined.

(** [new_line], which copies the screen cell by cell in place,
    scrolls it: every cell shows what the cell below it showed, the bottom row
    is blank in the current colour, and the column is 0. *)
Theorem new_line_scrolls w :
  wf_writer w ->
  exists w', new_line w = Ret w' /\ wf_writer w' /\ column_position w' = 0%nat /\
    (forall r c, (r < BUFFER_HEIGHT - 1)%nat -> read_char r c w' = read_char (S r) c w) /\
    (forall c, (c < BUFFER_WIDTH)%nat ->
       read_char (BUFFER_HEIGHT - 1) c w' = Ret (blank (writer_color w))).
Proof.
  intros Hw. destruct (shows_new_line w _ (layout_of_shows w Hw)) as (w' & Hn & _ & Hs).
  apply shows_wf in Hs. destruct Hw as [Hwf _]. rewrite new_line_spec in Hn by done.
  injection Hn as <-. rewrite new_line_spec by done.
  eexists; split; [done|]. split; [done|]. split; [done|].
  assert (length (tail (buffer w)) = (BUFFER_HEIGHT - 1)%nat) as Hlen.
  { rewrite length_tail. by destruct Hwf as [-> _]. }
  split; intros; unfold read_char; cbn [buffer].
  - rewrite lookup_app_l by lia. by destruct (buffer w).
  - rewrite <-Hlen, list_lookup_middle by done. by rewrite lookup_replicate_2.
Qed.

Lemma new_line_scrolls_witness :
  wf_writer blank_writer /\
  exists w', new_line blank_writer = Ret w' /\
    read_char 24 79 w' = Ret (blank (ColorCode_new LightCyan Black)).
Proof.
  assert (wf_writer blank_writer) as Hw by by_compute.
  split; [exact Hw|].
  destruct (new_line_scrolls blank_writer Hw) as (w' & H & _ & _ & _ & Hb).
  exists w'. split; [exact H|]. apply (Hb 79%nat). vm_compute. lia.
Defined.

(** The screen never shows a byte outside printable ASCII and the
    0xfe placeholder: [write_string] preserves this whatever the string holds. *)
Theorem write_string_printable w w' s :
  wf_writer w -> printable_rows (buffer w) -> write_string s w = Ret w' ->
  printable_rows (buffer w').
Proof.
  intros Hw Hp Hr. pose proof (layout_of_shows w Hw) as Hs.
  destruct (shows_write_string w _ s Hs) as (w2 & Hr2 & _ & (_ & Hb & _)).
  assert (w2 = w') as -> by congruence. rewrite Hb.
  set (t := layout _ _ _).
  assert (printable_rows (history t ++ [row t])) as Ht.
  { apply layout_printable.
    - by rewrite layout_of_buffer.
    - apply List.Forall_map, List.Forall_forall. intros b _. apply printable_byte_cases. }
  unfold printable_rows, screen in *. apply Forall_app in Ht as [Hh Hrow].
  apply Forall_app. split; [by apply Forall_drop | done].
Qed.

Lemma write_string_printable_witness :
  wf_writer blank_writer /\ printable_rows (buffer blank_writer) /\
  forall w', write_string (String "007"%char "bell") blank_writer = Ret w' ->
    printable_rows (buffer w').
Proof.
  assert (wf_writer blank_writer) as Hw by by_compute.
  assert (printable_rows (buffer blank_writer)) as Hp by by_compute.
  split; [exact Hw|]. split; [exact Hp|]. intros w' H.
  exact (write_string_printable blank_writer w' _ Hw Hp H).
Defined.

(** A text that ends in a newline leaves the cursor at the start of a row. *)
Lemma write_line_column w s :
  wf_writer w ->
  exists w', write_string (s +:+ newline_str) w = Ret w' /\ wf_writer w' /\ column_position w' = 0%nat /\
    writer_color w' = writer_color w.
Proof.
  intros Hw. destruct (shows_write_string w _ (s +:+ newline_str) (layout_of_shows w Hw))
    as (w' & Hr & Hcol & Hs). exists w'. split; [done|]. split; [by eapply shows_wf|].
  destruct Hs as (_ & _ & Hc). split; [|done]. rewrite Hc, str_bytes_app, map_app. unfold layout.
  by rewrite foldl_app.
Qed.

(** The rows at the bottom of the screen after a line was printed. *)
Lemma write_line_rows w s :
  wf_writer w -> column_position w = 0%nat ->
  Forall (fun b => 32 <= b <= 126) (str_bytes s) ->
  (length (str_bytes s) <= BUFFER_WIDTH)%nat ->
  exists w' top line, write_string (s +:+ newline_str) w = Ret w' /\
    buffer w' = top ++ line :: [blank_row (writer_color w)] /\
    length top = (BUFFER_HEIGHT - 2)%nat /\
    (forall c b, str_bytes s !! c = Some b ->
       line !! c = Some {| ascii_character := b; color_code := writer_color w |}).
Proof.
  intros Hw Hcol Hs Hlen. pose proof (layout_of_shows w Hw) as Hsh.
  destruct (shows_write_string w _ (s +:+ newline_str) Hsh)
    as (w' & Hr & _ & (_ & Hb & Hc)).
  rewrite str_bytes_app, map_app in Hb, Hc. unfold layout in Hb, Hc.
  rewrite foldl_app in Hb, Hc. fold (layout (writer_color w)) in Hb, Hc.
  assert (map printable_byte (str_bytes s) = str_bytes s) as Hid.
  { rewrite <-(map_id (str_bytes s)) at 2. apply map_ext_in. intros b Hin.
    apply list_elem_of_In in Hin. eapply Forall_forall in Hs; [|exact Hin]. simpl in Hs.
    unfold printable_byte. case_match; lia. }
  rewrite Hid in Hb, Hc.
  destruct Hsh as ((Hh & _ & Hrow & _) & _ & Hcl). rewrite Hcol in Hcl.
  destruct (layout_in_row (writer_color w) (str_bytes s) (layout_of w)) as (Lh & Lc & Lr & _).
  { eapply Forall_impl; [exact Hs|]. unfold newline_byte; simpl; lia. }
  { done. }
  { by rewrite <-Hcl. }
  change (foldl (layout_byte (writer_color w)) (layout_of w) (str_bytes s))
    with (layout (writer_color w) (str_bytes s) (layout_of w)) in *.
  set (t := layout (writer_color w) (str_bytes s) (layout_of w)) in *.
  change (foldl (layout_byte (writer_color w)) t (map printable_byte (str_bytes newline_str)))
    with (finish_row (writer_color w) t) in *.
  rewrite <-Hcl in Lr.
  assert (exists top, buffer w' = top ++ row t :: [blank_row (writer_color w)] /\
            length top = (BUFFER_HEIGHT - 2)%nat) as (top & Hbuf & Htop).
  { rewrite <-Lh in Hh. change (BUFFER_HEIGHT - 1)%nat with 24%nat in Hh.
    exists (drop (length (history t) - 23) (history t)). split.
    - rewrite Hb. unfold screen. cbn [history row finish_row].
      rewrite length_app. change (length [row t]) with 1%nat.
      change (BUFFER_HEIGHT - 1)%nat with 24%nat.
      replace (length (history t) + 1 - 24)%nat with (length (history t) - 23)%nat by lia.
      by rewrite drop_app_le, <-app_assoc by lia.
    - rewrite length_drop. change (BUFFER_HEIGHT - 2)%nat with 23%nat. lia. }
  exists w', top, (row t). split; [done|]. split; [done|]. split; [done|].
  intros c b Hcb. exact (Lr c b Hcb).
Qed.

(** What [println!] shows: a text of at most 80 printable
    characters written with its newline on a fresh line ends up on the row above
    the bottom one, character by character in the current colour, and the cursor
    is at the start of a blank bottom row. *)
Theorem println_shows_line w s :
  wf_writer w -> column_position w = 0%nat ->
  Forall (fun b => 32 <= b <= 126) (str_bytes s) ->
  (length (str_bytes s) <= BUFFER_WIDTH)%nat ->
  exists w', write_string (s +:+ newline_str) w = Ret w' /\
    column_position w' = 0%nat /\
    (forall c b, str_bytes s !! c = Some b ->
       read_char (BUFFER_HEIGHT - 2) c w' =
       Ret {| ascii_character := b; color_code := writer_color w |}) /\
    (forall c, (c < BUFFER_WIDTH)%nat ->
       read_char (BUFFER_HEIGHT - 1) c w' = Ret (blank (writer_color w))).
Proof.
  intros Hw Hcol Hs Hlen.
  destruct (write_line_rows w s Hw Hcol Hs Hlen) as (w' & top & line & Hr & Hbuf & Htop & Hline).
  destruct (write_line_column w s Hw) as (w1 & Hr1 & _ & Hc1 & _).
  rewrite Hr in Hr1. injection Hr1 as <-. exists w'. split; [done|]. split; [done|].
  split; intros c; [intros b Hcb|intros Hcw]; unfold read_char; rewrite Hbuf.
  - rewrite <-Htop, list_lookup_middle by done. by rewrite (Hline c b Hcb).
  - rewrite cons_middle, app_assoc, list_lookup_middle by (by rewrite length_app, Htop).
    unfold blank_row. by rewrite lookup_replicate_2.
Qed.

Lemma println_shows_line_witness :
  exists w', write_string ("LLM OS" +:+ newline_str) blank_writer = Ret w' /\
    read_char 23 0 w' =
      Ret {| ascii_character := 76; color_code := ColorCode_new LightCyan Black |}.
Proof.
  destruct (println_shows_line blank_writer "LLM OS") as (w' & H & _ & Hr & _).
  - by_compute.
  - reflexivity.
  - by_compute.
  - vm_compute. lia.
  - exists w'. split; [exact H|]. apply (Hr 0%nat). reflexivity.
Defined.

(** A colour code packs both colours into one byte without
    loss: the low and the high four bits give the foreground and the background
    back. *)
Theorem color_code_roundtrip fg bg :
  0 <= ColorCode_new fg bg < 256 /\
  Z.land (ColorCode_new fg bg) 15 = color_u8 fg /\
  Z.shiftr (ColorCode_new fg bg) 4 = color_u8 bg.
Proof. destruct fg, bg; vm_compute; (split; [split; discriminate || reflexivity | done]). Qed.
