(* ===== verification/Console.v ===== *)
(** * Console output (src/src/serial.rs and the macros of src/src/vga_buffer.rs)

    The kernel's code writes to two global devices, the VGA writer and the
    UART.  The UART driver is the crate uart_16550, which is not part of this
    repository: [Uart] is its interface, a state and the functions the kernel
    calls, and [UartLaws] what the crate documents (writing cannot fail).  The
    text a macro prints is the one [format_args!] builds.  [io] threads both
    devices through a computation that may panic. *)

From Stdlib Require Import Lia.
From stdpp Require Import base decidable strings numbers gmap list.
From S2P Require Import Prelude RustStr Vga.

Open Scope Z_scope.

Class Uart := {
  uart_state : Type;
  uart_new : Z -> uart_state;          (** the port at a base address *)
  uart_init : uart_state -> uart_state;
  uart_write_fmt : string -> uart_state -> option uart_state;
}.

Class UartLaws (U : Uart) : Prop := {
  uart_write_total : forall s u, is_Some (uart_write_fmt s u);
}.

(** A UART that keeps the text it was given. *)
#[export] Instance uart_log : Uart := {|
  uart_state := string;
  uart_new _ := "";
  uart_init u := u;
  uart_write_fmt s u := Some (u +:+ s);
|}.

#[export] Instance uart_log_laws : UartLaws uart_log.
Proof. constructor. intros s u. by eexists. Qed.

(** ** The two devices *)

Record Console {U : Uart} := { serial1 : uart_state; writer : Writer }.
Arguments Console U : clear implicits.

Definition io {U : Uart} (A : Type) : Type := Console U -> outcome (A * Console U).

Section io.
Context {U : Uart}.

#[export] Instance io_ret : MRet io := fun A a c => Ret (a, c).
#[export] Instance io_bind : MBind io := fun A B f m c =>
  match m c with Ret (a, c') => f a c' | Panic why => Panic why end.

(** The lazy static [SERIAL1]: the first serial port, initialised. *)
Definition SERIAL1_init : uart_state := uart_init (uart_new 0x3F8).

(** The devices before anything is printed: the port, and the writer over the
    screen as the bootloader left it. *)
Definition initial_console (b : Buffer) : Console U :=
  {| serial1 := SERIAL1_init; writer := WRITER_init b |}.

(** A computation that does not touch the devices. *)
Definition lift {A} (m : outcome A) : io A := fun c =>
  match m with Ret a => Ret (a, c) | Panic why => Panic why end.

(** [serial::_print]: [SERIAL1.lock().write_fmt(args).expect(..)]. *)
Definition serial_print (text : string) : io unit := fun c =>
  match uart_write_fmt text (serial1 c) with
  | Some u => Ret (tt, {| serial1 := u; writer := writer c |})
  | None => Panic "Printing to serial failed"
  end.

Definition serial_println (text : string) : io unit := serial_print (text +:+ newline_str).

(** [vga_buffer::_print]: [WRITER.lock().write_fmt(args).unwrap()]. *)
Definition vga_print (text : string) : io unit := fun c =>
  match write_string text (writer c) with
  | Ret w => Ret (tt, {| serial1 := serial1 c; writer := w |})
  | Panic why => Panic why
  end.

Definition println (text : string) : io unit := vga_print (text +:+ newline_str).

Definition wf_console (c : Console U) : Prop := wf_writer (writer c).

Lemma initial_console_wf b : wf_buffer b -> wf_console (initial_console b).
Proof. intros Hb. split; [exact Hb | cbn; unfold BUFFER_WIDTH; lia]. Qed.

Lemma serial_println_ok {UL : UartLaws U} text c :
  exists u, serial_println text c = Ret (tt, {| serial1 := u; writer := writer c |}).
Proof.
  unfold serial_println, serial_print.
  destruct (uart_write_total (text +:+ newline_str) (serial1 c)) as [u ->]. eauto.
Qed.

Lemma println_ok text c :
  wf_console c ->
  exists w, println text c = Ret (tt, {| serial1 := serial1 c; writer := w |}) /\ wf_writer w.
Proof.
  intros Hc. unfold println, vga_print.
  destruct (shows_write_string (writer c) _ (text +:+ newline_str) (layout_of_shows _ Hc))
    as (w & -> & _ & Hs). exists w. split; [done|]. by eapply shows_wf.
Qed.
End io.
