(* ===== verification/Context.v ===== *)
(** * The context window (src/src/agent/context.rs)

    A bounded sequence of messages with a token count.  [push_message] evicts
    the oldest non-system messages until the new message fits.  Token counts
    are [usize]; the additions carry their overflow checks.  The eviction loop
    runs on fuel; [push_message] gives it one round more than the window has
    messages, and the theorems show it never runs out. *)

From Stdlib Require Import Lia.
From stdpp Require Import base decidable strings numbers gmap list.
From S2P Require Import Prelude RustStr Vga Console.

Open Scope Z_scope.

Inductive Role := System | User | Assistant | Tool.

#[export] Instance Role_eq_dec : EqDecision Role.
Proof. solve_decision. Defined.

Definition role_as_str (r : Role) : string :=
  match r with
  | System => "system"
  | User => "user"
  | Assistant => "assistant"
  | Tool => "tool"
  end.

Record Message := { role : Role; content : string; token_count : Z }.

Record ContextWindow := {
  messages : list Message;
  max_tokens : Z;
  current_tokens : Z;
  total_evicted : Z;
}.

Definition ContextWindow_new (max_tokens : Z) : ContextWindow :=
  {| messages := []; max_tokens := max_tokens; current_tokens := 0; total_evicted := 0 |}.

Definition estimate_tokens (text : string) : Z :=
  let count := str_len text / 4 in
  if count =? 0 then 1 else count.

Definition is_system (m : Message) : bool := bool_decide (role m = System).
Definition non_system (m : Message) : bool := negb (is_system m).

(** The window and the evicted message, if there was one to evict. *)
Definition evict_oldest (cw : ContextWindow) : option Message * ContextWindow :=
  match position non_system (messages cw) with
  | None => (None, cw)
  | Some idx =>
      match messages cw !! idx with
      | None => (None, cw)
      | Some msg =>
          (Some msg,
           {| messages := delete idx (messages cw);
              max_tokens := max_tokens cw;
              current_tokens := saturating_sub (current_tokens cw) (token_count msg);
              total_evicted := total_evicted cw |})
      end
  end.

Definition message_count (cw : ContextWindow) : Z := Z.of_nat (length (messages cw)).

Definition status (cw : ContextWindow) : string :=
  "Context Window Status:" +:+ newline_str +:+
  "Tokens: " +:+ display_uint (current_tokens cw) +:+ "/" +:+
  display_uint (max_tokens cw) +:+ " (" +:+
  display_f64_1
    (f64_mul (f64_div (f64_of_usize (current_tokens cw)) (f64_of_usize (max_tokens cw)))
       (f64_of_usize 100)) +:+ "% full)" +:+ newline_str +:+
  "Messages: " +:+ display_uint (message_count cw) +:+ newline_str +:+
  "Evicted: " +:+ display_uint (total_evicted cw).

Section push.
Context {B : Build} {U : Uart}.

Definition eviction_notice (evicted : Message) (total : Z) : string :=
  "[context] Evicted " +:+ role_as_str (role evicted) +:+ " message (" +:+
  display_uint (token_count evicted) +:+ " tokens). Total evicted: " +:+
  display_uint total.

(** [while self.current_tokens + token_count > self.max_tokens { .. }] *)
Fixpoint evict_loop (fuel : nat) (tokens : Z) (cw : ContextWindow) : io ContextWindow :=
  match fuel with
  | O => lift (Panic "eviction loop out of fuel")
  | S fuel' =>
      total ← lift (u64_add (current_tokens cw) tokens);
      if max_tokens cw <? total then
        match evict_oldest cw with
        | (Some evicted, cw1) =>
            n ← lift (u64_add (total_evicted cw1) 1);
            let cw2 := {| messages := messages cw1; max_tokens := max_tokens cw1;
                          current_tokens := current_tokens cw1; total_evicted := n |} in
            _ ← serial_println (eviction_notice evicted n);
            evict_loop fuel' tokens cw2
        | (None, cw1) => mret cw1
        end
      else mret cw
  end.

Definition push_message (r : Role) (text : string) (cw : ContextWindow) : io ContextWindow :=
  let tokens := estimate_tokens text in
  cw1 ← evict_loop (S (length (messages cw))) tokens cw;
  current ← lift (u64_add (current_tokens cw1) tokens);
  mret {| messages := messages cw1 ++ [{| role := r; content := text; token_count := tokens |}];
          max_tokens := max_tokens cw1;
          current_tokens := current;
          total_evicted := total_evicted cw1 |}.
End push.

(** ** The window's specification

    [drop_oldest k] removes the [k] oldest non-system messages and keeps the
    order of the rest. *)

Definition tokens_of (ms : list Message) : Z := sumZ token_count ms.
Definition non_systems (ms : list Message) : list Message := List.filter non_system ms.
Definition systems (ms : list Message) : list Message := List.filter is_system ms.

Fixpoint drop_oldest (k : nat) (ms : list Message) : list Message :=
  match ms with
  | [] => []
  | m :: ms' =>
      if non_system m then
        match k with O => ms | S k' => drop_oldest k' ms' end
      else m :: drop_oldest k ms'
  end.

Lemma drop_oldest_0 ms : drop_oldest 0 ms = ms.
Proof. induction ms as [|m ms IH]; simpl; [done|]. destruct (non_system m); congruence. Qed.

Lemma drop_oldest_systems k ms : systems (drop_oldest k ms) = systems ms.
Proof.
  unfold systems. revert k. induction ms as [|m ms IH]; intros k; simpl; [done|].
  unfold non_system. destruct (is_system m) eqn:Hm; simpl.
  - by rewrite Hm, IH.
  - destruct k; simpl; [by rewrite Hm|]. apply IH.
Qed.

Lemma drop_oldest_non_systems k ms :
  non_systems (drop_oldest k ms) = drop k (non_systems ms).
Proof.
  unfold non_systems. revert k. induction ms as [|m ms IH]; intros k; simpl.
  { by rewrite drop_nil. }
  destruct (non_system m) eqn:Hm; simpl; [|by rewrite Hm, IH].
  destruct k; simpl; [by rewrite Hm | apply IH].
Qed.

Lemma drop_oldest_S pre m post k :
  Forall (fun y => non_system y = false) pre -> non_system m = true ->
  drop_oldest (S k) (pre ++ m :: post) = drop_oldest k (pre ++ post).
Proof.
  intros Hpre Hm. induction Hpre as [|x pre Hx _ IH]; simpl; [by rewrite Hm|].
  by rewrite Hx, IH.
Qed.

Lemma drop_oldest_all k ms :
  Forall (fun y => non_system y = false) ms -> drop_oldest k ms = ms.
Proof. induction 1 as [|x ms Hx _ IH]; simpl; [done|]. by rewrite Hx, IH. Qed.

Lemma estimate_tokens_range text : 1 <= estimate_tokens text <= Z.max 1 (str_len text / 4).
Proof.
  unfold estimate_tokens. assert (0 <= str_len text / 4).
  { unfold str_len. dlia. }
  case_match; lia.
Qed.

(** The accounting invariant: the token counter is the sum of the counts of the
    messages, and each count is the estimate of its text. *)
Definition accounted (cw : ContextWindow) : Prop :=
  current_tokens cw = tokens_of (messages cw) /\
  Forall (fun m => token_count m = estimate_tokens (content m)) (messages cw).

#[export] Instance accounted_dec cw : Decision (accounted cw).
Proof. unfold accounted. apply _. Defined.

(** The counters stay within [usize] whatever [push_message] does next. *)
Definition fits_usize (cw : ContextWindow) (text : string) : Prop :=
  current_tokens cw + estimate_tokens text < 2 ^ 64 /\
  0 <= total_evicted cw /\ total_evicted cw + message_count cw < 2 ^ 64.

#[export] Instance fits_usize_dec cw text : Decision (fits_usize cw text).
Proof. unfold fits_usize. apply _. Defined.

Lemma accounted_nonneg ms :
  Forall (fun m => token_count m = estimate_tokens (content m)) ms -> 0 <= tokens_of ms.
Proof.
  intros H. apply sumZ_nonneg. eapply Forall_impl; [exact H|]. simpl. intros m ->.
  pose proof (estimate_tokens_range (content m)). lia.
Qed.

(** [evict_oldest] by cases: nothing but system messages, or the first
    non-system message goes and its tokens with it. *)
Lemma evict_oldest_None cw :
  Forall (fun y => non_system y = false) (messages cw) -> evict_oldest cw = (None, cw).
Proof. intros H. unfold evict_oldest. by rewrite (proj2 (position_None _ _) H). Qed.

Lemma evict_oldest_Some cw pre m post :
  messages cw = pre ++ m :: post ->
  Forall (fun y => non_system y = false) pre -> non_system m = true ->
  evict_oldest cw =
    (Some m, {| messages := pre ++ post; max_tokens := max_tokens cw;
                current_tokens := saturating_sub (current_tokens cw) (token_count m);
                total_evicted := total_evicted cw |}).
Proof.
  intros Heq Hpre Hm. unfold evict_oldest.
  assert (position non_system (messages cw) = Some (length pre)) as ->.
  { apply position_Some. exists pre, m, post. auto. }
  rewrite Heq, list_lookup_middle by done. by rewrite delete_middle.
Qed.

Lemma evict_oldest_cases cw :
  Forall (fun y => non_system y = false) (messages cw) \/
  exists pre m post, messages cw = pre ++ m :: post /\
    Forall (fun y => non_system y = false) pre /\ non_system m = true.
Proof.
  destruct (position non_system (messages cw)) as [i|] eqn:Hp.
  - right. apply position_Some in Hp as (pre & m & post & Heq & _ & Hm & Hpre). eauto 6.
  - left. by apply position_None.
Qed.

(** Removing an accounted message keeps the accounts, and the saturating
    subtraction is exact. *)
Lemma accounted_remove cw pre m post n :
  accounted cw -> messages cw = pre ++ m :: post ->
  accounted {| messages := pre ++ post; max_tokens := max_tokens cw;
               current_tokens := saturating_sub (current_tokens cw) (token_count m);
               total_evicted := n |} /\
  saturating_sub (current_tokens cw) (token_count m) = current_tokens cw - token_count m /\
  1 <= token_count m.
Proof.
  intros [Hcur Hall] Heq. rewrite Heq in Hcur, Hall.
  apply Forall_app in Hall as [Hpre Hall]. apply Forall_cons in Hall as [Hm Hpost].
  unfold tokens_of in *. rewrite sumZ_app in Hcur. cbn in Hcur. fold (sumZ token_count post) in Hcur.
  pose proof (accounted_nonneg _ Hpre). pose proof (accounted_nonneg _ Hpost).
  pose proof (estimate_tokens_range (content m)). unfold tokens_of in *.
  unfold saturating_sub. split; [|split; lia].
  split; simpl; [unfold tokens_of; rewrite sumZ_app; lia | by apply Forall_app].
Qed.

(** There is room for [tokens] more tokens in [ms] under the limit [max]. *)
Definition has_room (max tokens : Z) (ms : list Message) : Prop :=
  tokens_of ms + tokens <= max.

#[export] Instance has_room_dec max tokens ms : Decision (has_room max tokens ms).
Proof. unfold has_room. apply _. Defined.

(** [cw'] is [cw] after the least number [k] of evictions that makes room for
    [tokens], or after all of them when none does. *)
Record evicts (tokens : Z) (k : nat) (cw cw' : ContextWindow) : Prop := {
  ev_messages : messages cw' = drop_oldest k (messages cw);
  ev_max : max_tokens cw' = max_tokens cw;
  ev_total : total_evicted cw' = total_evicted cw + Z.of_nat k;
  ev_accounted : accounted cw';
  ev_current : current_tokens cw' <= current_tokens cw;
  ev_le : (k <= length (non_systems (messages cw)))%nat;
  ev_enough : has_room (max_tokens cw) tokens (drop_oldest k (messages cw)) \/
              k = length (non_systems (messages cw));
  ev_least : forall j, (j < k)%nat ->
    ~ has_room (max_tokens cw) tokens (drop_oldest j (messages cw));
}.

Section push_proofs.
Context {B : Build} {U : Uart} {UL : UartLaws U}.

Lemma evicts_refl tokens cw :
  accounted cw ->
  has_room (max_tokens cw) tokens (messages cw) \/ non_systems (messages cw) = [] ->
  evicts tokens 0 cw cw.
Proof.
  intros Ha Hr. constructor; rewrite ?drop_oldest_0; try done; try lia.
  destruct Hr as [? | ->]; auto.
Qed.

Lemma evict_loop_spec tokens fuel cw c :
  1 <= tokens -> accounted cw -> current_tokens cw + tokens < 2 ^ 64 ->
  0 <= total_evicted cw ->
  total_evicted cw + Z.of_nat (length (non_systems (messages cw))) < 2 ^ 64 ->
  (length (non_systems (messages cw)) < fuel)%nat ->
  exists k cw' u, evict_loop fuel tokens cw c = Ret (cw', {| serial1 := u; writer := writer c |}) /\
    evicts tokens k cw cw'.
Proof.
  intros Ht. revert cw c. induction fuel as [|fuel IH]; intros cw c Ha Hc Hte Hn Hf; [lia|].
  pose proof Ha as [Hcur Hall]. pose proof (accounted_nonneg _ Hall).
  cbn [evict_loop]. unfold mbind, io_bind, lift.
  rewrite u64_add_ok by arith. destruct (Z.ltb_spec (max_tokens cw) (current_tokens cw + tokens)).
  2: { exists 0%nat, cw, (serial1 c). split; [by destruct c|]. apply evicts_refl; [done|].
       left. unfold has_room. lia. }
  destruct (evict_oldest_cases cw) as [Hsys | (pre & m & post & Heq & Hpre & Hm)].
  { rewrite evict_oldest_None by done. exists 0%nat, cw, (serial1 c).
    split; [by destruct c|]. apply evicts_refl; [done|]. right. by apply bfilter_Forall_false. }
  rewrite (evict_oldest_Some cw pre m post) by done. cbn [total_evicted max_tokens messages current_tokens].
  assert (non_systems (messages cw) = m :: non_systems (pre ++ post)) as Hns.
  { unfold non_systems. rewrite Heq, !List.filter_app. simpl.
    by rewrite Hm, (bfilter_Forall_false _ pre). }
  rewrite Hns in Hn, Hf. simpl in Hn, Hf.
  rewrite u64_add_ok by arith.
  destruct (accounted_remove cw pre m post (total_evicted cw + 1) Ha Heq) as (Ha' & Hsat & Hm1).
  set (cw2 := Build_ContextWindow (pre ++ post) _ _ _) in *.
  destruct (serial_println_ok (eviction_notice m (total_evicted cw + 1)) c) as [u ->].
  destruct (IH cw2 {| serial1 := u; writer := writer c |}) as (k & cw' & u' & -> & Hev);
    [done | unfold cw2; cbn [messages current_tokens total_evicted]; lia .. |].
  exists (S k), cw', u'. split; [done|]. destruct Hev as [E1 E2 E3 E4 E5 E6 E7 E8].
  assert (forall j, drop_oldest (S j) (messages cw) = drop_oldest j (pre ++ post)) as Hdrop.
  { intros j. rewrite Heq. by apply drop_oldest_S. }
  constructor; rewrite ?Hdrop, ?Hns; simpl in *; try done; try lia.
  - destruct E7 as [? | ->]; auto.
  - intros [|j] Hj; [rewrite drop_oldest_0; unfold has_room; lia|].
    rewrite Hdrop. apply E8. lia.
Qed.

Lemma non_systems_length ms : (length (non_systems ms) <= length ms)%nat.
Proof. apply List.filter_length_le. Qed.

Definition new_message (r : Role) (text : string) : Message :=
  {| role := r; content := text; token_count := estimate_tokens text |}.

(** The window after [push_message], given the window [cw1] after eviction. *)
Definition pushed (r : Role) (text : string) (cw1 : ContextWindow) : ContextWindow :=
  {| messages := messages cw1 ++ [new_message r text];
     max_tokens := max_tokens cw1;
     current_tokens := current_tokens cw1 + estimate_tokens text;
     total_evicted := total_evicted cw1 |}.

Lemma push_message_ok r text cw c :
  accounted cw -> fits_usize cw text ->
  exists k cw1 u, push_message r text cw c =
      Ret (pushed r text cw1, {| serial1 := u; writer := writer c |}) /\
    evicts (estimate_tokens text) k cw cw1.
Proof.
  intros Ha (Hc & Hte & Hn). unfold message_count in Hn.
  pose proof (non_systems_length (messages cw)).
  destruct (evict_loop_spec (estimate_tokens text) (S (length (messages cw))) cw c)
    as (k & cw1 & u & Hl & Hev);
    [apply estimate_tokens_range | done | done | done | lia | lia |].
  exists k, cw1, u. split; [|done]. unfold push_message, mbind, io_bind, lift.
  rewrite Hl. cbn [fst snd]. pose proof (ev_current _ _ _ _ Hev).
  destruct (ev_accounted _ _ _ _ Hev) as [Hcur Hall].
  pose proof (accounted_nonneg _ Hall). pose proof (estimate_tokens_range text).
  rewrite u64_add_ok by arith. done.
Qed.

Lemma pushed_accounted r text cw1 : accounted cw1 -> accounted (pushed r text cw1).
Proof.
  intros [Hcur Hall]. split; simpl.
  - unfold tokens_of in *. rewrite sumZ_app, Hcur. simpl. lia.
  - apply Forall_app. split; [done|]. by constructor.
Qed.
End push_proofs.

(** ** Histories: a sequence of pushes *)

Section history.
Context {B : Build} {U : Uart}.

Fixpoint push_all (l : list (Role * string)) (cw : ContextWindow) : io ContextWindow :=
  match l with
  | [] => mret cw
  | (r, text) :: l' => cw' ← push_message r text cw; push_all l' cw'
  end.

Definition pushes (l : list (Role * string)) : list Message :=
  map (fun p => new_message p.1 p.2) l.

(** What the window holds after the pushes [l]. *)
Record holds_history (max : Z) (l : list (Role * string)) (cw : ContextWindow) : Prop := {
  hh_max : max_tokens cw = max;
  hh_accounted : accounted cw;
  hh_evicted : 0 <= total_evicted cw <= Z.of_nat (length (non_systems (pushes l)));
  hh_systems : systems (messages cw) = systems (pushes l);
  hh_non_systems : non_systems (messages cw) =
    drop (Z.to_nat (total_evicted cw)) (non_systems (pushes l));
  hh_current : current_tokens cw <= tokens_of (pushes l);
}.

Lemma holds_history_new max : holds_history max [] (ContextWindow_new max).
Proof. constructor; simpl; try done. Qed.

Lemma pushes_app l l' : pushes (l ++ l') = pushes l ++ pushes l'.
Proof. apply map_app. Qed.

Lemma pushes_tokens_nonneg l : 0 <= tokens_of (pushes l).
Proof. by apply accounted_nonneg, List.Forall_map, List.Forall_forall. Qed.

Lemma pushes_snoc l r text : pushes (l ++ [(r, text)]) = pushes l ++ [new_message r text].
Proof. unfold pushes. by rewrite map_app. Qed.

Lemma holds_history_push max l r text k cw cw1 :
  holds_history max l cw -> evicts (estimate_tokens text) k cw cw1 ->
  holds_history max (l ++ [(r, text)]) (pushed r text cw1).
Proof.
  intros [H1 H2 H3 H4 H5 H6] [E1 E2 E3 E4 E5 E6 E7 E8].
  assert (length (non_systems (messages cw)) =
    length (non_systems (pushes l)) - Z.to_nat (total_evicted cw))%nat as Hlen.
  { by rewrite H5, length_drop. }
  unfold systems, non_systems in *.
  constructor; cbn [pushed messages max_tokens current_tokens total_evicted];
    rewrite ?pushes_snoc, ?E1; unfold systems, non_systems; rewrite ?List.filter_app, ?length_app.
  - congruence.
  - by apply pushed_accounted.
  - lia.
  - fold (systems (drop_oldest k (messages cw))). rewrite drop_oldest_systems.
    unfold systems. by rewrite H4.
  - fold (non_systems (drop_oldest k (messages cw))). rewrite drop_oldest_non_systems.
    unfold non_systems. rewrite H5, drop_drop, E3, drop_app_le by lia.
    f_equal. f_equal. lia.
  - unfold tokens_of in *. rewrite sumZ_app. simpl. lia.
Qed.

Lemma holds_history_fits max l cw r text :
  holds_history max l cw ->
  tokens_of (pushes (l ++ [(r, text)])) < 2 ^ 64 ->
  Z.of_nat (length l) < 2 ^ 64 -> fits_usize cw text.
Proof.
  intros [H1 H2 H3 H4 H5 H6] Ht Hl. rewrite pushes_snoc in Ht.
  unfold tokens_of in *. rewrite sumZ_app in Ht. simpl in Ht.
  assert (forall ms, length ms = length (systems ms) + length (non_systems ms))%nat as Hsplit.
  { intros ms. unfold systems, non_systems, non_system.
    rewrite <-length_app. apply Permutation_length.
    induction ms as [|m ms IH]; simpl; [done|].
    destruct (is_system m); simpl; [by constructor|]. by rewrite <-Permutation_middle, <-IH. }
  pose proof (Hsplit (messages cw)) as S1. pose proof (Hsplit (pushes l)) as S2.
  rewrite H4, H5, length_drop in S1. unfold pushes in S2 at 1. rewrite length_map in S2.
  unfold fits_usize, message_count. split_and!; lia.
Qed.

Lemma push_all_history {UL : UartLaws U} max l l0 cw c :
  holds_history max l0 cw ->
  tokens_of (pushes (l0 ++ l)) < 2 ^ 64 -> Z.of_nat (length (l0 ++ l)) < 2 ^ 64 ->
  exists cw' u, push_all l cw c = Ret (cw', {| serial1 := u; writer := writer c |}) /\
    holds_history max (l0 ++ l) cw'.
Proof.
  revert l0 cw c. induction l as [|[r text] l IH]; intros l0 cw c Hh Ht Hl; simpl.
  { exists cw, (serial1 c). rewrite app_nil_r. by destruct c. }
  assert (Hcat : l0 ++ (r, text) :: l = (l0 ++ [(r, text)]) ++ l) by by rewrite <-app_assoc.
  rewrite Hcat in *.
  assert (fits_usize cw text) as Hfit.
  { apply (holds_history_fits max l0 cw r); [done| |].
    - rewrite pushes_app in Ht. unfold tokens_of in *. rewrite sumZ_app in Ht.
      pose proof (pushes_tokens_nonneg l). unfold tokens_of in *. lia.
    - rewrite !length_app in Hl. lia. }
  unfold mbind, io_bind.
  destruct (push_message_ok r text cw c) as (k & cw1 & u & -> & Hev); [apply Hh|done|].
  edestruct (IH (l0 ++ [(r, text)])) as (cw' & u' & -> & Hh');
    [by eapply holds_history_push | done | done |]. eauto.
Qed.
End history.

(** ** Properties *)

Section properties.
Context {B : Build} {U : Uart} {UL : UartLaws U}.

(** C6 (functional). [push_message] always returns, and it evicts exactly as
    much as needed: the window after it is the old one without its [k] oldest
    non-system messages, followed by the new message, where [k] is the least
    number of evictions that makes room for the new message (or all of them
    when even that is not enough).  The token counter is the exact total and
    the eviction counter grows by [k]. *)
Theorem push_message_evicts_least r text cw c :
  accounted cw -> fits_usize cw text ->
  exists k cw' c', push_message r text cw c = Ret (cw', c') /\
    messages cw' = drop_oldest k (messages cw) ++ [new_message r text] /\
    (k <= length (non_systems (messages cw)))%nat /\
    (has_room (max_tokens cw) (estimate_tokens text) (drop_oldest k (messages cw)) \/
     k = length (non_systems (messages cw))) /\
    (forall j, (j < k)%nat ->
       ~ has_room (max_tokens cw) (estimate_tokens text) (drop_oldest j (messages cw))) /\
    accounted cw' /\ max_tokens cw' = max_tokens cw /\
    total_evicted cw' = total_evicted cw + Z.of_nat k /\
    writer c' = writer c.
Proof.
  intros Ha Hf. destruct (push_message_ok r text cw c Ha Hf) as (k & cw1 & u & Hp & [E1 E2 E3 E4 E5 E6 E7 E8]).
  exists k, (pushed r text cw1), {| serial1 := u; writer := writer c |}.
  split; [exact Hp|]. cbn [pushed messages max_tokens total_evicted]. rewrite E1.
  split_and!; auto. by apply pushed_accounted.
Qed.

(** The limit holds: after [push_message] the window is within
    its token limit, unless the new message does not fit next to the system
    messages alone, in which case nothing but system messages is left before
    it. *)
Theorem push_message_bound r text cw c cw' c' :
  accounted cw -> fits_usize cw text -> push_message r text cw c = Ret (cw', c') ->
  current_tokens cw' <= max_tokens cw' \/
  messages cw' = systems (messages cw) ++ [new_message r text].
Proof.
  intros Ha Hf Hp.
  destruct (push_message_ok r text cw c Ha Hf) as (k & cw1 & u & Hp' & [E1 E2 E3 E4 E5 E6 E7 E8]).
  rewrite Hp in Hp'. injection Hp' as -> _. cbn [pushed messages max_tokens current_tokens].
  destruct E7 as [Hroom | ->].
  - left. destruct E4 as [-> _]. rewrite E1, E2. exact Hroom.
  - right. rewrite E1. f_equal.
    rewrite <-(drop_oldest_systems (length (non_systems (messages cw)))).
    symmetry. apply bfilter_Forall_true.
    pose proof (drop_oldest_non_systems (length (non_systems (messages cw))) (messages cw)) as Hd.
    rewrite drop_all in Hd. revert Hd. generalize (drop_oldest (length (non_systems (messages cw))) (messages cw)).
    unfold non_systems, non_system. intros ms. induction ms as [|m ms IH]; simpl; [by constructor|].
    destruct (is_system m) eqn:Hm; simpl; [|done]. intros. constructor; auto.
Qed.

(** C23 (safety). A whole history: starting from an empty window, any sequence
    of pushes whose tokens can be counted in a [usize] succeeds.  System
    messages are never evicted: the window holds all of them in the order they
    were pushed.  Eviction is first-in first-out: of the other messages it
    holds exactly those after the first [total_evicted] ones, in order. *)
Theorem push_history max l c :
  tokens_of (pushes l) < 2 ^ 64 -> Z.of_nat (length l) < 2 ^ 64 ->
  exists cw' c', push_all l (ContextWindow_new max) c = Ret (cw', c') /\
    systems (messages cw') = systems (pushes l) /\
    non_systems (messages cw') =
      drop (Z.to_nat (total_evicted cw')) (non_systems (pushes l)) /\
    0 <= total_evicted cw' <= Z.of_nat (length (non_systems (pushes l))) /\
    accounted cw' /\ max_tokens cw' = max.
Proof.
  intros Ht Hl.
  destruct (push_all_history max l [] (ContextWindow_new max) c) as (cw' & u & Hp & [H1 H2 H3 H4 H5 H6]);
    [apply holds_history_new | done | done |]. eauto 10.
Qed.
End properties.

(** A window of at most 7 tokens with a system message and two user messages, and a
    message that needs one of them evicted. *)
Definition sample_window : ContextWindow :=
  {| messages := [new_message System "rules..."; new_message User "one two three";
                  new_message User "four"];
     max_tokens := 7; current_tokens := 6; total_evicted := 0 |}.

Definition sample_console : Console uart_log :=
  initial_console (replicate BUFFER_HEIGHT (blank_row (ColorCode_new LightCyan Black))).

Lemma push_message_evicts_least_witness :
  accounted sample_window /\ fits_usize sample_window "what now?" /\
  exists cw' c', push_message (B := true) User "what now?" sample_window sample_console = Ret (cw', c') /\
    total_evicted cw' = 1 /\ length (messages cw') = 3%nat.
Proof.
  assert (accounted sample_window) as Ha by by_compute.
  assert (fits_usize sample_window "what now?") as Hf by by_compute.
  split; [exact Ha|]. split; [exact Hf|].
  destruct (push_message_evicts_least (B := true) User "what now?" sample_window sample_console Ha Hf)
    as (k & cw' & c' & Hp & _).
  exists cw', c'. split; [exact Hp|]. vm_compute in Hp. injection Hp as <- _.
  vm_compute. split; reflexivity.
Defined.

Lemma push_message_bound_witness :
  exists cw' c', push_message (B := true) User "what now?" sample_window sample_console = Ret (cw', c') /\
  (current_tokens cw' <= max_tokens cw' \/
   messages cw' = systems (messages sample_window) ++ [new_message User "what now?"]).
Proof.
  eexists _, _. split; [vm_compute; reflexivity|].
  eapply (push_message_bound (B := true) User "what now?" sample_window sample_console).
  - by_compute.
  - by_compute.
  - vm_compute. reflexivity.
Defined.

Lemma push_history_witness :
  exists cw' c',
    push_all (B := true) [(System, "be brief"); (User, "hello there"); (Assistant, "hi")]
      (ContextWindow_new 4) sample_console = Ret (cw', c') /\
    systems (messages cw') = [new_message System "be brief"].
Proof.
  destruct (push_history (B := true) 4 [(System, "be brief"); (User, "hello there"); (Assistant, "hi")]
              sample_console) as (cw' & c' & Hp & Hs & _).
  - vm_compute. reflexivity.
  - vm_compute. reflexivity.
  - exists cw', c'. split; [exact Hp | exact Hs].
Defined.
