(* ===== verification/Tools.v ===== *)
(** * The tool registry (src/src/agent/tools.rs)

    Two [BTreeMap]s: the registered tools by name and the agent's memory.  A
    [BTreeMap<String, _>] is a [gmap] whose keys are listed in the byte-wise
    order of strings.  A tool returns [Ok] or [Err] with a text; the calculator
    may also panic, in the arithmetic of the build. *)

From Stdlib Require Import Lia Ascii.
From stdpp Require Import base decidable strings numbers gmap list sorting.
From S2P Require Import Prelude RustStr.

Open Scope Z_scope.

Inductive BuiltinTool := Calculator | MemoryStore | MemoryRecall | Echo.

#[export] Instance BuiltinTool_eq_dec : EqDecision BuiltinTool.
Proof. solve_decision. Defined.

Definition tool_name (t : BuiltinTool) : string :=
  match t with
  | Calculator => "calc"
  | MemoryStore => "store"
  | MemoryRecall => "recall"
  | Echo => "echo"
  end.

Definition tool_description (t : BuiltinTool) : string :=
  match t with
  | Calculator => "Evaluate arithmetic: /tool calc <expr> (supports +, -, *, /)"
  | MemoryStore => "Store key-value: /tool store <key> <value>"
  | MemoryRecall => "Recall by key: /tool recall <key>"
  | Echo => "Echo input: /tool echo <text>"
  end.

Record ToolRegistry := {
  tools : gmap string BuiltinTool;
  memory : gmap string string;
}.

Definition ToolRegistry_new : ToolRegistry := {| tools := ∅; memory := ∅ |}.

Definition register (t : BuiltinTool) (reg : ToolRegistry) : ToolRegistry :=
  {| tools := <[tool_name t := t]> (tools reg); memory := memory reg |}.

Definition tool_count (reg : ToolRegistry) : Z := Z.of_nat (size (tools reg)).

Definition tool_names (reg : ToolRegistry) : list string :=
  merge_sort String.le (map fst (map_to_list (tools reg))).

Definition usage_calc : string :=
  "Usage: /tool calc <num> <op> <num> (e.g., /tool calc 42 + 7)".
Definition usage_store : string := "Usage: /tool store <key> <value>".

Section calculator.
Context {B : Build}.

(** [match op { "+" => Ok(a + b), .. }] *)
Definition apply_op (op : string) (a b : Z) : outcome (result Z string) :=
  if String.eqb op "+" then Ok <$> i64_add a b
  else if String.eqb op "-" then Ok <$> i64_sub a b
  else if String.eqb op "*" then Ok <$> i64_mul a b
  else if String.eqb op "/" then
    if b =? 0 then Ret (Err "Division by zero") else Ok <$> i64_div a b
  else Ret (Err ("Unknown operator: " +:+ op +:+ " (use +, -, *, /)")).

Definition equation (a : Z) (op : string) (b r : Z) : string :=
  display_int a +:+ " " +:+ op +:+ " " +:+ display_int b +:+ " = " +:+ display_int r.

Definition exec_calculator (expr : string) : outcome (result string string) :=
  match split_whitespace (str_trim expr) with
  | [x; op; y] =>
      match parse_i64 x with
      | Err _ => Ret (Err ("Invalid number: " +:+ x))
      | Ok a =>
          match parse_i64 y with
          | Err _ => Ret (Err ("Invalid number: " +:+ y))
          | Ok b =>
              r ← apply_op op a b;
              match r with
              | Ok v => Ret (Ok (equation a op b v))
              | Err e => Ret (Err e)
              end
          end
      end
  | _ => Ret (Err usage_calc)
  end.
End calculator.

Definition exec_memory_store (args : string) (reg : ToolRegistry)
  : result string string * ToolRegistry :=
  match splitn2_space args with
  | [key; value] =>
      (Ok ("Stored: " +:+ key +:+ " = " +:+ value),
       {| tools := tools reg; memory := <[key := value]> (memory reg) |})
  | _ => (Err usage_store, reg)
  end.

Definition exec_memory_recall (args : string) (reg : ToolRegistry) : result string string :=
  let key := str_trim args in
  match memory reg !! key with
  | Some value => Ok (key +:+ " = " +:+ value)
  | None => Err ("Key '" +:+ key +:+ "' not found in memory")
  end.

Definition unknown_tool (name : string) (reg : ToolRegistry) : string :=
  "Unknown tool '" +:+ name +:+ "'. Available: " +:+ debug_list (tool_names reg).

Definition execute {B : Build} (name args : string) (reg : ToolRegistry)
  : outcome (result string string * ToolRegistry) :=
  match tools reg !! name with
  | None => Ret (Err (unknown_tool name reg), reg)
  | Some Calculator => r ← exec_calculator args; Ret (r, reg)
  | Some MemoryStore => Ret (exec_memory_store args reg)
  | Some MemoryRecall => Ret (exec_memory_recall args reg, reg)
  | Some Echo => Ret (Ok ("[echo] " +:+ args), reg)
  end.

(** ** The calculator against exact arithmetic *)

(** The mathematical result of an operator, where it has one. *)
Definition exact_result (op : string) (a b : Z) : option Z :=
  if String.eqb op "+" then Some (a + b)
  else if String.eqb op "-" then Some (a - b)
  else if String.eqb op "*" then Some (a * b)
  else if String.eqb op "/" then if b =? 0 then None else Some (Z.quot a b)
  else None.

(** The numbers and the operator an expression stands for. *)
Definition reads_as (expr : string) (a : Z) (op : string) (b : Z) : Prop :=
  exists x y, split_whitespace expr = [x; op; y] /\ parse_i64 x = Ok a /\ parse_i64 y = Ok b.

Section calculator_proofs.
Context {B : Build}.

Lemma exec_calculator_reads expr a op b :
  valid_str expr = true -> reads_as expr a op b ->
  exec_calculator expr =
    r ← apply_op op a b;
    match r with Ok v => Ret (Ok (equation a op b v)) | Err e => Ret (Err e) end.
Proof.
  intros Hv (x & y & Hs & Hx & Hy). unfold exec_calculator.
  by rewrite split_whitespace_trim, Hs, Hx, Hy.
Qed.

(** An expression that is not of that form is answered with an error. *)
Lemma exec_calculator_cases expr :
  valid_str expr = true ->
  (exists a op b, reads_as expr a op b) \/ (exists e, exec_calculator expr = Ret (Err e)).
Proof.
  intros Hv. unfold exec_calculator, reads_as. rewrite split_whitespace_trim by done.
  destruct (split_whitespace expr) as [|x [|op [|y [|]]]]; try (right; by eexists).
  destruct (parse_i64 x) as [a|] eqn:Hx; [|right; by eexists].
  destruct (parse_i64 y) as [b|] eqn:Hy; [|right; by eexists].
  left. by exists a, op, b, x, y.
Qed.

Lemma apply_op_exact op a b r :
  exact_result op a b = Some r -> is_i64 r -> apply_op op a b = Ret (Ok r).
Proof.
  unfold exact_result, apply_op, i64_add, i64_sub, i64_mul, i64_div.
  intros. repeat case_match; simplify_eq; rewrite ?i64_arith_ok by done; done || lia.
Qed.

Lemma apply_op_None op a b :
  exact_result op a b = None -> exists e, apply_op op a b = Ret (Err e).
Proof. unfold exact_result, apply_op. intros. repeat case_match; simplify_eq; eauto. Qed.

Lemma apply_op_overflow op a b r :
  exact_result op a b = Some r -> ~ is_i64 r ->
  if overflow_checks || String.eqb op "/" then panics (apply_op op a b)
  else apply_op op a b = Ret (Ok (swrap64 r)).
Proof.
  unfold exact_result, apply_op, i64_add, i64_sub, i64_mul, i64_div, i64_arith.
  intros Hr Hov. destruct (String.eqb_spec op "+") as [->|?];
    [|destruct (String.eqb_spec op "-") as [->|?];
    [|destruct (String.eqb_spec op "*") as [->|?];
    [|destruct (String.eqb_spec op "/") as [->|?]; [|done]]]].
  1-3: simplify_eq; rewrite decide_False by done; simpl;
    destruct overflow_checks; simpl; [by eexists | done].
  destruct (b =? 0) eqn:Hb; [done|]. simplify_eq.
  rewrite orb_true_r, decide_False, decide_False by (done || lia). by eexists.
Qed.
End calculator_proofs.

(** ** The registry *)

(** Every tool is registered under its own name. *)
Definition wf_registry (reg : ToolRegistry) : Prop :=
  forall n t, tools reg !! n = Some t -> tool_name t = n.

Lemma tool_name_inj t t' : tool_name t = tool_name t' -> t = t'.
Proof. destruct t, t'; simpl; intros; try done. Qed.

Lemma wf_registry_new : wf_registry ToolRegistry_new.
Proof. intros n t. simpl. by rewrite lookup_empty. Qed.

Lemma wf_registry_register t reg : wf_registry reg -> wf_registry (register t reg).
Proof.
  intros Hw n t'. simpl. rewrite lookup_insert. case_decide; [naive_solver|]. apply Hw.
Qed.

(** Of the tools only the store tool changes the registry, and only its memory. *)
Lemma execute_frame {B : Build} name args reg r reg' :
  execute name args reg = Ret (r, reg') ->
  tools reg' = tools reg /\
  (memory reg' = memory reg \/
   (tools reg !! name = Some MemoryStore /\
    exists k v, args = k +:+ " " +:+ v /\ no_space k = true /\
      r = Ok ("Stored: " +:+ k +:+ " = " +:+ v) /\ memory reg' = <[k := v]> (memory reg))).
Proof.
  unfold execute. destruct (tools reg !! name) as [[]|] eqn:Ht; intros H.
  - apply bind_Ret_inv in H as (r' & _ & H). simplify_eq. auto.
  - unfold exec_memory_store, splitn2_space in H.
    destruct (split_once_space args) as [[k v]|] eqn:Hs; simplify_eq/=; [|auto].
    apply split_once_space_Some in Hs as [-> ?]. split; [done|]. right. split; [done|].
    by exists k, v.
  - simplify_eq. auto.
  - simplify_eq. auto.
  - simplify_eq. auto.
Qed.

Lemma exec_memory_store_ok k v reg :
  no_space k = true ->
  exec_memory_store (k +:+ " " +:+ v) reg =
    (Ok ("Stored: " +:+ k +:+ " = " +:+ v),
     {| tools := tools reg; memory := <[k := v]> (memory reg) |}).
Proof. intros. unfold exec_memory_store. by rewrite splitn2_space_app. Qed.

Lemma exec_memory_recall_ok args k v reg :
  str_trim args = k -> memory reg !! k = Some v ->
  exec_memory_recall args reg = Ok (k +:+ " = " +:+ v).
Proof. intros Hk Hm. unfold exec_memory_recall. by rewrite Hk, Hm. Qed.

(** ** Properties *)

Section properties.
Context {B : Build}.

(** C32 (functional). The calculator computes exactly: on any text that reads as
    "number operator number" (any white space around and between them) the
    answer is the equation with the mathematical result, as long as that result
    is an [i64]; division rounds towards zero. *)
Theorem calculator_exact expr a op b r :
  valid_str expr = true -> reads_as expr a op b ->
  exact_result op a b = Some r -> is_i64 r ->
  exec_calculator expr = Ret (Ok (equation a op b r)).
Proof.
  intros Hv Hr He Hi. rewrite (exec_calculator_reads expr a op b) by done.
  by rewrite (apply_op_exact op a b r).
Qed.

(** C33 (error). Exactly when the calculator panics: on a well-formed expression
    whose result does not fit an [i64], in a build with overflow checks, or on
    the division of [i64::MIN] by -1 in any build.  Every other input, malformed
    or not, gets an answer; division by zero is answered with an error. *)
Theorem calculator_panics_iff expr :
  valid_str expr = true ->
  panics (exec_calculator expr) <->
  exists a op b r, reads_as expr a op b /\ exact_result op a b = Some r /\ ~ is_i64 r /\
    (overflow_checks = true \/ op = "/").
Proof.
  intros Hv. split.
  - intros Hp. destruct (exec_calculator_cases expr Hv) as [(a & op & b & Hr)|[e He]].
    2: { rewrite He in Hp. by destruct Hp. }
    rewrite (exec_calculator_reads expr a op b) in Hp by done.
    exists a, op, b. destruct (exact_result op a b) as [r|] eqn:He.
    2: { apply apply_op_None in He as [e He]. rewrite He in Hp. by destruct Hp. }
    exists r. split; [done|]. split; [done|].
    destruct (decide (is_i64 r)).
    { rewrite (apply_op_exact op a b r) in Hp by done. by destruct Hp. }
    split; [done|]. pose proof (apply_op_overflow op a b r He n) as Ho.
    destruct overflow_checks; [by left|]. right. simpl in Ho.
    destruct (String.eqb_spec op "/") as [|?]; [done|].
    rewrite Ho in Hp. by destruct Hp.
  - intros (a & op & b & r & Hr & He & Hov & Hc).
    rewrite (exec_calculator_reads expr a op b) by done.
    pose proof (apply_op_overflow op a b r He Hov) as Ho.
    replace (overflow_checks || String.eqb op "/") with true in Ho.
    + destruct Ho as [why ->]. by exists why.
    + destruct Hc as [-> | ->]; [done|]. by rewrite orb_true_r.
Qed.

(** What is stored is recalled: after the store tool ran on
    "key value" the recall tool answers with that value, for every value and
    every key without a space that is not changed by trimming, however the key
    is padded in the recall; the values of the other keys are not changed. *)
Theorem store_recall_roundtrip k v args reg :
  no_space k = true -> str_trim args = k ->
  exists reg',
    exec_memory_store (k +:+ " " +:+ v) reg =
      (Ok ("Stored: " +:+ k +:+ " = " +:+ v), reg') /\
    exec_memory_recall args reg' = Ok (k +:+ " = " +:+ v) /\
    (forall args', str_trim args' <> k ->
       exec_memory_recall args' reg' = exec_memory_recall args' reg).
Proof.
  intros Hk Ha. rewrite exec_memory_store_ok by done. eexists; split; [done|]. split.
  - apply exec_memory_recall_ok; [done|]. simpl. by rewrite lookup_insert_eq.
  - intros args' Hne. unfold exec_memory_recall. simpl. by rewrite lookup_insert_ne.
Qed.

(** C34 (error). A key that trimming changes can be stored but never recalled:
    the store tool answers that it has stored the value, and the value is in the
    agent's memory under the key as it was typed; but whatever the recall tool is
    then asked, it answers as if nothing had been stored.  (A key ends at the
    first space, so that it is other white space at its ends that trimming
    takes.) *)
Theorem untrimmed_key_unreachable k v args reg :
  tools reg !! "store" = Some MemoryStore -> tools reg !! "recall" = Some MemoryRecall ->
  no_space k = true -> str_trim k <> k -> valid_str args = true ->
  exists reg',
    execute "store" (k +:+ " " +:+ v) reg = Ret (Ok ("Stored: " +:+ k +:+ " = " +:+ v), reg') /\
    memory reg' !! k = Some v /\
    exists answer, execute "recall" args reg = Ret (answer, reg) /\
      execute "recall" args reg' = Ret (answer, reg').
Proof.
  intros Hs Hr Hk Htrim Hv. unfold execute. rewrite Hs, Hr, exec_memory_store_ok by done.
  eexists; split; [done|]. split; [by cbn; rewrite lookup_insert_eq|].
  exists (exec_memory_recall args reg). split; [done|]. cbn [tools]. rewrite Hr. unfold exec_memory_recall.
  cbn [memory]. rewrite lookup_insert_ne; [done|]. intros ->. by rewrite str_trim_idemp in Htrim.
Qed.

(** No tool call changes the tool table, and the agent's memory
    changes only in a successful call of the store tool, at the key it names. *)
Theorem execute_changes_only_stored_key name args reg r reg' :
  wf_registry reg -> execute name args reg = Ret (r, reg') ->
  wf_registry reg' /\ tools reg' = tools reg /\
  (memory reg' = memory reg \/
   (name = "store" /\ exists k v, args = k +:+ " " +:+ v /\ no_space k = true /\
     r = Ok ("Stored: " +:+ k +:+ " = " +:+ v) /\ memory reg' = <[k := v]> (memory reg))).
Proof.
  intros Hw H. destruct (execute_frame _ _ _ _ _ H) as [Ht Hm].
  split; [intros n t; rewrite Ht; apply Hw|]. split; [done|].
  destruct Hm as [?|(Hn & Hkv)]; [by left|]. right. split; [by apply Hw in Hn|done].
Qed.
End properties.

Lemma calculator_exact_witness :
  reads_as " 42 *  -7" 42 "*" (-7) /\
  exec_calculator (B := true) " 42 *  -7" = Ret (Ok "42 * -7 = -294").
Proof.
  assert (reads_as " 42 *  -7" 42 "*" (-7)) as Hr.
  { exists "42", "-7". vm_compute. repeat split. }
  split; [exact Hr|].
  apply (calculator_exact (B := true) " 42 *  -7" 42 "*" (-7) (-294)).
  - reflexivity.
  - exact Hr.
  - reflexivity.
  - by_compute.
Defined.

Lemma calculator_panics_iff_witness :
  panics (exec_calculator (B := false) "-9223372036854775808 / -1").
Proof.
  apply (calculator_panics_iff (B := false) "-9223372036854775808 / -1").
  - reflexivity.
  - exists (-9223372036854775808), "/", (-1), 9223372036854775808.
    split; [exists "-9223372036854775808", "-1"; vm_compute; repeat split|].
    split; [reflexivity|]. split; [by_compute|]. by right.
Defined.

Lemma store_recall_roundtrip_witness :
  exists reg',
    exec_memory_store "pi 3.14 or so" ToolRegistry_new =
      (Ok "Stored: pi = 3.14 or so", reg') /\
    exec_memory_recall "  pi " reg' = Ok "pi = 3.14 or so".
Proof.
  destruct (store_recall_roundtrip "pi" "3.14 or so" "  pi " ToolRegistry_new)
    as (reg' & H1 & H2 & _).
  - reflexivity.
  - reflexivity.
  - exists reg'. split; [exact H1 | exact H2].
Defined.

(** The two memory tools, and a key with a tab in front. *)
Definition memory_registry : ToolRegistry := register MemoryRecall (register MemoryStore ToolRegistry_new).
Definition tab_key : string := String "009"%char "pi".

Lemma untrimmed_key_unreachable_witness :
  exists reg',
    execute (B := true) "store" (tab_key +:+ " " +:+ "3.14") memory_registry =
      Ret (Ok ("Stored: " +:+ tab_key +:+ " = " +:+ "3.14"), reg') /\
    memory reg' !! tab_key = Some "3.14" /\
    exists answer, execute (B := true) "recall" tab_key memory_registry = Ret (answer, memory_registry) /\
      execute (B := true) "recall" tab_key reg' = Ret (answer, reg').
Proof.
  apply (untrimmed_key_unreachable (B := true) tab_key "3.14" tab_key memory_registry); try reflexivity.
  by_compute.
Defined.

Definition echo_registry : ToolRegistry := register Echo ToolRegistry_new.

Lemma execute_changes_only_stored_key_witness :
  wf_registry echo_registry /\
  forall r reg', execute (B := true) "echo" "hello" echo_registry = Ret (r, reg') ->
    tools reg' = tools echo_registry.
Proof.
  assert (wf_registry echo_registry) as Hw by (apply wf_registry_register, wf_registry_new).
  split; [exact Hw|]. intros r reg' H.
  apply (execute_changes_only_stored_key (B := true) "echo" "hello" echo_registry r reg' Hw H).
Defined.

(** ** Sizes

    The registry of a booted agent, and bounds on the texts its tools return. *)

Definition builtin_registry (reg : ToolRegistry) : ToolRegistry :=
  register Echo (register MemoryRecall (register MemoryStore (register Calculator reg))).

Definition builtin_tools : gmap string BuiltinTool := tools (builtin_registry ToolRegistry_new).

Definition result_text (r : result string string) : string :=
  match r with Ok t => t | Err e => e end.

Definition memory_within (n : Z) (m : gmap string string) : Prop :=
  map_Forall (fun k v => str_len k < n /\ str_len v < n) m.

Section sizes.
Context {B : Build}.

Lemma apply_op_range op a b r : apply_op op a b = Ret (Ok r) -> is_i64 r.
Proof.
  unfold apply_op, i64_add, i64_sub, i64_mul, i64_div, fmap, outcome_fmap.
  intros H. repeat case_match; simplify_eq; eauto using i64_arith_range.
Qed.

Lemma apply_op_err op a b e :
  apply_op op a b = Ret (Err e) -> str_len e <= 100 + str_len op.
Proof.
  unfold apply_op, fmap, outcome_fmap. pose proof (str_len_nonneg op).
  intros He. repeat case_match; simplify_eq; str_lens; lia.
Qed.

Lemma exec_calculator_len expr r :
  exec_calculator expr = Ret r -> str_len (result_text r) <= 300 + str_len expr.
Proof.
  unfold exec_calculator. pose proof (str_trim_len expr) as Ht.
  pose proof (str_len_nonneg expr). intros He.
  destruct (split_whitespace (str_trim expr)) as [|x [|op [|y [|]]]] eqn:Hs;
    simplify_eq; cbn [result_text]; try (unfold usage_calc; str_lens; lia).
  assert (forall w, w ∈ [x; op; y] -> str_len w <= str_len expr) as Hw.
  { intros w Hin. rewrite <-Hs in Hin. apply split_whitespace_len in Hin. lia. }
  pose proof (Hw x ltac:(set_solver)). pose proof (Hw op ltac:(set_solver)).
  pose proof (Hw y ltac:(set_solver)).
  destruct (parse_i64 x) as [a|] eqn:Hx; simplify_eq; cbn [result_text]; [|str_lens; lia].
  destruct (parse_i64 y) as [b|] eqn:Hy; simplify_eq; cbn [result_text]; [|str_lens; lia].
  apply bind_Ret_inv in He as (v & Hv & He).
  destruct v as [v|e]; simplify_eq; cbn [result_text].
  - apply apply_op_range in Hv. apply parse_i64_range in Hx, Hy.
    apply display_int_len in Hv, Hx, Hy. unfold equation. str_lens. lia.
  - apply apply_op_err in Hv. lia.
Qed.

Lemma builtin_unknown_len name reg :
  tools reg = builtin_tools -> str_len (unknown_tool name reg) <= 200 + str_len name.
Proof.
  intros Ht. unfold unknown_tool, tool_names. rewrite Ht.
  rewrite !str_len_app.
  assert (str_len (debug_list (merge_sort String.le (map fst (map_to_list builtin_tools)))) = 35)
    as -> by (vm_compute; reflexivity).
  str_lens. lia.
Qed.

Lemma splitn2_space_len args k v :
  splitn2_space args = [k; v] -> str_len k + str_len v < str_len args.
Proof.
  unfold splitn2_space. destruct (split_once_space args) as [[k' v']|] eqn:Hs; [|done].
  intros. simplify_eq. apply split_once_space_Some in Hs as [-> _]. str_lens. lia.
Qed.

Lemma execute_within n name args reg r reg' :
  tools reg = builtin_tools -> memory_within n (memory reg) ->
  str_len name < n -> str_len args < n ->
  execute name args reg = Ret (r, reg') ->
  str_len (result_text r) < 500 + 2 * n /\ memory_within n (memory reg').
Proof.
  intros Ht Hm Hn Ha. pose proof (str_len_nonneg args). pose proof (str_len_nonneg name).
  unfold execute. destruct (tools reg !! name) as [[]|]; intros He.
  - apply bind_Ret_inv in He as (r' & Hr & He). simplify_eq.
    apply exec_calculator_len in Hr. split; [lia | done].
  - unfold exec_memory_store in He.
    destruct (splitn2_space args) as [|k [|v [|]]] eqn:Hs; simplify_eq; cbn [result_text];
      try (split; [unfold usage_store; str_lens; lia | done]).
    apply splitn2_space_len in Hs. pose proof (str_len_nonneg k). pose proof (str_len_nonneg v).
    split; [str_lens; lia|]. simpl. apply map_Forall_insert_2; [lia | done].
  - simplify_eq. split; [|done]. unfold exec_memory_recall. pose proof (str_trim_len args).
    destruct (memory reg' !! str_trim args) as [v|] eqn:Hv; cbn [result_text].
    + apply Hm in Hv. simpl in Hv. str_lens. lia.
    + str_lens. lia.
  - simplify_eq. cbn [result_text]. split; [str_lens; lia | done].
  - simplify_eq. cbn [result_text]. pose proof (builtin_unknown_len name reg' Ht).
    split; [lia | done].
Qed.

(** Only the calculator can panic. *)
Lemma execute_returns name args reg :
  (name = "calc" -> ~ panics (exec_calculator args)) -> tools reg = builtin_tools ->
  exists r reg', execute name args reg = Ret (r, reg').
Proof.
  intros Hc Ht. unfold execute.
  destruct (tools reg !! name) as [[]|] eqn:Hn; eauto.
  - destruct (returns_or_panics (exec_calculator args)) as [[r ->]|Hp]; [eauto|].
    exfalso. apply Hc; [|done].
    assert (wf_registry reg) as Hw; [|by apply Hw in Hn].
    intros m t. rewrite Ht. unfold builtin_tools.
    do 4 apply wf_registry_register; apply wf_registry_new.
  - destruct (exec_memory_store args reg) as [r reg']. eauto.
Qed.
End sizes.
