(* ===== verification/Agent.v ===== *)
(** * The agent runtime (src/src/agent/mod.rs)

    The agent owns a context window and a tool registry.  [process_input] logs
    the input, routes it (tool call, status, help or echo) and logs the answer;
    [boot] loads the system prompt and registers the tools.  Both write to the
    console, so they are computations in [io]. *)

From Stdlib Require Import Lia Ascii.
From stdpp Require Import base decidable strings numbers gmap list.
From S2P Require Import Prelude RustStr Vga Console Context Tools.

Open Scope Z_scope.

Record Agent := { context : ContextWindow; tool_registry : ToolRegistry }.

Definition Agent_new : Agent :=
  {| context := ContextWindow_new 4096; tool_registry := ToolRegistry_new |}.

Definition set_context (cw : ContextWindow) (ag : Agent) : Agent :=
  {| context := cw; tool_registry := tool_registry ag |}.
Definition set_registry (reg : ToolRegistry) (ag : Agent) : Agent :=
  {| context := context ag; tool_registry := reg |}.

Definition system_prompt : string :=
  "You are an AI agent running as the sole process on a bare-metal " +:+
  "x86_64 operating system. You have access to tools for calculation, " +:+
  "memory storage, and memory recall. Process user input and respond " +:+
  "helpfully.".

Definition help_text : string :=
  "Available commands:" +:+ newline_str +:+
  "/tool <name> <args>  — invoke a tool" +:+ newline_str +:+
  "/context             — show context window status" +:+ newline_str +:+
  "/help                — show this help" +:+ newline_str +:+
  "(anything else)      — echoed back (LLM inference not yet connected)".

Section agent.
Context {B : Build} {U : Uart}.

Definition boot (ag : Agent) : io Agent :=
  _ ← serial_println "[agent] Booting agent...";
  cw ← push_message System system_prompt (context ag);
  _ ← serial_println ("[agent] System prompt loaded (" +:+
        display_uint (current_tokens cw) +:+ " tokens used)");
  let reg := register Echo (register MemoryRecall (register MemoryStore
               (register Calculator (tool_registry ag)))) in
  _ ← serial_println ("[agent] " +:+ display_uint (tool_count reg) +:+
        " tools registered: " +:+ debug_list (tool_names reg));
  _ ← println ("  Tools: " +:+ display_uint (tool_count reg));
  _ ← println ("  Context: " +:+ display_uint (current_tokens cw) +:+ "/" +:+
        display_uint (max_tokens cw) +:+ " tokens");
  mret {| context := cw; tool_registry := reg |}.

Definition handle_tool_call (input : string) (ag : Agent) : io (string * Agent) :=
  let parts := splitn2_space input in
  let name := default "" (parts !! 0%nat) in
  let args := default "" (parts !! 1%nat) in
  '(r, reg) ← lift (execute name args (tool_registry ag));
  let ag1 := set_registry reg ag in
  match r with
  | Ok text =>
      cw ← push_message Tool text (context ag1);
      mret (text, set_context cw ag1)
  | Err e => mret ("Tool error: " +:+ e, ag1)
  end.

Definition respond (input : string) (ag : Agent) : io (string * Agent) :=
  if starts_with input "/tool " then
    tool_input ← lift (str_from 6 input);
    handle_tool_call tool_input ag
  else if starts_with input "/context" then mret (status (context ag), ag)
  else if starts_with input "/help" then mret (help_text, ag)
  else mret ("[echo] " +:+ input, ag).

Definition process_input (input : string) (ag : Agent) : io (string * Agent) :=
  cw ← push_message User input (context ag);
  let ag1 := set_context cw ag in
  _ ← serial_println ("[agent] Processing input: " +:+ input);
  '(response, ag2) ← respond input ag1;
  cw2 ← push_message Assistant response (context ag2);
  mret (response, set_context cw2 ag2).
End agent.

(** ** The invariant of a booted agent *)

Definition prompt_message : Message := new_message System system_prompt.

(** The window of a booted agent: the system prompt, and after it only other
    messages; within the limit, unless a single message next to the prompt
    breaks it. *)
Record context_ok (cw : ContextWindow) : Prop := {
  co_accounted : accounted cw;
  co_max : max_tokens cw = 4096;
  co_prompt : exists rest, messages cw = prompt_message :: rest /\
    Forall (fun m => non_system m = true) rest;
  co_small : Forall (fun m => token_count m <= 2 ^ 60) (messages cw);
  co_bound : current_tokens cw <= 4096 \/ exists m, messages cw = [prompt_message; m];
}.

Record agent_ok (ag : Agent) : Prop := {
  ao_context : context_ok (context ag);
  ao_tools : tools (tool_registry ag) = builtin_tools;
  ao_memory : memory_within (2 ^ 60) (memory (tool_registry ag));
}.

(** Messages ever pushed: the evicted ones and those in the window. *)
Definition activity (cw : ContextWindow) : Z := total_evicted cw + message_count cw.

(** The counters are far from the end of [usize]. *)
Definition fresh (n : Z) (cw : ContextWindow) : Prop :=
  0 <= total_evicted cw /\ activity cw <= n.

Lemma prompt_tokens : token_count prompt_message = 51.
Proof. vm_compute. reflexivity. Qed.

Lemma prompt_system : non_system prompt_message = false.
Proof. vm_compute. reflexivity. Qed.

Lemma drop_oldest_length k ms :
  (k <= length (non_systems ms))%nat -> (length (drop_oldest k ms) + k)%nat = length ms.
Proof.
  unfold non_systems. revert k. induction ms as [|m ms IH]; intros k; simpl; [lia|].
  destruct (non_system m); simpl; intros Hk.
  - destruct k as [|k]; simpl; [lia|]. rewrite <-(IH k) by lia. lia.
  - rewrite <-(IH k) by lia. lia.
Qed.

Lemma drop_oldest_plain k ms :
  Forall (fun m => non_system m = true) ms -> drop_oldest k ms = drop k ms.
Proof.
  intros H. revert k. induction H as [|m ms Hm _ IH]; intros k; simpl; [by rewrite drop_nil|].
  rewrite Hm. by destruct k.
Qed.

Lemma context_ok_current cw : context_ok cw -> 0 <= current_tokens cw <= 2 ^ 61.
Proof.
  intros [[Hcur Hall] Hmax Hp Hs Hb]. pose proof (accounted_nonneg _ Hall).
  split; [lia|]. destruct Hb as [|[m Hm]]; [lia|]. rewrite Hm in Hcur, Hs.
  apply Forall_cons in Hs as [_ Hs]. apply Forall_cons in Hs as [Hs _]. rewrite Hcur.
  change (tokens_of [prompt_message; m]) with (token_count prompt_message + (token_count m + 0)).
  rewrite prompt_tokens. lia.
Qed.

Section agent_proofs.
Context {B : Build} {U : Uart} {UL : UartLaws U}.

Lemma push_context_ok r text cw c n :
  r <> System -> context_ok cw -> fresh n cw -> n < 2 ^ 63 -> str_len text < 2 ^ 62 ->
  exists cw' u, push_message r text cw c = Ret (cw', {| serial1 := u; writer := writer c |}) /\
    context_ok cw' /\ fresh (n + 1) cw'.
Proof.
  intros Hr Hok [Hte Hact] Hn Htext. pose proof (context_ok_current cw Hok) as Hc.
  pose proof (estimate_tokens_range text) as He.
  assert (estimate_tokens text <= 2 ^ 60) as He60.
  { assert (str_len text / 4 <= 2 ^ 60) by dlia. lia. }
  destruct Hok as [Ha Hmax (rest & Hms & Hrest) Hs Hb].
  destruct (push_message_ok r text cw c) as (k & cw1 & u & Hp & [E1 E2 E3 E4 E5 E6 E7 E8]);
    [done | unfold fits_usize, activity in *; lia|].
  exists (pushed r text cw1), u. split; [done|].
  assert (drop_oldest k (messages cw) = prompt_message :: drop k rest) as Hd.
  { rewrite Hms. cbn [drop_oldest]. rewrite prompt_system. by rewrite drop_oldest_plain. }
  assert (non_system (new_message r text) = true) as Hns.
  { unfold non_system, is_system. simpl. by rewrite bool_decide_false. }
  split; [constructor|]; cbn [pushed messages max_tokens current_tokens].
  - by apply pushed_accounted.
  - congruence.
  - exists (drop k rest ++ [new_message r text]). rewrite E1, Hd. split; [done|].
    apply Forall_app. split; [by apply Forall_drop | by constructor].
  - rewrite E1, Hd. rewrite Hms in Hs. apply Forall_cons in Hs as [Hs0 Hs].
    constructor; [done|]. apply Forall_app. split; [by apply Forall_drop|]. by constructor.
  - destruct E7 as [Hroom|Hk].
    + left. destruct E4 as [-> _]. rewrite E1, Hmax in *. exact Hroom.
    + right. exists (new_message r text). rewrite E1, Hd, Hk, Hms. unfold non_systems. cbn [List.filter].
      rewrite prompt_system, bfilter_Forall_true by done. by rewrite drop_all.
  - pose proof (drop_oldest_length k (messages cw) E6) as Hlen.
    unfold fresh, activity, message_count in *. cbn [pushed messages total_evicted].
    rewrite length_app, E1. simpl. lia.
Qed.

Lemma status_len cw : context_ok cw -> fresh (2 ^ 63) cw -> str_len (status cw) <= 2000.
Proof.
  intros Hok [Hte Hact]. pose proof (context_ok_current cw Hok) as Hc.
  destruct Hok as [_ Hmax _ _ _]. unfold activity, message_count in *.
  unfold status, newline_str, message_count.
  pose proof (display_uint_len (current_tokens cw) 64 ltac:(lia) ltac:(lia)).
  pose proof (display_uint_len (max_tokens cw) 64 ltac:(lia) ltac:(lia)).
  pose proof (display_uint_len (Z.of_nat (length (messages cw))) 64 ltac:(lia) ltac:(lia)).
  pose proof (display_uint_len (total_evicted cw) 64 ltac:(lia) ltac:(lia)).
  match goal with |- context [display_f64_1 (f64_mul ?x ?y)] =>
    pose proof (display_f64_1_len _ (f64_mul_rounded x y)) end.
  str_lens. lia.
Qed.

(** The input is a call of the calculator that overflows. *)
Definition calc_panics (input : string) : Prop :=
  exists expr, input = "/tool calc " +:+ expr /\ panics (exec_calculator expr).

(** An input as the program can receive it: valid, of a size memory can hold,
    and not a calculation that overflows. *)
Definition input_ok (input : string) : Prop :=
  valid_str input = true /\ str_len input < 2 ^ 60 /\ ~ calc_panics input.

Lemma splitn2_space_cases s :
  (exists k v, splitn2_space s = [k; v] /\ s = k +:+ " " +:+ v /\ no_space k = true) \/
  splitn2_space s = [s].
Proof.
  unfold splitn2_space. destruct (split_once_space s) as [[k v]|] eqn:Hs; [|by right].
  left. exists k, v. by apply split_once_space_Some in Hs as [-> ?].
Qed.

Lemma empty_calc_returns : ~ panics (exec_calculator "").
Proof. intros [why H]. by vm_compute in H. Qed.

Lemma handle_tool_call_ok input ag c n :
  agent_ok ag -> fresh n (context ag) -> n < 2 ^ 63 -> str_len input < 2 ^ 60 ->
  (forall expr, input = "calc " +:+ expr -> ~ panics (exec_calculator expr)) ->
  exists resp ag' u, handle_tool_call input ag c =
      Ret ((resp, ag'), {| serial1 := u; writer := writer c |}) /\
    agent_ok ag' /\ fresh (n + 1) (context ag') /\ str_len resp < 2 ^ 62.
Proof.
  intros [Hcx Htools Hmem] Hfr Hn Hlen Hcalc. unfold handle_tool_call.
  set (name := default "" (splitn2_space input !! 0%nat)).
  set (args := default "" (splitn2_space input !! 1%nat)).
  pose proof (str_len_nonneg input).
  assert (str_len name < 2 ^ 60 /\ str_len args < 2 ^ 60 /\
          (name = "calc" -> ~ panics (exec_calculator args))) as (Hnl & Hal & Hc).
  { unfold name, args.
    destruct (splitn2_space_cases input) as [(k & v & -> & -> & _)| ->]; simpl.
    - pose proof (str_len_nonneg k). pose proof (str_len_nonneg v). str_lens.
      split_and!; [lia | lia |]. intros ->. by apply Hcalc.
    - split_and!; [done | done |]. intros _. apply empty_calc_returns. }
  clearbody name args.
  destruct (execute_returns name args (tool_registry ag) Hc Htools) as (r & reg & He).
  destruct (execute_within (2 ^ 60) _ _ _ _ _ Htools Hmem Hnl Hal He) as [Hrl Hmem'].
  destruct (execute_frame _ _ _ _ _ He) as [Ht' _].
  unfold mbind, io_bind, lift. rewrite He.
  destruct r as [text|e]; cbn [result_text] in Hrl.
  - destruct (push_context_ok Tool text (context ag) c n) as (cw' & u & Hp & Hok & Hfr');
      [done | done | done | done | lia |].
    cbn [set_registry context]. rewrite Hp. exists text, (set_context cw' (set_registry reg ag)), u.
    split; [done|]. split; [|split; [done|lia]].
    constructor; [done | by simpl; rewrite Ht' | done].
  - exists ("Tool error: " +:+ e), (set_registry reg ag), (serial1 c).
    split; [by destruct c|]. split_and!.
    + constructor; [done | by simpl; rewrite Ht' | done].
    + destruct Hfr. split; [done|]. simpl. lia.
    + str_lens. lia.
Qed.

Lemma respond_ok input ag c n :
  agent_ok ag -> fresh n (context ag) -> n < 2 ^ 63 -> input_ok input ->
  exists resp ag' u, respond input ag c =
      Ret ((resp, ag'), {| serial1 := u; writer := writer c |}) /\
    agent_ok ag' /\ fresh (n + 1) (context ag') /\ str_len resp < 2 ^ 62.
Proof.
  intros Hok Hfr Hn (Hv & Hlen & Hcalc). unfold respond.
  assert (fresh (n + 1) (context ag)) as Hfr1 by (destruct Hfr; split; [done | lia]).
  destruct (starts_with input "/tool ") eqn:Htool.
  { apply starts_with_inv in Htool as [rest ->]. unfold mbind, io_bind, lift.
    change 6%nat with (String.length "/tool "). rewrite str_from_prefix by done.
    apply handle_tool_call_ok; [done | done | done | str_lens; lia |].
    intros expr ->. intros Hp. apply Hcalc. by exists expr. }
  destruct (starts_with input "/context").
  { exists (status (context ag)), ag, (serial1 c). split; [by destruct c|].
    split_and!; [done | done |].
    pose proof (status_len (context ag) (ao_context _ Hok)) as Hs.
    destruct Hfr. assert (fresh (2 ^ 63) (context ag)) by (split; [done | lia]).
    specialize (Hs H1). lia. }
  destruct (starts_with input "/help").
  { exists help_text, ag, (serial1 c). split; [by destruct c|]. split_and!; [done | done |].
    vm_compute. reflexivity. }
  exists ("[echo] " +:+ input), ag, (serial1 c). split; [by destruct c|].
  split_and!; [done | done |]. str_lens. lia.
Qed.

Lemma process_input_ok input ag c n :
  agent_ok ag -> fresh n (context ag) -> n + 3 < 2 ^ 63 -> input_ok input ->
  exists resp ag' u, process_input input ag c =
      Ret ((resp, ag'), {| serial1 := u; writer := writer c |}) /\
    agent_ok ag' /\ fresh (n + 3) (context ag').
Proof.
  intros [Hcx Htools Hmem] Hfr Hn Hin. pose proof Hin as (_ & Hlen & _). unfold process_input.
  destruct (push_context_ok User input (context ag) c n) as (cw & u & Hp & Hok1 & Hfr1);
    [done | done | done | lia | lia |].
  unfold mbind, io_bind. rewrite Hp.
  destruct (serial_println_ok ("[agent] Processing input: " +:+ input)
              {| serial1 := u; writer := writer c |}) as [u1 ->].
  cbn [writer].
  destruct (respond_ok input (set_context cw ag) {| serial1 := u1; writer := writer c |} (n + 1))
    as (resp & ag2 & u2 & -> & [Hcx2 Ht2 Hm2] & Hfr2 & Hrl);
    [by constructor | done | lia | done |].
  destruct (push_context_ok Assistant resp (context ag2) {| serial1 := u2; writer := writer c |} (n + 1 + 1))
    as (cw3 & u3 & Hp3 & Hok3 & Hfr3); [done | done | done | lia | done |].
  cbn [writer] in *. rewrite Hp3. exists resp, (set_context cw3 ag2), u3.
  split; [done|]. split; [by constructor|].
  destruct Hfr3. split; [done|]. simpl. lia.
Qed.

(** [boot] on a new agent. *)
Lemma boot_ok c :
  wf_console c ->
  exists ag c', boot Agent_new c = Ret (ag, c') /\ wf_console c' /\ agent_ok ag /\
    messages (context ag) = [prompt_message] /\ fresh 1 (context ag) /\
    tool_registry ag = builtin_registry ToolRegistry_new.
Proof.
  intros Hc. unfold boot, mbind, io_bind.
  destruct (serial_println_ok "[agent] Booting agent..." c) as [u ->].
  destruct (push_message_ok System system_prompt (context Agent_new)
              {| serial1 := u; writer := writer c |}) as (k & cw & u1 & Hp & [E1 E2 E3 E4 E5 E6 E7 E8]);
    [by_compute | by_compute|].
  simpl in E6. assert (k = 0%nat) as -> by (unfold non_systems in E6; simpl in E6; lia).
  assert (cw = ContextWindow_new 4096) as ->.
  { destruct cw as [ms mx cu te]. simpl in *. destruct E4 as [Hcu _]. simpl in Hcu. subst. done. }
  rewrite Hp. set (cw1 := pushed System system_prompt (ContextWindow_new 4096)) in *.
  cbn [writer].
  match goal with |- context [serial_println ?t {| serial1 := u1; writer := _ |}] =>
    destruct (serial_println_ok t {| serial1 := u1; writer := writer c |}) as [u2 ->] end.
  cbn [writer].
  match goal with |- context [serial_println ?t {| serial1 := u2; writer := _ |}] =>
    destruct (serial_println_ok t {| serial1 := u2; writer := writer c |}) as [u3 ->] end.
  cbn [writer].
  match goal with |- context [println ?t {| serial1 := u3; writer := _ |}] =>
    destruct (println_ok t {| serial1 := u3; writer := writer c |} Hc) as (w1 & -> & Hw1) end.
  cbn [serial1].
  match goal with |- context [println ?t {| serial1 := u3; writer := w1 |}] =>
    destruct (println_ok t {| serial1 := u3; writer := w1 |} Hw1) as (w2 & -> & Hw2) end.
  eexists _, _. split; [done|]. split; [done|].
  split; [constructor|]; [constructor| | |split; [|split]]; try done.
  - by_compute.
  - by exists [].
  - by_compute.
  - left. vm_compute. discriminate.
Qed.
End agent_proofs.

(** ** Runs and the log of an exchange *)

Section runs.
Context {B : Build} {U : Uart}.

Fixpoint run (inputs : list string) (ag : Agent) : io (list string * Agent) :=
  match inputs with
  | [] => mret ([], ag)
  | input :: inputs' =>
      '(resp, ag1) ← process_input input ag;
      '(resps, ag2) ← run inputs' ag1;
      mret (resp :: resps, ag2)
  end.

(** The messages one tool call adds to the log. *)
Definition tool_exchange (input : string) (r : result string string) : list (Role * string) :=
  match r with
  | Ok text => [(User, input); (Tool, text); (Assistant, text)]
  | Err e => [(User, input); (Assistant, "Tool error: " +:+ e)]
  end.

Definition tool_response (r : result string string) : string :=
  match r with Ok text => text | Err e => "Tool error: " +:+ e end.

Lemma run_ok {UL : UartLaws U} inputs ag c n :
  agent_ok ag -> fresh n (context ag) -> Forall input_ok inputs ->
  n + 3 * Z.of_nat (length inputs) < 2 ^ 63 ->
  exists resps ag' c', run inputs ag c = Ret ((resps, ag'), c') /\
    length resps = length inputs /\ agent_ok ag' /\ writer c' = writer c.
Proof.
  intros Hok Hfr Hin. revert ag c n Hok Hfr.
  induction Hin as [|input inputs Hi _ IH]; intros ag c n Hok Hfr Hn; simpl.
  { by exists [], ag, c. }
  simpl in Hn. unfold mbind, io_bind.
  destruct (process_input_ok input ag c n) as (resp & ag1 & u & -> & Hok1 & Hfr1);
    [done | done | lia | done |].
  destruct (IH ag1 {| serial1 := u; writer := writer c |} (n + 3)) as (resps & ag' & c' & -> & Hl & Hok' & Hw);
    [done | done | lia |].
  exists (resp :: resps), ag', c'. simpl. by rewrite Hl.
Qed.

(** The devices do not influence the window: the same push gives the same
    window on any console. *)
Lemma evict_loop_console {UL : UartLaws U} fuel tokens cw c cw' c' c2 :
  evict_loop fuel tokens cw c = Ret (cw', c') ->
  exists c2', evict_loop fuel tokens cw c2 = Ret (cw', c2').
Proof.
  revert cw c c2. induction fuel as [|fuel IH]; intros cw c c2; [done|].
  cbn [evict_loop]. unfold mbind, io_bind, lift.
  destruct (u64_add (current_tokens cw) tokens) as [total|]; [|done].
  destruct (max_tokens cw <? total); [|intros [= -> _]; by eexists].
  destruct (evict_oldest cw) as [[m|] cw1]; [|intros [= -> _]; by eexists].
  destruct (u64_add (total_evicted cw1) 1) as [k|]; [|done].
  destruct (serial_println_ok (eviction_notice m k) c) as [u ->].
  destruct (serial_println_ok (eviction_notice m k) c2) as [u2 ->].
  apply IH.
Qed.

Lemma push_message_console {UL : UartLaws U} r text cw c cw' c' c2 :
  push_message r text cw c = Ret (cw', c') ->
  exists c2', push_message r text cw c2 = Ret (cw', c2').
Proof.
  unfold push_message, mbind, io_bind, lift.
  destruct (evict_loop _ _ cw c) as [[cw1 c1]|] eqn:He; [|done].
  destruct (evict_loop_console _ _ _ _ _ _ c2 He) as [c2' ->].
  destruct (u64_add _ _); [|done]. intros [= <- _]. by eexists.
Qed.

(** The parts of [process_input]. *)
Lemma process_input_parts input ag c resp ag' c' :
  process_input input ag c = Ret ((resp, ag'), c') ->
  exists cw1 c1 c2 ag2 c3 cw3, push_message User input (context ag) c = Ret (cw1, c1) /\
    respond input (set_context cw1 ag) c2 = Ret ((resp, ag2), c3) /\
    push_message Assistant resp (context ag2) c3 = Ret (cw3, c') /\
    ag' = set_context cw3 ag2.
Proof.
  unfold process_input, mbind, io_bind.
  destruct (push_message User input (context ag) c) as [[cw1 c1]|]; [|done].
  destruct (serial_println _ c1) as [[[] c2]|]; [|done].
  destruct (respond input (set_context cw1 ag) c2) as [[[resp' ag2] c3]|] eqn:Hr; [|done].
  destruct (push_message Assistant resp' (context ag2) c3) as [[cw3 c4]|] eqn:Hp; [|done].
  intros [= -> <- ->]. by exists cw1, c1, c2, ag2, c3, cw3.
Qed.

(** What [respond] does on a tool call. *)
Lemma respond_tool name args ag c resp ag' c' :
  no_space name = true -> valid_str ("/tool " +:+ name +:+ " " +:+ args) = true ->
  respond ("/tool " +:+ name +:+ " " +:+ args) ag c = Ret ((resp, ag'), c') ->
  exists r, execute name args (tool_registry ag) = Ret (r, tool_registry ag') /\
    resp = tool_response r /\
    match r with
    | Ok text => push_message Tool text (context ag) c = Ret (context ag', c')
    | Err _ => context ag' = context ag /\ c' = c
    end.
Proof.
  intros Hns Hv. unfold respond. rewrite starts_with_app.
  unfold mbind, io_bind, lift. change 6%nat with (String.length "/tool ").
  rewrite str_from_prefix by done. unfold handle_tool_call, mbind, io_bind, lift.
  rewrite splitn2_space_app by done. simpl default.
  destruct (execute name args (tool_registry ag)) as [[[text|e] reg]|]; [| |done].
  - cbn [set_registry context]. destruct (push_message Tool text (context ag) c) as [[cw c1]|] eqn:Hp; [|done].
    intros [= <- <- <-]. by exists (Ok text).
  - intros [= <- <- <-]. by exists (Err e).
Qed.
End runs.

(** ** Properties *)

Section properties.
Context {B : Build} {U : Uart} {UL : UartLaws U}.

(** [boot] on a new agent returns: the window holds exactly
    the system prompt, counted as 51 tokens of 4096, and the registry holds the
    four tools, listed in alphabetical order, with an empty memory. *)
Theorem agent_boots c :
  wf_console c ->
  exists ag c', boot Agent_new c = Ret (ag, c') /\ wf_console c' /\
    messages (context ag) = [new_message System system_prompt] /\
    current_tokens (context ag) = 51 /\ max_tokens (context ag) = 4096 /\
    tool_count (tool_registry ag) = 4 /\
    tool_names (tool_registry ag) = ["calc"; "echo"; "recall"; "store"] /\
    memory (tool_registry ag) = ∅.
Proof.
  intros Hc. destruct (boot_ok c Hc) as (ag & c' & Hb & Hc' & [[[Hcur _] Hmax _ _ _] _ _] & Hms & _ & Hreg).
  exists ag, c'. rewrite Hms in Hcur. rewrite Hreg.
  split_and!; [done | done | done | by rewrite Hcur; vm_compute | done | by vm_compute..].
Qed.

(** C1 (safety). The booted agent survives every sequence of inputs that has no
    overflowing calculation in it: it answers each of them, never panics (no
    counter overflows, no slice is off a character boundary, no loop runs out of
    fuel), leaves the screen as the boot left it, well formed, keeps the system
    prompt as the first message and the only system message, keeps its four
    tools, and keeps its window within 4096 tokens unless one message alone next
    to the prompt exceeds them.  (The heap is taken to be large enough: what the
    tools store is never removed, and that an allocation can fail is not
    modelled.) *)
Theorem agent_run_safe inputs c :
  wf_console c -> Forall input_ok inputs -> Z.of_nat (length inputs) < 2 ^ 60 ->
  exists ag resps ag' c1 c',
    boot Agent_new c = Ret (ag, c1) /\ run inputs ag c1 = Ret ((resps, ag'), c') /\
    length resps = length inputs /\
    wf_console c1 /\ wf_console c' /\ writer c' = writer c1 /\
    (exists rest, messages (context ag') = new_message System system_prompt :: rest /\
       Forall (fun m => role m <> System) rest) /\
    tools (tool_registry ag') = builtin_tools /\
    (current_tokens (context ag') <= 4096 \/
     exists m, messages (context ag') = [new_message System system_prompt; m]).
Proof.
  intros Hc Hin Hlen. destruct (boot_ok c Hc) as (ag & c1 & Hb & Hc1 & Hok & _ & Hfr & _).
  destruct (run_ok inputs ag c1 1 Hok Hfr Hin) as (resps & ag' & c' & Hr & Hl & [Hcx Ht _] & Hwr); [lia|].
  exists ag, resps, ag', c1, c'. do 4 (split; [done|]).
  split; [unfold wf_console; by rewrite Hwr|]. split; [done|].
  destruct Hcx as [_ _ (rest & Hms & Hrest) _ Hbd]. split_and!; [|done|done].
  exists rest. split; [done|]. eapply Forall_impl; [exact Hrest|].
  intros m. unfold non_system, is_system. simpl. by case_bool_decide.
Qed.

(** C29 (functional). What a tool call logs and answers.  A successful call adds
    three messages: the input, the tool's result, and the same text as the
    answer.  A failing call adds only two, the input and the answer "Tool
    error: ..": the error is not added as a tool message.  The registry is the
    one the tool left. *)
Theorem tool_call_logged name args ag c resp ag' c' :
  no_space name = true -> valid_str ("/tool " +:+ name +:+ " " +:+ args) = true ->
  process_input ("/tool " +:+ name +:+ " " +:+ args) ag c = Ret ((resp, ag'), c') ->
  exists r c'', execute name args (tool_registry ag) = Ret (r, tool_registry ag') /\
    resp = tool_response r /\
    push_all (tool_exchange ("/tool " +:+ name +:+ " " +:+ args) r) (context ag) c =
      Ret (context ag', c'').
Proof.
  intros Hns Hv Hp. apply process_input_parts in Hp as (cw1 & c1 & c2 & ag2 & c3 & cw3 & H1 & H2 & H3 & ->).
  apply respond_tool in H2 as (r & He & -> & Hr); [|done|done]. cbn [set_context tool_registry context] in *.
  exists r. destruct r as [text|e]; cbn [tool_exchange push_all tool_response] in *; unfold mbind, io_bind.
  - destruct (push_message_console _ _ _ _ _ _ c1 Hr) as [c4 Hr'].
    destruct (push_message_console _ _ _ _ _ _ c4 H3) as [c5 H3'].
    exists c5. rewrite H1, Hr', H3'. done.
  - destruct Hr as [Hcx ->]. rewrite Hcx in H3.
    destruct (push_message_console _ _ _ _ _ _ c1 H3) as [c5 H3'].
    exists c5. rewrite H1, H3'. done.
Qed.

(** C28 (roundtrip). Memory works end to end: after the user stored a value with
    "/tool store key value", the command "/tool recall key" is answered "key =
    value", for every value and every key without white space around it or a
    space in it. *)
Theorem agent_remembers k v ag c :
  agent_ok ag -> fresh (2 ^ 62) (context ag) -> no_space k = true -> str_trim k = k ->
  input_ok ("/tool store " +:+ k +:+ " " +:+ v) -> input_ok ("/tool recall " +:+ k) ->
  exists r1 r2 ag1 ag2 c1 c2,
    process_input ("/tool store " +:+ k +:+ " " +:+ v) ag c = Ret ((r1, ag1), c1) /\
    process_input ("/tool recall " +:+ k) ag1 c1 = Ret ((r2, ag2), c2) /\
    r1 = "Stored: " +:+ k +:+ " = " +:+ v /\ r2 = k +:+ " = " +:+ v.
Proof.
  intros Hok Hfr Hns Htrim Hi1 Hi2.
  destruct (process_input_ok _ ag c (2 ^ 62) Hok Hfr ltac:(lia) Hi1) as (r1 & ag1 & u1 & P1 & Hok1 & Hfr1).
  destruct (process_input_ok _ ag1 {| serial1 := u1; writer := writer c |} (2 ^ 62 + 3) Hok1 Hfr1
              ltac:(lia) Hi2) as (r2 & ag2 & u2 & P2 & Hok2 & _).
  eexists r1, r2, ag1, ag2, _, _. split; [exact P1|]. split; [exact P2|].
  apply process_input_parts in P1 as (cw1 & ? & ? & ag1' & ? & ? & _ & R1 & _ & ->).
  apply process_input_parts in P2 as (cw2 & ? & ? & ag2' & ? & ? & _ & R2 & _ & ->).
  apply (respond_tool "store" (k +:+ " " +:+ v)) in R1 as (q1 & E1 & -> & _); [|done|apply Hi1].
  apply (respond_tool "recall" k) in R2 as (q2 & E2 & -> & _); [|done|apply Hi2].
  cbn [set_context tool_registry] in *. unfold execute in E1, E2.
  rewrite (ao_tools _ Hok) in E1. change (builtin_tools !! "store") with (Some MemoryStore) in E1.
  cbv iota in E1. rewrite exec_memory_store_ok in E1 by done. injection E1 as <- Hreg.
  pose proof (ao_tools _ Hok1) as Ht1. cbn [set_context tool_registry] in Ht1.
  rewrite Ht1 in E2. change (builtin_tools !! "recall") with (Some MemoryRecall) in E2.
  cbv iota in E2. injection E2 as <- _. split; [done|].
  rewrite (exec_memory_recall_ok k k v); [done | done |]. rewrite <-Hreg. simpl.
  by rewrite lookup_insert_eq.
Qed.
End properties.

(** ** Witnesses *)

Definition booted : Agent :=
  {| context := pushed System system_prompt (ContextWindow_new 4096);
     tool_registry := builtin_registry ToolRegistry_new |}.

Lemma booted_ok : agent_ok booted.
Proof.
  constructor; [constructor| |]; simpl; try done.
  - by_compute.
  - by exists [].
  - by_compute.
  - left. vm_compute. discriminate.
Qed.

Lemma agent_boots_witness :
  wf_console sample_console /\
  exists ag c', boot (B := true) Agent_new sample_console = Ret (ag, c') /\
    tool_names (tool_registry ag) = ["calc"; "echo"; "recall"; "store"].
Proof.
  assert (wf_console sample_console) as Hc by by_compute. split; [exact Hc|].
  destruct (agent_boots (B := true) sample_console Hc) as (ag & c' & Hb & _ & _ & _ & _ & _ & Hn & _).
  exists ag, c'. split; [exact Hb | exact Hn].
Defined.

Definition sample_inputs : list string :=
  ["/tool calc 6 * 7"; "/context"; "hello"; "/tool nope"; "/help"].

Lemma not_calc_panics {B : Build} input :
  starts_with input "/tool calc " = false -> ~ calc_panics input.
Proof. intros H [expr [-> _]]. by rewrite starts_with_app in H. Qed.

Lemma agent_run_safe_witness :
  Forall (input_ok (B := true)) sample_inputs /\
  exists ag resps ag' c1 c',
    boot (B := true) Agent_new sample_console = Ret (ag, c1) /\
    run (B := true) sample_inputs ag c1 = Ret ((resps, ag'), c') /\
    length resps = 5%nat.
Proof.
  assert (Forall (input_ok (B := true)) sample_inputs) as Hin.
  { repeat constructor; try reflexivity; try (apply not_calc_panics; reflexivity).
    intros [expr [He Hp]]. change "/tool calc 6 * 7" with ("/tool calc " +:+ "6 * 7") in He.
    apply (inj (String.append "/tool calc ")) in He as <-.
    destruct Hp as [why Hp]. vm_compute in Hp. discriminate. }
  split; [exact Hin|].
  destruct (agent_run_safe (B := true) sample_inputs sample_console)
    as (ag & resps & ag' & c1 & c' & Hb & Hr & Hl & _).
  - by_compute.
  - exact Hin.
  - vm_compute. reflexivity.
  - exists ag, resps, ag', c1, c'. split; [exact Hb|]. split; [exact Hr | exact Hl].
Defined.

Lemma tool_call_logged_witness :
  exists resp ag' c', process_input (B := true) "/tool calc 1 / 0" booted sample_console =
      Ret ((resp, ag'), c') /\ resp = "Tool error: Division by zero" /\
    exists r c'', push_all (B := true) (tool_exchange "/tool calc 1 / 0" r) (context booted)
      sample_console = Ret (context ag', c'').
Proof.
  destruct (process_input (B := true) "/tool calc 1 / 0" booted sample_console)
    as [[[resp ag'] c']|] eqn:Hp; [|vm_compute in Hp; discriminate].
  exists resp, ag', c'. split; [reflexivity|].
  destruct (tool_call_logged (B := true) "calc" "1 / 0" booted sample_console resp ag' c')
    as (r & c'' & _ & _ & Hl).
  - reflexivity.
  - reflexivity.
  - exact Hp.
  - split; [vm_compute in Hp; congruence|]. exists r, c''. exact Hl.
Defined.

Lemma agent_remembers_witness :
  exists r1 r2 ag1 ag2 c1 c2,
    process_input (B := true) "/tool store pi 3.14" booted sample_console = Ret ((r1, ag1), c1) /\
    process_input (B := true) "/tool recall pi" ag1 c1 = Ret ((r2, ag2), c2) /\
    r2 = "pi = 3.14".
Proof.
  destruct (agent_remembers (B := true) "pi" "3.14" booted sample_console)
    as (r1 & r2 & ag1 & ag2 & c1 & c2 & H1 & H2 & _ & H3).
  - apply booted_ok.
  - by_compute.
  - reflexivity.
  - reflexivity.
  - split; [reflexivity|]. split; [reflexivity|]. apply not_calc_panics. reflexivity.
  - split; [reflexivity|]. split; [reflexivity|]. apply not_calc_panics. reflexivity.
  - exists r1, r2, ag1, ag2, c1, c2. split; [exact H1|]. split; [exact H2 | exact H3].
Defined.
