(* ===== verification/UnstableSort.v ===== *)
(** * [slice::sort_unstable_by]

    The standard library's unstable sort, as the interface the memory map uses:
    it rearranges the slice so that no element is less than one before it,
    where "less" is the test [compare(a, b) == Less] the library performs, for
    every comparison whose "less" is a strict weak order.  Which of several
    equivalent elements comes first is not specified, so the clients' theorems
    hold for every lawful sort; insertion sort shows that there is one. *)

From Stdlib Require Import Lia Sorted.
From stdpp Require Import base decidable numbers list.
From S2P Require Import Prelude.

Definition less {A} (compare : A -> A -> comparison) (a b : A) : bool :=
  match compare a b with Lt => true | _ => false end.

(** "Less" is irreflexive, transitive, and so is being equivalent. *)
Record strict_weak {A} (compare : A -> A -> comparison) : Prop := {
  sw_irrefl : forall a, less compare a a = false;
  sw_trans : forall a b c, less compare a b = true -> less compare b c = true ->
    less compare a c = true;
  sw_negtrans : forall a b c, less compare a b = false -> less compare b c = false ->
    less compare a c = false;
}.

Class UnstableSort := sort_unstable_by : forall A, (A -> A -> comparison) -> list A -> list A.
Arguments sort_unstable_by {_ A} compare l.

Class UnstableSortLaws (S : UnstableSort) : Prop := {
  sort_permutation : forall A (compare : A -> A -> comparison) l,
    Permutation (sort_unstable_by compare l) l;
  sort_sorted : forall A (compare : A -> A -> comparison) l, strict_weak compare ->
    StronglySorted (fun a b => less compare b a = false) (sort_unstable_by compare l);
}.

(** ** Insertion sort *)

Section insertion_sort.
Context {A : Type} (compare : A -> A -> comparison).

Fixpoint insert_sorted (x : A) (l : list A) : list A :=
  match l with
  | [] => [x]
  | y :: l' => if less compare x y then x :: l else y :: insert_sorted x l'
  end.

Fixpoint insertion_sort (l : list A) : list A :=
  match l with
  | [] => []
  | x :: l' => insert_sorted x (insertion_sort l')
  end.

Lemma insert_sorted_permutation x l : Permutation (insert_sorted x l) (x :: l).
Proof.
  induction l as [|y l IH]; simpl; [done|]. destruct (less compare x y); [done|].
  rewrite IH. apply perm_swap.
Qed.

Lemma insertion_sort_permutation l : Permutation (insertion_sort l) l.
Proof.
  induction l as [|x l IH]; simpl; [done|]. by rewrite insert_sorted_permutation, IH.
Qed.

Lemma insert_sorted_sorted x l :
  strict_weak compare ->
  StronglySorted (fun a b => less compare b a = false) l ->
  StronglySorted (fun a b => less compare b a = false) (insert_sorted x l).
Proof.
  intros [Hirr Htr Hneg]. induction 1 as [|y l Hl IH Hy]; simpl; [repeat constructor|].
  destruct (less compare x y) eqn:Hxy.
  - assert (less compare y x = false) as Hyx.
    { destruct (less compare y x) eqn:Hyx; [|done].
      by rewrite <-(Hirr x), (Htr x y x) by done. }
    constructor; [by constructor|]. constructor; [done|].
    eapply List.Forall_impl; [|exact Hy]. intros z Hz. simpl in Hz. by apply (Hneg z y x).
  - constructor; [done|].
    eapply (Permutation_Forall (Permutation_sym (insert_sorted_permutation x l))).
    by constructor.
Qed.

Lemma insertion_sort_sorted l :
  strict_weak compare ->
  StronglySorted (fun a b => less compare b a = false) (insertion_sort l).
Proof.
  intros Hw. induction l as [|x l IH]; simpl; [constructor|]. by apply insert_sorted_sorted.
Qed.
End insertion_sort.

#[export] Instance insertion_sort_instance : UnstableSort := @insertion_sort.

#[export] Instance insertion_sort_laws : UnstableSortLaws insertion_sort_instance.
Proof.
  constructor.
  - intros. apply insertion_sort_permutation.
  - intros. by apply insertion_sort_sorted.
Qed.
