(* ===== verification/MemoryMap.v ===== *)
(** * The physical memory map
      (src/bootloader/src/bootinfo/memory_map.rs, src/bootloader/src/boot_info.rs)

    A fixed array of 64 regions, the first [next_entry_index] of which are in
    use.  A region is a range of frame numbers (start inclusive, end exclusive)
    and a type; a range is empty when start and end are equal.  Frame numbers
    and addresses are [u64] with the overflow behaviour of the build.  The
    number of used entries is at most 64 and kept as a [nat]. *)

From Stdlib Require Import Lia Sorted.
From stdpp Require Import base decidable strings numbers list.
From S2P Require Import Prelude RustStr UnstableSort.

Open Scope Z_scope.

Definition PAGE_SIZE : Z := 4096.
Definition MAX_MEMORY_MAP_SIZE : nat := 64.

Inductive MemoryRegionType :=
| Usable | InUse | Reserved | AcpiReclaimable | AcpiNvs | BadMemory | Kernel | KernelStack
| PageTable | Bootloader | FrameZero | EmptyRegion | BootInfoRegion | Package | NonExhaustive.

#[export] Instance MemoryRegionType_eq_dec : EqDecision MemoryRegionType.
Proof. solve_decision. Defined.

Record FrameRange := { start_frame_number : Z; end_frame_number : Z }.

#[export] Instance FrameRange_eq_dec : EqDecision FrameRange.
Proof. solve_decision. Defined.

Record MemoryRegion := { range : FrameRange; region_type : MemoryRegionType }.

#[export] Instance MemoryRegion_eq_dec : EqDecision MemoryRegion.
Proof. solve_decision. Defined.

Record E820MemoryRegion := {
  e820_start_addr : Z;
  e820_len : Z;
  e820_region_type : Z;
  acpi_extended_attributes : Z;
}.

(** [r.range.start_frame_number] and the like. *)
Abbreviation rstart r := (start_frame_number (range r)).
Abbreviation rend r := (end_frame_number (range r)).

Definition mk_region (s e : Z) (t : MemoryRegionType) : MemoryRegion :=
  {| range := {| start_frame_number := s; end_frame_number := e |}; region_type := t |}.

Definition MemoryRegion_empty : MemoryRegion := mk_region 0 0 EmptyRegion.

Definition is_empty (r : FrameRange) : bool := start_frame_number r =? end_frame_number r.

Record MemoryMap := { entries : list MemoryRegion; next_entry_index : nat }.

Definition MemoryMap_new : MemoryMap :=
  {| entries := replicate MAX_MEMORY_MAP_SIZE MemoryRegion_empty; next_entry_index := 0 |}.

(** The names [derive(Debug)] gives the variants. *)
Definition debug_region_type (t : MemoryRegionType) : string :=
  match t with
  | Usable => "Usable" | InUse => "InUse" | Reserved => "Reserved"
  | AcpiReclaimable => "AcpiReclaimable" | AcpiNvs => "AcpiNvs" | BadMemory => "BadMemory"
  | Kernel => "Kernel" | KernelStack => "KernelStack" | PageTable => "PageTable"
  | Bootloader => "Bootloader" | FrameZero => "FrameZero" | EmptyRegion => "Empty"
  | BootInfoRegion => "BootInfo" | Package => "Package" | NonExhaustive => "NonExhaustive"
  end.

(** The comparison [sort] passes to [sort_unstable_by]. *)
Definition region_cmp (r1 r2 : MemoryRegion) : comparison :=
  if is_empty (range r1) then Gt
  else if is_empty (range r2) then Lt
  else match rstart r1 ?= rstart r2 with
       | Eq => rend r1 ?= rend r2
       | o => o
       end.

(** [Deref]: the entries in use; [with_slice] writes them back. *)
Definition slice (mm : MemoryMap) : list MemoryRegion := take (next_entry_index mm) (entries mm).
Definition with_slice (l : list MemoryRegion) (mm : MemoryMap) : MemoryMap :=
  {| entries := l ++ drop (next_entry_index mm) (entries mm);
     next_entry_index := next_entry_index mm |}.

Section memory_map.
Context {B : Build} {SORT : UnstableSort}.

Definition FrameRange_new (start_addr end_addr : Z) : outcome FrameRange :=
  last_byte ← u64_sub end_addr 1;
  Ret {| start_frame_number := start_addr / PAGE_SIZE;
         end_frame_number := last_byte / PAGE_SIZE + 1 |}.

Definition start_addr (r : FrameRange) : outcome Z := u64_mul (start_frame_number r) PAGE_SIZE.
Definition end_addr (r : FrameRange) : outcome Z := u64_mul (end_frame_number r) PAGE_SIZE.

(** [Debug] of a range, a region and a map; the addresses may overflow. *)
Definition debug_frame_range (r : FrameRange) : outcome string :=
  s ← start_addr r;
  e ← end_addr r;
  Ret ("FrameRange(" +:+ display_hex s +:+ ".." +:+ display_hex e +:+ ")").

Definition debug_region (r : MemoryRegion) : outcome string :=
  text ← debug_frame_range (range r);
  Ret ("MemoryRegion { range: " +:+ text +:+ ", region_type: " +:+
       debug_region_type (region_type r) +:+ " }").

Definition debug_memory_map (mm : MemoryMap) : outcome string :=
  texts ← for_each (slice mm) (fun r texts => text ← debug_region r; Ret (texts ++ [text])) [];
  Ret ("[" +:+ String.concat ", " texts +:+ "]").

Definition MemoryRegion_from (region : E820MemoryRegion) : outcome MemoryRegion :=
  t ← match e820_region_type region with
      | 1 => Ret Usable
      | 2 => Ret Reserved
      | 3 => Ret AcpiReclaimable
      | 4 => Ret AcpiNvs
      | 5 => Ret BadMemory
      | t => Panic ("invalid region type " +:+ display_uint t)
      end;
  last ← u64_add (e820_start_addr region) (e820_len region);
  r ← FrameRange_new (e820_start_addr region) last;
  Ret {| range := r; region_type := t |}.

Definition sort (mm : MemoryMap) : MemoryMap :=
  let sorted := sort_unstable_by region_cmp (entries mm) in
  {| entries := sorted;
     next_entry_index :=
       match position (fun r => is_empty (range r)) sorted with
       | Some first_zero_index => first_zero_index
       | None => next_entry_index mm
       end |}.

(** The message of the assertion in [add_region]. *)
Definition map_full : string := "too many memory regions in memory map".

Definition add_region (region : MemoryRegion) (mm : MemoryMap) : outcome MemoryMap :=
  if decide (next_entry_index mm < MAX_MEMORY_MAP_SIZE)%nat then
    Ret (sort {| entries := <[next_entry_index mm := region]> (entries mm);
                 next_entry_index := 1 + next_entry_index mm |})
  else Panic map_full.

(** The loop of [create_from] that cuts a usable region at the start of the
    next one. *)
Fixpoint cut_overlaps (l : list MemoryRegion) : list MemoryRegion :=
  match l with
  | region :: ((next :: _) as rest) =>
      (if (rstart next <? rend region) && bool_decide (region_type region = Usable)
       then mk_region (rstart region) (rstart next) (region_type region)
       else region) :: cut_overlaps rest
  | _ => l
  end.

(** [boot_info::create_from] on the regions the firmware reported. *)
Definition create_from (e820_memory_map : list E820MemoryRegion) : outcome MemoryMap :=
  memory_map ← for_each e820_memory_map
    (fun region mm => r ← MemoryRegion_from region; add_region r mm) MemoryMap_new;
  let sorted := sort memory_map in
  Ret (with_slice (cut_overlaps (slice sorted)) sorted).
End memory_map.

(** ** Which regions a frame belongs to *)

Definition contains (f : Z) (r : MemoryRegion) : bool := (rstart r <=? f) && (f <? rend r).

(** The types of the regions of [l] that contain frame [f]. *)
Definition kinds (f : Z) (l : list MemoryRegion) : list MemoryRegionType :=
  map region_type (List.filter (contains f) l).

Definition owners (f : Z) (mm : MemoryMap) : list MemoryRegionType := kinds f (slice mm).

(** No frame belongs to two regions. *)
Definition disjoint_map (mm : MemoryMap) : Prop := forall f, (length (owners f mm) <= 1)%nat.

Definition proper_region (r : MemoryRegion) : Prop := 0 <= rstart r <= rend r /\ rend r < 2 ^ 40.

#[export] Instance proper_region_dec r : Decision (proper_region r).
Proof. unfold proper_region. apply _. Defined.

(** The shape of the array: 64 entries, the unused ones empty, and every range
    a proper one below the end of the physical address space. *)
Definition wf_map (mm : MemoryMap) : Prop :=
  length (entries mm) = MAX_MEMORY_MAP_SIZE /\
  (next_entry_index mm <= MAX_MEMORY_MAP_SIZE)%nat /\
  Forall (fun r => is_empty (range r) = true) (drop (next_entry_index mm) (entries mm)) /\
  Forall proper_region (entries mm).

#[export] Instance wf_map_dec mm : Decision (wf_map mm).
Proof. unfold wf_map. apply _. Defined.

Lemma kinds_app f l k : kinds f (l ++ k) = kinds f l ++ kinds f k.
Proof. unfold kinds. by rewrite List.filter_app, map_app. Qed.

Lemma kinds_cons f r l :
  kinds f (r :: l) = (if contains f r then [region_type r] else []) ++ kinds f l.
Proof. unfold kinds. simpl. by destruct (contains f r). Qed.

Lemma kinds_empty f l :
  Forall (fun r => is_empty (range r) = true) l -> kinds f l = [].
Proof.
  induction 1 as [|r l Hr _ IH]; [done|]. rewrite kinds_cons, IH.
  unfold contains, is_empty in *. case_match; [lia | done].
Qed.

Lemma kinds_permutation f l k : Permutation l k -> Permutation (kinds f l) (kinds f k).
Proof.
  induction 1; rewrite ?kinds_cons.
  - done.
  - by apply Permutation_app_head.
  - rewrite !app_assoc. apply Permutation_app_tail, Permutation_app_comm.
  - by etransitivity.
Qed.

#[export] Instance kinds_proper f : Proper (Permutation ==> Permutation) (kinds f).
Proof. intros l k. apply kinds_permutation. Qed.

Lemma owners_entries f mm : wf_map mm -> owners f mm = kinds f (entries mm).
Proof.
  intros (_ & _ & He & _). unfold owners, slice.
  rewrite <-(take_drop (next_entry_index mm) (entries mm)) at 2.
  by rewrite kinds_app, (kinds_empty f (drop _ _)), app_nil_r.
Qed.

Lemma kinds_elem f l t : t ∈ kinds f l -> exists r, r ∈ l /\ contains f r = true /\ region_type r = t.
Proof.
  unfold kinds. rewrite list_elem_of_In, in_map_iff. intros (r & Hr & Hin).
  apply List.filter_In in Hin as [Hin Hc]. exists r. by rewrite list_elem_of_In.
Qed.

(** ** Sorting *)

Lemma less_region_cmp a b :
  less region_cmp a b = true <->
  is_empty (range a) = false /\
    (is_empty (range b) = true \/
     rstart a < rstart b \/ (rstart a = rstart b /\ rend a < rend b)).
Proof.
  unfold less, region_cmp.
  destruct (is_empty (range a)); [by split; [|intros []]|].
  destruct (is_empty (range b)); [by split; auto|].
  destruct (Z.compare_spec (rstart a) (rstart b)) as [H|H|H];
    [destruct (Z.compare_spec (rend a) (rend b)) | |]; split; intros; try done; try lia;
    intuition (try done; try lia).
Qed.

Lemma region_cmp_strict_weak : strict_weak region_cmp.
Proof.
  constructor; intros *; rewrite <-?not_true_iff_false, !less_region_cmp.
  - intros [-> [?|?]]; [done | lia].
  - intros [Ha Hab] [Hb Hbc]. split; [done|]. rewrite Hb in Hab.
    destruct Hab as [?|?], Hbc as [?|?]; [done.. | by left | right; lia].
  - destruct (is_empty (range a)) eqn:Ha, (is_empty (range b)) eqn:Hb,
      (is_empty (range c)) eqn:Hc; intuition (try done; try lia).
Qed.

(** In a sorted array only empty regions follow an empty one. *)
Lemma sorted_empty_tail pre r post :
  StronglySorted (fun a b => less region_cmp b a = false) (pre ++ r :: post) ->
  is_empty (range r) = true -> Forall (fun x => is_empty (range x) = true) (r :: post).
Proof.
  intros Hs Hr. constructor; [done|].
  induction pre as [|p pre IH]; simpl in Hs; [|apply IH; by inversion Hs].
  inversion Hs as [|? ? _ Hall]; subst. eapply List.Forall_impl; [|exact Hall].
  intros x. unfold less, region_cmp. destruct (is_empty (range x)) eqn:Hx; [done|].
  by rewrite Hr.
Qed.

Definition start_sorted : list MemoryRegion -> Prop :=
  StronglySorted (fun a b => rstart a <= rstart b).

Definition nonempty (r : MemoryRegion) : bool := negb (is_empty (range r)).

Lemma filter_nonempty_kinds f l : kinds f (List.filter nonempty l) = kinds f l.
Proof.
  induction l as [|r l IH]; [done|]. simpl. unfold nonempty at 1.
  destruct (is_empty (range r)) eqn:Hr; simpl; rewrite !kinds_cons, IH; [|done].
  unfold contains, is_empty in *. case_match; [lia | done].
Qed.

Lemma filter_empties l :
  Forall (fun r => is_empty (range r) = true) l -> List.filter nonempty l = [].
Proof.
  intros H. apply bfilter_Forall_false. eapply List.Forall_impl; [|exact H].
  unfold nonempty. by intros x ->.
Qed.

(** The entries up to the first empty one, in a sorted array. *)
Lemma sorted_nonempty_prefix l :
  StronglySorted (fun a b => less region_cmp b a = false) l ->
  (position (fun r => is_empty (range r)) l = None /\ List.filter nonempty l = l) \/
  exists pre post, l = pre ++ post /\ List.filter nonempty l = pre /\
    position (fun r => is_empty (range r)) l = Some (length pre) /\
    Forall (fun r => is_empty (range r) = true) post.
Proof.
  intros Hs. destruct (position _ l) as [i|] eqn:Hpos; [right|left].
  - apply position_Some in Hpos as (pre & r & post & -> & <- & Hr & Hpre).
    pose proof (sorted_empty_tail _ _ _ Hs Hr) as Htl.
    exists pre, (r :: post). repeat split; try done. rewrite List.filter_app.
    rewrite (bfilter_Forall_true _ pre), (bfilter_Forall_false _ (r :: post)), app_nil_r; [done|..].
    + eapply List.Forall_impl; [|exact Htl]. unfold nonempty. by intros x ->.
    + eapply List.Forall_impl; [|exact Hpre]. unfold nonempty. by intros x ->.
  - split; [done|]. apply position_None in Hpos. apply bfilter_Forall_true.
    eapply List.Forall_impl; [|exact Hpos]. unfold nonempty. by intros x ->.
Qed.

(** Regions that are not empty are in the order of their starts. *)
Lemma sorted_start_sorted l :
  StronglySorted (fun a b => less region_cmp b a = false) l ->
  start_sorted (List.filter nonempty l).
Proof.
  induction 1 as [|r l Hs IH Hr]; [constructor|]. simpl. unfold nonempty at 1.
  destruct (is_empty (range r)) eqn:He; simpl; [done|]. constructor; [done|].
  apply List.Forall_forall. intros x [Hin Hx]%List.filter_In.
  rewrite List.Forall_forall in Hr. apply Hr in Hin.
  unfold nonempty in Hx. apply negb_true_iff in Hx.
  destruct (Z.le_gt_cases (rstart r) (rstart x)) as [|Hlt]; [done|].
  assert (less region_cmp x r = true) by (apply less_region_cmp; auto). congruence.
Qed.

Section sort_proofs.
Context {B : Build} {SORT : UnstableSort} {SL : UnstableSortLaws SORT}.

Lemma sort_entries mm : Permutation (entries (sort mm)) (entries mm).
Proof. apply sort_permutation. Qed.

Lemma sort_entries_sorted mm :
  StronglySorted (fun a b => less region_cmp b a = false) (entries (sort mm)).
Proof. apply sort_sorted, region_cmp_strict_weak. Qed.

(** After sorting, the entries in use are the regions that are not empty. *)
Lemma sort_spec mm :
  wf_map mm ->
  wf_map (sort mm) /\ slice (sort mm) = List.filter nonempty (entries (sort mm)) /\
  start_sorted (slice (sort mm)).
Proof.
  intros (Hlen & Hnext & He & Hp). pose proof (sort_entries mm) as Hperm.
  pose proof (sort_entries_sorted mm) as Hs.
  assert (length (entries (sort mm)) = MAX_MEMORY_MAP_SIZE) as Hlen'
    by (by rewrite (Permutation_length Hperm)).
  assert (Forall proper_region (entries (sort mm))) as Hp'
    by (eapply Permutation_Forall; [symmetry; exact Hperm | done]).
  assert (next_entry_index (sort mm) =
    match position (fun r => is_empty (range r)) (entries (sort mm)) with
    | Some i => i | None => next_entry_index mm end) as Hnx by done.
  assert (slice (sort mm) = List.filter nonempty (entries (sort mm)) /\
    Forall (fun r => is_empty (range r) = true) (drop (next_entry_index (sort mm)) (entries (sort mm))) /\
    (next_entry_index (sort mm) <= MAX_MEMORY_MAP_SIZE)%nat) as (Hsl & Hdr & Hle).
  { unfold slice. rewrite Hnx.
    destruct (sorted_nonempty_prefix _ Hs) as [[Hn ->] | (pre & post & Heq & -> & -> & Hpost)].
    - rewrite Hn. apply position_None in Hn.
      destruct (drop (next_entry_index mm) (entries mm)) as [|r rest] eqn:Hd.
      + apply (f_equal length) in Hd. rewrite length_drop, Hlen in Hd. simpl in Hd.
        rewrite drop_ge, take_ge by lia. done.
      + exfalso. assert (r ∈ entries (sort mm)) as Hin.
        { rewrite Hperm, <-(take_drop (next_entry_index mm) (entries mm)), Hd.
          apply elem_of_app. right. by left. }
        apply Forall_cons in He as [Hr _]. rewrite Forall_forall in Hn.
        apply Hn in Hin. congruence.
    - rewrite Heq in *. rewrite take_app_length, drop_app_length.
      rewrite length_app in Hlen'. repeat split; [done | lia]. }
  split; [done|]. split; [done|]. rewrite Hsl. by apply sorted_start_sorted.
Qed.

Lemma sort_wf mm : wf_map mm -> wf_map (sort mm).
Proof. intros. by apply sort_spec. Qed.

Lemma sort_slice mm :
  wf_map mm -> Permutation (slice (sort mm)) (List.filter nonempty (entries mm)).
Proof.
  intros Hw. destruct (sort_spec mm Hw) as (_ & -> & _).
  apply bfilter_permutation, sort_entries.
Qed.

(** Storing a region at the next index, before the sort. *)
Lemma insert_next_wf region mm :
  wf_map mm -> proper_region region -> (next_entry_index mm < MAX_MEMORY_MAP_SIZE)%nat ->
  wf_map {| entries := <[next_entry_index mm := region]> (entries mm);
            next_entry_index := 1 + next_entry_index mm |}.
Proof.
  intros (Hlen & Hnext & He & Hp) Hr Hlt. unfold wf_map; cbn [entries next_entry_index].
  rewrite length_insert. split; [done|]. split; [lia|]. split; [|by apply Forall_insert].
  rewrite drop_insert_lt by lia.
  replace (1 + next_entry_index mm)%nat with (next_entry_index mm + 1)%nat by lia.
  rewrite <-drop_drop. by apply Forall_drop.
Qed.

(** [add_region] stores the region in its place and drops the empty ones. *)
Lemma add_region_slice region mm :
  wf_map mm -> proper_region region -> (next_entry_index mm < MAX_MEMORY_MAP_SIZE)%nat ->
  exists mm', add_region region mm = Ret mm' /\ wf_map mm' /\ start_sorted (slice mm') /\
    Permutation (slice mm') (List.filter nonempty (region :: slice mm)).
Proof.
  intros Hw Hr Hlt. pose proof Hw as (Hlen & Hnext & He & Hp).
  unfold add_region. rewrite decide_True by done. eexists; split; [done|].
  pose proof (insert_next_wf region mm Hw Hr Hlt) as Hw1.
  destruct (sort_spec _ Hw1) as (? & _ & ?). split; [done|]. split; [done|].
  rewrite sort_slice by done. cbn [entries]. rewrite insert_take_drop' by lia.
  fold (slice mm). cbn [List.filter].
  rewrite List.filter_app. cbn [List.filter].
  rewrite (filter_empties (drop _ _))
    by (rewrite <-Nat.add_1_r, <-drop_drop; by apply Forall_drop).
  destruct (nonempty region); [|by rewrite app_nil_r].
  symmetry. apply Permutation_cons_append.
Qed.

Lemma sort_owners f mm : wf_map mm -> Permutation (owners f (sort mm)) (owners f mm).
Proof.
  intros Hw. rewrite !owners_entries by auto using sort_wf.
  apply kinds_permutation, sort_entries.
Qed.

Lemma slice_length mm : wf_map mm -> length (slice mm) = next_entry_index mm.
Proof. intros (Hl & Hn & _). unfold slice. rewrite length_take. lia. Qed.

(** [add_region] adds exactly the frames of the region. *)
Lemma add_region_spec region mm :
  wf_map mm -> proper_region region -> (next_entry_index mm < MAX_MEMORY_MAP_SIZE)%nat ->
  exists mm', add_region region mm = Ret mm' /\ wf_map mm' /\ start_sorted (slice mm') /\
    (next_entry_index mm' <= S (next_entry_index mm))%nat /\
    (forall f, Permutation (owners f mm') (kinds f [region] ++ owners f mm)).
Proof.
  intros Hw Hr Hlt. destruct (add_region_slice region mm Hw Hr Hlt) as (mm' & -> & Hw' & Hs & Hp).
  exists mm'. do 3 (split; [done|]). split.
  { rewrite <-!slice_length, (Permutation_length Hp) by done.
    apply (List.filter_length_le nonempty (region :: slice mm)). }
  intros f. unfold owners at 1.
  rewrite (kinds_permutation f _ _ Hp), filter_nonempty_kinds. unfold owners.
  by rewrite <-kinds_app.
Qed.
End sort_proofs.

(** ** Building the map from the firmware's regions *)

(** The frame lies at least partly in the region the firmware reported. *)
Definition touches (f : Z) (e : E820MemoryRegion) : Prop :=
  e820_start_addr e < PAGE_SIZE * (f + 1) /\ PAGE_SIZE * f < e820_start_addr e + e820_len e.

(** A region the firmware may report: of a known type, not empty, and below the last
    frame of the physical address space. *)
Definition valid_e820 (e : E820MemoryRegion) : Prop :=
  1 <= e820_region_type e <= 5 /\ 0 <= e820_start_addr e /\ 0 < e820_len e /\
  e820_start_addr e + e820_len e <= 2 ^ 52 - PAGE_SIZE.

#[export] Instance valid_e820_dec e : Decision (valid_e820 e).
Proof. unfold valid_e820. apply _. Defined.

Definition e820_kind (e : E820MemoryRegion) : MemoryRegionType :=
  match e820_region_type e with
  | 1 => Usable | 2 => Reserved | 3 => AcpiReclaimable | 4 => AcpiNvs | _ => BadMemory
  end.

(** The region an entry of the firmware's map becomes. *)
Definition e820_region (e : E820MemoryRegion) : MemoryRegion :=
  mk_region (e820_start_addr e / PAGE_SIZE)
    ((e820_start_addr e + e820_len e - 1) / PAGE_SIZE + 1) (e820_kind e).

(** A usable region ends before every later region starts. *)
Definition usable_cut : list MemoryRegion -> Prop :=
  StronglySorted (fun a b => region_type a = Usable -> rend a <= rstart b).

(** What the cut does to one region: a usable one may get shorter. *)
Definition shortened (r r' : MemoryRegion) : Prop :=
  rstart r' = rstart r /\ region_type r' = region_type r /\ rend r' <= rend r /\
  (region_type r <> Usable -> r' = r).

Lemma contains_spec f r : contains f r = true <-> rstart r <= f < rend r.
Proof. unfold contains. lia. Qed.

Lemma e820_region_contains f e :
  valid_e820 e -> contains f (e820_region e) = true <-> touches f e.
Proof.
  intros (_ & Hs & Hl & _). rewrite contains_spec.
  unfold touches, e820_region, mk_region, PAGE_SIZE; cbn [range start_frame_number end_frame_number].
  dlia.
Qed.

Lemma e820_region_proper e :
  valid_e820 e -> proper_region (e820_region e) /\ is_empty (range (e820_region e)) = false.
Proof.
  intros (_ & Hs & Hl & He). unfold proper_region, is_empty, e820_region, mk_region, PAGE_SIZE in *.
  cbn [range start_frame_number end_frame_number]. rewrite Z.eqb_neq. dlia.
Qed.

Lemma shortened_refl r : shortened r r.
Proof. by unfold shortened. Qed.

Lemma cut_overlaps_shortened l :
  start_sorted l -> Forall proper_region l ->
  Forall2 shortened l (cut_overlaps l) /\ Forall proper_region (cut_overlaps l).
Proof.
  induction 1 as [|r l Hl IH Hr]; intros Hp; [by split|].
  apply Forall_cons in Hp as [Hpr Hp]. destruct (IH Hp) as [IH1 IH2].
  destruct l as [|n l]; [by split; constructor; auto using shortened_refl|].
  apply Forall_cons in Hr as [Hrn _]. apply Forall_cons in Hp as [Hpn _].
  cbn [cut_overlaps]. case_match eqn:Hc; [|by split; constructor; auto using shortened_refl].
  apply andb_true_iff in Hc as [Hlt Ht%bool_decide_eq_true].
  split; constructor; try done; unfold shortened, proper_region in *; cbn; [|lia].
  repeat split; [lia | congruence].
Qed.

Lemma shortened_start_ge x l k :
  Forall (fun r => x <= rstart r) l -> Forall2 shortened l k -> Forall (fun r => x <= rstart r) k.
Proof.
  intros Hl H. induction H as [|r r' l k (Hs & _) _ IH]; [done|].
  apply Forall_cons in Hl as [Hr Hl]. constructor; [lia | auto].
Qed.

Lemma cut_overlaps_cut l :
  start_sorted l -> Forall proper_region l -> usable_cut (cut_overlaps l).
Proof.
  induction 1 as [|r l Hl IH Hr]; intros Hp; [constructor|].
  apply Forall_cons in Hp as [_ Hp]. destruct l as [|n l]; [repeat constructor|].
  pose proof (cut_overlaps_shortened _ Hl Hp) as [Hsh _]. cbn [cut_overlaps].
  assert (Forall (fun x => rstart n <= rstart x) (cut_overlaps (n :: l))) as Hn.
  { eapply shortened_start_ge; [|exact Hsh]. inversion Hl; subst. constructor; [lia | done]. }
  constructor; [by apply IH|]. eapply List.Forall_impl; [|exact Hn].
  intros x Hx Hu. cbn beta in Hx. case_match eqn:Hc; cbn; [done|].
  apply andb_false_iff in Hc as [Hc|Hc%bool_decide_eq_false]; [lia | done].
Qed.

Lemma filter_e820_regions l es :
  Permutation l (map e820_region es) -> Forall valid_e820 es -> List.filter nonempty l = l.
Proof.
  intros Hp Hv. apply bfilter_Forall_true.
  eapply Permutation_Forall; [symmetry; exact Hp|]. apply List.Forall_map.
  eapply List.Forall_impl; [|exact Hv]. intros x Hx. unfold nonempty.
  by destruct (e820_region_proper x Hx) as [_ ->].
Qed.

Section create_from_proofs.
Context {B : Build} {SORT : UnstableSort} {SL : UnstableSortLaws SORT}.

Lemma MemoryRegion_from_ok e : valid_e820 e -> MemoryRegion_from e = Ret (e820_region e).
Proof.
  intros (Ht & Hs & Hl & He). unfold MemoryRegion_from, FrameRange_new, PAGE_SIZE in *.
  rewrite u64_add_ok by arith. cbn [mbind outcome_bind].
  rewrite u64_sub_ok by arith. cbn [mbind outcome_bind].
  unfold e820_region, e820_kind.
  assert (e820_region_type e = 1 \/ e820_region_type e = 2 \/ e820_region_type e = 3 \/
          e820_region_type e = 4 \/ e820_region_type e = 5) as Hcase by lia.
  by destruct Hcase as [-> | [-> | [-> | [-> | ->]]]].
Qed.

Lemma wf_map_new : wf_map MemoryMap_new.
Proof. by_compute. Qed.

(** The map before the cut holds the regions of the firmware, sorted. *)
Lemma add_e820_regions es :
  Forall valid_e820 es -> (length es <= MAX_MEMORY_MAP_SIZE)%nat ->
  exists mm,
    for_each es (fun region mm => r ← MemoryRegion_from region; add_region r mm) MemoryMap_new
      = Ret mm /\
    wf_map mm /\ Permutation (slice mm) (map e820_region es).
Proof.
  intros Hv Hlen.
  apply (for_each_inv (fun pre mm => wf_map mm /\ Permutation (slice mm) (map e820_region pre))).
  { split; [apply wf_map_new | done]. }
  intros pre e post mm -> (Hw & Hp).
  apply Forall_app in Hv as [Hvpre Hv]. apply Forall_cons in Hv as [He _].
  rewrite (MemoryRegion_from_ok e He). cbn [mbind outcome_bind].
  destruct (e820_region_proper e He) as [Hpr Hne].
  assert (next_entry_index mm = length pre) as Hn.
  { rewrite <-slice_length, (Permutation_length Hp) by done. apply length_map. }
  destruct (add_region_slice (e820_region e) mm Hw Hpr) as (mm' & -> & Hw' & _ & Hp').
  { rewrite length_app in Hlen. simpl in Hlen. lia. }
  exists mm'. split; [done|]. split; [done|]. rewrite Hp'. cbn [List.filter].
  unfold nonempty at 1. rewrite Hne. cbn [negb].
  rewrite (filter_e820_regions (slice mm) pre Hp Hvpre), Hp, map_app.
  apply Permutation_cons_append.
Qed.

Lemma with_slice_slice l mm :
  length l = length (slice mm) -> wf_map mm -> slice (with_slice l mm) = l.
Proof.
  intros Hl Hw. rewrite slice_length in Hl by done. unfold slice, with_slice.
  cbn [next_entry_index entries]. rewrite <-Hl. by rewrite take_app_length.
Qed.

Lemma with_slice_wf l mm :
  length l = length (slice mm) -> wf_map mm -> Forall proper_region l -> wf_map (with_slice l mm).
Proof.
  intros Hl Hw Hp. rewrite slice_length in Hl by done. destruct Hw as (Hlen & Hn & He & Hall).
  unfold wf_map, with_slice. cbn [next_entry_index entries].
  rewrite length_app, length_drop, <-Hl, drop_app_length. repeat split; [lia | lia | |].
  - by rewrite Hl.
  - apply Forall_app. split; [done|]. by apply Forall_drop.
Qed.

Lemma slice_proper mm : wf_map mm -> Forall proper_region (slice mm).
Proof. intros (_ & _ & _ & Hp). by apply Forall_take. Qed.

(** [create_from] in terms of the sorted firmware regions. *)
Lemma create_from_spec es :
  Forall valid_e820 es -> (length es <= MAX_MEMORY_MAP_SIZE)%nat ->
  exists mm regions, create_from es = Ret mm /\ wf_map mm /\
    Permutation regions (map e820_region es) /\ start_sorted regions /\
    Forall proper_region regions /\ slice mm = cut_overlaps regions.
Proof.
  intros Hv Hlen. destruct (add_e820_regions es Hv Hlen) as (mm & Heq & Hw & Hp).
  unfold create_from. rewrite Heq. cbn [mbind outcome_bind].
  destruct (sort_spec mm Hw) as (Hw' & Hsl & Hs).
  pose proof (slice_proper _ Hw') as Hpr.
  destruct (cut_overlaps_shortened _ Hs Hpr) as [H2 Hpc].
  apply Forall2_length in H2.
  eexists _, (slice (sort mm)). split; [done|]. split; [by apply with_slice_wf|].
  split; [|by rewrite with_slice_slice].
  rewrite sort_slice by done. rewrite <-Hp.
  rewrite <-(take_drop (next_entry_index mm) (entries mm)), List.filter_app.
  destruct Hw as (_ & _ & He & _).
  rewrite (filter_empties (drop _ _)), app_nil_r by done. fold (slice mm).
  by rewrite (filter_e820_regions (slice mm) es Hp Hv).
Qed.
End create_from_proofs.

(** ** Properties *)

Lemma start_sorted_shortened l k : Forall2 shortened l k -> start_sorted l -> start_sorted k.
Proof.
  induction 1 as [|r r' l k Hr Hlk IH]; intros Hs; [constructor|].
  inversion Hs as [|? ? Hl Hall]; subst. constructor; [by apply IH|].
  destruct Hr as (-> & _). by eapply shortened_start_ge.
Qed.

Lemma shortened_elem_r r' l k :
  Forall2 shortened l k -> r' ∈ k -> exists r, r ∈ l /\ shortened r r'.
Proof.
  intros H [i Hi]%list_elem_of_lookup_1. destruct (Forall2_lookup_r _ _ _ _ _ H Hi) as (r & Hr & ?).
  eauto using list_elem_of_lookup_2.
Qed.

Lemma shortened_elem_l r l k :
  Forall2 shortened l k -> r ∈ l -> exists r', r' ∈ k /\ shortened r r'.
Proof.
  intros H [i Hi]%list_elem_of_lookup_1. destruct (Forall2_lookup_l _ _ _ _ _ H Hi) as (r' & Hr & ?).
  eauto using list_elem_of_lookup_2.
Qed.

Lemma kinds_intro f r l : r ∈ l -> contains f r = true -> region_type r ∈ kinds f l.
Proof.
  unfold kinds. rewrite !list_elem_of_In. intros Hin Hc.
  apply in_map, List.filter_In. auto.
Qed.

Lemma e820_kind_usable e : e820_kind e = Usable <-> e820_region_type e = 1.
Proof.
  unfold e820_kind. split; [|by intros ->]. by repeat case_match.
Qed.

Lemma map_e820_elem r regions es :
  Permutation regions (map e820_region es) -> r ∈ regions <-> exists e, e ∈ es /\ r = e820_region e.
Proof.
  intros Hp. rewrite Hp, list_elem_of_In, in_map_iff.
  setoid_rewrite list_elem_of_In. split; intros (e & ? & ?); eauto.
Qed.

(** A pair of regions that cannot both claim a frame, whichever comes first. *)
Definition separate (r r' : MemoryRegion) : Prop :=
  (region_type r <> Usable -> rstart r <= rstart r' -> rend r <= rstart r') /\
  (region_type r' <> Usable -> rstart r' <= rstart r -> rend r' <= rstart r).

Lemma separate_sym r r' : separate r r' -> separate r' r.
Proof. unfold separate. tauto. Qed.

Lemma ForallOrdPairs_perm {A} (R : A -> A -> Prop) l k :
  (forall x y, R x y -> R y x) -> Permutation l k -> ForallOrdPairs R l -> ForallOrdPairs R k.
Proof.
  intros Hsym Hp. induction Hp as [|x l k Hp IH|x y l|]; intros H; try (by auto).
  - inversion H; subst. constructor; [|by apply IH]. by eapply Permutation_Forall.
  - inversion H as [|? ? Hy Hl]; subst. inversion Hl as [|? ? Hx Hl']; subst.
    apply Forall_cons in Hy as [Hyx Hy]. repeat constructor; auto.
Qed.

Definition apart : list MemoryRegion -> Prop :=
  StronglySorted (fun a b => rend a <= rstart b).

Lemma cut_overlaps_apart l k :
  Forall2 shortened l k -> start_sorted l -> ForallOrdPairs separate l -> usable_cut k -> apart k.
Proof.
  induction 1 as [|r r' l k Hr Hlk IH]; intros Hs Hsep Hu; [constructor|].
  inversion Hs as [|? ? Hs' Hle]; inversion Hsep as [|? ? Hsr Hsep'];
    inversion Hu as [|? ? Hu' Hur]; subst.
  constructor; [by apply IH|]. destruct (decide (region_type r' = Usable)) as [Ht|Ht].
  { eapply List.Forall_impl; [|exact Hur]. auto. }
  destruct Hr as (_ & Htt & _ & Hr'). rewrite Hr' by congruence.
  eapply (shortened_start_ge (rend r) l); [|done].
  apply List.Forall_forall. intros x Hx. rewrite List.Forall_forall in Hsr, Hle.
  apply (Hsr x Hx); [congruence | auto].
Qed.

Lemma apart_kinds f l :
  Forall proper_region l -> apart l -> (length (kinds f l) <= 1)%nat.
Proof.
  intros Hp. induction 1 as [|r l Hl IH Hr]; [simpl; lia|].
  apply Forall_cons in Hp as [Hpr Hp]. rewrite kinds_cons, length_app.
  destruct (contains f r) eqn:Hc; [|by apply IH]. apply contains_spec in Hc.
  assert (kinds f l = []) as ->; [|simpl; lia].
  unfold kinds. rewrite bfilter_Forall_false; [done|].
  eapply List.Forall_impl; [|exact Hr]. intros x Hx. cbn beta in Hx.
  apply not_true_is_false. rewrite contains_spec. lia.
Qed.

Lemma ForallOrdPairs_map_lookup {A C} (g : A -> C) (R : C -> C -> Prop) l :
  (forall i j x y, i <> j -> l !! i = Some x -> l !! j = Some y -> R (g x) (g y)) ->
  ForallOrdPairs R (map g l).
Proof.
  induction l as [|x l IH]; intros H; simpl; constructor.
  - apply List.Forall_map, Forall_forall. intros y [i Hi]%list_elem_of_lookup_1.
    by apply (H 0%nat (S i)).
  - apply IH. intros i j y z Hij. apply (H (S i) (S j)). lia.
Qed.

Section properties.
Context {B : Build} {SORT : UnstableSort} {SL : UnstableSortLaws SORT}.

(** [FrameRange::new] rounds an address range that is not
    empty outwards: a frame is in the range exactly when one of the addresses
    from [start_addr] to [end_addr], the latter excluded, lies in it. *)
Theorem FrameRange_new_covers s e f :
  is_u64 s -> is_u64 e -> s < e ->
  exists r, FrameRange_new s e = Ret r /\ is_empty r = false /\
    (start_frame_number r <= f < end_frame_number r <->
     exists addr, s <= addr < e /\ addr / PAGE_SIZE = f).
Proof.
  intros Hs He Hlt. unfold FrameRange_new. rewrite u64_sub_ok by arith. cbn [mbind outcome_bind].
  eexists. split; [done|]. unfold is_empty, PAGE_SIZE, is_u64 in *.
  cbn [start_frame_number end_frame_number]. split; [dlia|]. split.
  - intros Hf. exists (Z.max s (4096 * f)). split; dlia.
  - intros (addr & Ha & <-). dlia.
Qed.

(** [add_region] panics exactly when all 64 entries are in
    use; otherwise it adds the frames of the region to those the map had, keeps
    the map well formed and leaves it sorted by start, with no empty region
    among the entries in use. *)
Theorem add_region_adds_frames region mm :
  wf_map mm -> proper_region region ->
  (panics (add_region region mm) <-> next_entry_index mm = MAX_MEMORY_MAP_SIZE) /\
  forall mm', add_region region mm = Ret mm' ->
    wf_map mm' /\ start_sorted (slice mm') /\
    Permutation (slice mm') (List.filter nonempty (region :: slice mm)) /\
    forall f, Permutation (owners f mm') (kinds f [region] ++ owners f mm).
Proof.
  intros Hw Hr. pose proof Hw as (_ & Hn & _).
  destruct (decide (next_entry_index mm < MAX_MEMORY_MAP_SIZE)%nat) as [Hlt|Hge].
  - destruct (add_region_slice region mm Hw Hr Hlt) as (mm1 & Heq & ? & ? & ?).
    destruct (add_region_spec region mm Hw Hr Hlt) as (mm2 & Heq2 & ? & ? & _ & ?).
    rewrite Heq in Heq2 |- *. simplify_eq. split; [|by intros ? [= <-]].
    split; [by intros [? ?] | lia].
  - unfold add_region. rewrite decide_False by done. split; [|done].
    split; [lia | intros _; by eexists].
Qed.

(** C30 (invariant). For at most 64 valid firmware regions [create_from]
    returns a well-formed map, sorted by start, in which every usable region
    ends before all later regions start.  A frame the map calls usable is one
    that a usable firmware region touches, and every frame touched by a region
    of another type keeps that type as an owner. *)
Theorem create_from_cuts_usable es :
  Forall valid_e820 es -> (length es <= MAX_MEMORY_MAP_SIZE)%nat ->
  exists mm, create_from es = Ret mm /\ wf_map mm /\ start_sorted (slice mm) /\
    usable_cut (slice mm) /\
    (forall f, Usable ∈ owners f mm ->
       exists e, e ∈ es /\ e820_region_type e = 1 /\ touches f e) /\
    (forall f e, e ∈ es -> e820_region_type e <> 1 -> touches f e ->
       e820_kind e ∈ owners f mm).
Proof.
  intros Hv Hlen. pose proof Hv as Hv'. rewrite Forall_forall in Hv'.
  destruct (create_from_spec es Hv Hlen) as (mm & rs & -> & Hw & Hp & Hs & Hpr & Hsl).
  destruct (cut_overlaps_shortened rs Hs Hpr) as [H2 _].
  exists mm. rewrite Hsl. split; [done|]. split; [done|].
  split; [by eapply start_sorted_shortened|]. split; [by apply cut_overlaps_cut|].
  unfold owners. rewrite Hsl. split.
  - intros f (r' & Hin & Hc & Ht)%kinds_elem.
    destruct (shortened_elem_r _ _ _ H2 Hin) as (r & Hr & Hst & Htt & Hle & _).
    apply (map_e820_elem r rs es Hp) in Hr as (e & He & ->). exists e. split; [done|].
    apply contains_spec in Hc. split; [apply e820_kind_usable; cbn in Htt; congruence|].
    apply e820_region_contains; [auto|]. apply contains_spec. lia.
  - intros f e He Ht Htouch. rewrite <-e820_kind_usable in Ht.
    destruct (shortened_elem_l (e820_region e) _ _ H2) as (r' & Hin & _ & _ & _ & Hr').
    { apply (map_e820_elem _ rs es Hp). eauto. }
    rewrite Hr' in Hin by done. apply (kinds_intro f (e820_region e)); [done|].
    apply e820_region_contains; auto.
Qed.

(** No firmware region of another type than usable reaches into a frame where a
    later region starts. *)
Definition firmware_apart (es : list E820MemoryRegion) : Prop :=
  forall i j e e', i <> j -> es !! i = Some e -> es !! j = Some e' ->
    e820_region_type e <> 1 ->
    e820_start_addr e / PAGE_SIZE <= e820_start_addr e' / PAGE_SIZE ->
    (e820_start_addr e + e820_len e - 1) / PAGE_SIZE < e820_start_addr e' / PAGE_SIZE.

(** Then no frame of the map belongs to two regions. *)
Lemma create_from_disjoint es :
  Forall valid_e820 es -> (length es <= MAX_MEMORY_MAP_SIZE)%nat -> firmware_apart es ->
  exists mm, create_from es = Ret mm /\ wf_map mm /\ disjoint_map mm /\ start_sorted (slice mm).
Proof.
  intros Hv Hlen Hsep.
  destruct (create_from_spec es Hv Hlen) as (mm & rs & -> & Hw & Hp & Hs & Hpr & Hsl).
  destruct (cut_overlaps_shortened rs Hs Hpr) as [H2 Hpr']. exists mm. split; [done|]. split; [done|].
  split; [|rewrite Hsl; by eapply start_sorted_shortened].
  intros f. unfold owners. rewrite Hsl. apply apart_kinds; [done|].
  eapply cut_overlaps_apart; eauto using cut_overlaps_cut.
  eapply ForallOrdPairs_perm; [exact separate_sym | symmetry; exact Hp |].
  apply ForallOrdPairs_map_lookup. intros i j e e' Hij He He'.
  unfold separate. cbn. rewrite !e820_kind_usable. split; intros Ht Hle.
  - pose proof (Hsep i j e e' Hij He He' Ht Hle). lia.
  - pose proof (Hsep j i e' e (not_eq_sym Hij) He' He Ht Hle). lia.
Qed.
End properties.

(** ** Concrete maps *)

#[local] Instance checked : Build := true.

(** A firmware map: low memory, a reserved hole, and memory above 1 MiB with a
    reserved region inside its last page. *)
Definition sample_e820 : list E820MemoryRegion :=
  [ {| e820_start_addr := 0; e820_len := 0x9fc00; e820_region_type := 1; acpi_extended_attributes := 0 |};
    {| e820_start_addr := 0x9fc00; e820_len := 0x400; e820_region_type := 2; acpi_extended_attributes := 0 |};
    {| e820_start_addr := 0x100000; e820_len := 0x7ee0000; e820_region_type := 1; acpi_extended_attributes := 0 |};
    {| e820_start_addr := 0x7fe0000; e820_len := 0x20000; e820_region_type := 2; acpi_extended_attributes := 0 |} ].

(** A region as it appears in a panic message. *)
Example debug_sample_region :
  debug_region (mk_region 0x9f 0xa0 Reserved) =
    Ret "MemoryRegion { range: FrameRange(0x9f000..0xa0000), region_type: Reserved }".
Proof. vm_compute. reflexivity. Qed.

Lemma FrameRange_new_covers_witness :
  exists r, FrameRange_new 0x9fc00 0xa0000 = Ret r /\ is_empty r = false /\
    (start_frame_number r <= 0x9f < end_frame_number r <->
     exists addr, 0x9fc00 <= addr < 0xa0000 /\ addr / PAGE_SIZE = 0x9f).
Proof. apply (FrameRange_new_covers 0x9fc00 0xa0000 0x9f); [by_compute | by_compute | lia]. Defined.

Lemma add_region_adds_frames_witness :
  (panics (add_region (mk_region 3 5 Kernel) MemoryMap_new) <->
     next_entry_index MemoryMap_new = MAX_MEMORY_MAP_SIZE) /\
  forall mm', add_region (mk_region 3 5 Kernel) MemoryMap_new = Ret mm' ->
    wf_map mm' /\ start_sorted (slice mm') /\
    Permutation (slice mm')
      (List.filter nonempty (mk_region 3 5 Kernel :: slice MemoryMap_new)) /\
    forall f, Permutation (owners f mm')
      (kinds f [mk_region 3 5 Kernel] ++ owners f MemoryMap_new).
Proof.
  apply (add_region_adds_frames (mk_region 3 5 Kernel) MemoryMap_new); by_compute.
Defined.

Lemma create_from_cuts_usable_witness :
  exists mm, create_from sample_e820 = Ret mm /\ wf_map mm /\ start_sorted (slice mm) /\
    usable_cut (slice mm) /\
    (forall f, Usable ∈ owners f mm ->
       exists e, e ∈ sample_e820 /\ e820_region_type e = 1 /\ touches f e) /\
    (forall f e, e ∈ sample_e820 -> e820_region_type e <> 1 -> touches f e ->
       e820_kind e ∈ owners f mm).
Proof. apply (create_from_cuts_usable sample_e820); by_compute. Defined.

Lemma sample_e820_apart : firmware_apart sample_e820.
Proof.
  intros i j e e' Hij Hi Hj.
  destruct i as [|[|[|[|i]]]]; try discriminate Hi;
    destruct j as [|[|[|[|j]]]]; try discriminate Hj; try done;
    injection Hi as <-; injection Hj as <-; vm_compute; congruence.
Qed.

(** The cut only shortens usable regions: when a reserved region
    ends in the middle of a page and a usable one starts there, the frame of
    that page stays both reserved and usable. *)
Theorem create_from_keeps_low_overlap :
  exists mm,
    create_from
      [ {| e820_start_addr := 0x1000; e820_len := 0x800; e820_region_type := 2;
           acpi_extended_attributes := 0 |};
        {| e820_start_addr := 0x1800; e820_len := 0x4000; e820_region_type := 1;
           acpi_extended_attributes := 0 |} ] = Ret mm /\
    Permutation (owners 1 mm) [Reserved; Usable].
Proof.
  eexists. split; [vm_compute; reflexivity|]. vm_compute. apply perm_swap || reflexivity.
Qed.
