(* ===== verification/X86.v ===== *)
(** * Addresses, frames and pages of the [x86_64] crate

    The crate is not part of the sources: its physical addresses and 4 KiB
    frames are a class of operations, and what the bootloader and the kernel
    rely on is a class of laws taken from the crate's documentation.  A
    [PhysAddr] is a 52-bit address, a [PhysFrame] a 4 KiB aligned one.  A
    [VirtAddr] is a canonical 64-bit address (bits 48 to 63 repeat bit 47), a
    [Page] the 4 KiB page at one, a [PageTableIndex] a 9-bit index.  The
    instances, on numbers, show that the laws can hold and let the models run. *)

From Stdlib Require Import Lia.
From stdpp Require Import base decidable strings numbers list.
From S2P Require Import Prelude.

Open Scope Z_scope.

Class X86Phys := {
  PhysAddr : Type;
  PhysAddr_new : Z -> outcome PhysAddr;
  phys_as_u64 : PhysAddr -> Z;
  PhysFrame : Type;
  frame_from_start_address : PhysAddr -> result PhysFrame string;
  frame_containing_address : PhysAddr -> PhysFrame;
  frame_start_address : PhysFrame -> PhysAddr;
  (** [frame + n] *)
  frame_add : PhysFrame -> Z -> outcome PhysFrame;
  (** [addr + n] and [addr - n] *)
  phys_add : PhysAddr -> Z -> outcome PhysAddr;
  phys_sub : PhysAddr -> Z -> outcome PhysAddr;
  (** [frame - frame], a number of frames *)
  frame_sub : PhysFrame -> PhysFrame -> outcome Z;
  (** the frames a [PhysFrameRangeInclusive] yields *)
  frame_range_inclusive : PhysFrame -> PhysFrame -> list PhysFrame;
}.

(** [Result::unwrap]. *)
Definition unwrap {A E} (r : result A E) : outcome A :=
  match r with Ok a => Ret a | Err _ => Panic "called `Result::unwrap()` on an `Err` value" end.

(** The number of a frame: its start address in pages. *)
Definition frame_number `{X86Phys} (f : PhysFrame) : Z := phys_as_u64 (frame_start_address f) / 4096.

Class X86PhysLaws (X : X86Phys) : Prop := {
  phys_range a : 0 <= phys_as_u64 a < 2 ^ 52;
  phys_inj a b : phys_as_u64 a = phys_as_u64 b -> a = b;
  PhysAddr_new_ok z : 0 <= z < 2 ^ 52 -> exists a, PhysAddr_new z = Ret a /\ phys_as_u64 a = z;
  PhysAddr_new_panics z : is_u64 z -> 2 ^ 52 <= z -> panics (PhysAddr_new z);
  frame_aligned f : phys_as_u64 (frame_start_address f) mod 4096 = 0;
  frame_inj f g : frame_start_address f = frame_start_address g -> f = g;
  from_start_address_ok a : phys_as_u64 a mod 4096 = 0 ->
    exists f, frame_from_start_address a = Ok f /\ frame_start_address f = a;
  from_start_address_err a : phys_as_u64 a mod 4096 <> 0 ->
    exists e, frame_from_start_address a = Err e;
  containing_address a :
    phys_as_u64 (frame_start_address (frame_containing_address a)) =
      phys_as_u64 a - phys_as_u64 a mod 4096;
  frame_add_ok f n : 0 <= n -> phys_as_u64 (frame_start_address f) + 4096 * n < 2 ^ 52 ->
    exists g, frame_add f n = Ret g /\
      phys_as_u64 (frame_start_address g) = phys_as_u64 (frame_start_address f) + 4096 * n;
  phys_add_ok a n : 0 <= n -> phys_as_u64 a + n < 2 ^ 52 ->
    exists b, phys_add a n = Ret b /\ phys_as_u64 b = phys_as_u64 a + n;
  phys_sub_ok a n : 0 <= n <= phys_as_u64 a ->
    exists b, phys_sub a n = Ret b /\ phys_as_u64 b = phys_as_u64 a - n;
  frame_sub_ok f g : frame_number g <= frame_number f ->
    frame_sub f g = Ret (frame_number f - frame_number g);
  frame_range_numbers f g : frame_number g < 2 ^ 40 - 1 ->
    map frame_number (frame_range_inclusive f g) =
      map (fun i => frame_number f + Z.of_nat i)
        (seq 0 (Z.to_nat (frame_number g - frame_number f + 1)));
}.

Section frames.
Context {X : X86Phys} {XL : X86PhysLaws X}.

Lemma frame_start_number f : phys_as_u64 (frame_start_address f) = 4096 * frame_number f.
Proof. unfold frame_number. pose proof (frame_aligned f). dlia. Qed.

Lemma frame_number_range f : 0 <= frame_number f < 2 ^ 40.
Proof. pose proof (phys_range (frame_start_address f)). unfold frame_number. dlia. Qed.

Lemma frame_number_inj f g : frame_number f = frame_number g -> f = g.
Proof.
  intros H. apply frame_inj, phys_inj. rewrite !frame_start_number. by rewrite H.
Qed.

(** The frame that starts at page [n]. *)
Lemma frame_at_number n :
  0 <= n < 2 ^ 40 ->
  exists f, (a ← PhysAddr_new (n * 4096); unwrap (frame_from_start_address a)) = Ret f /\
    frame_number f = n.
Proof.
  intros Hn. destruct (PhysAddr_new_ok (n * 4096)) as (a & -> & Ha); [lia|]. simpl.
  destruct (from_start_address_ok a) as (f & -> & Hf); [rewrite Ha; dlia|].
  exists f. split; [done|]. unfold frame_number. rewrite Hf, Ha. dlia.
Qed.

Lemma frame_add_number f n :
  0 <= n -> frame_number f + n < 2 ^ 40 ->
  exists g, frame_add f n = Ret g /\ frame_number g = frame_number f + n.
Proof.
  intros Hn Hlt. pose proof (frame_start_number f).
  destruct (frame_add_ok f n) as (g & -> & Hg); [lia | lia |].
  exists g. split; [done|]. rewrite frame_start_number in Hg. lia.
Qed.

Lemma containing_number a : frame_number (frame_containing_address a) = phys_as_u64 a / 4096.
Proof. unfold frame_number. rewrite containing_address. pose proof (phys_range a). dlia. Qed.
End frames.

(** ** Frames as numbers *)

Definition try_dsig {P : Z -> Prop} `{forall z, Decision (P z)} (z : Z) : option (dsig P) :=
  match decide (P z) with left H => Some (dexist z H) | right _ => None end.

Definition phys_addr : Type := dsig (fun z : Z => 0 <= z < 2 ^ 52).
Definition phys_frame : Type := dsig (fun n : Z => 0 <= n < 2 ^ 40).

Lemma phys_frame_addr_range (f : phys_frame) : 0 <= `f * 4096 < 2 ^ 52.
Proof. pose proof (proj2_dsig f). simpl in *. lia. Qed.

Lemma phys_addr_frame_range (a : phys_addr) : 0 <= `a / 4096 < 2 ^ 40.
Proof. pose proof (proj2_dsig a). simpl in *. dlia. Qed.

#[export] Instance phys_numbers : X86Phys := {
  PhysAddr := phys_addr;
  PhysAddr_new z := expect (try_dsig z) "PhysAddr::new: more than 52 bits";
  phys_as_u64 a := `a;
  PhysFrame := phys_frame;
  frame_from_start_address a :=
    if decide (`a mod 4096 = 0) then Ok (dexist (`a / 4096) (phys_addr_frame_range a))
    else Err "AddressNotAligned";
  frame_containing_address a := dexist (`a / 4096) (phys_addr_frame_range a);
  frame_start_address f := dexist (`f * 4096) (phys_frame_addr_range f);
  frame_add f n := expect (try_dsig (`f + n)) "PhysAddr::new: more than 52 bits";
  phys_add a n := expect (try_dsig (`a + n)) "PhysAddr::new: more than 52 bits";
  phys_sub a n := expect (try_dsig (`a - n)) "called `Option::unwrap()` on a `None` value";
  frame_sub f g := if `g <=? `f then Ret (`f - `g) else Panic "called `Option::unwrap()` on a `None` value";
  frame_range_inclusive f g :=
    omap (fun i : nat => try_dsig (`f + Z.of_nat i)) (seq 0 (Z.to_nat (`g - `f + 1)));
}.

Lemma try_dsig_some {P : Z -> Prop} `{forall z, Decision (P z)} z :
  P z -> exists a : dsig P, try_dsig z = Some a /\ `a = z.
Proof.
  intros Hz. unfold try_dsig. destruct (decide (P z)) as [H'|]; [|done]. by eexists.
Qed.

(** Mapping a partial constructor that is defined everywhere on a list. *)
Lemma map_try_dsig {A} {P : Z -> Prop} `{forall z, Decision (P z)} (f : A -> Z) (l : list A) :
  (forall x, x ∈ l -> P (f x)) ->
  map (fun r : dsig P => `r) (omap (fun x => try_dsig (f x)) l) = map f l.
Proof.
  induction l as [|x l IH]; intros Hall; [done|].
  destruct (try_dsig_some (f x) (Hall x (list_elem_of_here _ _))) as (p & Hp & Hv).
  cbn. rewrite Hp. cbn. rewrite Hv. f_equal. apply IH. intros y Hy. apply Hall. by right.
Qed.

Lemma phys_frame_number (f : phys_frame) : @frame_number phys_numbers f = `f.
Proof. unfold frame_number. cbn. rewrite Z.div_mul; lia. Qed.

#[export] Instance phys_numbers_laws : X86PhysLaws phys_numbers.
Proof.
  constructor; cbn.
  - intros a. exact (proj2_dsig a).
  - intros a b. apply dsig_eq.
  - intros z Hz. destruct (try_dsig_some (P := fun z => 0 <= z < 2 ^ 52) z Hz) as (a & Ha & Hv).
    exists a. by rewrite Ha.
  - intros z _ Hz. unfold try_dsig. destruct (decide _); [lia | by eexists].
  - intros f. rewrite Z.mod_mul; lia.
  - intros f g [=]%dsig_eq. apply dsig_eq. lia.
  - intros a Ha. rewrite decide_True by done. eexists. split; [done|]. apply dsig_eq. cbn. dlia.
  - intros a Ha. rewrite decide_False by done. by eexists.
  - intros a. pose proof (proj2_dsig a). cbn in *. dlia.
  - intros f n Hn Hlt. pose proof (proj2_dsig f). cbn in *.
    destruct (try_dsig_some (P := fun n => 0 <= n < 2 ^ 40) (`f + n)) as (g & Hg & Hv); [lia|].
    exists g. rewrite Hg. split; [done | lia].
  - intros a n Hn Hlt. pose proof (proj2_dsig a). cbn in *.
    destruct (try_dsig_some (P := fun n => 0 <= n < 2 ^ 52) (`a + n)) as (b & Hb & Hv); [lia|].
    exists b. by rewrite Hb.
  - intros a n Hn. pose proof (proj2_dsig a). cbn in *.
    destruct (try_dsig_some (P := fun n => 0 <= n < 2 ^ 52) (`a - n)) as (b & Hb & Hv); [lia|].
    exists b. by rewrite Hb.
  - intros f g. rewrite !phys_frame_number. intros Hle. by rewrite (proj2 (Z.leb_le _ _) Hle).
  - intros f g. rewrite !phys_frame_number. intros Hlt.
    rewrite (map_ext _ (fun f : phys_frame => `f)) by apply phys_frame_number.
    pose proof (proj2_dsig f). apply map_try_dsig. intros i Hi%elem_of_seq. cbn in *. lia.
Qed.

(** ** Virtual addresses *)

Class X86Virt := {
  VirtAddr : Type;
  VirtAddr_new : Z -> outcome VirtAddr;
  virt_as_u64 : VirtAddr -> Z;
  (** [addr + n] and [addr - n] *)
  virt_add : VirtAddr -> Z -> outcome VirtAddr;
  virt_sub : VirtAddr -> Z -> outcome VirtAddr;
  Page : Type;
  page_containing_address : VirtAddr -> Page;
  page_start_address : Page -> VirtAddr;
  (** the pages a [PageRangeInclusive] yields *)
  page_range_inclusive : Page -> Page -> list Page;
  (** the pages a [PageRange] yields, without the last *)
  page_range : Page -> Page -> list Page;
  (** [page + n] *)
  page_add : Page -> Z -> outcome Page;
  align_up : Z -> Z -> outcome Z;
  PageTableIndex : Type;
  PageTableIndex_new : Z -> outcome PageTableIndex;
  index_as_u64 : PageTableIndex -> Z;
  p4_index : Page -> PageTableIndex;
}.

(** Sign extension of bit 47. *)
Definition sign_extend48 (z : Z) : Z := if z <? 2 ^ 47 then z else z + (2 ^ 64 - 2 ^ 48).

Definition canonical (z : Z) : Prop := 0 <= z < 2 ^ 47 \/ 2 ^ 64 - 2 ^ 47 <= z < 2 ^ 64.

#[export] Instance canonical_dec z : Decision (canonical z).
Proof. unfold canonical. apply _. Defined.

Class X86VirtLaws (V : X86Virt) : Prop := {
  virt_canonical a : canonical (virt_as_u64 a);
  virt_inj a b : virt_as_u64 a = virt_as_u64 b -> a = b;
  VirtAddr_new_canonical z : canonical z -> exists a, VirtAddr_new z = Ret a /\ virt_as_u64 a = z;
  VirtAddr_new_extends z : 0 <= z < 2 ^ 48 ->
    exists a, VirtAddr_new z = Ret a /\ virt_as_u64 a = sign_extend48 z;
  VirtAddr_new_panics z : is_u64 z -> ~ canonical z -> 2 ^ 48 <= z -> panics (VirtAddr_new z);
  virt_add_ok a n : 0 <= n -> canonical (virt_as_u64 a + n) ->
    exists b, virt_add a n = Ret b /\ virt_as_u64 b = virt_as_u64 a + n;
  virt_sub_ok a n : 0 <= n -> canonical (virt_as_u64 a - n) ->
    exists b, virt_sub a n = Ret b /\ virt_as_u64 b = virt_as_u64 a - n;
  page_containing a :
    virt_as_u64 (page_start_address (page_containing_address a)) =
      virt_as_u64 a - virt_as_u64 a mod 4096;
  page_aligned p : virt_as_u64 (page_start_address p) mod 4096 = 0;
  page_range_starts p q :
    let s := virt_as_u64 (page_start_address p) in
    let e := virt_as_u64 (page_start_address q) in
    e < 2 ^ 47 - 4096 ->
    map (fun r => virt_as_u64 (page_start_address r)) (page_range_inclusive p q) =
      map (fun i => s + 4096 * Z.of_nat i) (seq 0 (Z.to_nat ((e - s) / 4096 + 1)));
  page_range_exclusive p q :
    let s := virt_as_u64 (page_start_address p) in
    let e := virt_as_u64 (page_start_address q) in
    e < 2 ^ 47 ->
    map (fun r => virt_as_u64 (page_start_address r)) (page_range p q) =
      map (fun i => s + 4096 * Z.of_nat i) (seq 0 (Z.to_nat ((e - s) / 4096)));
  page_add_ok p n : 0 <= n -> canonical (virt_as_u64 (page_start_address p) + 4096 * n) ->
    exists q, page_add p n = Ret q /\
      virt_as_u64 (page_start_address q) = virt_as_u64 (page_start_address p) + 4096 * n;
  align_up_ok z : 0 <= z < 2 ^ 64 - 4096 -> align_up z 4096 = Ret (4096 * ((z + 4095) / 4096));
  page_inj p q : page_start_address p = page_start_address q -> p = q;
  PageTableIndex_new_ok i : 0 <= i < 512 ->
    exists x, PageTableIndex_new i = Ret x /\ index_as_u64 x = i;
  PageTableIndex_new_panics i : 512 <= i < 2 ^ 16 -> panics (PageTableIndex_new i);
  index_range x : 0 <= index_as_u64 x < 512;
  p4_index_bits p : index_as_u64 (p4_index p) = virt_as_u64 (page_start_address p) / 2 ^ 39 mod 512;
}.

Section virt.
Context {V : X86Virt} {VL : X86VirtLaws V}.

(** The level 4 index of the page of an address. *)
Lemma containing_p4_index a :
  index_as_u64 (p4_index (page_containing_address a)) = virt_as_u64 a / 2 ^ 39 mod 512.
Proof.
  rewrite p4_index_bits, page_containing. f_equal.
  pose proof (virt_canonical a). unfold canonical in *. dlia.
Qed.
End virt.

Lemma canonical_page z : canonical z -> canonical (z - z mod 4096).
Proof. unfold canonical. dlia. Qed.

Lemma index_512 z : 0 <= z mod 512 < 512.
Proof. dlia. Qed.

Definition virt_addr : Type := dsig canonical.
Definition virt_page : Type := dsig (fun z => canonical z /\ z mod 4096 = 0).

Lemma page_of_virt (a : virt_addr) : canonical (`a - `a mod 4096) /\ (`a - `a mod 4096) mod 4096 = 0.
Proof. split; [apply canonical_page; exact (proj2_dsig a) | dlia]. Qed.

Lemma virt_of_page (p : virt_page) : canonical (`p).
Proof. exact (proj1 (proj2_dsig p)). Qed.

#[export] Instance virt_numbers : X86Virt := {
  VirtAddr := virt_addr;
  VirtAddr_new z :=
    expect (try_dsig (if z <? 2 ^ 48 then sign_extend48 z else z)) "VirtAddr::new: not canonical";
  virt_as_u64 a := `a;
  virt_add a n := expect (try_dsig (`a + n)) "VirtAddr::new: not canonical";
  virt_sub a n := expect (try_dsig (`a - n)) "VirtAddr::new: not canonical";
  Page := virt_page;
  page_containing_address a := dexist (`a - `a mod 4096) (page_of_virt a);
  page_start_address p := dexist (`p) (virt_of_page p);
  page_range_inclusive p q :=
    omap (fun i : nat => try_dsig (`p + 4096 * Z.of_nat i)) (seq 0 (Z.to_nat ((`q - `p) / 4096 + 1)));
  page_range p q :=
    omap (fun i : nat => try_dsig (`p + 4096 * Z.of_nat i)) (seq 0 (Z.to_nat ((`q - `p) / 4096)));
  page_add p n := expect (try_dsig (`p + 4096 * n)) "VirtAddr::new: not canonical";
  align_up z align :=
    let up := align * ((z + align - 1) / align) in
    if up <? 2 ^ 64 then Ret up else Panic "attempt to add with overflow";
  PageTableIndex := Z;
  PageTableIndex_new i := if i <? 512 then Ret i else Panic "assertion failed: index < 512";
  index_as_u64 i := i mod 512;
  p4_index p := `p / 2 ^ 39;
}.

Lemma virt_page_range s n :
  canonical s /\ s mod 4096 = 0 -> (forall i, (i < n)%nat -> canonical (s + 4096 * Z.of_nat i)) ->
  map (fun r : virt_page => `r)
    (omap (fun i : nat => try_dsig (s + 4096 * Z.of_nat i)) (seq 0 n)) =
  map (fun i => s + 4096 * Z.of_nat i) (seq 0 n).
Proof.
  intros [Hs Hsa] Hall. apply (map_try_dsig (fun i : nat => s + 4096 * Z.of_nat i)).
  intros i Hi%elem_of_seq. split; [apply Hall; lia | dlia].
Qed.

#[export] Instance virt_numbers_laws : X86VirtLaws virt_numbers.
Proof.
  constructor; cbn.
  - intros a. exact (proj2_dsig a).
  - intros a b. apply dsig_eq.
  - intros z Hz. assert ((if z <? 2 ^ 48 then sign_extend48 z else z) = z) as ->.
    { unfold sign_extend48, canonical in *. repeat case_match; lia. }
    destruct (try_dsig_some (P := canonical) z Hz) as (a & -> & Ha). by exists a.
  - intros z Hz. rewrite (proj2 (Z.ltb_lt z (2 ^ 48))) by lia.
    destruct (try_dsig_some (P := canonical) (sign_extend48 z)) as (a & -> & Ha); [|by exists a].
    unfold canonical, sign_extend48. case_match; lia.
  - intros z _ Hz Hge. rewrite (proj2 (Z.ltb_ge z (2 ^ 48))) by lia.
    unfold try_dsig. by destruct (decide _); [|eexists].
  - intros a n _ Hc. destruct (try_dsig_some (P := canonical) _ Hc) as (b & -> & Hb). by exists b.
  - intros a n _ Hc. destruct (try_dsig_some (P := canonical) _ Hc) as (b & -> & Hb). by exists b.
  - done.
  - intros p. exact (proj2 (proj2_dsig p)).
  - intros p q Hq. apply virt_page_range; [exact (proj2_dsig p)|]. intros i Hi.
    pose proof (virt_of_page p). pose proof (virt_of_page q). unfold canonical in *. dlia.
  - intros p q Hq. apply virt_page_range; [exact (proj2_dsig p)|]. intros i Hi.
    pose proof (virt_of_page p). pose proof (virt_of_page q). unfold canonical in *. dlia.
  - intros p n Hn Hc. pose proof (proj2_dsig p) as [_ Hp].
    destruct (try_dsig_some (P := fun z => canonical z /\ z mod 4096 = 0) (`p + 4096 * n))
      as (q & -> & Hv); [split; [done | dlia]|]. by exists q.
  - intros z Hz. replace (z + 4096 - 1) with (z + 4095) by lia. case_match; [done | dlia].
  - intros p q [=]%dsig_eq. by apply dsig_eq.
  - intros i Hi. rewrite (proj2 (Z.ltb_lt i 512)) by lia. exists i. split; [done | dlia].
  - intros i Hi. rewrite (proj2 (Z.ltb_ge i 512)) by lia. by eexists.
  - intros i. apply index_512.
  - done.
Qed.
