(* ===== verification/X86Huge.v ===== *)
(** * 2 MiB pages and pages by table indices of the [x86_64] crate

    The bootloader maps the physical memory with 2 MiB pages and builds pages
    from table indices.  As in [X86] the crate is a class of operations with
    laws from its documentation, and an instance on numbers. *)

From Stdlib Require Import Lia.
From stdpp Require Import base decidable strings numbers list.
From S2P Require Import Prelude X86.

Open Scope Z_scope.

(** [Size2MiB::SIZE] *)
Definition SIZE_2M : Z := 0x200000.

Class X86Huge {X : X86Phys} {V : X86Virt} := {
  Page2M : Type;
  page2_containing_address : VirtAddr -> Page2M;
  page2_start_address : Page2M -> VirtAddr;
  page2_range_inclusive : Page2M -> Page2M -> list Page2M;
  PhysFrame2M : Type;
  frame2_containing_address : PhysAddr -> PhysFrame2M;
  frame2_start_address : PhysFrame2M -> PhysAddr;
  frame2_range_inclusive : PhysFrame2M -> PhysFrame2M -> list PhysFrame2M;
  (** [Page::from_page_table_indices(p4, p3, p2, p1)] *)
  from_page_table_indices :
    PageTableIndex -> PageTableIndex -> PageTableIndex -> PageTableIndex -> Page;
  (** the start of [Page::from_page_table_indices_1gib(p4, p3)] *)
  start_from_indices_1gib : PageTableIndex -> PageTableIndex -> VirtAddr;
}.
Arguments X86Huge : clear implicits.

Section huge.
Context {X : X86Phys} {V : X86Virt} {H : X86Huge X V}.

Definition page2_addr (q : Page2M) : Z := virt_as_u64 (page2_start_address q).
Definition frame2_addr (f : PhysFrame2M) : Z := phys_as_u64 (frame2_start_address f).
Definition index := index_as_u64.
End huge.

Class X86HugeLaws {X : X86Phys} {V : X86Virt} (H : X86Huge X V) : Prop := {
  page2_containing a : page2_addr (page2_containing_address a) = virt_as_u64 a - virt_as_u64 a mod SIZE_2M;
  page2_aligned q : page2_addr q mod SIZE_2M = 0;
  page2_inj p q : page2_addr p = page2_addr q -> p = q;
  page2_range p q : page2_addr q < 2 ^ 47 - SIZE_2M ->
    map page2_addr (page2_range_inclusive p q) =
      map (fun i => page2_addr p + SIZE_2M * Z.of_nat i)
        (seq 0 (Z.to_nat ((page2_addr q - page2_addr p) / SIZE_2M + 1)));
  frame2_containing a : frame2_addr (frame2_containing_address a) = phys_as_u64 a - phys_as_u64 a mod SIZE_2M;
  frame2_inj f g : frame2_addr f = frame2_addr g -> f = g;
  frame2_range f g : frame2_addr g < 2 ^ 52 - SIZE_2M ->
    map frame2_addr (frame2_range_inclusive f g) =
      map (fun i => frame2_addr f + SIZE_2M * Z.of_nat i)
        (seq 0 (Z.to_nat ((frame2_addr g - frame2_addr f) / SIZE_2M + 1)));
  from_indices a b c d :
    virt_as_u64 (page_start_address (from_page_table_indices a b c d)) =
      sign_extend48 (index a * 2 ^ 39 + index b * 2 ^ 30 + index c * 2 ^ 21 + index d * 2 ^ 12);
  from_indices_1gib a b :
    virt_as_u64 (start_from_indices_1gib a b) = sign_extend48 (index a * 2 ^ 39 + index b * 2 ^ 30);
}.

(** ** The instance on numbers *)

Lemma canonical_2m z : canonical z -> canonical (z - z mod SIZE_2M).
Proof. unfold canonical, SIZE_2M. dlia. Qed.

Lemma sign_extend48_canonical z : 0 <= z < 2 ^ 48 -> canonical (sign_extend48 z).
Proof. unfold canonical, sign_extend48. destruct (Z.ltb_spec z (2 ^ 47)); lia. Qed.

Definition page2m : Type := dsig (fun z => canonical z /\ z mod SIZE_2M = 0).
Definition frame2m : Type := dsig (fun z => 0 <= z < 2 ^ 52 /\ z mod SIZE_2M = 0).

Lemma page2m_containing (a : virt_addr) :
  canonical (`a - `a mod SIZE_2M) /\ (`a - `a mod SIZE_2M) mod SIZE_2M = 0.
Proof. split; [apply canonical_2m; exact (proj2_dsig a) | unfold SIZE_2M; dlia]. Qed.

Lemma page2m_start (q : page2m) : canonical (`q).
Proof. exact (proj1 (proj2_dsig q)). Qed.

Lemma frame2m_containing (a : phys_addr) :
  0 <= `a - `a mod SIZE_2M < 2 ^ 52 /\ (`a - `a mod SIZE_2M) mod SIZE_2M = 0.
Proof. pose proof (proj2_dsig a). cbn in *. unfold SIZE_2M. dlia. Qed.

Lemma frame2m_start (f : frame2m) : 0 <= `f < 2 ^ 52.
Proof. exact (proj1 (proj2_dsig f)). Qed.

Definition indices_addr (a b c d : Z) : Z :=
  sign_extend48 (a mod 512 * 2 ^ 39 + b mod 512 * 2 ^ 30 + c mod 512 * 2 ^ 21 + d mod 512 * 2 ^ 12).

Lemma indices_canonical a b c d : canonical (indices_addr a b c d).
Proof. apply sign_extend48_canonical. dlia. Qed.

Lemma indices_page a b c d : canonical (indices_addr a b c d) /\ indices_addr a b c d mod 4096 = 0.
Proof.
  split; [apply indices_canonical|]. unfold indices_addr, sign_extend48. destruct (_ <? _); dlia.
Qed.

#[export] Instance huge_numbers : X86Huge phys_numbers virt_numbers := {
  Page2M := page2m;
  page2_containing_address a := dexist (`a - `a mod SIZE_2M) (page2m_containing a);
  page2_start_address q := dexist (`q) (page2m_start q);
  page2_range_inclusive p q :=
    omap (fun i : nat => try_dsig (`p + SIZE_2M * Z.of_nat i)) (seq 0 (Z.to_nat ((`q - `p) / SIZE_2M + 1)));
  PhysFrame2M := frame2m;
  frame2_containing_address a := dexist (`a - `a mod SIZE_2M) (frame2m_containing a);
  frame2_start_address f := dexist (`f) (frame2m_start f);
  frame2_range_inclusive f g :=
    omap (fun i : nat => try_dsig (`f + SIZE_2M * Z.of_nat i)) (seq 0 (Z.to_nat ((`g - `f) / SIZE_2M + 1)));
  from_page_table_indices a b c d := dexist (indices_addr a b c d) (indices_page a b c d);
  start_from_indices_1gib a b := dexist (indices_addr a b 0 0) (indices_canonical a b 0 0);
}.

#[export] Instance huge_numbers_laws : X86HugeLaws huge_numbers.
Proof.
  constructor; unfold page2_addr, frame2_addr, index; cbn.
  - done.
  - intros q. exact (proj2 (proj2_dsig q)).
  - intros p q. apply dsig_eq.
  - intros p q Hq. pose proof (proj2_dsig p) as [Hc Hm]. pose proof (page2m_start q).
    apply (map_try_dsig (P := fun z => canonical z /\ z mod SIZE_2M = 0) (fun i : nat => `p + SIZE_2M * Z.of_nat i)).
    intros i Hi%elem_of_seq. cbn in *. unfold canonical, SIZE_2M in *. dlia.
  - done.
  - intros f g. apply dsig_eq.
  - intros f g Hg. pose proof (proj2_dsig f) as [Hf Hm]. pose proof (frame2m_start g).
    apply (map_try_dsig (P := fun z => 0 <= z < 2 ^ 52 /\ z mod SIZE_2M = 0) (fun i : nat => `f + SIZE_2M * Z.of_nat i)).
    intros i Hi%elem_of_seq. cbn in *. unfold SIZE_2M in *. dlia.
  - done.
  - intros a b. unfold indices_addr. f_equal. dlia.
Qed.
