(* ===== verification/FrameAllocator.v ===== *)
(** * The bootloader's frame allocator (src/bootloader/src/frame_allocator.rs)

    The allocator keeps no state of its own: it moves frames from the usable
    regions of the memory map to regions of the type it allocates for.  The
    operations work on the entries in use (the slice the map dereferences to)
    and write them back; [add_region] sorts the map again. *)

From Stdlib Require Import Lia Sorted.
From stdpp Require Import base decidable strings numbers list.
From S2P Require Import Prelude UnstableSort MemoryMap X86.

Open Scope Z_scope.

Section frame_allocator.
Context {B : Build} {SORT : UnstableSort} {X : X86Phys}.

Record PhysFrameRange := { pfr_start : PhysFrame; pfr_end : PhysFrame }.

Definition phys_frame_range (range : FrameRange) : outcome PhysFrameRange :=
  s ← start_addr range;
  a ← PhysAddr_new s;
  start ← unwrap (frame_from_start_address a);
  e ← end_addr range;
  b ← PhysAddr_new e;
  end_ ← unwrap (frame_from_start_address b);
  Ret {| pfr_start := start; pfr_end := end_ |}.

Definition frame_range (range : PhysFrameRange) : outcome FrameRange :=
  FrameRange_new (phys_as_u64 (frame_start_address (pfr_start range)))
    (phys_as_u64 (frame_start_address (pfr_end range))).

(** The first loop: the first region of the wanted type with a usable region
    right behind it takes over that region's first frame. *)
Fixpoint enlarge_region (t : MemoryRegionType) (l : list MemoryRegion) :
    outcome (option (PhysFrame * list MemoryRegion)) :=
  match l with
  | region :: ((next :: rest) as tail) =>
      if bool_decide (region_type region = t) && (rstart next =? rend region) &&
         bool_decide (region_type next = Usable) && negb (is_empty (range next))
      then
        pfr ← phys_frame_range (range region);
        e ← u64_add (rend region) 1;
        s ← u64_add (rstart next) 1;
        Ret (Some (pfr_end pfr,
          mk_region (rstart region) e (region_type region) ::
          mk_region s (rend next) (region_type next) :: rest))
      else
        found ← enlarge_region t tail;
        Ret (match found with Some (frame, l') => Some (frame, region :: l') | None => None end)
  | _ => Ret None
  end.

(** The nested function: the first frame of the first usable region. *)
Fixpoint split_usable_region (l : list MemoryRegion) :
    outcome (option (PhysFrame * PhysFrameRange * list MemoryRegion)) :=
  match l with
  | [] => Ret None
  | region :: rest =>
      if bool_decide (region_type region = Usable) && negb (is_empty (range region)) then
        pfr ← phys_frame_range (range region);
        s ← u64_add (rstart region) 1;
        next ← frame_add (pfr_start pfr) 1;
        Ret (Some (pfr_start pfr, {| pfr_start := pfr_start pfr; pfr_end := next |},
          mk_region s (rend region) (region_type region) :: rest))
      else
        found ← split_usable_region rest;
        Ret (match found with
             | Some (frame, range, l') => Some (frame, range, region :: l')
             | None => None
             end)
  end.

(** [iter_mut().rev()] visits the regions from the last to the first. *)
Definition split_usable_region_rev (l : list MemoryRegion) :
    outcome (option (PhysFrame * PhysFrameRange * list MemoryRegion)) :=
  found ← split_usable_region (rev l);
  Ret (match found with
       | Some (frame, range, l') => Some (frame, range, rev l')
       | None => None
       end).

Definition allocate_frame (t : MemoryRegionType) (mm : MemoryMap) :
    outcome (option PhysFrame * MemoryMap) :=
  enlarged ← enlarge_region t (slice mm);
  match enlarged with
  | Some (frame, l) => Ret (Some frame, with_slice l mm)
  | None =>
      found ← if bool_decide (t = PageTable) then split_usable_region_rev (slice mm)
              else split_usable_region (slice mm);
      match found with
      | Some (frame, range, l) =>
          r ← frame_range range;
          mm' ← add_region {| range := r; region_type := t |} (with_slice l mm);
          Ret (Some frame, mm')
      | None => Ret (None, mm)
      end
  end.

(** The loop of [mark_allocated_region]: the entries after the change of the
    region that was found, and the regions to add. *)
Fixpoint mark_loop (region : MemoryRegion) (l : list MemoryRegion) :
    outcome (list MemoryRegion * list MemoryRegion) :=
  match l with
  | [] =>
      text ← debug_region region;
      Panic ("region " +:+ text +:+ " is not a usable memory region")
  | r :: rest =>
      if (rend r <=? rstart region) || (rend region <=? rstart r) then
        '(rest', added) ← mark_loop region rest;
        Ret (r :: rest', added)
      else if negb (bool_decide (region_type r = Usable)) then
        text ← debug_region region;
        text' ← debug_region r;
        Panic ("region " +:+ text +:+ " overlaps with non-usable region " +:+ text')
      else if rstart region =? rstart r then
        if rend region <? rend r then
          Ret (mk_region (rend region) (rend r) (region_type r) :: rest, [region])
        else Ret (region :: rest, [])
      else if rstart r <? rstart region then
        if rend region <? rend r then
          Ret (mk_region (rstart r) (rstart region) (region_type r) :: rest,
               [mk_region (rend region) (rend r) (region_type r); region])
        else Ret (mk_region (rstart r) (rstart region) (region_type r) :: rest, [region])
      else Ret (mk_region (rend region) (rend r) (region_type r) :: rest, [region])
  end.

Definition mark_allocated_region (region : MemoryRegion) (mm : MemoryMap) : outcome MemoryMap :=
  '(l, added) ← mark_loop region (slice mm);
  for_each added add_region (with_slice l mm).
End frame_allocator.

(** ** Moving frames from the usable memory to a type *)

(** From [l] to [l'] the frames of [P] move from a usable region to one of type
    [t]; no other frame changes hands. *)
Definition moved (P : Z -> bool) (t : MemoryRegionType) (l l' : list MemoryRegion) : Prop :=
  forall f, if P f then Permutation (Usable :: kinds f l') (t :: kinds f l)
            else Permutation (kinds f l') (kinds f l).

Lemma moved_cons P t r l l' : moved P t l l' -> moved P t (r :: l) (r :: l').
Proof.
  intros H f. specialize (H f). rewrite !kinds_cons.
  destruct (contains f r); simpl; [|done]. destruct (P f).
  - rewrite perm_swap, H. apply perm_swap.
  - by constructor.
Qed.

Lemma moved_app_l P t k l l' : moved P t l l' -> moved P t (k ++ l) (k ++ l').
Proof. intros H. induction k; [done|]. by apply moved_cons. Qed.

#[export] Instance moved_proper P t :
  Proper (Permutation ==> Permutation ==> iff) (moved P t).
Proof.
  intros l k Hlk l' k' Hlk'. unfold moved.
  assert (forall f, Permutation (kinds f l) (kinds f k)) as H1 by (intros; by apply kinds_permutation).
  assert (forall f, Permutation (kinds f l') (kinds f k')) as H2 by (intros; by apply kinds_permutation).
  split; intros H f; specialize (H f); destruct (P f);
    by (rewrite <-H1, <-H2 || rewrite H1, H2).
Qed.

Lemma moved_kinds P t l k k' :
  (forall f, Permutation (kinds f k') (kinds f k)) -> moved P t l k -> moved P t l k'.
Proof. intros Hk H f. specialize (H f). by destruct (P f); rewrite Hk. Qed.

(** [l'] is [l] without the usable frame [n]. *)
Definition lost (n : Z) (l l' : list MemoryRegion) : Prop :=
  forall f, Permutation (kinds f l) ((if f =? n then [Usable] else []) ++ kinds f l').

Lemma lost_cons n r l l' : lost n l l' -> lost n (r :: l) (r :: l').
Proof.
  intros H f. rewrite !kinds_cons, (H f), !app_assoc.
  apply Permutation_app_tail, Permutation_app_comm.
Qed.

Lemma lost_rev n l l' : lost n (rev l) (rev l') -> lost n l l'.
Proof.
  intros H f. specialize (H f).
  by rewrite <-!(kinds_permutation f _ _ (Permutation_rev _)) in H.
Qed.

Lemma lost_usable n l l' : lost n l l' -> Usable ∈ kinds n l.
Proof. intros H. rewrite (H n), Z.eqb_refl. by left. Qed.

Lemma lost_moved n t l l' :
  lost n l l' -> moved (fun f => f =? n) t l (mk_region n (n + 1) t :: l').
Proof.
  intros H f. rewrite kinds_cons. specialize (H f).
  destruct (Z.eqb_spec f n) as [Hf|Hf]; [subst n|]; simpl in H.
  - assert (contains f (mk_region f (f + 1) t) = true) as -> by (apply contains_spec; cbn; lia).
    rewrite H. apply perm_swap.
  - assert (contains f (mk_region n (n + 1) t) = false) as ->; [|by rewrite H].
    apply not_true_is_false. rewrite contains_spec. cbn. lia.
Qed.

(** One frame moves across the border of two neighbours. *)
Lemma moved_border r next t rest :
  proper_region r -> proper_region next -> region_type r = t -> region_type next = Usable ->
  rstart next = rend r -> is_empty (range next) = false ->
  moved (fun f => f =? rend r) t (r :: next :: rest)
    (mk_region (rstart r) (rend r + 1) (region_type r) ::
     mk_region (rstart next + 1) (rend next) (region_type next) :: rest).
Proof.
  intros Hr Hn Ht Hu Hadj Hne f. rewrite !kinds_cons. unfold proper_region, is_empty in *.
  unfold contains. cbn [mk_region range region_type start_frame_number end_frame_number].
  rewrite Ht, Hu. destruct (Z.eqb_spec f (rend r)) as [Hf|Hf]; repeat case_match; try lia; simpl;
    done || apply perm_swap.
Qed.

(** The first frame of a usable region is taken off. *)
Lemma lost_first r rest :
  proper_region r -> region_type r = Usable -> is_empty (range r) = false ->
  lost (rstart r) (r :: rest) (mk_region (rstart r + 1) (rend r) (region_type r) :: rest).
Proof.
  intros Hr Hu Hne f. rewrite !kinds_cons. unfold proper_region, is_empty in *.
  unfold contains. cbn [mk_region range region_type start_frame_number end_frame_number].
  rewrite Hu. repeat case_match; try lia; done.
Qed.

Section proofs.
Context {B : Build} {SORT : UnstableSort} {SL : UnstableSortLaws SORT}.
Context {X : X86Phys} {XL : X86PhysLaws X}.

Lemma phys_frame_range_ok r :
  proper_region r ->
  exists pfr, phys_frame_range (range r) = Ret pfr /\
    frame_number (pfr_start pfr) = rstart r /\ frame_number (pfr_end pfr) = rend r.
Proof.
  intros Hr. unfold proper_region in Hr. unfold phys_frame_range, start_addr, end_addr, PAGE_SIZE.
  rewrite !u64_mul_ok by arith. cbn [mbind outcome_bind].
  destruct (frame_at_number (rstart r)) as (s & Hs & Hsn); [lia|].
  destruct (frame_at_number (rend r)) as (e & He & Hen); [lia|].
  ret_inv. repeat match goal with H : PhysAddr_new _ = Ret _ |- _ => rewrite H; clear H end.
  cbn [mbind outcome_bind].
  repeat match goal with H : unwrap _ = Ret _ |- _ => rewrite H; clear H end.
  cbn [mbind outcome_bind]. eexists. split; [done|]. cbn [pfr_start pfr_end]. auto.
Qed.

Definition enlargeable (t : MemoryRegionType) (region next : MemoryRegion) : bool :=
  bool_decide (region_type region = t) && (rstart next =? rend region) &&
  bool_decide (region_type next = Usable) && negb (is_empty (range next)).

Lemma enlarge_region_skip t r next rest :
  enlargeable t r next = false ->
  enlarge_region t (r :: next :: rest) =
    (found ← enlarge_region t (next :: rest);
     Ret (match found with Some (frame, l') => Some (frame, r :: l') | None => None end)).
Proof. intros H. cbn [enlarge_region]. fold (enlargeable t r next). by rewrite H. Qed.

(** The region and its neighbour when the first loop stops at them. *)
Lemma enlarge_region_here t r next rest :
  proper_region r -> proper_region next -> enlargeable t r next = true ->
  exists frame l', enlarge_region t (r :: next :: rest) = Ret (Some (frame, l')) /\
    frame_number frame = rend r /\
    l' = mk_region (rstart r) (rend r + 1) (region_type r) ::
         mk_region (rstart next + 1) (rend next) (region_type next) :: rest.
Proof.
  intros Hr Hn Hc. cbn [enlarge_region]. fold (enlargeable t r next). rewrite Hc.
  destruct (phys_frame_range_ok r Hr) as (pfr & -> & _ & He). cbn [mbind outcome_bind].
  unfold proper_region in *. rewrite !u64_add_ok by arith. cbn [mbind outcome_bind]. eauto.
Qed.

Lemma enlarge_region_spec t l :
  Forall proper_region l ->
  enlarge_region t l = Ret None \/
  exists frame l', enlarge_region t l = Ret (Some (frame, l')) /\
    length l' = length l /\ Forall proper_region l' /\
    Usable ∈ kinds (frame_number frame) l /\
    moved (fun f => f =? frame_number frame) t l l'.
Proof.
  induction l as [|r [|next rest] IH]; intros Hp; [by left | by left |].
  apply Forall_cons in Hp as [Hr Hp]. specialize (IH Hp). apply Forall_cons in Hp as [Hn Hp].
  destruct (enlargeable t r next) eqn:Hc.
  - right. destruct (enlarge_region_here t r next rest Hr Hn Hc) as (frame & l' & -> & Hf & ->).
    unfold enlargeable in Hc.
    rewrite !andb_true_iff, !bool_decide_eq_true, Z.eqb_eq, negb_true_iff in Hc.
    destruct Hc as [[[Ht Hadj] Hu] Hne].
    eexists frame, _. rewrite Hf. split; [done|]. split; [done|].
    split; [|split; [|by apply moved_border]].
    all: unfold proper_region, is_empty in *.
    + repeat constructor; cbn; lia || done.
    + rewrite <-Hu. apply kinds_intro; [right; left | apply contains_spec; lia].
  - rewrite enlarge_region_skip by done.
    destruct IH as [-> | (frame & l' & -> & Hl & Hpr & Hu & Hm)]; [by left | right].
    eexists frame, (r :: l'). split; [done|]. split; [simpl in *; lia|].
    split; [by constructor|]. split; [|by apply moved_cons].
    rewrite kinds_cons. apply elem_of_app. by right.
Qed.

Lemma split_usable_region_spec l :
  Forall proper_region l ->
  (split_usable_region l = Ret None /\ forall f, Usable ∉ kinds f l) \/
  exists frame next l',
    split_usable_region l = Ret (Some (frame, {| pfr_start := frame; pfr_end := next |}, l')) /\
    frame_number next = frame_number frame + 1 /\
    length l' = length l /\ Forall proper_region l' /\ lost (frame_number frame) l l'.
Proof.
  induction l as [|r rest IH]; intros Hp. { left. split; [done|]. intros f. apply not_elem_of_nil. }
  apply Forall_cons in Hp as [Hr Hp]. cbn [split_usable_region]. case_match eqn:Hc.
  - right. clear IH. rewrite andb_true_iff, bool_decide_eq_true, negb_true_iff in Hc.
    destruct Hc as [Hu Hne].
    destruct (phys_frame_range_ok r Hr) as (pfr & -> & Hs & _). cbn [mbind outcome_bind].
    pose proof Hr as Hr'. unfold proper_region, is_empty in Hr', Hne.
    rewrite u64_add_ok by arith. cbn [mbind outcome_bind].
    destruct (frame_add_number (pfr_start pfr) 1) as (g & -> & Hg); [lia | lia |].
    cbn [mbind outcome_bind]. eexists _, _, _. split; [done|]. split; [done|]. split; [done|].
    rewrite Hs. split; [constructor; [unfold proper_region; cbn; lia | done]|].
    by apply lost_first.
  - destruct (IH Hp) as [[-> Hno] | (frame & next & l' & -> & Hn & Hl & Hpr & Hlost)].
    + left. split; [done|]. intros f. rewrite kinds_cons, not_elem_of_app. split; [|done].
      case_match eqn:Hf; [|apply not_elem_of_nil]. apply contains_spec in Hf.
      rewrite list_elem_of_singleton. intros Hu. rewrite <-Hu, bool_decide_true in Hc by done.
      unfold is_empty in Hc. simpl in Hc. lia.
    + right. eexists _, _, (r :: l'). split; [done|]. split; [done|]. split; [simpl; lia|].
      split; [by constructor|]. by apply lost_cons.
Qed.

Lemma frame_range_one frame next :
  frame_number next = frame_number frame + 1 ->
  frame_range {| pfr_start := frame; pfr_end := next |} =
    Ret {| start_frame_number := frame_number frame; end_frame_number := frame_number frame + 1 |}.
Proof.
  intros Hn. pose proof (frame_number_range frame). pose proof (frame_number_range next).
  unfold frame_range, FrameRange_new, PAGE_SIZE. cbn [pfr_start pfr_end].
  rewrite !frame_start_number, u64_sub_ok by arith. cbn [mbind outcome_bind].
  do 2 f_equal; dlia.
Qed.

(** The region the second half of [allocate_frame] starts from. *)
Lemma split_for_spec (t : MemoryRegionType) l :
  Forall proper_region l ->
  let found := if bool_decide (t = PageTable) then split_usable_region_rev l
               else split_usable_region l in
  (found = Ret None /\ forall f, Usable ∉ kinds f l) \/
  exists frame next l',
    found = Ret (Some (frame, {| pfr_start := frame; pfr_end := next |}, l')) /\
    frame_number next = frame_number frame + 1 /\
    length l' = length l /\ Forall proper_region l' /\ lost (frame_number frame) l l'.
Proof.
  intros Hp. simpl. case_match; [|by apply split_usable_region_spec].
  unfold split_usable_region_rev.
  destruct (split_usable_region_spec (rev l)) as
    [[-> Hno] | (frame & next & l' & -> & Hn & Hl & Hpr & Hlost)]; [by apply Forall_rev | left | right].
  - split; [done|]. intros f Hin. apply (Hno f).
    by rewrite <-(kinds_permutation f _ _ (Permutation_rev l)).
  - eexists _, _, (rev l'). split; [done|]. split; [done|].
    rewrite length_rev in Hl |- *. split; [done|]. split; [by apply Forall_rev|].
    apply lost_rev. by rewrite rev_involutive.
Qed.

Definition is_frame (frame : PhysFrame) (f : Z) : bool := f =? frame_number frame.

(** The three ways [allocate_frame] ends. *)
Lemma allocate_frame_cases t mm :
  wf_map mm ->
  (exists frame mm', allocate_frame t mm = Ret (Some frame, mm') /\ wf_map mm' /\
     (next_entry_index mm' <= S (next_entry_index mm))%nat /\
     Usable ∈ owners (frame_number frame) mm /\ moved (is_frame frame) t (slice mm) (slice mm')) \/
  (allocate_frame t mm = Ret (None, mm) /\ forall f, Usable ∉ owners f mm) \/
  (allocate_frame t mm = Panic map_full /\ next_entry_index mm = MAX_MEMORY_MAP_SIZE).
Proof.
  intros Hw. pose proof (slice_proper mm Hw) as Hp. unfold allocate_frame, owners.
  destruct (enlarge_region_spec t (slice mm) Hp) as [-> | (frame & l & -> & Hl & Hpr & Hu & Hm)];
    cbn [mbind outcome_bind].
  2: { left. exists frame, (with_slice l mm). rewrite with_slice_slice by done.
       split; [done|]. split; [by apply with_slice_wf|]. split; [simpl; lia | done]. }
  destruct (split_for_spec t (slice mm) Hp) as
    [[-> Hno] | (frame & next & l & -> & Hn & Hl & Hpr & Hlost)]; [by right; left|].
  cbn [mbind outcome_bind]. rewrite (frame_range_one frame next Hn). cbn [mbind outcome_bind].
  pose proof (frame_number_range frame). pose proof (frame_number_range next).
  pose proof (with_slice_wf l mm Hl Hw Hpr) as Hw'.
  assert (next_entry_index (with_slice l mm) = next_entry_index mm) as Hnx by done.
  destruct (decide (next_entry_index mm < MAX_MEMORY_MAP_SIZE)%nat) as [Hlt|Hge].
  2: { right; right. split; [|destruct Hw as (_ & ? & _); lia].
       unfold add_region. by rewrite Hnx, decide_False. }
  left. fold (mk_region (frame_number frame) (frame_number frame + 1) t).
  destruct (add_region_spec (mk_region (frame_number frame) (frame_number frame + 1) t)
    (with_slice l mm) Hw') as (mm' & -> & Hwf & _ & Hle & Hown); [unfold proper_region; cbn; lia | lia |].
  exists frame, mm'. do 2 (split; [done|]). split; [lia|]. split; [by eapply lost_usable|].
  eapply moved_kinds; [|by apply lost_moved]. intros f.
  rewrite (Hown f). unfold owners. by rewrite with_slice_slice, <-kinds_app.
Qed.

(** ** The abstract allocator: who owns each frame *)

Definition ownership : Type := Z -> option MemoryRegionType.

Definition abs (mm : MemoryMap) : ownership := fun f => head (owners f mm).

(** A usable frame is given to type [t], or there is none. *)
Inductive alloc_step (t : MemoryRegionType) (σ : ownership) : option Z -> ownership -> Prop :=
| alloc_some n σ' :
    σ n = Some Usable -> σ' n = Some t -> (forall f, f <> n -> σ' f = σ f) ->
    alloc_step t σ (Some n) σ'
| alloc_none σ' :
    (forall f, σ f <> Some Usable) -> (forall f, σ' f = σ f) -> alloc_step t σ None σ'.

(** The frames of region [r] are given to its type. *)
Definition mark_step (r : MemoryRegion) (σ σ' : ownership) : Prop :=
  forall f, σ' f = if contains f r then Some (region_type r) else σ f.

Lemma singleton_usable l : (length l <= 1)%nat -> Usable ∈ l -> l = [Usable].
Proof.
  destruct l as [|x [|y l]]; simpl; intros Hl Hin; [by apply not_elem_of_nil in Hin | | lia].
  apply list_elem_of_singleton in Hin. by subst.
Qed.

Lemma permutation_short {A} (l k : list A) : Permutation l k -> (length k <= 1)%nat -> l = k.
Proof.
  intros Hp. destruct k as [|x [|y k]]; simpl; intros; [| |lia].
  - by apply Permutation_nil_r in Hp.
  - by apply Permutation_singleton_r in Hp.
Qed.

(** Where no frame has two owners a move is exact. *)
Lemma moved_disjoint P t mm mm' :
  disjoint_map mm -> moved P t (slice mm) (slice mm') ->
  (forall f, P f = true -> Usable ∈ owners f mm) ->
  forall f, owners f mm' = if P f then [t] else owners f mm.
Proof.
  intros Hd Hm Hu f. specialize (Hm f). specialize (Hd f). destruct (P f) eqn:HP.
  - specialize (Hu f HP). fold (owners f mm) (owners f mm') in Hm.
    rewrite (singleton_usable _ Hd Hu) in Hm.
    assert (Permutation (owners f mm') [t]) as Hp.
    { apply (Permutation_cons_inv (a := Usable)). rewrite Hm. apply perm_swap. }
    by apply Permutation_singleton_r in Hp.
  - by apply permutation_short.
Qed.

Lemma exact_disjoint (P : Z -> bool) t mm mm' :
  disjoint_map mm -> (forall f, owners f mm' = if P f then [t] else owners f mm) -> disjoint_map mm'.
Proof. intros Hd H f. rewrite H. destruct (P f); [simpl; lia | apply Hd]. Qed.

(** An allocation that returned. *)
Lemma allocate_frame_returned t mm r mm' :
  wf_map mm -> disjoint_map mm -> allocate_frame t mm = Ret (r, mm') ->
  wf_map mm' /\ disjoint_map mm' /\ (next_entry_index mm' <= S (next_entry_index mm))%nat /\
  match r with
  | Some frame => owners (frame_number frame) mm = [Usable] /\
      forall f, owners f mm' = if is_frame frame f then [t] else owners f mm
  | None => mm' = mm /\ forall f, Usable ∉ owners f mm
  end.
Proof.
  intros Hw Hd Heq.
  destruct (allocate_frame_cases t mm Hw) as
    [(frame & mm1 & Heq' & Hw' & Hle & Hu & Hm) | [[Heq' Hno] | [Heq' _]]];
    rewrite Heq in Heq'; [| |done]; injection Heq' as -> ->; [|by split_and!; auto].
  assert (forall f, owners f mm1 = if is_frame frame f then [t] else owners f mm) as Hex.
  { apply moved_disjoint; [done..|]. unfold is_frame. by intros f ->%Z.eqb_eq. }
  split; [done|]. split; [by eapply exact_disjoint|]. split; [done|]. split; [by apply singleton_usable | done].
Qed.

(** One allocation, exactly. *)
Lemma allocate_frame_exact t mm :
  wf_map mm -> disjoint_map mm -> (next_entry_index mm < MAX_MEMORY_MAP_SIZE)%nat ->
  exists r mm', allocate_frame t mm = Ret (r, mm') /\ wf_map mm' /\ disjoint_map mm' /\
    (next_entry_index mm' <= S (next_entry_index mm))%nat /\
    match r with
    | Some frame => owners (frame_number frame) mm = [Usable] /\
        forall f, owners f mm' = if is_frame frame f then [t] else owners f mm
    | None => mm' = mm /\ forall f, Usable ∉ owners f mm
    end.
Proof.
  intros Hw Hd Hlt.
  destruct (allocate_frame_cases t mm Hw) as
    [(frame & mm' & Heq & _) | [[Heq _] | [_ ?]]]; [eexists _, _; split; [exact Heq|].. | lia];
    by apply (allocate_frame_returned t mm).
Qed.

(** A sequence of allocations. *)
Fixpoint allocate_frames (ts : list MemoryRegionType) (mm : MemoryMap) :
    outcome (list (option PhysFrame) * MemoryMap) :=
  match ts with
  | [] => Ret ([], mm)
  | t :: ts' =>
      '(r, mm1) ← allocate_frame t mm;
      '(rs, mm2) ← allocate_frames ts' mm1;
      Ret (r :: rs, mm2)
  end.

(** The numbers of the frames handed out. *)
Fixpoint handed_out (rs : list (option PhysFrame)) : list Z :=
  match rs with
  | [] => []
  | Some frame :: rs' => frame_number frame :: handed_out rs'
  | None :: rs' => handed_out rs'
  end.

Lemma handed_out_lookup n rs :
  n ∈ handed_out rs -> exists i frame, rs !! i = Some (Some frame) /\ frame_number frame = n.
Proof.
  induction rs as [|[frame|] rs IH]; simpl; [by intros ?%not_elem_of_nil| |].
  - intros [-> | Hin]%elem_of_cons; [by exists 0%nat, frame|].
    destruct (IH Hin) as (i & g & ? & ?). by exists (S i), g.
  - intros Hin. destruct (IH Hin) as (i & g & ? & ?). by exists (S i), g.
Qed.

(** Allocations that returned. *)
Lemma allocate_frames_returned ts mm rs mm' :
  wf_map mm -> disjoint_map mm -> Usable ∉ ts -> allocate_frames ts mm = Ret (rs, mm') ->
  wf_map mm' /\ disjoint_map mm' /\ NoDup (handed_out rs) /\
    (forall i frame, rs !! i = Some (Some frame) -> exists t, ts !! i = Some t /\
       owners (frame_number frame) mm = [Usable] /\ owners (frame_number frame) mm' = [t]) /\
    (forall f, f ∉ handed_out rs -> owners f mm' = owners f mm).
Proof.
  revert mm rs. induction ts as [|t ts IH]; intros mm rs Hw Hd Hts Heq; cbn [allocate_frames] in Heq.
  { injection Heq as <- <-. split_and!; auto using NoDup_nil_2. done. }
  apply not_elem_of_cons in Hts as [Ht Hts].
  apply bind_Ret_inv in Heq as ([r mm1] & Heq1 & Heq). apply bind_Ret_inv in Heq as ([rs1 mm2] & Heq2 & Heq).
  injection Heq as <- <-.
  destruct (allocate_frame_returned t mm r mm1 Hw Hd Heq1) as (Hw1 & Hd1 & _ & Hr).
  destruct (IH mm1 rs1 Hw1 Hd1 Hts Heq2) as (Hw2 & Hd2 & Hnd & Hown & Hrest). do 2 (split; [done|]).
  destruct r as [frame|]; [|destruct Hr as [-> _]; split; [done|]; split; [|done]].
  2: { intros [|i] g Hg; [done|]. by apply Hown. }
  destruct Hr as [Hu Hex].
  assert (owners (frame_number frame) mm1 = [t]) as Hn1.
  { rewrite Hex. unfold is_frame. by rewrite Z.eqb_refl. }
  assert (frame_number frame ∉ handed_out rs1) as Hnin.
  { intros (i & g & Hg & Hgn)%handed_out_lookup. destruct (Hown i g Hg) as (t' & _ & H1 & _).
    rewrite Hgn, Hn1 in H1. congruence. }
  cbn [handed_out]. split; [by constructor|]. split.
  - intros [|i] g Hg; simpl in Hg.
    + injection Hg as <-. exists t. split; [done|]. split; [done|]. by rewrite Hrest.
    + destruct (Hown i g Hg) as (t' & Ht' & H1 & H2). exists t'. split; [done|]. split; [|done].
      rewrite Hex in H1. unfold is_frame in H1. case_match; [congruence | done].
  - intros f [Hf Hf']%not_elem_of_cons. rewrite Hrest, Hex by done. unfold is_frame.
    by rewrite (proj2 (Z.eqb_neq _ _)) by done.
Qed.

(** With an entry for each of them they return. *)
Lemma allocate_frames_returns ts mm :
  wf_map mm -> disjoint_map mm -> (next_entry_index mm + length ts <= MAX_MEMORY_MAP_SIZE)%nat ->
  returns (allocate_frames ts mm).
Proof.
  revert mm. induction ts as [|t ts IH]; intros mm Hw Hd Hlen; cbn [allocate_frames]; [by eexists|].
  simpl in Hlen. destruct (allocate_frame_exact t mm Hw Hd) as (r & mm1 & -> & Hw1 & Hd1 & Hle & _); [lia|].
  cbn [mbind outcome_bind]. destruct (IH mm1 Hw1 Hd1) as [[rs mm2] ->]; [lia | by eexists].
Qed.

Lemma allocate_frames_spec ts mm :
  wf_map mm -> disjoint_map mm -> Usable ∉ ts ->
  (next_entry_index mm + length ts <= MAX_MEMORY_MAP_SIZE)%nat ->
  exists rs mm', allocate_frames ts mm = Ret (rs, mm') /\ wf_map mm' /\ disjoint_map mm' /\
    NoDup (handed_out rs) /\
    (forall i frame, rs !! i = Some (Some frame) -> exists t, ts !! i = Some t /\
       owners (frame_number frame) mm = [Usable] /\ owners (frame_number frame) mm' = [t]) /\
    (forall f, f ∉ handed_out rs -> owners f mm' = owners f mm).
Proof.
  intros Hw Hd Hts Hlen. destruct (allocate_frames_returns ts mm Hw Hd Hlen) as [[rs mm'] Heq].
  exists rs, mm'. split; [done|]. by apply (allocate_frames_returned ts mm).
Qed.

(** ** Marking a region *)

(** Regions that were added. *)
Lemma add_regions_returned rs mm mm' :
  wf_map mm -> Forall proper_region rs -> for_each rs add_region mm = Ret mm' ->
  wf_map mm' /\ (rs = [] /\ mm' = mm \/ start_sorted (slice mm')) /\
  forall f, Permutation (owners f mm') (kinds f rs ++ owners f mm).
Proof.
  revert mm. induction rs as [|r rs IH]; intros mm Hw Hp Heq.
  { injection Heq as <-. split_and!; auto. }
  apply Forall_cons in Hp as [Hr Hp]. cbn [for_each] in Heq.
  apply bind_Ret_inv in Heq as (mm1 & Heq1 & Heq).
  destruct (add_region_spec r mm Hw Hr) as (mm1' & Heq1' & Hw1 & Hs1 & Hle & Hown1).
  { unfold add_region in Heq1. by case_decide. }
  rewrite Heq1 in Heq1'. injection Heq1' as <-.
  destruct (IH mm1 Hw1 Hp Heq) as (Hw2 & Hs2 & Hown2). split; [done|].
  split; [right; by destruct Hs2 as [[_ ->]|]|].
  intros f. rewrite (Hown2 f), (Hown1 f), app_assoc. apply Permutation_app_tail.
  rewrite <-kinds_app. by rewrite (Permutation_app_comm rs [r]).
Qed.

(** They can be added if there is room for them. *)
Lemma add_regions_return rs mm :
  wf_map mm -> Forall proper_region rs ->
  (next_entry_index mm + length rs <= MAX_MEMORY_MAP_SIZE)%nat ->
  exists mm', for_each rs add_region mm = Ret mm'.
Proof.
  revert mm. induction rs as [|r rs IH]; intros mm Hw Hp Hlen; [by exists mm|].
  apply Forall_cons in Hp as [Hr Hp]. simpl in Hlen.
  destruct (add_region_spec r mm Hw Hr) as (mm1 & Heq & Hw1 & _ & Hle & _); [lia|].
  cbn [for_each]. rewrite Heq. apply IH; [done..|lia].
Qed.

(** The region does not share a frame with [r], in the loop's terms. *)
Definition clear_of (region r : MemoryRegion) : bool :=
  (rend r <=? rstart region) || (rend region <=? rstart r).

Lemma mark_loop_skip region pre l :
  Forall (fun r => clear_of region r = true) pre ->
  mark_loop region (pre ++ l) = ('(l', added) ← mark_loop region l; Ret (pre ++ l', added)).
Proof.
  induction 1 as [|r pre Hr Hpre IH]; simpl; [by destruct (mark_loop region l) as [[]|]|].
  unfold clear_of in Hr. rewrite Hr, IH. by destruct (mark_loop region l) as [[]|].
Qed.

(** The region found contains the one to mark: the three cases of the code. *)
Lemma mark_loop_here region r rest :
  proper_region region -> nonempty region = true -> proper_region r -> region_type r = Usable ->
  rstart r <= rstart region -> rend region <= rend r ->
  exists l' added, mark_loop region (r :: rest) = Ret (l', added) /\
    length l' = S (length rest) /\ (length added <= 2)%nat /\
    (added = [] -> map (fun x => rstart x) l' = map (fun x => rstart x) (r :: rest)) /\
    (Forall proper_region rest -> Forall proper_region l') /\ Forall proper_region added /\
    moved (fun f => contains f region) (region_type region) (r :: rest) (added ++ l').
Proof.
  intros Hreg Hne Hr Hu Hs He. pose proof Hne as Hne'. unfold nonempty, is_empty in Hne'.
  pose proof Hreg as Hreg'. pose proof Hr as Hr'. unfold proper_region in Hreg', Hr'.
  cbn [mark_loop]. rewrite (bool_decide_true (region_type r = Usable)) by done. cbn [negb].
  repeat case_match; try lia; (eexists _, _; split; [done|]; split; [done|]; split; [simpl; lia|]).
  all: split; [try done; intros _; simpl; f_equal; lia|].
  all: split; [intros; constructor; [unfold proper_region; cbn; lia | done]|].
  all: split; [repeat (apply List.Forall_cons; [unfold proper_region; cbn; lia|]); apply List.Forall_nil|].
  all: intros f; rewrite ?kinds_app, ?kinds_cons; unfold contains;
    cbn [mk_region range region_type start_frame_number end_frame_number].
  all: rewrite ?Hu; repeat case_match; try lia; simpl; done || apply perm_swap.
Qed.

Lemma start_sorted_before pre r post x :
  start_sorted (pre ++ r :: post) -> In x pre -> rstart x <= rstart r.
Proof.
  induction pre as [|y pre IH]; simpl; intros Hs; [done|].
  inversion Hs as [|? ? Hs' Hall]; subst. intros [-> | Hin]; [|by apply IH].
  rewrite List.Forall_forall in Hall. apply Hall, in_or_app. right. by left.
Qed.

Lemma start_sorted_starts l k :
  map (fun x => rstart x) l = map (fun x => rstart x) k -> start_sorted l -> start_sorted k.
Proof.
  intros Heq Hs. revert k Heq. induction Hs as [|x l Hs IH Hx]; intros [|y k] Heq; try done.
  { constructor. }
  simpl in Heq. injection Heq as Hxy Heq. constructor; [by apply IH|].
  rewrite <-Hxy. clear IH Hs Hxy. revert l Hx Heq.
  induction k as [|z k IH]; intros [|w l] Hx Heq; try done.
  simpl in Heq. injection Heq as Hz Heq. apply Forall_cons in Hx as [Hw Hx].
  constructor; [lia | by eapply IH].
Qed.

(** Two regions that share a frame are not both in a map without overlaps. *)
Lemma apart_others mm pre r post region :
  disjoint_map mm -> start_sorted (slice mm) -> slice mm = pre ++ r :: post ->
  proper_region region -> nonempty region = true ->
  rstart r <= rstart region -> rend region <= rend r -> Forall proper_region pre ->
  Forall (fun x => clear_of region x = true) pre.
Proof.
  intros Hd Hsort Hsl Hreg Hne Hs He Hp. apply List.Forall_forall. intros x Hx.
  assert (rstart x <= rstart r) as Hle.
  { rewrite Hsl in Hsort. by eapply start_sorted_before. }
  assert (proper_region x) as Hpx by (by eapply List.Forall_forall in Hp).
  unfold clear_of, nonempty, is_empty, proper_region in *.
  destruct (decide (rend x <= rstart region \/ rend region <= rstart x)) as [|Hov]; [lia|].
  exfalso. specialize (Hd (Z.max (rstart x) (rstart region))).
  unfold owners in Hd. rewrite Hsl in Hd.
  apply in_split in Hx as (p1 & p2 & ->).
  rewrite !kinds_app, !kinds_cons, !length_app in Hd.
  rewrite (proj2 (contains_spec _ x)), (proj2 (contains_spec _ r)) in Hd by lia.
  simpl in Hd. lia.
Qed.

(** The loop on a region inside one usable region of a sorted map. *)
Lemma mark_loop_inside region r mm :
  wf_map mm -> disjoint_map mm -> start_sorted (slice mm) ->
  proper_region region -> nonempty region = true ->
  r ∈ slice mm -> region_type r = Usable -> rstart r <= rstart region -> rend region <= rend r ->
  exists l added, mark_loop region (slice mm) = Ret (l, added) /\
    length l = length (slice mm) /\ wf_map (with_slice l mm) /\ Forall proper_region added /\
    (length added <= 2)%nat /\ (added = [] -> start_sorted l) /\
    moved (fun f => contains f region) (region_type region) (slice mm) (added ++ l).
Proof.
  intros Hw Hd Hsort Hreg Hne Hin Hu Hs He. pose proof (slice_proper mm Hw) as Hp.
  apply list_elem_of_split in Hin as (pre & post & Hsl). rewrite Hsl in Hp.
  apply Forall_app in Hp as [Hpre Hp]. apply Forall_cons in Hp as [Hr Hpost].
  pose proof (apart_others mm pre r post region Hd Hsort Hsl Hreg Hne Hs He Hpre) as Hclear.
  destruct (mark_loop_here region r post Hreg Hne Hr Hu Hs He)
    as (l' & added & Heq & Hl & Hadd & Hst & Hpl & Hpa & Hm).
  exists (pre ++ l'), added. rewrite Hsl, mark_loop_skip, Heq by done.
  assert (length (pre ++ l') = length (pre ++ r :: post)) as Hlen by (by rewrite !length_app, Hl).
  do 2 (split; [done|]). split.
  { apply with_slice_wf; [by rewrite Hsl | done |]. apply Forall_app. auto. }
  do 2 (split; [done|]). split.
  - intros Ha. rewrite Hsl in Hsort. eapply start_sorted_starts; [|exact Hsort]. by rewrite !map_app, Hst.
  - eapply moved_kinds; [|by apply moved_app_l, Hm]. intros f.
    by rewrite !app_assoc, (Permutation_app_comm added pre).
Qed.

(** A region that was marked. *)
Lemma mark_allocated_region_returned region r mm mm' :
  wf_map mm -> disjoint_map mm -> start_sorted (slice mm) ->
  proper_region region -> nonempty region = true ->
  r ∈ slice mm -> region_type r = Usable -> rstart r <= rstart region -> rend region <= rend r ->
  mark_allocated_region region mm = Ret mm' ->
  wf_map mm' /\ disjoint_map mm' /\ start_sorted (slice mm') /\
  forall f, owners f mm' = if contains f region then [region_type region] else owners f mm.
Proof.
  intros Hw Hd Hsort Hreg Hne Hin Hu Hs He Heq.
  destruct (mark_loop_inside region r mm) as (l & added & Hl & Hlen & Hw' & Hpa & _ & Hst & Hm); [done..|].
  unfold mark_allocated_region in Heq. rewrite Hl in Heq. cbn [mbind outcome_bind] in Heq.
  destruct (add_regions_returned added _ mm' Hw' Hpa Heq) as (Hwf & Hss & Hown).
  assert (forall f, owners f mm' = if contains f region then [region_type region] else owners f mm)
    as Hex.
  { apply moved_disjoint; [done| |].
    - eapply moved_kinds; [|exact Hm]. intros f. rewrite (Hown f). unfold owners.
      by rewrite with_slice_slice, <-kinds_app.
    - intros f Hf%contains_spec. rewrite <-Hu. apply kinds_intro; [done | apply contains_spec; lia]. }
  split; [done|]. split; [by apply (exact_disjoint (fun f => contains f region) (region_type region) mm)|].
  split; [|done]. destruct Hss as [[Ha ->] | Hss]; [|done]. rewrite with_slice_slice by done. by apply Hst.
Qed.

Lemma mark_allocated_region_exact region r mm :
  wf_map mm -> disjoint_map mm -> start_sorted (slice mm) ->
  proper_region region -> nonempty region = true ->
  r ∈ slice mm -> region_type r = Usable -> rstart r <= rstart region -> rend region <= rend r ->
  (next_entry_index mm + 2 <= MAX_MEMORY_MAP_SIZE)%nat ->
  exists mm', mark_allocated_region region mm = Ret mm' /\ wf_map mm' /\ disjoint_map mm' /\
    start_sorted (slice mm') /\
    forall f, owners f mm' = if contains f region then [region_type region] else owners f mm.
Proof.
  intros Hw Hd Hsort Hreg Hne Hin Hu Hs He Hlen.
  destruct (mark_loop_inside region r mm) as (l & added & Hl & _ & Hw' & Hpa & Ha & _); [done..|].
  destruct (add_regions_return added (with_slice l mm) Hw' Hpa) as [mm' Heq]; [simpl; lia|].
  assert (mark_allocated_region region mm = Ret mm') as Hmark by (unfold mark_allocated_region; by rewrite Hl).
  exists mm'. split; [done|]. by eapply mark_allocated_region_returned.
Qed.
End proofs.

Section properties.
Context {B : Build} {SORT : UnstableSort} {SL : UnstableSortLaws SORT}.
Context {X : X86Phys} {XL : X86PhysLaws X}.

(** C7 (refinement). On a map without overlaps [allocate_frame] implements the
    abstract allocator: it gives one usable frame to the wanted type and leaves
    the owner of every other frame alone, and it returns [None] only when no
    frame is usable.  The map stays well formed and without overlaps.  It panics
    only when all 64 entries of the map are in use. *)
Theorem allocate_frame_refines t mm :
  wf_map mm -> disjoint_map mm ->
  (panics (allocate_frame t mm) /\ next_entry_index mm = MAX_MEMORY_MAP_SIZE) \/
  exists r mm', allocate_frame t mm = Ret (r, mm') /\ wf_map mm' /\ disjoint_map mm' /\
    alloc_step t (abs mm) (frame_number <$> r) (abs mm').
Proof.
  intros Hw Hd. unfold abs.
  destruct (allocate_frame_cases t mm Hw) as
    [(frame & mm' & Heq & Hw' & Hle & Hu & Hm) | [[Heq Hno] | [Heq ?]]]; [right| right | left; split; [by eexists | done]].
  - assert (forall f, owners f mm' = if is_frame frame f then [t] else owners f mm) as Hex.
    { apply moved_disjoint; [done..|]. unfold is_frame. by intros f ->%Z.eqb_eq. }
    exists (Some frame), mm'. do 2 (split; [done|]). split; [by eapply exact_disjoint|].
    unfold is_frame in Hex. apply alloc_some.
    + by rewrite (singleton_usable _ (Hd _) Hu).
    + by rewrite Hex, Z.eqb_refl.
    + intros f Hf. by rewrite Hex, (proj2 (Z.eqb_neq _ _) Hf).
  - exists None, mm. do 3 (split; [done|]). apply alloc_none; [|done].
    intros f Hf. apply (Hno f). destruct (owners f mm); simpl in Hf; [done|].
    injection Hf as ->. by left.
Qed.

(** C24 (safety). A sequence of allocations, for types other than usable and
    within the room of the map, returns; it never hands out a frame twice;
    every frame it hands out was usable before and belongs to exactly the
    requested type at the end; no other frame changes its owner. *)
Theorem allocations_distinct ts mm :
  wf_map mm -> disjoint_map mm -> Usable ∉ ts ->
  (next_entry_index mm + length ts <= MAX_MEMORY_MAP_SIZE)%nat ->
  exists rs mm', allocate_frames ts mm = Ret (rs, mm') /\ wf_map mm' /\ disjoint_map mm' /\
    NoDup (handed_out rs) /\
    (forall i frame, rs !! i = Some (Some frame) -> exists t, ts !! i = Some t /\
       owners (frame_number frame) mm = [Usable] /\ owners (frame_number frame) mm' = [t]) /\
    (forall f, f ∉ handed_out rs -> owners f mm' = owners f mm).
Proof. apply allocate_frames_spec. Qed.

(** C25 (refinement). Marking a region that lies inside one usable region of a
    sorted map without overlaps, with two entries to spare, gives exactly its
    frames to its type and leaves the map well formed, sorted and without
    overlaps. *)
Theorem mark_allocated_region_refines region r mm :
  wf_map mm -> disjoint_map mm -> start_sorted (slice mm) ->
  proper_region region -> nonempty region = true ->
  r ∈ slice mm -> region_type r = Usable -> rstart r <= rstart region -> rend region <= rend r ->
  (next_entry_index mm + 2 <= MAX_MEMORY_MAP_SIZE)%nat ->
  exists mm', mark_allocated_region region mm = Ret mm' /\ wf_map mm' /\ disjoint_map mm' /\
    start_sorted (slice mm') /\ mark_step region (abs mm) (abs mm').
Proof.
  intros Hw Hd Hsort Hreg Hne Hin Hu Hs He Hlen.
  destruct (mark_allocated_region_exact region r mm) as (mm' & Heq & Hw' & Hd' & Hs' & Hex); try done.
  exists mm'. do 4 (split; [done|]). intros f. unfold abs. rewrite Hex. by case_match.
Qed.

(** Marking a region that shares no frame with a usable region
    panics: memory the firmware did not report as usable is never claimed. *)
Theorem mark_unusable_panics region mm :
  Forall (fun r => clear_of region r = true \/ region_type r <> Usable) (slice mm) ->
  panics (mark_allocated_region region mm).
Proof.
  intros H. unfold mark_allocated_region.
  assert (panics (mark_loop region (slice mm))) as [why ->]; [|by eexists].
  induction H as [|r l Hr _ [why IH]]; cbn [mark_loop].
  { apply bind_panics. by eexists. }
  fold (clear_of region r). destruct (clear_of region r); [rewrite IH; by eexists|].
  destruct Hr as [|Hr]; [done|]. rewrite bool_decide_false by done.
  apply bind_panics. intros text. apply bind_panics. by eexists.
Qed.
End properties.

(** ** Concrete maps *)

#[local] Instance checked : Build := true.

(** The map of [sample_e820] as [create_from] builds it. *)
Definition sample_map : MemoryMap :=
  Eval vm_compute in match create_from sample_e820 with Ret mm => mm | Panic _ => MemoryMap_new end.

Definition map_of (l : list MemoryRegion) : MemoryMap :=
  {| entries := l ++ replicate (64 - length l) MemoryRegion_empty; next_entry_index := length l |}.

Lemma sample_map_wf : wf_map sample_map.
Proof. by_compute. Qed.

Lemma sample_map_disjoint : disjoint_map sample_map.
Proof.
  intros f. apply apart_kinds; [apply slice_proper, sample_map_wf|].
  repeat constructor; discriminate.
Qed.

Lemma sample_map_sorted : start_sorted (slice sample_map).
Proof. repeat constructor; discriminate. Qed.

Lemma allocate_frame_refines_witness :
  (panics (allocate_frame KernelStack sample_map) /\
     next_entry_index sample_map = MAX_MEMORY_MAP_SIZE) \/
  exists r mm', allocate_frame KernelStack sample_map = Ret (r, mm') /\ wf_map mm' /\
    disjoint_map mm' /\ alloc_step KernelStack (abs sample_map) (frame_number <$> r) (abs mm').
Proof.
  apply (allocate_frame_refines KernelStack sample_map); [apply sample_map_wf | apply sample_map_disjoint].
Defined.

Lemma allocations_distinct_witness :
  exists rs mm', allocate_frames [BootInfoRegion; PageTable; KernelStack; PageTable] sample_map
      = Ret (rs, mm') /\ wf_map mm' /\ disjoint_map mm' /\
    NoDup (handed_out rs) /\
    (forall i frame, rs !! i = Some (Some frame) ->
       exists t, [BootInfoRegion; PageTable; KernelStack; PageTable] !! i = Some t /\
       owners (frame_number frame) sample_map = [Usable] /\ owners (frame_number frame) mm' = [t]) /\
    (forall f, f ∉ handed_out rs -> owners f mm' = owners f sample_map).
Proof.
  apply (allocations_distinct [BootInfoRegion; PageTable; KernelStack; PageTable] sample_map);
    [apply sample_map_wf | apply sample_map_disjoint | by_compute | by_compute].
Defined.

Lemma mark_allocated_region_refines_witness :
  exists mm', mark_allocated_region (mk_region 0x400 0x600 Kernel) sample_map = Ret mm' /\
    wf_map mm' /\ disjoint_map mm' /\ start_sorted (slice mm') /\
    mark_step (mk_region 0x400 0x600 Kernel) (abs sample_map) (abs mm').
Proof.
  apply (mark_allocated_region_refines (mk_region 0x400 0x600 Kernel)
           (mk_region 0x100 0x7fe0 Usable) sample_map);
    [apply sample_map_wf | apply sample_map_disjoint | apply sample_map_sorted | by_compute
    | reflexivity | by_compute | reflexivity | by_compute | by_compute | by_compute].
Defined.

Lemma mark_unusable_panics_witness :
  panics (mark_allocated_region (mk_region 0xa0 0xc0 Kernel) sample_map).
Proof. apply (mark_unusable_panics (mk_region 0xa0 0xc0 Kernel) sample_map). by_compute. Defined.

(** Only the first region that overlaps is looked at: a region that
    runs from a usable region into a reserved one is marked without a panic, and
    its last frames belong to both types afterwards. *)
Theorem mark_spanning_reserved :
  exists mm',
    mark_allocated_region (mk_region 3 7 Kernel)
      (map_of [mk_region 0 5 Usable; mk_region 5 8 Reserved]) = Ret mm' /\
    owners 4 mm' = [Kernel] /\ owners 5 mm' = [Kernel; Reserved].
Proof. eexists. split; [vm_compute; reflexivity|]. by split. Qed.

(** A region marked across two neighbouring usable regions stays
    usable in the second one, so that [allocate_frame] hands out a frame that
    was marked. *)
Theorem mark_spanning_usable :
  exists mm',
    mark_allocated_region (mk_region 0 7 Kernel)
      (map_of [mk_region 0 5 Usable; mk_region 5 9 Usable]) = Ret mm' /\
    owners 5 mm' = [Kernel; Usable] /\
    ('(r, _) ← allocate_frame BootInfoRegion mm'; Ret (option_map frame_number r)) = Ret (Some 5).
Proof. eexists. split; [vm_compute; reflexivity|]. split; vm_compute; reflexivity. Qed.

(** A region that starts before the usable region it overlaps and
    ends after it leaves that region with its start behind its end. *)
Theorem mark_around_usable :
  exists mm',
    mark_allocated_region (mk_region 2 9 Kernel)
      (map_of [mk_region 3 5 Usable]) = Ret mm' /\
    mk_region 9 5 Usable ∈ slice mm'.
Proof. eexists. split; [vm_compute; reflexivity|]. by_compute. Qed.
