(* ===== verification/MapOrder.v ===== *)
(** * The memory map does not depend on the unstable sort

    [sort_unstable_by] leaves the order of equivalent elements open, and the
    comparison of the memory map calls any two empty regions equivalent.  Here
    the map is run with two lawful sorts side by side: as long as no frame has
    two owners the entries in use are the same for both, and so are the frames
    the bootloader's allocator hands out ([memory_map_sort_independent]).  What
    may differ are the empty entries behind them. *)

From Stdlib Require Import Lia Sorted.
From stdpp Require Import base decidable strings numbers list sorting.
From S2P Require Import Prelude UnstableSort MemoryMap X86 FrameAllocator.

Open Scope Z_scope.

(** Regions that are not empty and have the same frames are the same. *)
Definition unambiguous (l : list MemoryRegion) : Prop :=
  forall r r', r ∈ l -> r' ∈ l -> nonempty r = true -> range r = range r' -> r = r'.

#[export] Instance unambiguous_proper : Proper (Permutation ==> iff) unambiguous.
Proof.
  assert (forall l k, Permutation l k -> unambiguous l -> unambiguous k) as H.
  { intros l k Hp H r r' Hr Hr'. rewrite <-Hp in Hr, Hr'. by apply H. }
  intros l k Hp. split; apply H; by rewrite Hp.
Qed.

Lemma unambiguous_filter l : unambiguous l -> unambiguous (List.filter nonempty l).
Proof.
  intros H r r'. rewrite !list_elem_of_In, !List.filter_In, <-!list_elem_of_In. intros [? _] [? _]. by apply H.
Qed.

Lemma unambiguous_nonempty l : unambiguous (List.filter nonempty l) -> unambiguous l.
Proof.
  intros H r r' Hr Hr' Hn Heq. apply H; [| |done..];
    rewrite list_elem_of_In, List.filter_In, <-list_elem_of_In; split; [done.. | done |].
  unfold nonempty in *. by rewrite <-Heq.
Qed.

(** Two regions that share a frame own it twice. *)
Lemma kinds_two r r' f l :
  r ∈ l -> r' ∈ l -> r <> r' -> contains f r = true -> contains f r' = true ->
  (2 <= length (kinds f l))%nat.
Proof.
  intros Hr Hr' Hne Hc Hc'. apply list_elem_of_split in Hr as (pre & post & ->).
  rewrite kinds_app, kinds_cons, Hc, !length_app. simpl.
  assert (r' ∈ pre \/ r' ∈ post) as [H|H].
  { apply elem_of_app in Hr' as [|[Hr'|]%elem_of_cons]; [by left | by destruct Hne | by right]. }
  all: apply (kinds_intro f) in H; [|done]; destruct (kinds f _) eqn:E in H |- *;
    [by apply not_elem_of_nil in H|]; simpl; lia.
Qed.

Lemma disjoint_unambiguous l :
  Forall proper_region l -> (forall f, (length (kinds f l) <= 1)%nat) -> unambiguous l.
Proof.
  intros Hp Hd r r' Hr Hr' Hn Heq. destruct (decide (r = r')) as [|Hne]; [done|]. exfalso.
  rewrite Forall_forall in Hp. specialize (Hp r Hr). unfold nonempty, is_empty, proper_region in *.
  assert (contains (rstart r) r = true) as Hc by (apply contains_spec; lia).
  pose proof (kinds_two r r' (rstart r) _ Hr Hr' Hne Hc) as H2.
  unfold contains in Hc, H2. rewrite <-Heq in H2. specialize (H2 Hc). specialize (Hd (rstart r)). lia.
Qed.

Lemma sorted_filter_nonempty l :
  StronglySorted (fun a b => less region_cmp b a = false) l ->
  StronglySorted (fun a b => less region_cmp b a = false) (List.filter nonempty l).
Proof.
  induction 1 as [|r l Hs IH Hr]; [constructor|]. simpl. destruct (nonempty r); [|done].
  constructor; [done|]. rewrite List.Forall_forall in Hr |- *. intros x [Hx _]%List.filter_In. by apply Hr.
Qed.

(** Equivalent regions that are not empty have the same frames. *)
Lemma region_cmp_antisym a b :
  nonempty a = true -> nonempty b = true ->
  less region_cmp b a = false -> less region_cmp a b = false -> range a = range b.
Proof.
  unfold nonempty. rewrite <-!not_true_iff_false, !less_region_cmp. intros Ha Hb Hba Hab.
  destruct (is_empty (range a)), (is_empty (range b)); try done.
  assert (rstart a = rstart b) by lia. assert (rend a = rend b) by lia.
  destruct a as [[] ?], b as [[] ?]. simpl in *. congruence.
Qed.

(** Sorted lists of the same regions are the same. *)
Lemma region_sorted_unique l k :
  StronglySorted (fun a b => less region_cmp b a = false) l ->
  StronglySorted (fun a b => less region_cmp b a = false) k ->
  Permutation l k -> Forall (fun r => nonempty r = true) l -> unambiguous l -> l = k.
Proof.
  intros Hl Hk Hp Hn Hu. rewrite Forall_forall in Hn.
  apply (StronglySorted_unique_strong (fun a b => less region_cmp b a = false) l k); [|done..].
  intros a b Ha Hb Hab Hba. assert (b ∈ l) as Hb' by by rewrite Hp.
  apply Hu; [done..|by apply Hn|]. apply region_cmp_antisym; auto.
Qed.

(** ** Two sorts *)

Section two_sorts.
Context {B : Build} {S1 S2 : UnstableSort} {L1 : UnstableSortLaws S1} {L2 : UnstableSortLaws S2}.

Lemma sort_same mm1 mm2 :
  wf_map mm1 -> wf_map mm2 ->
  Permutation (List.filter nonempty (entries mm1)) (List.filter nonempty (entries mm2)) ->
  unambiguous (List.filter nonempty (entries mm1)) ->
  slice (sort (SORT := S1) mm1) = slice (sort (SORT := S2) mm2).
Proof.
  intros Hw1 Hw2 Hp Hu.
  destruct (sort_spec (SORT := S1) mm1 Hw1) as (_ & Hs1 & _).
  destruct (sort_spec (SORT := S2) mm2 Hw2) as (_ & Hs2 & _).
  pose proof (sort_slice (SORT := S1) mm1 Hw1) as Hp1. pose proof (sort_slice (SORT := S2) mm2 Hw2) as Hp2.
  apply region_sorted_unique.
  - rewrite Hs1. apply sorted_filter_nonempty, sort_entries_sorted.
  - rewrite Hs2. apply sorted_filter_nonempty, sort_entries_sorted.
  - by rewrite Hp1, Hp2.
  - rewrite Hs1, List.Forall_forall. by intros x [_ Hx]%List.filter_In.
  - by rewrite Hp1.
Qed.

Lemma slice_filter mm : wf_map mm -> List.filter nonempty (entries mm) = List.filter nonempty (slice mm).
Proof.
  intros (_ & _ & He & _). rewrite <-(take_drop (next_entry_index mm) (entries mm)) at 1.
  by rewrite List.filter_app, (filter_empties (drop _ _)), app_nil_r.
Qed.

(** The same entries in use. *)
Definition same_map (mm1 mm2 : MemoryMap) : Prop :=
  wf_map mm1 /\ wf_map mm2 /\ slice mm1 = slice mm2.

Lemma same_map_index mm1 mm2 : same_map mm1 mm2 -> next_entry_index mm1 = next_entry_index mm2.
Proof. intros (Hw1 & Hw2 & H). by rewrite <-!slice_length, H. Qed.

Lemma same_map_slice l mm1 mm2 :
  same_map mm1 mm2 -> length l = length (slice mm1) -> Forall proper_region l ->
  same_map (with_slice l mm1) (with_slice l mm2).
Proof.
  intros (Hw1 & Hw2 & H) Hl Hp. split; [by apply with_slice_wf|].
  split; [apply with_slice_wf; [by rewrite <-H | done..]|].
  rewrite !with_slice_slice; [done | by rewrite <-H | done..].
Qed.

(** Two outcomes with the same entries in use, or the same panic. *)
Definition same_outcome (m1 m2 : outcome MemoryMap) : Prop :=
  match m1, m2 with
  | Ret mm1, Ret mm2 => same_map mm1 mm2
  | Panic why1, Panic why2 => why1 = why2
  | _, _ => False
  end.

(** The same for computations with a value. *)
Definition same_result {A} (m1 m2 : outcome (A * MemoryMap)) : Prop :=
  match m1, m2 with
  | Ret (a, mm1), Ret (b, mm2) => a = b /\ same_map mm1 mm2
  | Panic why1, Panic why2 => why1 = why2
  | _, _ => False
  end.

Lemma add_region_same region mm1 mm2 :
  same_map mm1 mm2 -> proper_region region -> unambiguous (region :: slice mm1) ->
  same_outcome (add_region (SORT := S1) region mm1) (add_region (SORT := S2) region mm2).
Proof.
  intros Hsame Hr Hu. pose proof (same_map_index _ _ Hsame) as Hn. destruct Hsame as (Hw1 & Hw2 & Hs).
  destruct (decide (next_entry_index mm1 < MAX_MEMORY_MAP_SIZE)%nat) as [Hlt|Hge].
  2: { unfold add_region. by rewrite <-Hn, !decide_False. }
  unfold add_region. rewrite <-Hn, !decide_True by done. cbn.
  pose proof (insert_next_wf region mm1 Hw1 Hr Hlt) as Hi1.
  pose proof (insert_next_wf region mm2 Hw2 Hr ltac:(lia)) as Hi2. rewrite <-Hn in Hi2.
  split; [by apply sort_wf|]. split; [by apply sort_wf|].
  assert (forall mm, wf_map mm -> next_entry_index mm = next_entry_index mm1 -> slice mm = slice mm1 ->
    Permutation (List.filter nonempty (<[next_entry_index mm1 := region]> (entries mm)))
      (List.filter nonempty (region :: slice mm1))) as Hf.
  { intros mm Hw Hnm <-. pose proof Hw as (Hlen & _ & He & _). rewrite <-Hnm in *.
    rewrite insert_take_drop' by lia. fold (slice mm). rewrite List.filter_app. cbn [List.filter].
    rewrite (filter_empties (drop _ _)) by (rewrite <-Nat.add_1_r, <-drop_drop; by apply Forall_drop).
    destruct (nonempty region); [|by rewrite app_nil_r]. symmetry. apply Permutation_cons_append. }
  apply sort_same; [done..| |]; cbn [entries].
  - by rewrite (Hf mm1), (Hf mm2).
  - rewrite (Hf mm1) by done. by apply unambiguous_filter.
Qed.

Section allocation.
Context {X : X86Phys} {XL : X86PhysLaws X}.

Lemma allocate_frame_same t mm1 mm2 :
  same_map mm1 mm2 -> disjoint_map mm1 ->
  same_result (allocate_frame (SORT := S1) t mm1) (allocate_frame (SORT := S2) t mm2).
Proof.
  intros Hsame Hd. pose proof Hsame as (Hw & _ & Hs). pose proof (slice_proper mm1 Hw) as Hp.
  unfold allocate_frame. rewrite <-Hs.
  destruct (enlarge_region_spec t (slice mm1) Hp) as [-> | (frame & l & -> & Hl & Hpr & _)];
    cbn [mbind outcome_bind]; [|split; [done | by apply same_map_slice]].
  destruct (split_for_spec t (slice mm1) Hp) as
    [[-> _] | (frame & next & l & -> & Hn & Hl & Hpr & Hlost)]; cbn [mbind outcome_bind]; [done|].
  rewrite (frame_range_one frame next Hn). cbn [mbind outcome_bind].
  pose proof (frame_number_range frame). pose proof (frame_number_range next).
  set (region := {| range := _; region_type := t |}).
  assert (proper_region region) as Hr by (unfold proper_region; cbn; lia).
  pose proof (add_region_same region _ _ (same_map_slice l _ _ Hsame Hl Hpr) Hr) as Hadd.
  rewrite with_slice_slice in Hadd by done.
  assert (unambiguous (region :: l)) as Hu.
  { apply disjoint_unambiguous; [by constructor|]. intros f. specialize (Hlost f). specialize (Hd f).
    unfold owners in Hd. rewrite (Permutation_length Hlost), length_app in Hd.
    rewrite kinds_cons, length_app. unfold contains, region. cbn.
    destruct (Z.eqb_spec f (frame_number frame)); simpl in Hd |- *;
      destruct (_ && _) eqn:Hc; simpl; lia. }
  specialize (Hadd Hu). unfold same_outcome in Hadd.
  destruct (add_region (SORT := S1) _ _), (add_region (SORT := S2) _ _); cbn; done.
Qed.

Lemma allocate_frames_same ts mm1 mm2 :
  same_map mm1 mm2 -> disjoint_map mm1 ->
  same_result (allocate_frames (SORT := S1) ts mm1) (allocate_frames (SORT := S2) ts mm2).
Proof.
  revert mm1 mm2. induction ts as [|t ts IH]; intros mm1 mm2 Hsame Hd; [by split|].
  cbn [allocate_frames]. pose proof (allocate_frame_same t mm1 mm2 Hsame Hd) as Ha.
  destruct (allocate_frame (SORT := S1) t mm1) as [[r mm1']|] eqn:Heq,
    (allocate_frame (SORT := S2) t mm2) as [[r' mm2']|]; try done.
  destruct Ha as [<- Ha]. cbn [mbind outcome_bind].
  destruct (allocate_frame_returned t mm1 r mm1' (proj1 Hsame) Hd Heq) as (_ & Hd' & _).
  specialize (IH mm1' mm2' Ha Hd').
  destruct (allocate_frames (SORT := S1) ts mm1') as [[rs m1]|], (allocate_frames (SORT := S2) ts mm2') as [[rs' m2]|];
    cbn in *; try done.
  by destruct IH as [<- ?].
Qed.
End allocation.

Lemma create_from_same es :
  Forall valid_e820 es -> (length es <= MAX_MEMORY_MAP_SIZE)%nat -> unambiguous (map e820_region es) ->
  same_outcome (create_from (SORT := S1) es) (create_from (SORT := S2) es).
Proof.
  intros Hv Hlen Hu.
  destruct (add_e820_regions (SORT := S1) es Hv Hlen) as (mm1 & Heq1 & Hw1 & Hp1).
  destruct (add_e820_regions (SORT := S2) es Hv Hlen) as (mm2 & Heq2 & Hw2 & Hp2).
  unfold create_from. rewrite Heq1, Heq2. cbn [mbind outcome_bind same_outcome].
  assert (slice (sort (SORT := S1) mm1) = slice (sort (SORT := S2) mm2)) as Hs.
  { apply sort_same; [done..| |]; rewrite !slice_filter by done.
    - apply bfilter_permutation. by rewrite Hp1, Hp2.
    - apply unambiguous_filter. by rewrite Hp1. }
  destruct (sort_spec (SORT := S1) mm1 Hw1) as (Hw1' & _ & Hss).
  destruct (cut_overlaps_shortened _ Hss (slice_proper _ Hw1')) as [H2 Hpc]. apply Forall2_length in H2.
  rewrite <-Hs. apply same_map_slice; [|done..]. split; [done|]. split; [by apply sort_wf | done].
Qed.
End two_sorts.

(** Firmware regions with the same frames have the same type. *)
Lemma firmware_unambiguous es :
  Forall valid_e820 es -> firmware_apart es -> unambiguous (map e820_region es).
Proof.
  intros Hv Hsep r r' Hr Hr' _ Heq. rewrite Forall_forall in Hv.
  apply list_elem_of_fmap in Hr as (e & -> & He). apply list_elem_of_fmap in Hr' as (e' & -> & He').
  apply list_elem_of_lookup_1 in He as [i Hi]. apply list_elem_of_lookup_1 in He' as [j Hj].
  destruct (decide (i = j)) as [->|Hij]; [congruence|]. cbn in Heq. injection Heq as Hstart Hend.
  assert (forall i j e e', i <> j -> es !! i = Some e -> es !! j = Some e' ->
    e820_start_addr e / PAGE_SIZE = e820_start_addr e' / PAGE_SIZE -> e820_region_type e = 1) as Hu.
  { clear -Hv Hsep. intros i j e e' Hij Hi Hj Hs. destruct (decide (e820_region_type e = 1)) as [|Hne]; [done|].
    pose proof (Hsep i j e e' Hij Hi Hj Hne ltac:(lia)).
    destruct (Hv e (list_elem_of_lookup_2 _ _ _ Hi)) as (_ & _ & Hl & _). unfold PAGE_SIZE in *. dlia. }
  unfold e820_region, e820_kind. rewrite (Hu i j e e'), (Hu j i e' e) by done. by rewrite Hstart, Hend.
Qed.

(** C19 (equivalence). The boot memory map does not depend on how the standard
    library sorts: for valid firmware regions of which none that is not usable
    reaches into the frame where another starts, building the map and any
    sequence of allocations give the same frames and the same entries in use with
    any two lawful sorts, or panic for the same reason with both. *)
Theorem memory_map_sort_independent {B : Build} {S1 S2 : UnstableSort}
    {L1 : UnstableSortLaws S1} {L2 : UnstableSortLaws S2} {X : X86Phys} {XL : X86PhysLaws X} es ts :
  Forall valid_e820 es -> (length es <= MAX_MEMORY_MAP_SIZE)%nat -> firmware_apart es ->
  same_result (mm ← create_from (SORT := S1) es; allocate_frames (SORT := S1) ts mm)
              (mm ← create_from (SORT := S2) es; allocate_frames (SORT := S2) ts mm).
Proof.
  intros Hv Hlen Hsep.
  pose proof (create_from_same (S1 := S1) (S2 := S2) es Hv Hlen (firmware_unambiguous es Hv Hsep)) as Hc.
  destruct (create_from_disjoint (SORT := S1) es Hv Hlen Hsep) as (mm1 & Heq & _ & Hd & _).
  rewrite Heq in Hc |- *. destruct (create_from (SORT := S2) es) as [mm2|]; [|done].
  cbn [mbind outcome_bind]. by apply allocate_frames_same.
Qed.

(** ** Another sort *)

(** Insertion sort of the reversed list: equivalent elements end up the other way round. *)
Definition reversed_sort : UnstableSort := fun A compare l => insertion_sort compare (rev l).

Lemma reversed_sort_laws : UnstableSortLaws reversed_sort.
Proof.
  constructor; intros; unfold sort_unstable_by, reversed_sort.
  - by rewrite insertion_sort_permutation, <-Permutation_rev.
  - by apply insertion_sort_sorted.
Qed.

#[local] Instance checked : Build := true.

(** The two sorts do differ on the map: in the order of the empty entries. *)
Example sorts_differ :
  sort_unstable_by (UnstableSort := insertion_sort_instance) region_cmp
    [mk_region 0 0 EmptyRegion; mk_region 7 7 Usable] <>
  sort_unstable_by (UnstableSort := reversed_sort) region_cmp
    [mk_region 0 0 EmptyRegion; mk_region 7 7 Usable].
Proof. vm_compute. discriminate. Qed.

Lemma memory_map_sort_independent_witness :
  same_result
    (mm ← create_from (SORT := insertion_sort_instance) sample_e820;
     allocate_frames (SORT := insertion_sort_instance) [BootInfoRegion; PageTable; KernelStack] mm)
    (mm ← create_from (SORT := reversed_sort) sample_e820;
     allocate_frames (SORT := reversed_sort) [BootInfoRegion; PageTable; KernelStack] mm).
Proof.
  apply (memory_map_sort_independent (L1 := insertion_sort_laws) (L2 := reversed_sort_laws) sample_e820
    [BootInfoRegion; PageTable; KernelStack]); [by_compute | by_compute | apply sample_e820_apart].
Defined.
