(* ===== verification/MapLife.v ===== *)
(** * The life of the boot memory map

    The bootloader builds the map from the firmware's regions, marks what is in
    use, hands out frames and sorts the map for the kernel.  [lives es ph mm] says
    that these operations, as the bootloader uses them, lead from the firmware
    regions [es] to the map [mm]: a range is marked inside one usable region, in a
    phase in which the map is sorted.  By rule induction the map is well formed
    all along, and a frame changes its owner at most once, from usable to
    something else. *)

From Stdlib Require Import Lia Sorted.
From stdpp Require Import base decidable strings numbers list.
From S2P Require Import Prelude UnstableSort MemoryMap X86 FrameAllocator.

Open Scope Z_scope.

(** Sorted by start, or with frames handed out since. *)
Inductive phase := Marking | Allocating.

Section life.
Context {B : Build} {SORT : UnstableSort} {SL : UnstableSortLaws SORT}.
Context {X : X86Phys} {XL : X86PhysLaws X}.

Inductive lives (es : list E820MemoryRegion) : phase -> MemoryMap -> Prop :=
| lives_created mm :
    create_from es = Ret mm -> lives es Marking mm
| lives_marked region r mm mm' :
    lives es Marking mm ->
    proper_region region -> nonempty region = true -> region_type region <> Usable ->
    r ∈ slice mm -> region_type r = Usable -> rstart r <= rstart region -> rend region <= rend r ->
    mark_allocated_region region mm = Ret mm' -> lives es Marking mm'
| lives_allocated ph t frame mm mm' :
    lives es ph mm -> t <> Usable ->
    allocate_frame t mm = Ret (frame, mm') -> lives es Allocating mm'
| lives_sorted ph mm :
    lives es ph mm -> lives es Marking (sort mm).

(** What every operation preserves. *)
Definition map_ok (ph : phase) (mm : MemoryMap) : Prop :=
  wf_map mm /\ disjoint_map mm /\ (ph = Marking -> start_sorted (slice mm)).

(** From [before] to [after] a frame may have been taken from the usable ones. *)
Definition kept_or_taken (before after : list MemoryRegionType) : Prop :=
  after = before \/ before = [Usable] /\ exists t, t <> Usable /\ after = [t].

Lemma kept_or_taken_trans a b c : kept_or_taken a b -> kept_or_taken b c -> kept_or_taken a c.
Proof.
  intros [-> | (-> & t & Ht & ->)]; [done|]. intros [-> | ([= ->] & _)]; [|done].
  right. eauto.
Qed.

(** A step of the map's life. *)
Definition preserves (ph : phase) (mm : MemoryMap) (ph' : phase) (mm' : MemoryMap) : Prop :=
  map_ok ph mm -> map_ok ph' mm' /\ forall f, kept_or_taken (owners f mm) (owners f mm').

Lemma mark_preserves region r mm mm' :
  proper_region region -> nonempty region = true -> region_type region <> Usable ->
  r ∈ slice mm -> region_type r = Usable -> rstart r <= rstart region -> rend region <= rend r ->
  mark_allocated_region region mm = Ret mm' -> preserves Marking mm Marking mm'.
Proof.
  intros Hreg Hne Hnu Hin Hu Hs He Heq (Hw & Hd & Hsort).
  destruct (mark_allocated_region_returned region r mm mm' Hw Hd (Hsort eq_refl) Hreg Hne Hin Hu Hs He Heq)
    as (Hw' & Hd' & Hs' & Hex).
  split; [by split_and!|]. intros f. rewrite Hex. destruct (contains f region) eqn:Hc; [|by left].
  right. split; [|eauto]. apply singleton_usable; [apply Hd|]. rewrite <-Hu.
  apply kinds_intro; [done|]. apply contains_spec in Hc. apply contains_spec. lia.
Qed.

Lemma allocate_preserves ph t frame mm mm' :
  t <> Usable -> allocate_frame t mm = Ret (frame, mm') -> preserves ph mm Allocating mm'.
Proof.
  intros Ht Heq (Hw & Hd & _).
  destruct (allocate_frame_returned t mm frame mm' Hw Hd Heq) as (Hw' & Hd' & _ & Hr).
  split; [by split_and!|]. intros f. destruct frame as [frame|]; [|destruct Hr as [-> _]; by left].
  destruct Hr as [Hu ->]. unfold is_frame. destruct (Z.eqb_spec f (frame_number frame)) as [->|]; [|by left].
  right. eauto.
Qed.

Lemma sort_preserves ph mm : preserves ph mm Marking (sort mm).
Proof.
  intros (Hw & Hd & _). destruct (sort_spec mm Hw) as (Hw' & _ & Hs).
  assert (forall f, owners f (sort mm) = owners f mm) as Ho.
  { intros f. apply permutation_short; [by apply sort_owners | apply Hd]. }
  split; [split_and!; [done| |done]|].
  - intros f. rewrite Ho. apply Hd.
  - intros f. rewrite Ho. by left.
Qed.

Lemma lives_ok es ph mm :
  Forall valid_e820 es -> (length es <= MAX_MEMORY_MAP_SIZE)%nat -> firmware_apart es ->
  lives es ph mm ->
  map_ok ph mm /\ exists mm0, create_from es = Ret mm0 /\ forall f, kept_or_taken (owners f mm0) (owners f mm).
Proof.
  intros Hv Hlen Hsep. destruct (create_from_disjoint es Hv Hlen Hsep) as (mm0 & Heq0 & Hw & Hd & Hs).
  assert (forall ph mm ph' mm', preserves ph mm ph' mm' ->
    map_ok ph mm /\ (exists mm0, create_from es = Ret mm0 /\ forall f, kept_or_taken (owners f mm0) (owners f mm)) ->
    map_ok ph' mm' /\ exists mm0, create_from es = Ret mm0 /\ forall f, kept_or_taken (owners f mm0) (owners f mm'))
    as Hstep.
  { intros ph1 m1 ph2 m2 Hp [Hok (m0 & Hm0 & Hk)]. destruct (Hp Hok) as [Hok' Hk']. split; [done|].
    exists m0. split; [done|]. intros f. by eapply kept_or_taken_trans. }
  induction 1 as [m Heq | region r m m' _ IH | ph' t frame m m' _ IH | ph' m _ IH].
  - rewrite Heq0 in Heq. injection Heq as <-. split; [by split_and!|]. exists mm0. split; [done|]. by left.
  - eapply Hstep; [by eapply mark_preserves | exact IH].
  - eapply Hstep; [by eapply allocate_preserves | exact IH].
  - eapply Hstep; [by eapply sort_preserves | exact IH].
Qed.
End life.

(** C8 (type). The memory map keeps its type through the steps of [lives]: it is
    built from firmware regions of which none that is not usable reaches into the
    frame where another starts; in phases in which it is sorted, ranges that are
    not empty and lie inside one usable region are marked as something else;
    frames are allocated for anything but usable memory; and it may be sorted at
    any time.  All along the map has 64 entries, the unused ones empty, and every
    range is proper; no frame has two owners; between allocations the map is
    sorted; and compared with the map the firmware's regions gave, the owner of a
    frame is still the same or the frame was usable and now is something else.
    (Marking a range that spans regions breaks this: [mark_spanning_usable].) *)
Theorem memory_map_well_formed {B : Build} {SORT : UnstableSort} {SL : UnstableSortLaws SORT}
    {X : X86Phys} {XL : X86PhysLaws X} es ph mm :
  Forall valid_e820 es -> (length es <= MAX_MEMORY_MAP_SIZE)%nat -> firmware_apart es ->
  lives es ph mm ->
  wf_map mm /\ disjoint_map mm /\ (ph = Marking -> start_sorted (slice mm)) /\
  exists mm0, create_from es = Ret mm0 /\
    forall f, owners f mm = owners f mm0 \/
      owners f mm0 = [Usable] /\ exists t, t <> Usable /\ owners f mm = [t].
Proof.
  intros Hv Hlen Hsep Hl. by destruct (lives_ok es ph mm Hv Hlen Hsep Hl) as [(Hw & Hd & Hs) H].
Qed.

(** ** A concrete life *)

#[local] Instance checked : Build := true.

(** The kernel's memory is marked, two frames are handed out, the map is sorted. *)
Definition sample_life : outcome MemoryMap :=
  mm ← create_from sample_e820;
  mm ← mark_allocated_region (mk_region 0x400 0x600 Kernel) mm;
  '(_, mm) ← allocate_frame PageTable mm;
  '(_, mm) ← allocate_frame KernelStack mm;
  Ret (sort mm).

Lemma sample_lives mm : sample_life = Ret mm -> lives sample_e820 Marking mm.
Proof.
  unfold sample_life. intros (m1 & H1 & H)%bind_Ret_inv.
  apply bind_Ret_inv in H as (m2 & H2 & H). apply bind_Ret_inv in H as ([f3 m3] & H3 & H).
  apply bind_Ret_inv in H as ([f4 m4] & H4 & H). injection H as <-.
  eapply lives_sorted, (lives_allocated _ Allocating KernelStack f4 m3); [|discriminate|exact H4].
  apply (lives_allocated _ Marking PageTable f3 m2); [|discriminate|exact H3].
  assert (create_from sample_e820 = Ret sample_map) as Hc by (vm_compute; reflexivity).
  rewrite Hc in H1. injection H1 as <-.
  apply (lives_marked _ (mk_region 0x400 0x600 Kernel) (mk_region 0x100 0x7fe0 Usable) sample_map m2);
    [exact (lives_created _ _ Hc) | by_compute | reflexivity | discriminate | | reflexivity | discriminate | discriminate | exact H2].
  by_compute.
Qed.

Lemma memory_map_well_formed_witness :
  exists mm, sample_life = Ret mm /\ wf_map mm /\ disjoint_map mm.
Proof.
  destruct sample_life as [mm|why] eqn:Heq; [|vm_compute in Heq; discriminate Heq].
  exists mm. split; [reflexivity|].
  pose proof (memory_map_well_formed sample_e820 Marking mm ltac:(by_compute) ltac:(by_compute)
    sample_e820_apart (sample_lives mm Heq)) as (Hw & Hd & _).
  split; [exact Hw | exact Hd].
Defined.
