(* ===== verification/EntryCost.v ===== *)
(** * How many entries of the memory map the frame allocator uses

    [allocate_frame] takes a new entry only when no region of the wanted type
    ends where a usable one begins.  The argument is amortised: the entries in
    use, the usable regions that still have frames and one more while the type
    has no such neighbour make a potential that an allocation never raises, so a
    run of allocations for one type costs next to nothing, however long it is. *)

From Stdlib Require Import Lia Sorted.
From stdpp Require Import base decidable strings numbers list.
From S2P Require Import Prelude UnstableSort MemoryMap X86 FrameAllocator.

Open Scope Z_scope.

(** A usable region that has frames. *)
Definition in_stock (r : MemoryRegion) : bool := bool_decide (region_type r = Usable) && nonempty r.

Definition stock (l : list MemoryRegion) : nat := length (List.filter in_stock l).

(** A region of type [t] has such a region right behind it. *)
Fixpoint open_for (t : MemoryRegionType) (l : list MemoryRegion) : bool :=
  match l with
  | region :: ((next :: _) as tail) => enlargeable t region next || open_for t tail
  | _ => false
  end.

Definition potential (t : MemoryRegionType) (l : list MemoryRegion) : nat :=
  stock l + if open_for t l then 0 else 1.

Definition entry_cost (t : MemoryRegionType) (mm : MemoryMap) : nat :=
  next_entry_index mm + potential t (slice mm).

Lemma stock_cons r l : stock (r :: l) = ((if in_stock r then 1 else 0) + stock l)%nat.
Proof. unfold stock. cbn [List.filter]. by destruct (in_stock r). Qed.

Lemma stock_app l k : stock (l ++ k) = (stock l + stock k)%nat.
Proof. unfold stock. by rewrite List.filter_app, length_app. Qed.

Lemma stock_permutation l k : Permutation l k -> stock l = stock k.
Proof. intros H. unfold stock. by rewrite (bfilter_permutation in_stock _ _ H). Qed.

Lemma stock_nonempty l : stock (List.filter nonempty l) = stock l.
Proof.
  induction l as [|r l IH]; [done|]. cbn [List.filter].
  rewrite stock_cons. destruct (nonempty r) eqn:Hr; rewrite ?stock_cons, IH; [done|].
  unfold in_stock. by rewrite Hr, andb_false_r.
Qed.

Lemma stock_le l : (stock l <= length l)%nat.
Proof. apply List.filter_length_le. Qed.

Lemma open_for_cons2 t r next l :
  open_for t (r :: next :: l) = enlargeable t r next || open_for t (next :: l).
Proof. done. Qed.

Lemma open_for_cons t r l : open_for t l = true -> open_for t (r :: l) = true.
Proof. destruct l as [|next l]; [done|]. intros H. by rewrite open_for_cons2, H, orb_true_r. Qed.

Lemma open_for_here t pre r next post :
  enlargeable t r next = true -> open_for t (pre ++ r :: next :: post) = true.
Proof.
  intros H. induction pre as [|x pre IH]; [cbn [app]; by rewrite open_for_cons2, H|]. by apply open_for_cons.
Qed.

(** The type of the next allocation matters little. *)
Lemma entry_cost_kind t t' mm : (entry_cost t mm <= S (entry_cost t' mm))%nat.
Proof. unfold entry_cost, potential. destruct (open_for t _), (open_for t' _); lia. Qed.

(** The entries in use, and as many more as there are usable regions to use up. *)
Definition entries_used (mm : MemoryMap) : nat := next_entry_index mm + stock (slice mm).

Lemma entry_cost_used t mm : (entry_cost t mm <= S (entries_used mm))%nat.
Proof. unfold entry_cost, potential, entries_used. destruct (open_for _ _); lia. Qed.

Lemma in_stock_spec r : in_stock r = true <-> region_type r = Usable /\ is_empty (range r) = false.
Proof. unfold in_stock, nonempty. by rewrite andb_true_iff, bool_decide_eq_true, negb_true_iff. Qed.

Lemma enlargeable_spec t r next :
  enlargeable t r next = true <-> region_type r = t /\ rstart next = rend r /\ in_stock next = true.
Proof.
  unfold enlargeable. rewrite in_stock_spec, !andb_true_iff, !bool_decide_eq_true, Z.eqb_eq, negb_true_iff. tauto.
Qed.

Section proofs.
Context {B : Build} {SORT : UnstableSort} {SL : UnstableSortLaws SORT}.
Context {X : X86Phys} {XL : X86PhysLaws X}.

(** *** The first loop *)

Lemma enlarge_potential t l :
  t <> Usable -> Forall proper_region l ->
  match enlarge_region t l with
  | Ret (Some (_, l')) => (potential t l' <= potential t l)%nat
  | Ret None => open_for t l = false
  | Panic _ => False
  end.
Proof.
  intros Ht Hp.
  enough (match enlarge_region t l with
    | Ret (Some (_, l')) => open_for t l = true /\
        (stock l' = stock l /\ open_for t l' = true \/ S (stock l') = stock l)
    | Ret None => open_for t l = false
    | Panic _ => False
    end) as H.
  { destruct (enlarge_region t l) as [[[f l']|]|]; [|done..]. destruct H as [Ho H]. unfold potential. rewrite Ho.
    destruct H as [[-> ->] | H]; [lia|]. destruct (open_for t l'); lia. }
  induction l as [|r [|next rest] IH]; [done..|].
  apply Forall_cons in Hp as [Hr Hp]. specialize (IH Hp). apply Forall_cons in Hp as [Hn _].
  destruct (enlargeable t r next) eqn:Hc.
  - destruct (enlarge_region_here t r next rest Hr Hn Hc) as (frame & l' & -> & _ & ->).
    rewrite open_for_cons2, Hc. split; [done|]. apply enlargeable_spec in Hc as (Htr & Hadj & Hst).
    rewrite !stock_cons, Hst. assert (in_stock r = false) as ->.
    { apply not_true_is_false. rewrite in_stock_spec. intros [? _]. congruence. }
    assert (forall x y, in_stock (mk_region x y (region_type r)) = false) as ->.
    { intros x y. apply not_true_is_false. rewrite in_stock_spec. intros [? _]. cbn in *. congruence. }
    destruct (in_stock (mk_region (rstart next + 1) (rend next) (region_type next))) eqn:Hs; [|right; lia].
    left. split; [done|]. rewrite open_for_cons2, (proj2 (enlargeable_spec _ _ _)); [done|]. cbn. split; [done|]. split; [lia | done].
  - rewrite enlarge_region_skip by done. rewrite open_for_cons2, Hc. cbn [orb].
    destruct (enlarge_region t (next :: rest)) as [[[f l']|]|]; cbn [mbind outcome_bind]; [|done..].
    destruct IH as [Ho IH]. split; [done|]. rewrite !(stock_cons r).
    destruct IH as [[-> Hl] | IH]; [left | right; lia]. split; [done|]. by apply open_for_cons.
Qed.

(** *** Splitting *)

(** The rest of the region a frame is split off is still there, or it was the
    last frame. *)
Definition split_rest (n : Z) (l l' : list MemoryRegion) : Prop :=
  S (stock l') = stock l \/
  stock l' = stock l /\ exists u, u ∈ l' /\ in_stock u = true /\ rstart u = n + 1.

Lemma split_usable_rest l frame range l' :
  Forall proper_region l -> split_usable_region l = Ret (Some (frame, range, l')) ->
  split_rest (frame_number frame) l l'.
Proof.
  revert frame range l'. induction l as [|r rest IH]; intros frame range l' Hp; [done|].
  apply Forall_cons in Hp as [Hr Hp]. cbn [split_usable_region].
  fold (nonempty r). fold (in_stock r). destruct (in_stock r) eqn:Hs.
  - destruct (phys_frame_range_ok r Hr) as (pfr & -> & Hst & _). cbn [mbind outcome_bind].
    unfold proper_region in Hr. rewrite u64_add_ok by arith. cbn [mbind outcome_bind].
    destruct (frame_add (pfr_start pfr) 1); [|done]. cbn [mbind outcome_bind]. intros [= <- _ <-].
    unfold split_rest. rewrite !stock_cons, Hs, Hst.
    destruct (in_stock (mk_region (rstart r + 1) (rend r) (region_type r))) eqn:Hs'; [right | left; lia].
    split; [done|]. eexists. split; [left|]. split; [exact Hs' | done].
  - destruct (split_usable_region rest) as [[[[f g] k]|]|]; [|done..]. cbn [mbind outcome_bind].
    intros [= <- <- <-]. specialize (IH _ _ _ Hp eq_refl). unfold split_rest. rewrite !(stock_cons r).
    destruct IH as [IH | [-> (u & Hu & ?)]]; [left; lia | right]. split; [done|]. exists u. split; [by right | done].
Qed.

Lemma split_for_rest (t : MemoryRegionType) l frame range l' :
  Forall proper_region l ->
  (if bool_decide (t = PageTable) then split_usable_region_rev l else split_usable_region l) =
    Ret (Some (frame, range, l')) ->
  split_rest (frame_number frame) l l'.
Proof.
  intros Hp. case_match; [|by apply split_usable_rest]. unfold split_usable_region_rev.
  destruct (split_usable_region (rev l)) as [[[[f g] k]|]|] eqn:Heq; [|done..]. cbn [mbind outcome_bind].
  intros [= <- <- <-]. apply split_usable_rest in Heq; [|by apply Forall_rev]. unfold split_rest in *.
  rewrite <-(stock_permutation _ _ (Permutation_rev l)) in Heq.
  rewrite <-(stock_permutation _ _ (Permutation_rev k)).
  destruct Heq as [? | [? (u & Hu & ?)]]; [by left | right]. split; [done|]. exists u.
  split; [|done]. by rewrite <-(Permutation_rev k).
Qed.

(** In a sorted map without overlaps a region that starts where another ends
    comes right behind it. *)
Lemma neighbours pre r post u mm :
  disjoint_map mm -> start_sorted (slice mm) -> Forall (fun x => nonempty x = true) (slice mm) ->
  Forall proper_region (slice mm) -> slice mm = pre ++ r :: post -> u ∈ slice mm -> rstart u = rend r ->
  exists post', post = u :: post'.
Proof.
  intros Hd Hs Hne Hp Hsl Hu Heq.
  assert (rstart r < rend r) as Hlt.
  { assert (r ∈ slice mm) as Hr by (rewrite Hsl; apply elem_of_app; right; left).
    rewrite Forall_forall in Hne, Hp. specialize (Hne _ Hr). specialize (Hp _ Hr).
    unfold nonempty, is_empty, proper_region in *. lia. }
  assert (u ∈ post) as Hpost.
  { rewrite Hsl in Hu. apply elem_of_app in Hu as [Hu | [-> | Hu]%elem_of_cons]; [| lia | done].
    rewrite Hsl in Hs. apply list_elem_of_In in Hu. pose proof (start_sorted_before _ _ _ _ Hs Hu). lia. }
  destruct post as [|x post]; [by apply not_elem_of_nil in Hpost|].
  apply elem_of_cons in Hpost as [-> | Hpost]; [by exists post|]. exfalso.
  assert (start_sorted (r :: x :: post)) as Hs'.
  { rewrite Hsl in Hs. clear -Hs. induction pre as [|y pre IH]; [done|]. apply IH. by inversion Hs. }
  assert (rstart r <= rstart x <= rstart u) as Hx.
  { inversion Hs' as [|? ? Hs2 Hall]; subst. rewrite Forall_forall in Hall. inversion Hs2 as [|? ? _ Hall2]; subst.
    rewrite Forall_forall in Hall2. split; [apply Hall; left | by apply Hall2]. }
  rewrite Forall_forall in Hne, Hp.
  assert (x ∈ slice mm) as Hxin by (rewrite Hsl; apply elem_of_app; right; right; left).
  pose proof (Hne _ Hxin) as Hnx. pose proof (Hp _ Hxin) as Hpx.
  pose proof (Hne _ Hu) as Hnu. pose proof (Hp _ Hu) as Hpu.
  unfold nonempty, is_empty, proper_region in *.
  apply list_elem_of_split in Hpost as (p1 & p2 & ->).
  destruct (decide (rstart x = rstart u)) as [Hxu|Hxu].
  - specialize (Hd (rstart u)). unfold owners in Hd.
    rewrite Hsl, !kinds_app, !kinds_cons, !kinds_app, !kinds_cons, !length_app in Hd.
    rewrite (proj2 (contains_spec _ x)), (proj2 (contains_spec _ u)) in Hd by lia. cbn in Hd. lia.
  - specialize (Hd (rstart x)). unfold owners in Hd.
    rewrite Hsl, !kinds_app, !kinds_cons, !length_app in Hd.
    rewrite (proj2 (contains_spec _ x)), (proj2 (contains_spec _ r)) in Hd by lia. cbn in Hd. lia.
Qed.

(** ** Allocation *)

(** An allocation never raises the cost, and one that finds the map full had used
    it up. *)
Lemma allocate_entry_cost t mm :
  t <> Usable -> wf_map mm -> disjoint_map mm ->
  match allocate_frame t mm with
  | Ret (_, mm') => (entry_cost t mm' <= entry_cost t mm)%nat
  | Panic _ => (MAX_MEMORY_MAP_SIZE < entry_cost t mm)%nat
  end.
Proof.
  intros Ht Hw Hd. pose proof (slice_proper mm Hw) as Hp.
  pose proof (allocate_frame_exact t mm Hw Hd) as Hexact.
  pose proof (enlarge_potential t (slice mm) Ht Hp) as He. unfold allocate_frame in *.
  destruct (enlarge_region_spec t (slice mm) Hp) as [Heq | (f & l & Heq & Hl & _)];
    rewrite Heq in He, Hexact |- *; cbn [mbind outcome_bind] in Hexact |- *.
  2: { unfold entry_cost. rewrite with_slice_slice by done. cbn [with_slice next_entry_index]. lia. }
  destruct (split_for_spec t (slice mm) Hp) as [[Hf _] | (frame & next & l & Hf & Hn & Hl & Hpr & _)];
    pose proof (split_for_rest t (slice mm)) as Hrest; cbv zeta in Hf; rewrite Hf in Hrest, Hexact |- *;
    cbn [mbind outcome_bind] in Hexact |- *; [done|].
  specialize (Hrest _ _ _ Hp eq_refl).
  rewrite (frame_range_one frame next Hn) in Hexact |- *. cbn [mbind outcome_bind] in Hexact |- *.
  set (region := {| range := _; region_type := t |}) in *.
  destruct (decide (next_entry_index mm < MAX_MEMORY_MAP_SIZE)%nat) as [Hlt|Hge].
  2: { unfold add_region. cbn [with_slice next_entry_index]. rewrite decide_False by done. cbn [mbind outcome_bind].
       unfold entry_cost, potential. rewrite He. lia. }
  pose proof (frame_number_range frame). pose proof (frame_number_range next).
  destruct (add_region_slice region (with_slice l mm)) as (mm' & Hadd & Hw' & Hs' & Hperm);
    [by apply with_slice_wf | unfold region, proper_region; cbn; lia | done |].
  rewrite Hadd in Hexact |- *. cbn [mbind outcome_bind] in Hexact |- *.
  destruct (Hexact Hlt) as (r & mm0 & [= _ <-] & _ & Hd' & Hle & _).
  rewrite with_slice_slice in Hperm by done.
  unfold entry_cost. enough (potential t (slice mm') < potential t (slice mm))%nat by lia.
  assert (nonempty region = true) as Hner by (unfold nonempty, is_empty, region; cbn; lia).
  assert (stock (slice mm') = stock l) as Hst.
  { rewrite (stock_permutation _ _ Hperm), stock_nonempty, stock_cons.
    unfold in_stock at 1. cbn [region region_type]. by rewrite bool_decide_false. }
  unfold potential. rewrite He, Hst. destruct Hrest as [Hrest | [-> (u & Hu & Hus & Hun)]].
  { destruct (open_for t (slice mm')); lia. }
  enough (open_for t (slice mm') = true) as -> by lia.
  assert (forall x, x ∈ slice mm' <-> nonempty x = true /\ (x = region \/ x ∈ l)) as Hin.
  { intros x. rewrite Hperm, list_elem_of_In, List.filter_In, <-list_elem_of_In, elem_of_cons. tauto. }
  assert (region ∈ slice mm') as Hr by (apply Hin; auto).
  apply list_elem_of_split in Hr as (pre & post & Hsl).
  destruct (neighbours pre region post u mm') as (post' & ->); [done | done | | by apply slice_proper | done | | done |].
  - apply Forall_forall. intros x Hx. by apply Hin.
  - apply Hin. split; [|by right]. by apply andb_true_iff in Hus as [_ ?].
  - rewrite Hsl. apply open_for_here, enlargeable_spec. by split_and!.
Qed.
(** Any number of allocations for one type. *)
Lemma allocate_frames_cost t n mm :
  t <> Usable -> wf_map mm -> disjoint_map mm -> (entry_cost t mm <= MAX_MEMORY_MAP_SIZE)%nat ->
  exists rs mm', allocate_frames (replicate n t) mm = Ret (rs, mm') /\ length rs = n /\
    wf_map mm' /\ disjoint_map mm' /\ (entry_cost t mm' <= entry_cost t mm)%nat.
Proof.
  intros Ht. revert mm. induction n as [|n IH]; intros mm Hw Hd Hc; cbn [replicate allocate_frames].
  { exists [], mm. by split_and!. }
  pose proof (allocate_entry_cost t mm Ht Hw Hd) as Hcost.
  destruct (allocate_frame t mm) as [[r mm1]|] eqn:Heq; [|lia]. cbn [mbind outcome_bind].
  assert (wf_map mm1 /\ disjoint_map mm1) as [Hw1 Hd1].
  { destruct (allocate_frame_cases t mm Hw) as [(f & mm' & Hf & Hw' & _ & Hu & Hm) | [[Hf _] | [Hf _]]];
      rewrite Heq in Hf; [|by injection Hf as _ <- | done]. injection Hf as _ <-. split; [done|].
    eapply (exact_disjoint (is_frame f) t mm); [done|]. apply moved_disjoint; [done..|].
    unfold is_frame. by intros x ->%Z.eqb_eq. }
  destruct (IH mm1 Hw1 Hd1) as (rs & mm2 & -> & Hl & ? & ? & ?); [lia|]. cbn [mbind outcome_bind].
  exists (r :: rs), mm2. split; [done|]. split; [cbn; lia|]. split_and!; [done | done | lia].
Qed.
End proofs.

Section properties.
Context {B : Build} {SORT : UnstableSort} {SL : UnstableSortLaws SORT}.
Context {X : X86Phys} {XL : X86PhysLaws X}.

(** C26 (bounds). Allocating for one type never fills the memory map, however many
    frames are taken: as long as the entries in use and the usable regions that
    have frames come to fewer than 64, any number of calls of [allocate_frame]
    returns, with one entry more in use than that sum at the end, at most. *)
Theorem allocations_fit t n mm :
  t <> Usable -> wf_map mm -> disjoint_map mm ->
  (next_entry_index mm + stock (slice mm) < MAX_MEMORY_MAP_SIZE)%nat ->
  exists rs mm', allocate_frames (replicate n t) mm = Ret (rs, mm') /\ length rs = n /\
    wf_map mm' /\ disjoint_map mm' /\
    (next_entry_index mm' <= next_entry_index mm + stock (slice mm) + 1)%nat.
Proof.
  intros Ht Hw Hd Hlt. pose proof (entry_cost_used t mm) as Hu. unfold entries_used in Hu.
  destruct (allocate_frames_cost t n mm Ht Hw Hd) as (rs & mm' & Heq & Hl & Hw' & Hd' & Hc); [lia|].
  exists rs, mm'. split_and!; try done. unfold entry_cost in *. lia.
Qed.
End properties.

(** A million allocations from a map with two usable regions. *)
#[local] Instance checked : Build := true.

Lemma allocations_fit_witness :
  exists rs mm', allocate_frames (replicate (Z.to_nat (2 ^ 20)) Kernel) sample_map = Ret (rs, mm') /\
    length rs = Z.to_nat (2 ^ 20) /\ wf_map mm' /\ disjoint_map mm' /\
    (next_entry_index mm' <= next_entry_index sample_map + stock (slice sample_map) + 1)%nat.
Proof.
  destruct (allocations_fit Kernel (Z.to_nat (2 ^ 20)) sample_map) as (rs & mm' & H);
    [done | apply sample_map_wf | apply sample_map_disjoint | by_compute |].
  exists rs, mm'. exact H.
Defined.
