(* ===== verification/BootRegions.v ===== *)
(** * The memory the bootloader finds in use (src/bootloader/src/main.rs)

    Before it allocates frames, [bootloader_main] takes out of the usable memory
    what is in use already: the first frame, its own code, the kernel file and
    the page tables it runs on. *)

From Stdlib Require Import Lia Sorted.
From stdpp Require Import base decidable strings numbers list.
From S2P Require Import Prelude UnstableSort MemoryMap X86 FrameAllocator EntryCost.

Open Scope Z_scope.

Section regions.
Context {B : Build} {SORT : UnstableSort} {X : X86Phys}.

(** [mark_allocated_region] of [PhysFrame::range(first, last + 1)]. *)
Definition mark_frames (t : MemoryRegionType) (first last : PhysFrame) (mm : MemoryMap) : outcome MemoryMap :=
  next ← frame_add last 1;
  r ← frame_range {| pfr_start := first; pfr_end := next |};
  mark_allocated_region {| range := r; region_type := t |} mm.

Definition mark_boot_regions (kernel_start : PhysAddr) (kernel_size : Z)
    (page_table_start page_table_end bootloader_start bootloader_end : PhysAddr) (mm : MemoryMap) :
    outcome MemoryMap :=
  zero ← PhysAddr_new 0;
  zero_frame ← unwrap (frame_from_start_address zero);
  mm ← mark_frames FrameZero zero_frame zero_frame mm;
  let bootloader_start_frame := frame_containing_address bootloader_start in
  bootloader_last ← phys_sub bootloader_end 1;
  let bootloader_end_frame := frame_containing_address bootloader_last in
  mm ← mark_frames Bootloader bootloader_start_frame bootloader_end_frame mm;
  let kernel_start_frame := frame_containing_address kernel_start in
  kernel_past ← phys_add kernel_start kernel_size;
  kernel_last ← phys_sub kernel_past 1;
  let kernel_end_frame := frame_containing_address kernel_last in
  mm ← mark_frames Kernel kernel_start_frame kernel_end_frame mm;
  let page_table_start_frame := frame_containing_address page_table_start in
  page_table_last ← phys_sub page_table_end 1;
  let page_table_end_frame := frame_containing_address page_table_last in
  mark_frames PageTable page_table_start_frame page_table_end_frame mm.
End regions.

(** ** Ranges inside one usable region *)

Definition covered (mm : MemoryMap) (lo hi : Z) : Prop :=
  exists r, In r (slice mm) /\ region_type r = Usable /\ rstart r <= lo /\ hi <= rend r.

Section proofs.
Context {B : Build} {SORT : UnstableSort} {SL : UnstableSortLaws SORT}.
Context {X : X86Phys} {XL : X86PhysLaws X}.

Lemma covered_nonempty r lo hi :
  proper_region r -> rstart r <= lo -> lo < hi -> hi <= rend r -> nonempty r = true.
Proof. unfold nonempty, is_empty, proper_region. destruct (Z.eqb_spec (rstart r) (rend r)); simpl; lia. Qed.

(** Regions that are not empty stay in the map when others are added. *)
Lemma add_regions_keep rs mm mm' :
  wf_map mm -> Forall proper_region rs -> (next_entry_index mm + length rs <= MAX_MEMORY_MAP_SIZE)%nat ->
  for_each rs add_region mm = Ret mm' ->
  (next_entry_index mm' <= next_entry_index mm + length rs)%nat /\
  stock (slice mm') = stock (rs ++ slice mm) /\
  forall r, In r (rs ++ slice mm) -> nonempty r = true -> In r (slice mm').
Proof.
  revert mm. induction rs as [|r rs IH]; intros mm Hw Hp Hlen Heq; cbn [for_each] in Heq.
  { injection Heq as <-. split; [lia|]. split; done. }
  apply Forall_cons in Hp as [Hr Hp]. cbn [length] in Hlen.
  destruct (add_region_slice r mm Hw Hr) as (mm1 & H1 & Hw1 & _ & Hperm); [lia|].
  destruct (add_region_spec r mm Hw Hr) as (mm1' & H1' & _ & _ & Hn1 & _); [lia|].
  rewrite H1 in H1'. injection H1' as <-. rewrite H1 in Heq. cbn [mbind outcome_bind] in Heq.
  destruct (IH mm1 Hw1 Hp) as (Hn & Hst & Hin); [lia | done |]. split; [cbn [length]; lia|].
  split.
  { rewrite Hst, stock_app, (stock_permutation _ _ Hperm), stock_nonempty. cbn [app]. rewrite !stock_cons, stock_app. lia. }
  intros q Hq Hne. apply Hin; [|done]. apply in_app_iff.
  destruct Hq as [<- | [Hq|Hq]%in_app_iff]; [right | by left | right];
    eapply Permutation_in; [symmetry; exact Hperm | |symmetry; exact Hperm |];
    apply List.filter_In; (split; [|done]); [by left | by right].
Qed.

(** Nothing but the region that is cut and what is behind it counts. *)
Lemma in_stock_marked region : region_type region <> Usable -> in_stock region = false.
Proof. intros H. apply not_true_is_false. by intros [? _]%in_stock_spec. Qed.

(** What is left of the region that is cut. *)
Lemma mark_loop_pieces region r rest :
  proper_region region -> nonempty region = true -> proper_region r -> region_type r = Usable ->
  rstart r <= rstart region -> rend region <= rend r ->
  exists l' added, mark_loop region (r :: rest) = Ret (l', added) /\
    (forall q, In q rest -> In q l') /\
    (region_type region <> Usable -> stock (added ++ l') <= S (stock (r :: rest)))%nat /\
    forall lo hi, rstart r <= lo < hi -> hi <= rend r -> hi <= rstart region \/ rend region <= lo ->
      exists q, In q (added ++ l') /\ region_type q = Usable /\ rstart q <= lo /\ hi <= rend q.
Proof.
  intros Hreg Hne Hr Hu Hs He. unfold nonempty, is_empty in Hne.
  assert (in_stock r = true) as Hst.
  { apply in_stock_spec. split; [done|]. unfold is_empty, proper_region in *. lia. }
  unfold proper_region in *. cbn [mark_loop]. rewrite (bool_decide_true (region_type r = Usable)) by done.
  cbn [negb]. repeat case_match; try lia; (eexists _, _; split; [done|]; split; [intros q Hq; by right|];
    split; [intros Hnu; pose proof (in_stock_marked _ Hnu) as Hz; cbn [app]; rewrite !stock_cons, ?Hz, Hst;
      repeat match goal with |- context [in_stock ?x] => destruct (in_stock x) end; lia|]);
    intros lo hi Hlo Hhi Hout.
  - exists (mk_region (rend region) (rend r) (region_type r)). cbn. split; [by right; left|]. split; [done | lia].
  - lia.
  - destruct (Z.le_gt_cases hi (rstart region)).
    + exists (mk_region (rstart r) (rstart region) (region_type r)). cbn. split; [by right; right; left|].
      split; [done | lia].
    + exists (mk_region (rend region) (rend r) (region_type r)). cbn. split; [by left|]. split; [done | lia].
  - exists (mk_region (rstart r) (rstart region) (region_type r)). cbn. split; [by right; left|]. split; [done | lia].
Qed.

(** Marking one range leaves the ranges beside it inside a usable region. *)
Lemma mark_allocated_region_covered region mm :
  wf_map mm -> disjoint_map mm -> start_sorted (slice mm) ->
  proper_region region -> nonempty region = true -> covered mm (rstart region) (rend region) ->
  (next_entry_index mm + 2 <= MAX_MEMORY_MAP_SIZE)%nat ->
  exists mm', mark_allocated_region region mm = Ret mm' /\ wf_map mm' /\ disjoint_map mm' /\
    start_sorted (slice mm') /\ (next_entry_index mm' <= next_entry_index mm + 2)%nat /\
    (region_type region <> Usable -> entries_used mm' <= entries_used mm + 3)%nat /\
    (forall f, owners f mm' = if contains f region then [region_type region] else owners f mm) /\
    forall lo hi, lo < hi -> covered mm lo hi -> hi <= rstart region \/ rend region <= lo -> covered mm' lo hi.
Proof.
  intros Hw Hd Hsort Hreg Hne (r & Hin & Hu & Hs & He) Hlen.
  destruct (mark_allocated_region_exact region r mm) as (mm' & Heq & Hw' & Hd' & Hs' & Hex); try done.
  { by apply list_elem_of_In. }
  exists mm'. do 4 (split; [done|]). clear Hw' Hd' Hs'.
  pose proof (slice_proper mm Hw) as Hp. apply in_split in Hin as (pre & post & Hsl).
  pose proof Hp as Hp'. rewrite Hsl in Hp'. apply Forall_app in Hp' as [Hpre Hp'].
  apply Forall_cons in Hp' as [Hr Hpost].
  pose proof (apart_others mm pre r post region Hd Hsort Hsl Hreg Hne Hs He Hpre) as Hclear.
  destruct (mark_loop_here region r post Hreg Hne Hr Hu Hs He)
    as (l' & added & Hm & Hl & Hadd & _ & Hpl & Hpa & _).
  destruct (mark_loop_pieces region r post Hreg Hne Hr Hu Hs He) as (l2 & added2 & Hm2 & Hrest & Hstk & Hpieces).
  rewrite Hm in Hm2. injection Hm2 as <- <-.
  unfold mark_allocated_region in Heq. rewrite Hsl, mark_loop_skip, Hm in Heq by done.
  cbn [mbind outcome_bind] in Heq.
  assert (length (pre ++ l') = length (slice mm)) as Hlen' by (by rewrite Hsl, !length_app, Hl).
  assert (Forall proper_region (pre ++ l')) as Hpp by (apply Forall_app; auto).
  assert (wf_map (with_slice (pre ++ l') mm)) as Hw' by (by apply with_slice_wf).
  destruct (add_regions_keep added _ mm' Hw' Hpa) as (Hn & Hst & Hkeep); [simpl; lia | done |].
  cbn [next_entry_index with_slice] in Hn. rewrite with_slice_slice in Hkeep, Hst by done. split; [lia|].
  split.
  { intros Hnu. specialize (Hstk Hnu). unfold entries_used. rewrite Hst, Hsl.
    rewrite !stock_app in *. lia. }
  split; [done|].
  intros lo hi Hlt (q & Hq & Hqu & Hqs & Hqe) Hout.
  assert (exists q', In q' (added ++ pre ++ l') /\ region_type q' = Usable /\ rstart q' <= lo /\ hi <= rend q')
    as (q' & Hq' & Hqu' & Hqs' & Hqe').
  { rewrite Hsl in Hq. apply in_app_iff in Hq as [Hq | [<- | Hq]].
    - exists q. rewrite !in_app_iff. auto.
    - destruct (Hpieces lo hi) as (q' & Hq' & ?); [lia | done | done |]. exists q'. split; [|done].
      rewrite !in_app_iff in *. tauto.
    - exists q. rewrite !in_app_iff. auto. }
  exists q'. split; [|done]. apply Hkeep; [done|]. apply (covered_nonempty q' lo hi); [|lia..].
  assert (Forall proper_region (added ++ pre ++ l')) as Hall by (apply Forall_app; auto).
  by eapply List.Forall_forall in Hall.
Qed.

(** ** Several ranges, one after the other *)

Definition regions_apart (r q : MemoryRegion) : Prop := rend r <= rstart q \/ rend q <= rstart r.

(** Regions that can be marked in [mm] in any order. *)
Definition markable (mm : MemoryMap) (rs : list MemoryRegion) : Prop :=
  ForallOrdPairs regions_apart rs /\
  Forall (fun r => proper_region r /\ nonempty r = true /\ covered mm (rstart r) (rend r)) rs.

(** The owner of frame [f] when the regions are marked. *)
Definition marked_owner (rs : list MemoryRegion) (f : Z) (before : list MemoryRegionType) :
    list MemoryRegionType :=
  match List.find (contains f) rs with Some r => [region_type r] | None => before end.

Lemma mark_all rs mm :
  wf_map mm -> disjoint_map mm -> start_sorted (slice mm) -> markable mm rs ->
  (next_entry_index mm + 2 * length rs <= MAX_MEMORY_MAP_SIZE)%nat ->
  exists mm', for_each rs mark_allocated_region mm = Ret mm' /\ wf_map mm' /\ disjoint_map mm' /\
    start_sorted (slice mm') /\
    (Forall (fun r => region_type r <> Usable) rs -> entries_used mm' <= entries_used mm + 3 * length rs)%nat /\
    forall f, owners f mm' = marked_owner rs f (owners f mm).
Proof.
  revert mm. induction rs as [|r rs IH]; intros mm Hw Hd Hs [Hpairs Hall] Hlen; cbn [for_each length] in *.
  { exists mm. split_and!; [done..| intros _; lia | done]. }
  inversion Hpairs as [|? ? Hbes Hpairs']; subst. apply Forall_cons in Hall as [(Hr & Hne & Hcov) Hall].
  destruct (mark_allocated_region_covered r mm Hw Hd Hs Hr Hne Hcov) as
    (mm1 & -> & Hw1 & Hd1 & Hs1 & Hn1 & Hu1 & Hex1 & Hkeep); [lia|]. cbn [mbind outcome_bind].
  destruct (IH mm1 Hw1 Hd1 Hs1) as (mm2 & -> & Hw2 & Hd2 & Hs2 & Hu2 & Hex2).
  - split; [done|]. rewrite List.Forall_forall in Hall, Hbes |- *. intros q Hq.
    destruct (Hall q Hq) as (Hqp & Hqn & Hqc). split; [done|]. split; [done|].
    apply Hkeep; [|done|].
    + unfold nonempty, is_empty, proper_region in *. destruct (Z.eqb_spec (rstart q) (rend q)); simpl in Hqn; lia || done.
    + specialize (Hbes q Hq). unfold regions_apart in Hbes. lia.
  - lia.
  - exists mm2. do 4 (split; [done|]). split.
    { intros [Hnu Hnus]%Forall_cons. specialize (Hu1 Hnu). specialize (Hu2 Hnus). lia. }
    intros f. rewrite Hex2, Hex1.
    unfold marked_owner. cbn [List.find]. destruct (contains f r) eqn:Hc; [|done].
    destruct (List.find (contains f) rs) as [q|] eqn:Hf; [|done]. exfalso.
    apply List.find_some in Hf as [Hq Hcq]. rewrite List.Forall_forall in Hbes. specialize (Hbes q Hq).
    rewrite contains_spec in Hc, Hcq. unfold regions_apart in Hbes. lia.
Qed.

(** The regions [mark_boot_regions] marks. *)
Definition frames_of (t : MemoryRegionType) (lo size : Z) : MemoryRegion :=
  mk_region (lo / 4096) ((lo + size - 1) / 4096 + 1) t.

Definition boot_regions (kernel_start kernel_size page_table_start page_table_end
    bootloader_start bootloader_end : Z) : list MemoryRegion :=
  [mk_region 0 1 FrameZero;
   frames_of Bootloader bootloader_start (bootloader_end - bootloader_start);
   frames_of Kernel kernel_start kernel_size;
   frames_of PageTable page_table_start (page_table_end - page_table_start)].

Lemma mark_frames_region t first last mm :
  frame_number first <= frame_number last -> frame_number last + 1 < 2 ^ 40 ->
  mark_frames t first last mm = mark_allocated_region (mk_region (frame_number first) (frame_number last + 1) t) mm.
Proof.
  intros Hle Hlt. unfold mark_frames. pose proof (frame_number_range first).
  destruct (frame_add_number last 1) as (next & -> & Hn); [lia | lia |]. cbn [mbind outcome_bind].
  unfold frame_range, FrameRange_new, PAGE_SIZE. cbn [pfr_start pfr_end].
  rewrite !frame_start_number, u64_sub_ok by arith. cbn [mbind outcome_bind].
  replace (4096 * frame_number first / 4096) with (frame_number first) by dlia.
  replace ((4096 * frame_number next - 1) / 4096 + 1) with (frame_number last + 1) by dlia. done.
Qed.

Lemma mark_boot_regions_eq kernel_start kernel_size pts pte bls ble mm :
  let p := phys_as_u64 in
  0 < kernel_size -> p kernel_start + kernel_size < 2 ^ 52 - 4096 ->
  p pts < p pte < 2 ^ 52 - 4096 -> p bls < p ble < 2 ^ 52 - 4096 ->
  mark_boot_regions kernel_start kernel_size pts pte bls ble mm =
    for_each (boot_regions (p kernel_start) kernel_size (p pts) (p pte) (p bls) (p ble)) mark_allocated_region mm.
Proof.
  intros p Hks Hke Hpt Hbl. subst p. unfold mark_boot_regions, boot_regions, frames_of.
  pose proof (phys_range kernel_start). pose proof (phys_range pts). pose proof (phys_range bls).
  destruct (frame_at_number 0) as (zf & Hz & Hzn); [lia|]. change (0 * 4096) with 0 in Hz.
  destruct (PhysAddr_new 0) as [zero|]; cbn [mbind outcome_bind] in Hz; [|done].
  cbn [mbind outcome_bind]. rewrite Hz. cbn [mbind outcome_bind for_each].
  destruct (phys_sub_ok ble 1) as (bl & Hblq & Hblv); [lia|].
  destruct (phys_add_ok kernel_start kernel_size) as (kp & Hkp & Hkpv); [lia | lia |].
  destruct (phys_sub_ok kp 1) as (kl & Hkl & Hklv); [lia|].
  destruct (phys_sub_ok pte 1) as (pl & Hpl & Hplv); [lia|].
  rewrite mark_frames_region, Hzn by lia. change (0 + 1) with 1.
  destruct (mark_allocated_region (mk_region 0 1 FrameZero) mm) as [mm1|]; [|done]. cbn [mbind outcome_bind].
  rewrite Hblq. cbn [mbind outcome_bind]. rewrite mark_frames_region, !containing_number by (rewrite !containing_number; dlia).
  replace (phys_as_u64 bl) with (phys_as_u64 bls + (phys_as_u64 ble - phys_as_u64 bls) - 1) by lia.
  destruct (mark_allocated_region _ mm1) as [mm2|]; [|done]. cbn [mbind outcome_bind].
  rewrite Hkp. cbn [mbind outcome_bind]. rewrite Hkl. cbn [mbind outcome_bind].
  rewrite mark_frames_region, !containing_number by (rewrite !containing_number; dlia).
  replace (phys_as_u64 kl) with (phys_as_u64 kernel_start + kernel_size - 1) by lia.
  destruct (mark_allocated_region _ mm2) as [mm3|]; [|done]. cbn [mbind outcome_bind].
  rewrite Hpl. cbn [mbind outcome_bind].
  rewrite mark_frames_region, !containing_number by (rewrite !containing_number; dlia).
  replace (phys_as_u64 pl) with (phys_as_u64 pts + (phys_as_u64 pte - phys_as_u64 pts) - 1) by lia.
  by destruct (mark_allocated_region _ mm3).
Qed.
End proofs.

Section properties.
Context {B : Build} {SORT : UnstableSort} {SL : UnstableSortLaws SORT}.
Context {X : X86Phys} {XL : X86PhysLaws X}.

Lemma mark_boot_regions_ok kernel_start kernel_size pts pte bls ble mm :
  let p := phys_as_u64 in
  let rs := boot_regions (p kernel_start) kernel_size (p pts) (p pte) (p bls) (p ble) in
  0 < kernel_size -> p kernel_start + kernel_size < 2 ^ 52 - 4096 ->
  p pts < p pte < 2 ^ 52 - 4096 -> p bls < p ble < 2 ^ 52 - 4096 ->
  wf_map mm -> disjoint_map mm -> start_sorted (slice mm) -> markable mm rs ->
  (next_entry_index mm + 8 <= MAX_MEMORY_MAP_SIZE)%nat ->
  exists mm', mark_boot_regions kernel_start kernel_size pts pte bls ble mm = Ret mm' /\
    wf_map mm' /\ disjoint_map mm' /\ start_sorted (slice mm') /\
    (entries_used mm' <= entries_used mm + 12)%nat /\
    forall f, owners f mm' = marked_owner rs f (owners f mm).
Proof.
  intros p rs Hk Hke Hpt Hbl Hw Hd Hs Hm Hlen.
  rewrite (mark_boot_regions_eq kernel_start kernel_size pts pte bls ble mm Hk Hke Hpt Hbl).
  destruct (mark_all rs mm) as (mm' & ? & ? & ? & ? & Hu & ?); try done.
  exists mm'. do 4 (split; [done|]). split; [|done]. apply Hu. by repeat constructor.
Qed.

(** C20 (safety). The bootloader's four marks: where each of the four ranges
    lies inside one usable region of the firmware's map and no two of them share
    a frame, every frame of theirs gets its owner (first frame, bootloader,
    kernel, page table), and every other frame keeps the one it had; the map
    stays well formed, sorted and without overlaps. *)
Theorem boot_regions_marked kernel_start kernel_size pts pte bls ble mm :
  let p := phys_as_u64 in
  let rs := boot_regions (p kernel_start) kernel_size (p pts) (p pte) (p bls) (p ble) in
  0 < kernel_size -> p kernel_start + kernel_size < 2 ^ 52 - 4096 ->
  p pts < p pte < 2 ^ 52 - 4096 -> p bls < p ble < 2 ^ 52 - 4096 ->
  wf_map mm -> disjoint_map mm -> start_sorted (slice mm) -> markable mm rs ->
  (next_entry_index mm + 8 <= MAX_MEMORY_MAP_SIZE)%nat ->
  exists mm', mark_boot_regions kernel_start kernel_size pts pte bls ble mm = Ret mm' /\
    wf_map mm' /\ disjoint_map mm' /\ start_sorted (slice mm') /\
    forall f, owners f mm' = marked_owner rs f (owners f mm).
Proof.
  intros p rs Hk Hke Hpt Hbl Hw Hd Hs Hm Hlen.
  destruct (mark_boot_regions_ok kernel_start kernel_size pts pte bls ble mm) as (mm' & ? & ? & ? & ? & _ & ?);
    try done. by exists mm'.
Qed.
End properties.

(** ** A concrete machine *)

#[local] Instance checked : Build := true.

Definition phys (z : Z) : @PhysAddr phys_numbers :=
  match PhysAddr_new z with Ret a => a | Panic _ => dexist 0 (conj (Z.le_refl 0) eq_refl) end.

(** 640 KiB of low memory and 127 MiB from 1 MiB on. *)
Definition machine_map : MemoryMap := map_of [mk_region 0 0xa0 Usable; mk_region 0x100 0x8000 Usable].

Lemma machine_map_wf : wf_map machine_map.
Proof. by_compute. Qed.

Lemma machine_map_disjoint : disjoint_map machine_map.
Proof. intros f. apply apart_kinds; [apply slice_proper, machine_map_wf|]. repeat constructor; discriminate. Qed.

Lemma machine_map_sorted : start_sorted (slice machine_map).
Proof. repeat constructor; discriminate. Qed.

(** The bootloader at 0x8000, its page tables behind it, a kernel of 16 KiB. *)
Definition machine_regions : list MemoryRegion := boot_regions 0x400000 0x4000 0x10000 0x18000 0x8000 0xc000.

Lemma machine_markable : markable machine_map machine_regions.
Proof.
  split.
  - repeat constructor; unfold regions_apart; by_compute.
  - repeat constructor; try by_compute; try reflexivity;
      [exists (mk_region 0 0xa0 Usable) | exists (mk_region 0 0xa0 Usable)
      | exists (mk_region 0x100 0x8000 Usable) | exists (mk_region 0 0xa0 Usable)];
      (split; [cbn; auto | split; [reflexivity | by_compute]]).
Qed.

Lemma boot_regions_marked_witness :
  exists mm', mark_boot_regions (phys 0x400000) 0x4000 (phys 0x10000) (phys 0x18000) (phys 0x8000)
      (phys 0xc000) machine_map = Ret mm' /\ wf_map mm' /\ disjoint_map mm' /\ start_sorted (slice mm') /\
    forall f, owners f mm' = marked_owner machine_regions f (owners f machine_map).
Proof.
  apply (boot_regions_marked (phys 0x400000) 0x4000 (phys 0x10000) (phys 0x18000) (phys 0x8000)
    (phys 0xc000) machine_map); [lia | by_compute | by_compute | by_compute | apply machine_map_wf
    | apply machine_map_disjoint | apply machine_map_sorted | apply machine_markable | by_compute].
Defined.
