(* ===== verification/Level4.v ===== *)
(** * The used level 4 page table entries (src/bootloader/src/level4_entries.rs)

    512 flags, one per entry of the level 4 page table.  The constructor marks
    entry 0 and the entries of the kernel's segments; [get_free_entries] takes
    the first run of free entries that is long enough. *)

From Stdlib Require Import Lia.
From stdpp Require Import base decidable strings numbers list.
From S2P Require Import Prelude X86.

Open Scope Z_scope.

(** The fields of [xmas_elf]'s program header that the bootloader reads. *)
Record ProgramHeader64 := {
  ph_type : Z;
  ph_flags : Z;
  ph_offset : Z;
  virtual_addr : Z;
  file_size : Z;
  mem_size : Z;
}.

Record UsedLevel4Entries := { entry_state : list bool }.

Definition LEVEL_4_ENTRIES : nat := 512.

(** [entry_state[i] = true], with the bounds check. *)
Definition mark_used (i : nat) (used : UsedLevel4Entries) : outcome UsedLevel4Entries :=
  if decide (i < length (entry_state used))%nat
  then Ret {| entry_state := <[i := true]> (entry_state used) |}
  else Panic "index out of bounds".

(** The windows of [n] consecutive elements. *)
Definition windows {A} (n : nat) (l : list A) : list (list A) :=
  map (fun i => take n (drop i l)) (seq 0 (length l + 1 - n)).

Section level4.
Context {B : Build} {V : X86Virt}.

(** One segment of the loop in [new]. *)
Definition mark_segment (segment : ProgramHeader64) (used : UsedLevel4Entries) :
    outcome UsedLevel4Entries :=
  start ← VirtAddr_new (virtual_addr segment);
  last ← u64_add (virtual_addr segment) (mem_size segment);
  end_ ← VirtAddr_new last;
  let first_index := Z.to_nat (index_as_u64 (p4_index (page_containing_address start))) in
  let last_index := Z.to_nat (index_as_u64 (p4_index (page_containing_address end_))) in
  for_each (seq first_index (last_index + 1 - first_index)) mark_used used.

Definition UsedLevel4Entries_new (segments : list ProgramHeader64) : outcome UsedLevel4Entries :=
  used ← mark_used 0 {| entry_state := replicate LEVEL_4_ENTRIES false |};
  for_each segments mark_segment used.

(** The conversion of the index to [u16] cannot fail: it is below 512. *)
Definition get_free_entries (num : Z) (used : UsedLevel4Entries) :
    outcome (PageTableIndex * UsedLevel4Entries) :=
  if num =? 0 then Panic "window size must be non-zero"
  else
    idx ← expect (position (forallb negb) (windows (Z.to_nat num) (entry_state used)))
            "no usable level 4 entries found";
    used' ← for_each (seq 0 (Z.to_nat num)) (fun i => mark_used (idx + i)) used;
    index ← PageTableIndex_new (Z.of_nat idx);
    Ret (index, used').
End level4.

(** ** Which entries are in use *)

Definition is_used (used : UsedLevel4Entries) (i : nat) : Prop := entry_state used !! i = Some true.
Definition is_free (used : UsedLevel4Entries) (i : nat) : Prop := entry_state used !! i = Some false.

Definition wf_entries (used : UsedLevel4Entries) : Prop := length (entry_state used) = LEVEL_4_ENTRIES.

(** The entries of [P] are taken, the others unchanged. *)
Definition taken (P : nat -> Prop) (used used' : UsedLevel4Entries) : Prop :=
  forall i, (P i -> is_used used' i) /\ (~ P i -> entry_state used' !! i = entry_state used !! i).

Lemma mark_used_ok i used :
  wf_entries used -> (i < LEVEL_4_ENTRIES)%nat ->
  exists used', mark_used i used = Ret used' /\ wf_entries used' /\ taken (fun j => j = i) used used'.
Proof.
  unfold wf_entries. intros Hw Hi. unfold mark_used. rewrite decide_True by lia.
  eexists. split; [done|]. split; [simpl; by rewrite length_insert|].
  intros j. unfold is_used. simpl. split.
  - intros ->. apply list_lookup_insert_eq. lia.
  - intros Hne. by apply list_lookup_insert_ne.
Qed.

Lemma taken_trans P Q used used1 used2 :
  (forall i, Decision (Q i)) ->
  taken P used used1 -> taken Q used1 used2 -> taken (fun i => P i \/ Q i) used used2.
Proof.
  intros HQ H1 H2 i. destruct (H1 i) as [H1a H1b], (H2 i) as [H2a H2b]. unfold is_used in *. split.
  - destruct (HQ i); [auto|]. intros [HP|]; [|done]. rewrite H2b by done. auto.
  - intros HN. rewrite H2b, H1b; tauto.
Qed.

Lemma taken_ext P Q used used' : (forall i, P i <-> Q i) -> taken P used used' -> taken Q used used'.
Proof. intros HPQ H i. destruct (H i). split; rewrite <-HPQ; auto. Qed.

(** Marking a run of entries. *)
Lemma mark_run first n used :
  wf_entries used -> (first + n <= LEVEL_4_ENTRIES)%nat ->
  exists used', for_each (seq first n) mark_used used = Ret used' /\ wf_entries used' /\
    taken (fun j => first <= j < first + n)%nat used used'.
Proof.
  revert first used. induction n as [|n IH]; intros first used Hw Hlen; cbn [seq for_each].
  { exists used. do 2 (split; [done|]). intros j. split; [lia | done]. }
  destruct (mark_used_ok first used Hw) as (used1 & -> & Hw1 & H1); [lia|]. cbn [mbind outcome_bind].
  destruct (IH (S first) used1 Hw1) as (used2 & -> & Hw2 & H2); [lia|].
  exists used2. do 2 (split; [done|]).
  eapply taken_ext; [|eapply taken_trans; [|exact H1 | exact H2]]; [simpl; lia|].
  intros i. apply _.
Qed.

Lemma for_each_seq_shift {S} (body : nat -> S -> outcome S) a n s :
  for_each (seq 0 n) (fun i => body (a + i)%nat) s = for_each (seq a n) body s.
Proof.
  revert a s. induction n as [|n IH]; intros a s; cbn [seq for_each]; [done|].
  rewrite Nat.add_0_r. destruct (body a s) as [s'|]; [|done]. cbn [mbind outcome_bind].
  rewrite <-(IH (Datatypes.S a)). rewrite <-seq_shift.
  clear. revert s'. generalize (seq 0 n) as l. induction l as [|x l IH]; intros s'; [done|].
  cbn [map for_each]. rewrite <-Nat.add_succ_comm.
  destruct (body (Datatypes.S a + x)%nat s'); [apply IH | done].
Qed.

(** All entries of the run are free. *)
Definition free_run (used : UsedLevel4Entries) (first n : nat) : Prop :=
  forall j, (first <= j < first + n)%nat -> is_free used j.

Lemma windows_lookup {A} n (l : list A) i :
  (i < length l + 1 - n)%nat -> windows n l !! i = Some (take n (drop i l)).
Proof.
  intros Hi. unfold windows. rewrite list_lookup_fmap, lookup_seq_lt by done. done.
Qed.

Lemma windows_length {A} n (l : list A) : length (windows n l) = (length l + 1 - n)%nat.
Proof. unfold windows. by rewrite length_map, length_seq. Qed.

Lemma free_window used i n :
  (i + n <= length (entry_state used))%nat ->
  forallb negb (take n (drop i (entry_state used))) = true <-> free_run used i n.
Proof.
  intros Hlen. rewrite forallb_forall. unfold free_run, is_free. split.
  - intros H j Hj. destruct (lookup_lt_is_Some_2 (entry_state used) j) as [b Hb]; [lia|].
    rewrite Hb. f_equal. apply negb_true_iff, H, list_elem_of_In.
    apply (list_elem_of_lookup_2 _ (j - i)). rewrite lookup_take_lt by lia.
    rewrite lookup_drop. by replace (i + (j - i))%nat with j by lia.
  - intros H b Hb. apply list_elem_of_In, list_elem_of_lookup_1 in Hb as [j Hj].
    apply lookup_take_Some in Hj as [Hj Hlt]. rewrite lookup_drop in Hj.
    specialize (H (i + j)%nat ltac:(lia)). rewrite H in Hj. by injection Hj as <-.
Qed.

Section proofs.
Context {B : Build} {V : X86Virt} {VL : X86VirtLaws V}.

(** [get_free_entries] takes the first free run, or panics. *)
Lemma get_free_entries_spec num used :
  wf_entries used -> 0 < num ->
  let n := Z.to_nat num in
  (exists idx index used', get_free_entries num used = Ret (index, used') /\
     index_as_u64 index = Z.of_nat idx /\ (idx + n <= LEVEL_4_ENTRIES)%nat /\
     free_run used idx n /\ (forall i, (i < idx)%nat -> ~ free_run used i n) /\
     wf_entries used' /\ taken (fun j => idx <= j < idx + n)%nat used used') \/
  (panics (get_free_entries num used) /\
   forall i, (i + n <= LEVEL_4_ENTRIES)%nat -> ~ free_run used i n).
Proof.
  intros Hw Hnum n. pose proof Hw as Hw'. unfold wf_entries in Hw'.
  unfold get_free_entries. rewrite (proj2 (Z.eqb_neq num 0)) by lia. fold n.
  assert (0 < n)%nat as Hn by lia.
  destruct (position _ (windows n (entry_state used))) as [idx|] eqn:Hpos; [left | right].
  - apply position_lookup in Hpos as [(w & Hwin & Hfree) Hfirst].
    assert (idx < length (windows n (entry_state used)))%nat as Hlt by (by eapply lookup_lt_Some).
    rewrite windows_length, Hw' in Hlt.
    assert (idx + n <= LEVEL_4_ENTRIES)%nat as Hle by lia.
    rewrite windows_lookup in Hwin by lia. injection Hwin as <-.
    apply free_window in Hfree; [|lia]. cbn [expect mbind outcome_bind].
    rewrite (for_each_seq_shift mark_used).
    destruct (mark_run idx n used Hw Hle) as (used' & -> & Hwu & Htk). cbn [mbind outcome_bind].
    destruct (PageTableIndex_new_ok (Z.of_nat idx)) as (index & -> & Hi);
      [unfold LEVEL_4_ENTRIES in *; lia|].
    exists idx, index, used'. split_and!; try done. intros i Hi' Hfr.
    assert (forallb negb (take n (drop i (entry_state used))) = false) as Hf.
    { apply (Hfirst i _ Hi'). apply windows_lookup. lia. }
    apply free_window in Hfr; [congruence | lia].
  - cbn [expect mbind outcome_bind]. split; [by eexists|]. intros i Hi Hfr.
    apply position_None in Hpos.
    assert (forallb negb (take n (drop i (entry_state used))) = false) as Hf.
    { apply (Forall_lookup_1 _ _ i _ Hpos). apply windows_lookup. lia. }
    apply free_window in Hfr; [congruence | lia].
Qed.

Lemma get_free_entries_Ret num used index used' :
  wf_entries used -> 0 < num -> get_free_entries num used = Ret (index, used') ->
  exists idx, index_as_u64 index = Z.of_nat idx /\
    (idx + Z.to_nat num <= LEVEL_4_ENTRIES)%nat /\ free_run used idx (Z.to_nat num) /\
    wf_entries used' /\ taken (fun j => idx <= j < idx + Z.to_nat num)%nat used used'.
Proof.
  intros Hw Hnum Hg. destruct (get_free_entries_spec num used Hw Hnum) as
    [(idx & ? & ? & Heq & ? & ? & ? & _ & ?) | [[? ?] _]]; [|congruence].
  rewrite Hg in Heq. injection Heq as <- <-. by exists idx.
Qed.

(** A segment whose addresses do not leave one half of the address space. *)
Definition valid_segment (s : ProgramHeader64) : Prop :=
  0 <= mem_size s /\
  (0 <= virtual_addr s /\ virtual_addr s + mem_size s < 2 ^ 48 \/
   2 ^ 64 - 2 ^ 47 <= virtual_addr s /\ virtual_addr s + mem_size s < 2 ^ 64).

(** The level 4 index of an address. *)
Definition l4_index (addr : Z) : nat := Z.to_nat (addr / 2 ^ 39 mod 512).

Lemma l4_index_between s addr :
  valid_segment s -> virtual_addr s <= addr <= virtual_addr s + mem_size s ->
  (l4_index (virtual_addr s) <= l4_index addr <= l4_index (virtual_addr s + mem_size s))%nat.
Proof.
  intros (Hms & Hr) Ha. unfold l4_index. split; apply Z2Nat.inj_le; try apply index_512; dlia.
Qed.

(** Entry 0 and the entries the segments reach into are in use, no others. *)
Definition marks_exactly (segments : list ProgramHeader64) (used : UsedLevel4Entries) : Prop :=
  forall i, (i < LEVEL_4_ENTRIES)%nat ->
    is_used used i <->
    i = 0%nat \/ exists s, s ∈ segments /\
      (l4_index (virtual_addr s) <= i <= l4_index (virtual_addr s + mem_size s))%nat.

Lemma VirtAddr_new_index z :
  0 <= z < 2 ^ 48 \/ 2 ^ 64 - 2 ^ 47 <= z < 2 ^ 64 ->
  exists a, VirtAddr_new z = Ret a /\
    index_as_u64 (p4_index (page_containing_address a)) = z / 2 ^ 39 mod 512.
Proof.
  intros [Hz|Hz].
  - destruct (VirtAddr_new_extends z Hz) as (a & -> & Ha). exists a. split; [done|].
    rewrite containing_p4_index, Ha. unfold sign_extend48. case_match; [done|]. dlia.
  - destruct (VirtAddr_new_canonical z) as (a & -> & Ha); [by right|]. exists a. split; [done|].
    by rewrite containing_p4_index, Ha.
Qed.

Lemma mark_segment_spec s used :
  valid_segment s -> wf_entries used ->
  exists used', mark_segment s used = Ret used' /\ wf_entries used' /\
    taken (fun j => l4_index (virtual_addr s) <= j <= l4_index (virtual_addr s + mem_size s))%nat
      used used'.
Proof.
  intros (Hm & Hv) Hw. unfold mark_segment.
  destruct (VirtAddr_new_index (virtual_addr s)) as (a & -> & Ha); [lia|]. cbn [mbind outcome_bind].
  rewrite u64_add_ok by arith. cbn [mbind outcome_bind].
  destruct (VirtAddr_new_index (virtual_addr s + mem_size s)) as (b & -> & Hb); [lia|].
  cbn [mbind outcome_bind]. rewrite Ha, Hb. fold (l4_index (virtual_addr s))
    (l4_index (virtual_addr s + mem_size s)).
  assert (l4_index (virtual_addr s + mem_size s) < LEVEL_4_ENTRIES)%nat as Hlt.
  { unfold l4_index, LEVEL_4_ENTRIES. pose proof (index_512 ((virtual_addr s + mem_size s) / 2 ^ 39)). lia. }
  assert (l4_index (virtual_addr s) <= l4_index (virtual_addr s + mem_size s))%nat as Hle.
  { apply (l4_index_between s (virtual_addr s)); [by split | lia]. }
  destruct (mark_run (l4_index (virtual_addr s))
    (l4_index (virtual_addr s + mem_size s) + 1 - l4_index (virtual_addr s)) used Hw)
    as (used' & -> & Hw' & Ht); [lia|].
  exists used'. do 2 (split; [done|]). eapply taken_ext; [|exact Ht]. intros i. simpl. lia.
Qed.

Lemma new_spec segments :
  Forall valid_segment segments ->
  exists used, UsedLevel4Entries_new segments = Ret used /\ wf_entries used /\
    marks_exactly segments used.
Proof.
  intros Hv. unfold UsedLevel4Entries_new.
  destruct (mark_used_ok 0 {| entry_state := replicate LEVEL_4_ENTRIES false |})
    as (used0 & -> & Hw0 & H0); [by compute | unfold LEVEL_4_ENTRIES; lia |].
  cbn [mbind outcome_bind].
  destruct (for_each_inv (fun pre used => wf_entries used /\ marks_exactly pre used)
    segments mark_segment used0) as (used & -> & Hw & Hu); [| |by exists used].
  - split; [done|]. intros i Hi. destruct (H0 i) as [Ha Hb]. split.
    + intros Hu. destruct (decide (i = 0%nat)) as [|Hne]; [by left|].
      unfold is_used in Hu. rewrite Hb in Hu by done. cbn [entry_state] in Hu.
      rewrite lookup_replicate_2 in Hu by done. discriminate.
    + intros [|(s & Hs & _)]; [by apply Ha | by apply not_elem_of_nil in Hs].
  - intros pre s post used Hl (Hw & Hu).
    assert (valid_segment s) as Hs.
    { rewrite Forall_forall in Hv. apply Hv. rewrite Hl. apply elem_of_app. right. left. }
    destruct (mark_segment_spec s used Hs Hw) as (used' & -> & Hw' & Ht).
    exists used'. split; [done|]. split; [done|]. intros i Hi. destruct (Ht i) as [Ha Hb].
    destruct (decide (l4_index (virtual_addr s) <= i <= l4_index (virtual_addr s + mem_size s))%nat)
      as [Hin|Hnin].
    + split; [|by auto]. intros _. right. exists s. split; [|done]. apply elem_of_app. right. left.
    + assert (is_used used' i <-> is_used used i) as -> by (unfold is_used; by rewrite Hb).
      rewrite (Hu i Hi). split.
      * intros [|(x & Hx & Hr)]; [by left|]. right. exists x. split; [|done]. apply elem_of_app. by left.
      * intros [|(x & [Hx | ->%list_elem_of_singleton]%elem_of_app & Hr)]; [by left | | done].
        right. by exists x.
Qed.
End proofs.

Section properties.
Context {B : Build} {V : X86Virt} {VL : X86VirtLaws V}.

(** For segments that stay in one half of the address space
    [UsedLevel4Entries::new] returns 512 flags, and exactly entry 0 and the
    entries from the first to the last address of a segment are set. *)
Theorem new_marks_segments segments :
  Forall valid_segment segments ->
  exists used, UsedLevel4Entries_new segments = Ret used /\ wf_entries used /\
    marks_exactly segments used.
Proof. apply new_spec. Qed.

(** C29 (functional). [get_free_entries] returns the start of the first run of
    [num] free entries and takes exactly that run; it panics exactly when there
    is no such run or [num] is 0. *)
Theorem get_free_entries_first_fit num used :
  wf_entries used -> 0 <= num ->
  (panics (get_free_entries num used) <->
     num = 0 \/ forall i, (i + Z.to_nat num <= LEVEL_4_ENTRIES)%nat ->
                 ~ free_run used i (Z.to_nat num)) /\
  forall index used', get_free_entries num used = Ret (index, used') ->
    exists idx, index_as_u64 index = Z.of_nat idx /\
      (idx + Z.to_nat num <= LEVEL_4_ENTRIES)%nat /\ free_run used idx (Z.to_nat num) /\
      (forall i, (i < idx)%nat -> ~ free_run used i (Z.to_nat num)) /\
      wf_entries used' /\ taken (fun j => idx <= j < idx + Z.to_nat num)%nat used used'.
Proof.
  intros Hw Hnum. destruct (decide (num = 0)) as [-> |Hne].
  { split; [|done]. split; [auto|]. intros _. by eexists. }
  destruct (get_free_entries_spec num used Hw) as
    [(idx & index & used' & Heq & Hi & Hle & Hf & Hfirst & Hw' & Ht) | [Hp Hno]]; [lia| |].
  - rewrite Heq. split.
    + split; [by intros [? ?]|]. intros [|Hno]; [done|]. by destruct (Hno idx Hle).
    + intros ? ? [= <- <-]. by exists idx.
  - split; [by split; auto|]. intros ? ? Heq. destruct Hp as [? Hp]. congruence.
Qed.

(** Two runs of entries taken one after the other after [new] are
    disjoint from each other and from every entry a segment reaches into, and
    neither contains entry 0: the recursive mapping, the boot information and
    the mapping of physical memory do not collide with the kernel. *)
Theorem level4_runs_disjoint segments used a b ia ib used1 used2 :
  Forall valid_segment segments -> 0 < a -> 0 < b ->
  UsedLevel4Entries_new segments = Ret used ->
  get_free_entries a used = Ret (ia, used1) -> get_free_entries b used1 = Ret (ib, used2) ->
  let in_a i := (index_as_u64 ia <= Z.of_nat i < index_as_u64 ia + a) in
  let in_b i := (index_as_u64 ib <= Z.of_nat i < index_as_u64 ib + b) in
  (forall i, in_a i -> ~ in_b i) /\
  (forall i, in_a i \/ in_b i -> (0 < i < LEVEL_4_ENTRIES)%nat) /\
  (forall i s addr, in_a i \/ in_b i -> s ∈ segments ->
     virtual_addr s <= addr <= virtual_addr s + mem_size s -> l4_index addr <> i).
Proof.
  intros Hv Ha Hb Hnew Hga Hgb in_a in_b.
  destruct (new_spec segments Hv) as (used' & Heq & Hw & Hm). rewrite Hnew in Heq. injection Heq as <-.
  destruct (get_free_entries_Ret a used ia used1 Hw Ha Hga) as (na & Hia & Hla & Hfa & Hw1 & Hta).
  destruct (get_free_entries_Ret b used1 ib used2 Hw1 Hb Hgb) as (nb & Hib & Hlb & Hfb & _).
  assert (forall i, in_a i -> is_free used i) as Hfree_a.
  { intros i Hi. apply Hfa. unfold in_a in Hi. lia. }
  assert (forall i, in_b i -> is_free used1 i) as Hfree_b.
  { intros i Hi. apply Hfb. unfold in_b in Hi. lia. }
  assert (forall i, in_a i -> is_used used1 i) as Hused_a.
  { intros i Hi. apply Hta. unfold in_a in Hi. lia. }
  assert (forall i, in_a i -> ~ in_b i) as Hdis.
  { intros i Hi Hi'. apply Hused_a in Hi. apply Hfree_b in Hi'. unfold is_used, is_free in *. congruence. }
  assert (forall i, in_a i \/ in_b i -> is_free used i) as Hfree.
  { intros i [Hi|Hi]; [auto|]. apply Hfree_b in Hi as Hf. unfold is_free in *.
    destruct (Hta i) as [_ Hkeep]. rewrite <-Hkeep; [done|]. intros Hr.
    apply (Hdis i); [unfold in_a; lia | done]. }
  assert (forall i, in_a i \/ in_b i -> (i < LEVEL_4_ENTRIES)%nat) as Hlt.
  { unfold in_a, in_b. intros i ?. lia. }
  split; [done|]. split.
  - intros i Hi. specialize (Hfree i Hi). specialize (Hlt i Hi). split; [|done].
    destruct i; [|lia]. assert (is_used used 0) by (apply Hm; auto).
    unfold is_used, is_free in *. congruence.
  - intros i s addr Hi Hs Haddr Heq. specialize (Hfree i Hi). specialize (Hlt i Hi).
    assert (is_used used i); [|unfold is_used, is_free in *; congruence].
    apply Hm; [done|]. right. exists s. split; [done|]. subst i.
    rewrite Forall_forall in Hv. apply l4_index_between; auto.
Qed.
End properties.

(** ** A kernel with two segments *)

#[local] Instance checked : Build := true.

Definition sample_segments : list ProgramHeader64 :=
  [ {| ph_type := 1; ph_flags := 5; ph_offset := 0x1000; virtual_addr := 0x200000;
       file_size := 0x7f000; mem_size := 0x7f000 |};
    {| ph_type := 1; ph_flags := 6; ph_offset := 0x80000; virtual_addr := 0x8000280000;
       file_size := 0x1000; mem_size := 0x9000 |} ].

Definition sample_used : UsedLevel4Entries :=
  Eval vm_compute in {| entry_state := [true; true] ++ replicate 510 false |}.

Lemma sample_segments_valid : Forall valid_segment sample_segments.
Proof. repeat constructor; cbn; lia. Qed.

Lemma new_marks_segments_witness :
  exists used, UsedLevel4Entries_new sample_segments = Ret used /\ wf_entries used /\
    marks_exactly sample_segments used.
Proof. apply (new_marks_segments sample_segments), sample_segments_valid. Defined.

Lemma get_free_entries_first_fit_witness :
  (panics (get_free_entries 3 sample_used) <->
     3 = 0 \/ forall i, (i + Z.to_nat 3 <= LEVEL_4_ENTRIES)%nat ->
               ~ free_run sample_used i (Z.to_nat 3)) /\
  forall index used', get_free_entries 3 sample_used = Ret (index, used') ->
    exists idx, index_as_u64 index = Z.of_nat idx /\
      (idx + Z.to_nat 3 <= LEVEL_4_ENTRIES)%nat /\ free_run sample_used idx (Z.to_nat 3) /\
      (forall i, (i < idx)%nat -> ~ free_run sample_used i (Z.to_nat 3)) /\
      wf_entries used' /\ taken (fun j => idx <= j < idx + Z.to_nat 3)%nat sample_used used'.
Proof. apply (get_free_entries_first_fit 3 sample_used); [reflexivity | lia]. Defined.

Lemma level4_runs_disjoint_witness :
  let in_a i := (2 <= Z.of_nat i < 2 + 1) in
  let in_b i := (3 <= Z.of_nat i < 3 + 2) in
  (forall i, in_a i -> ~ in_b i) /\
  (forall i, in_a i \/ in_b i -> (0 < i < LEVEL_4_ENTRIES)%nat) /\
  (forall i s addr, in_a i \/ in_b i -> s ∈ sample_segments ->
     virtual_addr s <= addr <= virtual_addr s + mem_size s -> l4_index addr <> i).
Proof.
  apply (level4_runs_disjoint (V := virt_numbers) sample_segments sample_used 1 2 2 3
    {| entry_state := [true; true; true] ++ replicate 509 false |}
    {| entry_state := [true; true; true; true; true] ++ replicate 507 false |});
    [apply sample_segments_valid | lia | lia | vm_compute; reflexivity..].
Defined.
