(* ===== verification/Memory.v ===== *)
(** * The kernel's frame allocator (src/src/memory.rs)

    [BootInfoFrameAllocator] walks the memory map the bootloader left: its
    [next]-th allocation is the [next]-th frame of the usable regions, in the
    order of the map.  The chain of iterators is lazy, so it is a list of
    computations of which only the ones [nth] passes over run. *)

From Stdlib Require Import Lia Sorted.
From stdpp Require Import base decidable strings numbers list.
From S2P Require Import Prelude UnstableSort MemoryMap X86 FrameAllocator.

Open Scope Z_scope.

(** ** The page table *)

(** [OffsetPageTable::new] of the crate x86_64: the mapper of the table at an
    address, for a machine with all physical memory at an offset. *)
Class OffsetTable `{X86Virt} (M : Type) := OffsetPageTable_new : VirtAddr -> VirtAddr -> M.

Section init.
Context {X : X86Phys} {V : X86Virt} {M : Type} {OT : OffsetTable M}.

(** The address of the active level 4 table; [cr3] is the frame [Cr3::read] gives. *)
Definition active_level_4_table (cr3 : PhysFrame) (physical_memory_offset : VirtAddr) : outcome VirtAddr :=
  let phys := frame_start_address cr3 in
  virt_add physical_memory_offset (phys_as_u64 phys).

Definition memory_init (cr3 : PhysFrame) (physical_memory_offset : VirtAddr) : outcome M :=
  level_4_table ← active_level_4_table cr3 physical_memory_offset;
  Ret (OffsetPageTable_new level_4_table physical_memory_offset).
End init.

(** ** The frame allocator *)

Record BootInfoFrameAllocator := { bi_memory_map : MemoryMap; bi_next : Z }.

Definition BootInfoFrameAllocator_init (memory_map : MemoryMap) : BootInfoFrameAllocator :=
  {| bi_memory_map := memory_map; bi_next := 0 |}.

(** [Iterator::nth] on a chain whose items are computed on demand. *)
Fixpoint lazy_nth {A} (n : nat) (l : list (outcome A)) : outcome (option A) :=
  match l with
  | [] => Ret None
  | x :: l' =>
      a ← x;
      match n with
      | O => Ret (Some a)
      | S n' => lazy_nth n' l'
      end
  end.

Section memory.
Context {B : Build} {X : X86Phys}.

(** [(s..e).step_by(4096)]. *)
Definition step_by_4096 (s e : Z) : list Z :=
  map (fun i => s + 4096 * Z.of_nat i) (seq 0 (Z.to_nat ((e - s + 4095) / 4096))).

(** The addresses of one region, or the panic of the closure that computes its
    bounds. *)
Definition region_addresses (r : MemoryRegion) : list (outcome Z) :=
  match (s ← start_addr (range r); e ← end_addr (range r); Ret (s, e)) with
  | Ret (s, e) => map Ret (step_by_4096 s e)
  | Panic why => [Panic why]
  end.

Definition usable_frames (self : BootInfoFrameAllocator) : list (outcome PhysFrame) :=
  let usable_regions :=
    List.filter (fun r => bool_decide (region_type r = Usable)) (slice (bi_memory_map self)) in
  let frame_addresses := flat_map region_addresses usable_regions in
  map (fun addr => z ← addr; a ← PhysAddr_new z; Ret (frame_containing_address a)) frame_addresses.

Definition bi_allocate_frame (self : BootInfoFrameAllocator) :
    outcome (option PhysFrame * BootInfoFrameAllocator) :=
  frame ← lazy_nth (Z.to_nat (bi_next self)) (usable_frames self);
  next ← u64_add (bi_next self) 1;
  Ret (frame, {| bi_memory_map := bi_memory_map self; bi_next := next |}).
End memory.

(** ** The usable frames *)

(** The numbers of the frames of a region, and of all usable regions. *)
Definition region_numbers (r : MemoryRegion) : list Z := seqZ (rstart r) (rend r - rstart r).

Definition usable_numbers (mm : MemoryMap) : list Z :=
  flat_map region_numbers
    (List.filter (fun r => bool_decide (region_type r = Usable)) (slice mm)).

Lemma elem_of_region_numbers f r : f ∈ region_numbers r <-> contains f r = true.
Proof. unfold region_numbers. rewrite elem_of_seqZ, contains_spec. lia. Qed.

Lemma elem_of_usable_numbers f mm : f ∈ usable_numbers mm <-> Usable ∈ owners f mm.
Proof.
  unfold usable_numbers. rewrite list_elem_of_In, in_flat_map. split.
  - intros (r & [Hin Ht%bool_decide_eq_true]%List.filter_In & Hf).
    apply list_elem_of_In, elem_of_region_numbers in Hf. rewrite <-Ht.
    apply kinds_intro; [by apply list_elem_of_In | done].
  - intros (r & Hin & Hc & Ht)%kinds_elem. exists r. rewrite List.filter_In, bool_decide_eq_true.
    rewrite <-!list_elem_of_In, elem_of_region_numbers. auto.
Qed.

Lemma length_usable_numbers mm :
  length (usable_numbers mm) =
    foldr (fun r n => Z.to_nat (rend r - rstart r) + n)%nat 0%nat
      (List.filter (fun r => bool_decide (region_type r = Usable)) (slice mm)).
Proof.
  unfold usable_numbers. induction (List.filter _ (slice mm)) as [|r l IH]; [done|].
  cbn [flat_map foldr]. rewrite length_app, IH. unfold region_numbers. by rewrite length_seqZ.
Qed.

Lemma NoDup_usable_list l :
  (forall f, (length (kinds f l) <= 1)%nat) ->
  NoDup (flat_map region_numbers (List.filter (fun r => bool_decide (region_type r = Usable)) l)).
Proof.
  induction l as [|r l IH]; intros Hd; [constructor|].
  assert (forall f, (length (kinds f l) <= 1)%nat) as Hd'.
  { intros f. specialize (Hd f). rewrite kinds_cons, length_app in Hd. lia. }
  cbn [List.filter]. destruct (bool_decide (region_type r = Usable)); [|by apply IH].
  cbn [flat_map]. apply NoDup_app. split; [apply NoDup_seqZ|]. split; [|by apply IH].
  intros f Hf Hf'. apply elem_of_region_numbers in Hf.
  apply list_elem_of_In, in_flat_map in Hf' as (r' & [Hin _]%List.filter_In & Hf').
  apply list_elem_of_In, elem_of_region_numbers in Hf'. apply list_elem_of_In in Hin.
  specialize (Hd f). rewrite kinds_cons, Hf in Hd.
  pose proof (kinds_intro f r' l Hin Hf') as Hk.
  destruct (kinds f l); [by apply not_elem_of_nil in Hk | simpl in Hd; lia].
Qed.

Lemma lazy_nth_map {A} n (l : list A) : lazy_nth n (map Ret l) = Ret (l !! n).
Proof.
  revert n. induction l as [|a l IH]; intros [|n]; cbn; done || apply IH.
Qed.

Section proofs.
Context {B : Build} {X : X86Phys} {XL : X86PhysLaws X}.

Lemma step_by_4096_pages s e :
  step_by_4096 (s * 4096) (e * 4096) = map (fun f => f * 4096) (seqZ s (e - s)).
Proof.
  unfold step_by_4096, seqZ. rewrite map_map.
  replace (Z.to_nat ((e * 4096 - s * 4096 + 4095) / 4096)) with (Z.to_nat (e - s))
    by (f_equal; dlia).
  apply map_ext. intros i. lia.
Qed.

Lemma frames_of_numbers l :
  Forall (fun f => 0 <= f < 2 ^ 40) l ->
  exists frames,
    map (fun addr => z ← addr; a ← PhysAddr_new z; Ret (frame_containing_address a))
      (map Ret (map (fun f => f * 4096) l)) = map Ret frames /\
    map frame_number frames = l.
Proof.
  induction 1 as [|f l Hf _ (frames & Heq & Hn)]; [by exists []|].
  destruct (PhysAddr_new_ok (f * 4096)) as (a & Ha & Hv); [lia|].
  exists (frame_containing_address a :: frames). cbn [map mbind outcome_bind].
  rewrite Ha. cbn [mbind outcome_bind]. rewrite Heq, Hn, containing_number, Hv.
  split; [done|]. f_equal. dlia.
Qed.

Lemma region_addresses_ok r :
  proper_region r -> region_addresses r = map Ret (map (fun f => f * 4096) (region_numbers r)).
Proof.
  intros Hr. unfold proper_region in Hr. unfold region_addresses, start_addr, end_addr, PAGE_SIZE.
  rewrite !u64_mul_ok by arith. cbn [mbind outcome_bind]. by rewrite step_by_4096_pages.
Qed.

Lemma region_numbers_range r : proper_region r -> Forall (fun f => 0 <= f < 2 ^ 40) (region_numbers r).
Proof.
  intros Hr. apply Forall_forall. intros f Hf%elem_of_region_numbers%contains_spec.
  unfold proper_region in Hr. lia.
Qed.

(** No item of the chain panics, and the items are the usable frames. *)
Lemma usable_frames_spec self :
  wf_map (bi_memory_map self) ->
  exists frames, usable_frames self = map Ret frames /\
    map frame_number frames = usable_numbers (bi_memory_map self).
Proof.
  intros Hw. unfold usable_frames, usable_numbers.
  assert (Forall proper_region (List.filter (fun r => bool_decide (region_type r = Usable))
    (slice (bi_memory_map self)))) as Hp.
  { apply List.Forall_forall. intros r [Hin _]%List.filter_In.
    pose proof (slice_proper _ Hw) as Hp. rewrite List.Forall_forall in Hp. auto. }
  induction Hp as [|r l Hr _ (frames & Heq & Hn)]; [by exists []|].
  destruct (frames_of_numbers (region_numbers r) (region_numbers_range r Hr)) as (fs & Heq1 & Hn1).
  exists (fs ++ frames). cbn [flat_map].
  rewrite map_app, region_addresses_ok, Heq1, Heq by done. by rewrite !map_app, Hn1, Hn.
Qed.

(** One allocation: the [next]-th usable frame. *)
Lemma bi_allocate_frame_spec self :
  wf_map (bi_memory_map self) -> 0 <= bi_next self < 2 ^ 64 - 1 ->
  exists r, bi_allocate_frame self = Ret (r,
      {| bi_memory_map := bi_memory_map self; bi_next := bi_next self + 1 |}) /\
    option_map frame_number r = usable_numbers (bi_memory_map self) !! Z.to_nat (bi_next self).
Proof.
  intros Hw Hn. destruct (usable_frames_spec self Hw) as (frames & Heq & Hnum).
  unfold bi_allocate_frame. rewrite Heq, lazy_nth_map. cbn [mbind outcome_bind].
  rewrite u64_add_ok by arith. eexists. split; [done|].
  rewrite <-Hnum. by rewrite list_lookup_fmap.
Qed.

(** [n] allocations in a row. *)
Fixpoint bi_allocate_n (n : nat) (self : BootInfoFrameAllocator) :
    outcome (list (option PhysFrame) * BootInfoFrameAllocator) :=
  match n with
  | O => Ret ([], self)
  | S n' =>
      '(r, self1) ← bi_allocate_frame self;
      '(rs, self2) ← bi_allocate_n n' self1;
      Ret (r :: rs, self2)
  end.

Lemma bi_allocate_n_spec n self :
  wf_map (bi_memory_map self) -> 0 <= bi_next self -> bi_next self + Z.of_nat n < 2 ^ 64 ->
  exists rs, bi_allocate_n n self = Ret (rs,
      {| bi_memory_map := bi_memory_map self; bi_next := bi_next self + Z.of_nat n |}) /\
    map (option_map frame_number) rs =
      map (fun i => usable_numbers (bi_memory_map self) !! i) (seq (Z.to_nat (bi_next self)) n).
Proof.
  revert self. induction n as [|n IH]; intros self Hw H0 Hlt; cbn [bi_allocate_n].
  { exists []. rewrite Z.add_0_r. by destruct self. }
  destruct (bi_allocate_frame_spec self Hw) as (r & -> & Hr); [lia|]. cbn [mbind outcome_bind].
  destruct (IH {| bi_memory_map := bi_memory_map self; bi_next := bi_next self + 1 |})
    as (rs & -> & Hrs); cbn [bi_memory_map bi_next] in *; [done | lia | lia |].
  cbn [mbind outcome_bind]. exists (r :: rs). split; [do 3 f_equal; lia|].
  cbn [map seq]. rewrite Hr, Hrs. repeat f_equal. lia.
Qed.

Lemma handed_out_lookups l k n rs :
  map (option_map frame_number) rs = map (fun i => l !! i) (seq k n) ->
  handed_out rs = take n (drop k l).
Proof.
  revert k rs. induction n as [|n IH]; intros k [|r rs] Heq; try done.
  cbn [map seq] in Heq. injection Heq as Hr Heq. specialize (IH (S k) rs Heq).
  destruct r as [frame|]; cbn [option_map handed_out] in *; rewrite IH.
  - by rewrite (drop_S l _ _ (eq_sym Hr)).
  - symmetry in Hr. apply lookup_ge_None in Hr. rewrite !drop_ge, !take_nil by lia. done.
Qed.

Lemma bi_allocate_n_handed_out n mm :
  wf_map mm -> Z.of_nat n < 2 ^ 64 ->
  exists rs self', bi_allocate_n n (BootInfoFrameAllocator_init mm) = Ret (rs, self') /\
    length rs = n /\ handed_out rs = take n (usable_numbers mm).
Proof.
  intros Hw Hn.
  destruct (bi_allocate_n_spec n (BootInfoFrameAllocator_init mm)) as (rs & Heq & Hrs);
    cbn [bi_memory_map bi_next BootInfoFrameAllocator_init] in *; [done | lia | lia |].
  eexists rs, _. split; [done|]. split.
  - apply (f_equal length) in Hrs. by rewrite !length_map, length_seq in Hrs.
  - by rewrite (handed_out_lookups _ _ _ _ Hrs), drop_0.
Qed.
End proofs.

Section properties.
Context {B : Build} {SORT : UnstableSort} {SL : UnstableSortLaws SORT}.
Context {X : X86Phys} {XL : X86PhysLaws X}.

(** [n] calls of the kernel's [allocate_frame] on a
    well-formed map without overlaps return the first [n] usable frames in the
    order of the map and [None] once they are used up; no frame is returned
    twice, every one is usable and nothing else, and when [n] reaches the number
    of usable frames every usable frame has been returned. *)
Theorem kernel_frames_exact n mm :
  wf_map mm -> disjoint_map mm -> Z.of_nat n < 2 ^ 64 ->
  exists rs self', bi_allocate_n n (BootInfoFrameAllocator_init mm) = Ret (rs, self') /\
    length rs = n /\ handed_out rs = take n (usable_numbers mm) /\ NoDup (handed_out rs) /\
    (forall f, f ∈ handed_out rs -> owners f mm = [Usable]) /\
    ((length (usable_numbers mm) <= n)%nat ->
       forall f, Usable ∈ owners f mm -> f ∈ handed_out rs).
Proof.
  intros Hw Hd Hn. destruct (bi_allocate_n_handed_out n mm Hw Hn) as (rs & self' & Heq & Hl & Hout).
  exists rs, self'. do 3 (split; [done|]). rewrite Hout. split_and!.
  - apply (sublist_NoDup _ (usable_numbers mm)); [by apply NoDup_usable_list | apply sublist_take].
  - intros f Hf. apply singleton_usable; [apply Hd|]. apply elem_of_usable_numbers.
    apply elem_of_take in Hf as (i & Hi & _). by apply list_elem_of_lookup_2 in Hi.
  - intros Hlen f Hf. rewrite take_ge by done. by apply elem_of_usable_numbers.
Qed.

(** C9 (safety). The two allocators do not interfere: whatever sequence of
    frames the bootloader was given for purposes other than usable memory, however
    long, the kernel's allocator, started on the map the bootloader left and
    sorted, never returns one of them. *)
Theorem kernel_never_gets_boot_frames ts mm rs mm' n :
  wf_map mm -> disjoint_map mm -> Usable ∉ ts ->
  allocate_frames ts mm = Ret (rs, mm') -> Z.of_nat n < 2 ^ 64 ->
  exists ks self', bi_allocate_n n (BootInfoFrameAllocator_init (sort mm')) = Ret (ks, self') /\
    forall f, f ∈ handed_out rs -> f ∉ handed_out ks.
Proof.
  intros Hw Hd Hts Heq Hn.
  destruct (allocate_frames_returned ts mm rs mm' Hw Hd Hts Heq) as (Hw' & Hd' & _ & Hown & _).
  destruct (bi_allocate_n_handed_out n (sort mm') (sort_wf mm' Hw') Hn)
    as (ks & self' & Hk & _ & Hout).
  exists ks, self'. split; [done|]. intros f (i & frame & Hi & <-)%handed_out_lookup Hf.
  destruct (Hown i frame Hi) as (t & Ht & _ & Ho).
  rewrite Hout in Hf. apply elem_of_take in Hf as (j & Hj & _).
  apply list_elem_of_lookup_2, elem_of_usable_numbers in Hj.
  rewrite (sort_owners _ _ Hw'), Ho, list_elem_of_singleton in Hj. subst t.
  by apply Hts, (list_elem_of_lookup_2 _ i).
Qed.
End properties.

(** ** Concrete runs *)

#[local] Instance checked : Build := true.

Lemma kernel_frames_exact_witness :
  exists rs self', bi_allocate_n 3 (BootInfoFrameAllocator_init sample_map) = Ret (rs, self') /\
    length rs = 3%nat /\ handed_out rs = take 3 (usable_numbers sample_map) /\
    NoDup (handed_out rs) /\
    (forall f, f ∈ handed_out rs -> owners f sample_map = [Usable]) /\
    ((length (usable_numbers sample_map) <= 3)%nat ->
       forall f, Usable ∈ owners f sample_map -> f ∈ handed_out rs).
Proof.
  apply (kernel_frames_exact 3 sample_map); [apply sample_map_wf | apply sample_map_disjoint | lia].
Defined.

(** What a boot with a stack of 512 pages allocates. *)
Definition boot_types : list MemoryRegionType :=
  [BootInfoRegion; PageTable; Kernel; PageTable] ++ replicate 512 KernelStack.

Definition boot_run : list (option PhysFrame) * MemoryMap :=
  match allocate_frames boot_types sample_map with
  | Ret r => r
  | Panic _ => ([], sample_map)
  end.

Lemma boot_run_returns : allocate_frames boot_types sample_map = Ret (fst boot_run, snd boot_run).
Proof.
  assert (match allocate_frames boot_types sample_map with Ret _ => true | Panic _ => false end = true) as H
    by (vm_compute; reflexivity).
  unfold boot_run. by destruct (allocate_frames boot_types sample_map) as [[rs mm]|why].
Qed.

Lemma kernel_never_gets_boot_frames_witness :
  exists ks self',
    bi_allocate_n 5 (BootInfoFrameAllocator_init (sort (snd boot_run))) = Ret (ks, self') /\
    forall f, f ∈ handed_out (fst boot_run) -> f ∉ handed_out ks.
Proof.
  apply (kernel_never_gets_boot_frames boot_types sample_map (fst boot_run) (snd boot_run) 5);
    [apply sample_map_wf | apply sample_map_disjoint | by_compute | exact boot_run_returns | lia].
Defined.
