(* ===== verification/Paging.v ===== *)
(** * Frame allocators and page tables as interfaces

    [FrameAllocator] and [Mapper] are traits of the [x86_64] crate.  A lawful
    allocator has a stream of frames still to hand out; it may refuse to be
    called forever (its counter is 64 bits wide), so being ready is counted in
    calls.  A lawful mapper behaves as the crate documents [map_to]: it creates
    the mapping, or changes no mapping and says why; it takes at most three
    frames for new page tables from the allocator it is given; it fails only
    when the page is mapped already, lies under a huge page, or a frame was
    missing.  The kernel's heap set-up is proved against these interfaces. *)

From Stdlib Require Import Lia.
From stdpp Require Import base decidable strings numbers list.
From S2P Require Import Prelude X86 MemoryMap FrameAllocator Memory.

Open Scope Z_scope.

(** Bits 0, 1 and 63 of a page table entry. *)
Definition PRESENT : Z := 1.
Definition WRITABLE : Z := 2.
Definition NO_EXECUTE : Z := 2 ^ 63.

Section interfaces.
Context {X : X86Phys} {V : X86Virt}.

Inductive MapToError :=
| FrameAllocationFailed
| ParentEntryHugePage
| PageAlreadyMapped (frame : PhysFrame).

Class FrameAlloc (A : Type) := fa_allocate_frame : A -> outcome (option PhysFrame * A).

Class FrameAllocLaws (A : Type) `{FrameAlloc A} := {
  (** ready for [k] more calls *)
  fa_ready : A -> nat -> Prop;
  (** the numbers of the frames still to hand out, in order *)
  fa_remaining : A -> list Z;
  fa_ready_le a k k' : (k' <= k)%nat -> fa_ready a k -> fa_ready a k';
  fa_allocate_spec a k : fa_ready a (S k) ->
    exists r a', fa_allocate_frame a = Ret (r, a') /\ fa_ready a' k /\
      match r with
      | Some frame => fa_remaining a = frame_number frame :: fa_remaining a'
      | None => fa_remaining a = [] /\ fa_remaining a' = []
      end;
}.

(** [k] allocations in a row. *)
Fixpoint fa_allocate_n {A} `{FrameAlloc A} (k : nat) (a : A) : outcome A :=
  match k with
  | O => Ret a
  | S k' => '(_, a') ← fa_allocate_frame a; fa_allocate_n k' a'
  end.

Class Mapper (M : Type) := {
  map_to : forall A, FrameAlloc A -> Page -> PhysFrame -> Z -> M -> A ->
    outcome (result unit MapToError * M * A);
  (** the frame and the flags a page is mapped with *)
  translate : M -> Page -> option (PhysFrame * Z);
  (** the page lies under an entry that maps a huge page *)
  huge_parent : M -> Page -> bool;
}.
#[global] Arguments map_to {M _ A _} page frame flags m a.

Class MapperLaws (M : Type) `{Mapper M} : Prop := {
  map_to_spec A (FA : FrameAlloc A) (FL : FrameAllocLaws A) page frame flags m a k :
    fa_ready a (3 + k) ->
    exists r m' a' n, map_to page frame flags m a = Ret (r, m', a') /\ (n <= 3)%nat /\
      fa_allocate_n n a = Ret a' /\
      (forall p, huge_parent m' p = huge_parent m p) /\
      match r with
      | Ok _ => translate m page = None /\ translate m' page = Some (frame, flags) /\
          forall p, p <> page -> translate m' p = translate m p
      | Err e => (forall p, translate m' p = translate m p) /\
          match e with
          | FrameAllocationFailed => fa_remaining a' = []
          | ParentEntryHugePage => huge_parent m page = true
          | PageAlreadyMapped f => exists fl, translate m page = Some (f, fl)
          end
      end;
}.
End interfaces.

(** ** The kernel's allocator is a lawful one *)

Section boot_info_allocator.
Context {B : Build} {X : X86Phys}.

#[export] Instance bi_frame_alloc : FrameAlloc BootInfoFrameAllocator := bi_allocate_frame.

#[export] Program Instance bi_frame_alloc_laws {XL : X86PhysLaws X} :
    FrameAllocLaws BootInfoFrameAllocator := {|
  fa_ready self k := wf_map (bi_memory_map self) /\ 0 <= bi_next self /\
    bi_next self + Z.of_nat k < 2 ^ 64;
  fa_remaining self := drop (Z.to_nat (bi_next self)) (usable_numbers (bi_memory_map self));
|}.
Next Obligation. intros XL a k k' Hle (Hw & H0 & Hk). split_and!; [done | lia | lia]. Qed.
Next Obligation.
  intros XL self k (Hw & H0 & Hk).
  destruct (bi_allocate_frame_spec self Hw) as (r & Heq & Hr); [lia|].
  eexists r, _. split; [exact Heq|]. cbn [bi_memory_map bi_next]. split; [split_and!; [done | lia | lia]|].
  replace (Z.to_nat (bi_next self + 1)) with (S (Z.to_nat (bi_next self))) by lia.
  destruct r as [frame|]; simpl in Hr; symmetry in Hr.
  - by apply drop_S.
  - apply lookup_ge_None in Hr. rewrite !drop_ge by lia. done.
Qed.
End boot_info_allocator.

(** ** Lemmas on lawful allocators and mappers *)

Section lemmas.
Context {X : X86Phys} {V : X86Virt}.
Context {A : Type} {FA : FrameAlloc A} {FL : FrameAllocLaws A}.

Lemma fa_allocate_n_spec n k a :
  fa_ready a (n + k) ->
  exists a', fa_allocate_n n a = Ret a' /\ fa_ready a' k /\
    fa_remaining a' = drop n (fa_remaining a).
Proof.
  revert a. induction n as [|n IH]; intros a Hr; [by exists a|]. cbn [fa_allocate_n].
  destruct (fa_allocate_spec a (n + k) Hr) as (r & a1 & -> & Hr1 & Hrem). cbn [mbind outcome_bind].
  destruct (IH a1 Hr1) as (a2 & -> & Hr2 & Hrem2). exists a2. do 2 (split; [done|]).
  rewrite Hrem2. destruct r as [frame|]; [by rewrite Hrem|].
  destruct Hrem as [-> ->]. by rewrite !drop_nil.
Qed.
End lemmas.

(** ** A mapper *)

(** A page table as an association list from page addresses; it needs no frames
    of its own and has no huge pages. *)
Section table.
Context {X : X86Phys} {V : X86Virt}.

Definition page_addr (p : Page) : Z := virt_as_u64 (page_start_address p).

Fixpoint table_find {E} (z : Z) (m : list (Z * E)) : option E :=
  match m with
  | [] => None
  | (z', e) :: m' => if z =? z' then Some e else table_find z m'
  end.

#[export] Instance table_mapper : Mapper (list (Z * (PhysFrame * Z))) := {
  map_to A _ page frame flags m a :=
    match table_find (page_addr page) m with
    | Some (f, _) => Ret (Err (PageAlreadyMapped f), m, a)
    | None => Ret (Ok tt, (page_addr page, (frame, flags)) :: m, a)
    end;
  translate m page := table_find (page_addr page) m;
  huge_parent _ _ := false;
}.

#[export] Instance table_mapper_laws {VL : X86VirtLaws V} : MapperLaws (list (Z * (PhysFrame * Z))).
Proof.
  constructor. intros A FA FL page frame flags m a k _. cbn.
  destruct (table_find (page_addr page) m) as [[f fl]|] eqn:Hf.
  - eexists _, _, _, 0%nat. split; [done|]. split_and!; [lia | done | done | done |]. by exists fl.
  - eexists _, _, _, 0%nat. split; [done|]. split_and!; [lia | done | done | done | |].
    + simpl. by rewrite Z.eqb_refl.
    + intros p Hp. simpl. rewrite (proj2 (Z.eqb_neq _ _)); [done|].
      intros Heq. apply Hp, page_inj, virt_inj, Heq.
Qed.
End table.
