(* ===== verification/Heap.v ===== *)
(** * The kernel heap (src/src/allocator.rs)

    [init_heap] maps 1 MiB of virtual memory page by page, taking the frames
    from an allocator and the page tables from a mapper, and then hands the
    range to the global heap allocator.  The linked-list allocator itself is a
    crate; what [init] was called with is part of the state. *)

From Stdlib Require Import Lia.
From stdpp Require Import base decidable strings numbers list.
From S2P Require Import Prelude UnstableSort X86 MemoryMap FrameAllocator Memory Paging.

Open Scope Z_scope.

Definition HEAP_START : Z := 0x444444440000.
Definition HEAP_SIZE : Z := 1024 * 1024.

(** The range the global allocator was initialised with, if it was. *)
Abbreviation heap_state := (option (Z * Z)).

Section heap.
Context {X : X86Phys} {V : X86Virt}.
Context {A : Type} {FA : FrameAlloc A} {M : Type} {MP : Mapper M}.

Definition heap_page_range : outcome (list Page) :=
  heap_start ← VirtAddr_new HEAP_START;
  past_end ← virt_add heap_start HEAP_SIZE;
  heap_end ← virt_sub past_end 1;
  let heap_start_page := page_containing_address heap_start in
  let heap_end_page := page_containing_address heap_end in
  Ret (page_range_inclusive heap_start_page heap_end_page).

(** The loop over the pages, with the early returns of [?]. *)
Fixpoint map_heap_pages (pages : list Page) (mapper : M) (frame_allocator : A) :
    outcome (result unit MapToError * M * A) :=
  match pages with
  | [] => Ret (Ok tt, mapper, frame_allocator)
  | page :: pages' =>
      '(r, frame_allocator) ← fa_allocate_frame frame_allocator;
      match r with
      | None => Ret (Err FrameAllocationFailed, mapper, frame_allocator)
      | Some frame =>
          let flags := Z.lor PRESENT WRITABLE in
          '(r, mapper, frame_allocator) ← map_to page frame flags mapper frame_allocator;
          match r with
          | Err e => Ret (Err e, mapper, frame_allocator)
          | Ok _ => map_heap_pages pages' mapper frame_allocator
          end
      end
  end.

Definition init_heap (mapper : M) (frame_allocator : A) (heap : heap_state) :
    outcome (result unit MapToError * M * A * heap_state) :=
  page_range ← heap_page_range;
  '(r, mapper, frame_allocator) ← map_heap_pages page_range mapper frame_allocator;
  match r with
  | Err e => Ret (Err e, mapper, frame_allocator, heap)
  | Ok _ => Ret (Ok tt, mapper, frame_allocator, Some (HEAP_START, HEAP_SIZE))
  end.
End heap.

(** ** Proofs *)

(** The page at [i] pages into the heap. *)
Definition heap_page `{X86Virt} (i : nat) (page : Page) : Prop :=
  virt_as_u64 (page_start_address page) = HEAP_START + 4096 * Z.of_nat i.

Section proofs.
Context {X : X86Phys} {V : X86Virt} {VL : X86VirtLaws V}.
Context {A : Type} {FA : FrameAlloc A} {FL : FrameAllocLaws A}.
Context {M : Type} {MP : Mapper M} {ML : MapperLaws M}.

Lemma heap_page_range_spec :
  exists pages, heap_page_range = Ret pages /\ length pages = 256%nat /\ NoDup pages /\
    (forall i page, pages !! i = Some page -> heap_page i page).
Proof.
  unfold heap_page_range.
  destruct (VirtAddr_new_canonical HEAP_START) as (s & -> & Hs); [by_compute|].
  cbn [mbind outcome_bind].
  destruct (virt_add_ok s HEAP_SIZE) as (p & -> & Hp); [by_compute | rewrite Hs; by_compute |].
  cbn [mbind outcome_bind].
  destruct (virt_sub_ok p 1) as (e & -> & He); [lia | rewrite Hp, Hs; by_compute |].
  cbn [mbind outcome_bind].
  pose proof (page_range_starts (page_containing_address s) (page_containing_address e)) as Hr.
  rewrite !page_containing, He, Hp, Hs in Hr. specialize (Hr ltac:(by_compute)).
  set (pages := page_range_inclusive _ _) in *.
  assert (map (fun r => virt_as_u64 (page_start_address r)) pages =
    map (fun i => HEAP_START + 4096 * Z.of_nat i) (seq 0 256)) as Hstarts.
  { rewrite Hr. apply map_ext. intros i. f_equal. }
  exists pages. split; [done|]. split.
  { apply (f_equal length) in Hstarts. by rewrite !length_map, length_seq in Hstarts. }
  split.
  - apply (NoDup_fmap_1 (fun r => virt_as_u64 (page_start_address r))).
    change (NoDup (map (fun r => virt_as_u64 (page_start_address r)) pages)). rewrite Hstarts.
    apply (NoDup_fmap_2_strong (fun i => HEAP_START + 4096 * Z.of_nat i)); [|apply NoDup_seq].
    intros i j _ _ ?. lia.
  - intros i page Hi. unfold heap_page.
    assert (map (fun r => virt_as_u64 (page_start_address r)) pages !! i =
      Some (virt_as_u64 (page_start_address page))) as Hl.
    { by rewrite list_lookup_fmap, Hi. }
    rewrite Hstarts, list_lookup_fmap in Hl.
    destruct (seq 0 256 !! i) as [j|] eqn:Hj; [|done]. apply lookup_seq in Hj as [-> _].
    simpl in Hl. by injection Hl as <-.
Qed.

Definition heap_flags : Z := Z.lor PRESENT WRITABLE.

(** What the loop has done when it ends, one way or the other. *)
Definition mapped_all (pages : list Page) (remaining : list Z) (m m' : M) : Prop :=
  exists frames, Forall2 (fun page frame => translate m' page = Some (frame, heap_flags)) pages frames /\
    map frame_number frames `sublist_of` remaining /\
    (forall p, p ∉ pages -> translate m' p = translate m p).

Definition failed_on (e : MapToError) (pages : list Page) (remaining' : list Z) (m : M) : Prop :=
  match e with
  | FrameAllocationFailed => remaining' = []
  | ParentEntryHugePage => exists p, p ∈ pages /\ huge_parent m p = true
  | PageAlreadyMapped f => exists p fl, p ∈ pages /\ translate m p = Some (f, fl)
  end.

(** One round of the loop: the page is mapped to the next frame, or the loop
    ends with an error. *)
Lemma map_one_page page m a k :
  fa_ready a (4 + k) ->
  (exists frame m' a' n, (forall pages, map_heap_pages (page :: pages) m a = map_heap_pages pages m' a') /\
     (n <= 3)%nat /\ fa_ready a' k /\ fa_remaining a' = drop (S n) (fa_remaining a) /\
     head (fa_remaining a) = Some (frame_number frame) /\
     (forall p, huge_parent m' p = huge_parent m p) /\
     translate m' page = Some (frame, heap_flags) /\
     forall p, p <> page -> translate m' p = translate m p) \/
  (exists e m' a' n, (forall pages, map_heap_pages (page :: pages) m a = Ret (Err e, m', a')) /\
     (n <= 4)%nat /\ fa_remaining a' = drop n (fa_remaining a) /\
     (forall p, huge_parent m' p = huge_parent m p) /\ failed_on e [page] (fa_remaining a') m).
Proof.
  intros Hr. cbn [map_heap_pages].
  destruct (fa_allocate_spec a (3 + k) Hr) as (r & a1 & -> & Hr1 & Hrem1). cbn [mbind outcome_bind].
  destruct r as [frame|].
  2: { right. destruct Hrem1 as [H0 H1]. exists FrameAllocationFailed, m, a1, 0%nat.
       split_and!; [done | lia | by rewrite H0, H1 | done | done]. }
  destruct (map_to_spec A FA FL page frame (Z.lor PRESENT WRITABLE) m a1 k Hr1)
    as (r & m1 & a2 & n & -> & Hn & Hdraw & Hh & Hcase). cbn [mbind outcome_bind].
  destruct (fa_allocate_n_spec n k a1) as (a2' & Heq & Hr2 & Hrem2).
  { eapply fa_ready_le; [|exact Hr1]. lia. }
  rewrite Hdraw in Heq. injection Heq as <-.
  assert (fa_remaining a2 = drop (S n) (fa_remaining a)) as Hrem12 by (by rewrite Hrem1, Hrem2).
  destruct r as [[]|e]; [left | right].
  - destruct Hcase as (_ & Hmap & Hother). exists frame, m1, a2, n. by rewrite Hrem1 at 2.
  - destruct Hcase as [_ Hcause]. exists e, m1, a2, (S n). split_and!; try done; [lia|].
    destruct e; simpl; [done | by exists page; split; [left|] |].
    destruct Hcause as [fl ?]. exists page, fl. by split; [left|].
Qed.

Lemma failed_on_incl e pages pages' remaining m :
  pages ⊆ pages' -> failed_on e pages remaining m -> failed_on e pages' remaining m.
Proof.
  intros Hsub. destruct e; simpl; [done | |].
  - intros (p & Hp & ?). exists p. auto.
  - intros (p & fl & Hp & ?). exists p, fl. auto.
Qed.

Lemma failed_on_before e page pages remaining m m1 :
  page ∉ pages -> (forall p, huge_parent m1 p = huge_parent m p) ->
  (forall p, p <> page -> translate m1 p = translate m p) ->
  failed_on e pages remaining m1 -> failed_on e (page :: pages) remaining m.
Proof.
  intros Hnin Hh Hother. destruct e; simpl; [done | |].
  - intros (p & Hp & Hp'). exists p. split; [by right | by rewrite <-Hh].
  - intros (p & fl & Hp & Hp'). exists p, fl. split; [by right|].
    rewrite <-Hother; [done|]. by intros ->.
Qed.

Lemma mapped_all_cons page pages remaining frame n m m1 m2 :
  page ∉ pages -> head remaining = Some (frame_number frame) ->
  translate m1 page = Some (frame, heap_flags) ->
  (forall p, p <> page -> translate m1 p = translate m p) ->
  mapped_all pages (drop (S n) remaining) m1 m2 -> mapped_all (page :: pages) remaining m m2.
Proof.
  intros Hnin Hhd Hmap Hother (frames & Hall & Hsub & Hout).
  exists (frame :: frames). split_and!.
  - constructor; [by rewrite Hout | done].
  - destruct remaining as [|x remaining]; [done|]. injection Hhd as ->. cbn [map].
    apply sublist_skip. etransitivity; [exact Hsub|]. simpl. apply sublist_drop.
  - intros p [Hp Hp']%not_elem_of_cons. rewrite Hout, Hother by done. done.
Qed.

Lemma map_heap_pages_spec pages m a k :
  NoDup pages -> fa_ready a (4 * length pages + k) ->
  exists r m' a' j, map_heap_pages pages m a = Ret (r, m', a') /\
    (j <= 4 * length pages)%nat /\ fa_remaining a' = drop j (fa_remaining a) /\
    match r with
    | Ok _ => mapped_all pages (fa_remaining a) m m'
    | Err e => failed_on e pages (fa_remaining a') m
    end.
Proof.
  revert m a. induction pages as [|page pages IH]; intros m a Hnd Hr.
  { exists (Ok tt), m, a, 0%nat. rewrite drop_0. split_and!; try done.
    exists []. split_and!; [constructor | apply sublist_nil_l | done]. }
  apply NoDup_cons in Hnd as [Hnin Hnd].
  destruct (map_one_page page m a (4 * length pages + k)) as
    [(frame & m1 & a1 & n & -> & Hn & Hr1 & Hrem & Hhd & Hh & Hmap & Hother)
    | (e & m1 & a1 & n & -> & Hn & Hrem & _ & Hf)].
  { eapply fa_ready_le; [|exact Hr]. simpl. lia. }
  2: { exists (Err e), m1, a1, n. split_and!; [done | simpl; lia | done |].
       eapply failed_on_incl; [|exact Hf]. intros p Hp%list_elem_of_singleton. subst. left. }
  destruct (IH m1 a1 Hnd Hr1) as (r & m2 & a2 & j & -> & Hj & Hrem2 & Hres).
  exists r, m2, a2, (S n + j)%nat. split; [done|]. split; [simpl; lia|].
  split; [by rewrite Hrem2, Hrem, drop_drop|].
  destruct r as [[]|e]; [|by eapply failed_on_before].
  rewrite Hrem in Hres. by eapply mapped_all_cons.
Qed.

Lemma heap_page_unique i p q : heap_page i p -> heap_page i q -> p = q.
Proof. unfold heap_page. intros Hp Hq. apply page_inj, virt_inj. congruence. Qed.

(** No page of the heap is mapped or covered by a huge page. *)
Definition heap_unmapped (m : M) : Prop :=
  forall i page, (i < 256)%nat -> heap_page i page ->
    translate m page = None /\ huge_parent m page = false.

Definition in_heap (page : Page) : Prop := exists i, (i < 256)%nat /\ heap_page i page.

(** The heap is mapped: page [i] to the [i]-th of 256 frames, the rest of the
    address space as before. *)
Definition heap_mapped (frames : list PhysFrame) (m m' : M) : Prop :=
  length frames = 256%nat /\
  (forall i page frame, heap_page i page -> frames !! i = Some frame ->
     translate m' page = Some (frame, heap_flags)) /\
  (forall page, ~ in_heap page -> translate m' page = translate m page).

Lemma mapped_all_heap pages remaining m m' :
  length pages = 256%nat -> (forall i page, pages !! i = Some page -> heap_page i page) ->
  mapped_all pages remaining m m' ->
  exists frames, heap_mapped frames m m' /\ map frame_number frames `sublist_of` remaining.
Proof.
  intros Hlen Hpages (frames & Hall & Hsub & Hother). exists frames. split; [|done].
  pose proof (Forall2_length _ _ _ Hall) as Hl. split_and!; [lia | |].
  - intros i page frame Hp Hf.
    destruct (Forall2_lookup_r _ _ _ _ _ Hall Hf) as (q & Hq & Ht).
    by rewrite (heap_page_unique i page q Hp (Hpages _ _ Hq)).
  - intros page Hnot. apply Hother. intros [i Hi]%list_elem_of_lookup_1. apply Hnot.
    exists i. split; [by apply lookup_lt_Some in Hi; lia | auto].
Qed.

(** Every way [init_heap] can end. *)
Lemma init_heap_spec m a heap k :
  fa_ready a (1024 + k) ->
  exists r m' a' heap' j, init_heap m a heap = Ret (r, m', a', heap') /\
    (j <= 1024)%nat /\ fa_remaining a' = drop j (fa_remaining a) /\
    match r with
    | Ok _ => heap' = Some (HEAP_START, HEAP_SIZE) /\
        exists frames, heap_mapped frames m m' /\
          map frame_number frames `sublist_of` fa_remaining a
    | Err e => heap' = heap /\
        match e with
        | FrameAllocationFailed => fa_remaining a' = []
        | ParentEntryHugePage => exists p, in_heap p /\ huge_parent m p = true
        | PageAlreadyMapped f => exists p fl, in_heap p /\ translate m p = Some (f, fl)
        end
    end.
Proof.
  intros Hr. destruct heap_page_range_spec as (pages & Hp & Hlen & Hnd & Hpages).
  unfold init_heap. rewrite Hp. cbn [mbind outcome_bind].
  assert (forall p, p ∈ pages -> in_heap p) as Hin.
  { intros p [i Hi]%list_elem_of_lookup_1. exists i. split; [by apply lookup_lt_Some in Hi; lia | auto]. }
  destruct (map_heap_pages_spec pages m a k Hnd) as (r & m' & a' & j & -> & Hj & Hrem & Hres).
  { eapply fa_ready_le; [|exact Hr]. rewrite Hlen. lia. }
  cbn [mbind outcome_bind]. destruct r as [[]|e].
  - exists (Ok tt), m', a', (Some (HEAP_START, HEAP_SIZE)), j. split_and!; [done | lia | done | done |].
    by eapply mapped_all_heap.
  - exists (Err e), m', a', heap, j. split_and!; [done | lia | done | done |].
    destruct e; simpl in Hres; [done | |].
    + destruct Hres as (p & ? & ?). exists p. auto.
    + destruct Hres as (p & fl & ? & ?). exists p, fl. auto.
Qed.

(** With enough frames and a free range, the heap is set up. *)
Lemma init_heap_success m a heap k :
  fa_ready a (1024 + k) -> (1024 < length (fa_remaining a))%nat -> heap_unmapped m ->
  exists m' a' frames, init_heap m a heap = Ret (Ok tt, m', a', Some (HEAP_START, HEAP_SIZE)) /\
    heap_mapped frames m m' /\ map frame_number frames `sublist_of` fa_remaining a.
Proof.
  intros Hr Hlen Hfree.
  destruct (init_heap_spec m a heap k Hr) as (r & m' & a' & heap' & j & Heq & Hj & Hrem & Hres).
  destruct r as [[]|e].
  - destruct Hres as (-> & frames & ? & ?). by exists m', a', frames.
  - exfalso. destruct Hres as [_ Hres]. destruct e; simpl in Hres.
    + apply (f_equal length) in Hrem. rewrite Hres, length_drop in Hrem. simpl in Hrem. lia.
    + destruct Hres as (p & (i & Hi & Hp) & Ht). destruct (Hfree i p Hi Hp). congruence.
    + destruct Hres as (p & fl & (i & Hi & Hp) & Ht). destruct (Hfree i p Hi Hp). congruence.
Qed.
End proofs.

Section properties.
Context {X : X86Phys} {V : X86Virt} {VL : X86VirtLaws V}.
Context {A : Type} {FA : FrameAlloc A} {FL : FrameAllocLaws A}.
Context {M : Type} {MP : Mapper M} {ML : MapperLaws M}.

(** With more than 1024 frames left (one per page and at most
    three page tables for each) and no page of the heap mapped, [init_heap]
    succeeds: all 256 pages from [HEAP_START] are mapped present and writable,
    each to a frame of its own, no other mapping changes, and the global
    allocator is given exactly that range. *)
Theorem init_heap_maps_heap m a heap :
  fa_ready a 1024 -> (1024 < length (fa_remaining a))%nat -> NoDup (fa_remaining a) ->
  heap_unmapped m ->
  exists m' a' frames, init_heap m a heap = Ret (Ok tt, m', a', Some (HEAP_START, HEAP_SIZE)) /\
    heap_mapped frames m m' /\ NoDup (map frame_number frames) /\
    (forall f, f ∈ map frame_number frames -> f ∈ fa_remaining a).
Proof.
  intros Hr Hlen Hnd Hfree.
  destruct (init_heap_success m a heap 0 Hr Hlen Hfree) as (m' & a' & frames & Heq & Hmap & Hsub).
  exists m', a', frames. split_and!; [done | done | by eapply sublist_NoDup |].
  intros f Hf. by eapply elem_of_sublist.
Qed.

(** C31 (error). Whatever the allocator and the page tables do, [init_heap]
    returns; when it returns an error the global allocator is left as it was,
    and the error names its cause: the allocator is empty, or a page of the heap
    was mapped before or lies under a huge page. *)
Theorem init_heap_errors m a heap :
  fa_ready a 1024 ->
  exists r m' a' heap', init_heap m a heap = Ret (r, m', a', heap') /\
    match r with
    | Ok _ => heap' = Some (HEAP_START, HEAP_SIZE)
    | Err e => heap' = heap /\
        match e with
        | FrameAllocationFailed => fa_remaining a' = []
        | ParentEntryHugePage => exists p, in_heap p /\ huge_parent m p = true
        | PageAlreadyMapped f => exists p fl, in_heap p /\ translate m p = Some (f, fl)
        end
    end.
Proof.
  intros Hr. destruct (init_heap_spec m a heap 0 Hr) as (r & m' & a' & heap' & j & Heq & _ & _ & Hres).
  exists r, m', a', heap'. split; [done|]. destruct r; [by destruct Hres | done].
Qed.
End properties.

Section kernel.
Context {B : Build} {X : X86Phys} {XL : X86PhysLaws X} {V : X86Virt} {VL : X86VirtLaws V}.
Context {M : Type} {MP : Mapper M} {ML : MapperLaws M}.

(** The kernel's own allocator, started on a map with enough usable frames. *)
Lemma init_heap_boot_info m mm heap :
  wf_map mm -> (1024 < length (usable_numbers mm))%nat -> heap_unmapped m ->
  exists m' a' frames,
    init_heap m (BootInfoFrameAllocator_init mm) heap
      = Ret (Ok tt, m', a', Some (HEAP_START, HEAP_SIZE)) /\
    heap_mapped frames m m' /\ map frame_number frames `sublist_of` usable_numbers mm.
Proof.
  intros Hw Hlen Hfree.
  destruct (init_heap_success m (BootInfoFrameAllocator_init mm) heap 0)
    as (m' & a' & frames & Heq & Hmap & Hsub); [| |done|].
  - split_and!; [done | simpl; lia | simpl; lia].
  - simpl. by rewrite drop_0.
  - simpl in Hsub. rewrite drop_0 in Hsub. by exists m', a', frames.
Qed.

(** Run with the kernel's own allocator on the memory map of the
    bootloader, [init_heap] backs the heap with frames that the map calls usable
    and that belong to nothing else. *)
Theorem heap_on_usable_memory m mm heap :
  wf_map mm -> disjoint_map mm -> (1024 < length (usable_numbers mm))%nat -> heap_unmapped m ->
  exists m' a' frames,
    init_heap m (BootInfoFrameAllocator_init mm) heap
      = Ret (Ok tt, m', a', Some (HEAP_START, HEAP_SIZE)) /\
    heap_mapped frames m m' /\ NoDup (map frame_number frames) /\
    (forall f, f ∈ map frame_number frames -> owners f mm = [Usable]).
Proof.
  intros Hw Hd Hlen Hfree.
  destruct (init_heap_boot_info m mm heap Hw Hlen Hfree) as (m' & a' & frames & Heq & Hmap & Hsub).
  exists m', a', frames. split_and!; [done | done | |].
  - eapply sublist_NoDup; [by apply NoDup_usable_list | exact Hsub].
  - intros f Hf. apply singleton_usable; [apply Hd|]. apply elem_of_usable_numbers.
    by eapply elem_of_sublist.
Qed.
End kernel.

(** ** A concrete set-up *)

#[local] Instance checked : Build := true.

(** The kernel's allocator on the sample map, and an empty page table. *)
Definition sample_allocator : BootInfoFrameAllocator := BootInfoFrameAllocator_init sample_map.
Definition empty_table : list (Z * (PhysFrame * Z)) := [].

Lemma sample_allocator_ready : fa_ready sample_allocator 1024.
Proof. split_and!; [apply sample_map_wf | simpl; lia | simpl; lia]. Qed.

Lemma sample_map_usable : (1024 < length (usable_numbers sample_map))%nat.
Proof. rewrite length_usable_numbers. by_compute. Qed.

Lemma empty_table_unmapped : heap_unmapped empty_table.
Proof. by intros i page _ _. Qed.

Lemma init_heap_maps_heap_witness :
  exists m' a' frames, init_heap empty_table sample_allocator None
      = Ret (Ok tt, m', a', Some (HEAP_START, HEAP_SIZE)) /\
    heap_mapped frames empty_table m' /\ NoDup (map frame_number frames) /\
    (forall f, f ∈ map frame_number frames -> f ∈ fa_remaining sample_allocator).
Proof.
  apply (init_heap_maps_heap empty_table sample_allocator None);
    [apply sample_allocator_ready | exact sample_map_usable | | apply empty_table_unmapped].
  exact (NoDup_usable_list (slice sample_map) sample_map_disjoint).
Defined.

(** An allocator that has passed all usable frames. *)
Definition exhausted_allocator : BootInfoFrameAllocator :=
  {| bi_memory_map := sample_map; bi_next := 40000 |}.

Lemma init_heap_errors_witness :
  exists r m' a' heap', init_heap empty_table exhausted_allocator None = Ret (r, m', a', heap') /\
    match r with
    | Ok _ => heap' = Some (HEAP_START, HEAP_SIZE)
    | Err e => heap' = None /\
        match e with
        | FrameAllocationFailed => fa_remaining a' = []
        | ParentEntryHugePage => exists p, in_heap p /\ huge_parent empty_table p = true
        | PageAlreadyMapped f => exists p fl, in_heap p /\ translate empty_table p = Some (f, fl)
        end
    end.
Proof.
  apply (init_heap_errors empty_table exhausted_allocator None).
  split_and!; [apply sample_map_wf | simpl; lia | simpl; lia].
Defined.

Lemma heap_on_usable_memory_witness :
  exists m' a' frames, init_heap empty_table (BootInfoFrameAllocator_init sample_map) None
      = Ret (Ok tt, m', a', Some (HEAP_START, HEAP_SIZE)) /\
    heap_mapped frames empty_table m' /\ NoDup (map frame_number frames) /\
    (forall f, f ∈ map frame_number frames -> owners f sample_map = [Usable]).
Proof.
  apply (heap_on_usable_memory empty_table sample_map None);
    [apply sample_map_wf | apply sample_map_disjoint | apply sample_map_usable
    | apply empty_table_unmapped].
Defined.
