(* ===== verification/BuildConfig.v ===== *)
(** * The bootloader's configuration (src/bootloader/build.rs)

    The build script reads a table of the kernel's manifest and turns it into
    the constants the bootloader is compiled with.  The manifest is parsed by the
    crate toml; a table is the list of its keys and values, of which strings and
    integers matter.  An integer of it is an [i64], so a positive one is unchanged
    by the cast to [u64].  A panic carries the text the source gives; what
    [Result::expect] appends to it, the error itself, is left out. *)

From Stdlib Require Import Lia ZifyBool Ascii.
From stdpp Require Import base decidable strings numbers list.
From S2P Require Import Prelude RustStr.

Open Scope Z_scope.

(** [toml::Value]. *)
Inductive Value :=
| VString (s : string)
| VInteger (i : Z)
| VOther.

Record BootloaderConfig := {
  physical_memory_offset : option Z;
  kernel_stack_address : option Z;
  kernel_stack_size : option Z;
  boot_info_address : option Z;
}.

Definition default_config : BootloaderConfig :=
  {| physical_memory_offset := None; kernel_stack_address := None;
     kernel_stack_size := None; boot_info_address := None |}.

Definition parse_aligned_addr (key value : string) : outcome Z :=
  num ← if starts_with value "0x"
        then digits ← str_from 2 value; Ret (u64_from_str_radix digits 16)
        else Ret (u64_from_str_radix value 10);
  match num with
  | Err _ => Panic ("`" +:+ key +:+ "` in the kernel manifest must be an integer (is `" +:+ value +:+ "`)")
  | Ok num =>
      if negb (num mod 0x1000 =? 0)
      then Panic ("`" +:+ key +:+ "` in the kernel manifest must be aligned to 4KiB (is `" +:+ value +:+ "`)")
      else Ret num
  end.

Definition unknown_key (key : string) : outcome BootloaderConfig :=
  Panic ("unknown key '" +:+ key +:+ "' in kernel manifest - "
         +:+ "you may need to update the bootloader crate").

Section config.
(** The feature [map_physical_memory], which the kernel's manifest enables. *)
Context (map_physical_memory : bool).

(** One key of the table. *)
Definition parse_entry (entry : string * Value) (cfg : BootloaderConfig) : outcome BootloaderConfig :=
  let '(key, value) := entry in
  match value with
  | VInteger i =>
      if String.eqb key "kernel-stack-address" || String.eqb key "physical-memory-offset"
         || String.eqb key "boot-info-address"
      then Panic ("`" +:+ key +:+ "` in the kernel manifest must be given as a string, "
                  +:+ "as toml does not support unsigned 64-bit integers (try `"
                  +:+ key +:+ " = " +:+ quote +:+ display_int i +:+ quote +:+ "`)")
      else if String.eqb key "kernel-stack-size" then
        if i <=? 0 then Panic "`kernel-stack-size` in kernel manifest must be positive"
        else Ret {| physical_memory_offset := physical_memory_offset cfg;
                    kernel_stack_address := kernel_stack_address cfg;
                    kernel_stack_size := Some i;
                    boot_info_address := boot_info_address cfg |}
      else unknown_key key
  | VString s =>
      if String.eqb key "kernel-stack-address" then
        addr ← parse_aligned_addr key s;
        Ret {| physical_memory_offset := physical_memory_offset cfg;
               kernel_stack_address := Some addr;
               kernel_stack_size := kernel_stack_size cfg;
               boot_info_address := boot_info_address cfg |}
      else if String.eqb key "boot-info-address" then
        addr ← parse_aligned_addr key s;
        Ret {| physical_memory_offset := physical_memory_offset cfg;
               kernel_stack_address := kernel_stack_address cfg;
               kernel_stack_size := kernel_stack_size cfg;
               boot_info_address := Some addr |}
      else if String.eqb key "physical-memory-offset" then
        if map_physical_memory then
          addr ← parse_aligned_addr key s;
          Ret {| physical_memory_offset := Some addr;
                 kernel_stack_address := kernel_stack_address cfg;
                 kernel_stack_size := kernel_stack_size cfg;
                 boot_info_address := boot_info_address cfg |}
        else Panic ("`physical-memory-offset` is only supported when the "
                    +:+ "`map_physical_memory` feature of the crate is enabled")
      else unknown_key key
  | VOther => unknown_key key
  end.

Definition parse_to_config (cfg : BootloaderConfig) (table : list (string * Value)) :
    outcome BootloaderConfig := for_each table parse_entry cfg.
End config.

(** The constants of the file the script writes. *)
Record Constants := {
  PHYSICAL_MEMORY_OFFSET : option Z;
  KERNEL_STACK_ADDRESS : option Z;
  KERNEL_STACK_SIZE : Z;
  BOOT_INFO_ADDRESS : option Z;
}.

Definition constants (cfg : BootloaderConfig) : Constants :=
  {| PHYSICAL_MEMORY_OFFSET := physical_memory_offset cfg;
     KERNEL_STACK_ADDRESS := kernel_stack_address cfg;
     KERNEL_STACK_SIZE := default 512 (kernel_stack_size cfg);
     BOOT_INFO_ADDRESS := boot_info_address cfg |}.

(** ** Proofs *)

(** What an entry sets its key to, if it is accepted. *)
Definition entry_value (map_physical_memory : bool) (entry : string * Value) : option Z :=
  let '(key, value) := entry in
  match value with
  | VString s =>
      if String.eqb key "kernel-stack-address" || String.eqb key "boot-info-address"
         || (String.eqb key "physical-memory-offset" && map_physical_memory)
      then match parse_aligned_addr key s with Ret n => Some n | Panic _ => None end
      else None
  | VInteger i => if String.eqb key "kernel-stack-size" && (0 <? i) then Some i else None
  | VOther => None
  end.

Definition config_get (key : string) (cfg : BootloaderConfig) : option Z :=
  if String.eqb key "physical-memory-offset" then physical_memory_offset cfg
  else if String.eqb key "kernel-stack-address" then kernel_stack_address cfg
  else if String.eqb key "kernel-stack-size" then kernel_stack_size cfg
  else if String.eqb key "boot-info-address" then boot_info_address cfg
  else None.

(** The addresses are page aligned and the stack has at least one page. *)
Definition config_ok (cfg : BootloaderConfig) : Prop :=
  (forall key n, key <> "kernel-stack-size" -> config_get key cfg = Some n ->
     is_u64 n /\ n mod 4096 = 0) /\
  0 < KERNEL_STACK_SIZE (constants cfg).

(** Assign a known key. *)
Definition config_set (key : string) (n : Z) (cfg : BootloaderConfig) : BootloaderConfig :=
  let set k old := if String.eqb key k then Some n else old in
  {| physical_memory_offset := set "physical-memory-offset" (physical_memory_offset cfg);
     kernel_stack_address := set "kernel-stack-address" (kernel_stack_address cfg);
     kernel_stack_size := set "kernel-stack-size" (kernel_stack_size cfg);
     boot_info_address := set "boot-info-address" (boot_info_address cfg) |}.

Definition known_key (key : string) : bool :=
  existsb (String.eqb key)
    ["physical-memory-offset"; "kernel-stack-address"; "kernel-stack-size"; "boot-info-address"].

(** [by_key k] goes through the known keys [k] may be. *)
Ltac by_key k :=
  destruct (String.eqb_spec k "physical-memory-offset") as [->|];
  [|destruct (String.eqb_spec k "kernel-stack-address") as [->|];
  [|destruct (String.eqb_spec k "kernel-stack-size") as [->|];
  [|destruct (String.eqb_spec k "boot-info-address") as [->|]]]].

Lemma config_get_set key n cfg : known_key key = true -> config_get key (config_set key n cfg) = Some n.
Proof. intros H. by_key key; [done..|]. unfold known_key in H. cbn in H.
  by rewrite !(proj2 (String.eqb_neq _ _)) in H by done.
Qed.

Lemma config_get_set_ne key key' n cfg :
  key <> key' -> config_get key' (config_set key n cfg) = config_get key' cfg.
Proof.
  intros Hne. unfold config_get, config_set. cbn.
  by_key key'; cbn; try done; by rewrite (proj2 (String.eqb_neq _ _) Hne).
Qed.

Lemma u64_from_str_radix_range s radix z : u64_from_str_radix s radix = Ok z -> is_u64 z.
Proof.
  unfold u64_from_str_radix, from_str_radix. assert (0 <= 0 < 2 ^ 64) by lia.
  repeat case_match; try done; apply parse_digits_range; done.
Qed.

Lemma parse_aligned_addr_range key s n :
  parse_aligned_addr key s = Ret n -> is_u64 n /\ n mod 4096 = 0.
Proof.
  unfold parse_aligned_addr. intros H. ret_inv.
  destruct x as [num|e]; [|done]. destruct (num mod 4096 =? 0) eqn:E; simpl in H0; [|done].
  injection H0 as <-. split; [|lia].
  destruct (starts_with s "0x"); ret_inv; eauto using u64_from_str_radix_range.
Qed.

Section config_spec.
Context (map_physical_memory : bool).

Lemma parse_entry_spec key value cfg :
  match entry_value map_physical_memory (key, value) with
  | Some n => known_key key = true /\
      parse_entry map_physical_memory (key, value) cfg = Ret (config_set key n cfg)
  | None => exists why, parse_entry map_physical_memory (key, value) cfg = Panic why
  end.
Proof.
  destruct value as [s|i|]; [| |by eexists].
  - by_key key; unfold entry_value, parse_entry; cbn [String.eqb Ascii.eqb Bool.eqb orb andb];
      try by eexists.
    1: destruct map_physical_memory; [|by eexists].
    1-3: destruct (parse_aligned_addr _ s) eqn:E; cbn [mbind outcome_bind]; [by destruct cfg | by eexists].
    rewrite !(proj2 (String.eqb_neq _ _)) by done. by eexists.
  - unfold entry_value, parse_entry. by_key key; cbn [String.eqb Ascii.eqb Bool.eqb orb andb];
      try by eexists.
    destruct (0 <? i) eqn:E; destruct (i <=? 0) eqn:E'; try lia; [by destruct cfg | by eexists].
Qed.

Lemma entry_value_range key value n :
  entry_value map_physical_memory (key, value) = Some n ->
  if String.eqb key "kernel-stack-size" then 0 < n else is_u64 n /\ n mod 4096 = 0.
Proof.
  unfold entry_value. destruct value as [s|i|]; [| |done].
  - destruct (_ || _) eqn:E; [|done]. destruct (parse_aligned_addr key s) eqn:Ep; [|done].
    intros [= <-]. destruct (String.eqb_spec key "kernel-stack-size") as [->|]; [done|].
    by eapply parse_aligned_addr_range.
  - destruct (String.eqb key "kernel-stack-size"); [|done]. cbn. destruct (0 <? i) eqn:E; [|done].
    intros [= <-]. lia.
Qed.

Lemma config_ok_default : config_ok default_config.
Proof. split; [|done]. intros key n _. by_key key; try done. unfold config_get. by repeat case_match. Qed.

Lemma config_ok_set key value n cfg :
  entry_value map_physical_memory (key, value) = Some n -> config_ok cfg ->
  config_ok (config_set key n cfg).
Proof.
  intros Hv [Hok Hsize]. pose proof (entry_value_range _ _ _ Hv) as Hr.
  pose proof (parse_entry_spec key value cfg) as Hk. rewrite Hv in Hk. destruct Hk as [Hk _].
  split.
  - intros key' m Hne. destruct (decide (key = key')) as [<-|Hkk].
    + rewrite config_get_set by done. intros [= <-].
      by rewrite (proj2 (String.eqb_neq _ _)) in Hr by done.
    + rewrite config_get_set_ne by done. by apply Hok.
  - cbn. destruct (String.eqb key "kernel-stack-size"); done.
Qed.

(** The loop over the table, from any configuration. *)
Lemma parse_to_config_inv table cfg :
  config_ok cfg -> NoDup (map fst table) ->
  (forall key, In key (map fst table) -> config_get key cfg = None) ->
  match parse_to_config map_physical_memory cfg table with
  | Ret cfg' => config_ok cfg' /\
      (forall key value, In (key, value) table ->
         is_Some (config_get key cfg') /\
         config_get key cfg' = entry_value map_physical_memory (key, value)) /\
      (forall key, ~ In key (map fst table) -> config_get key cfg' = config_get key cfg)
  | Panic _ => exists key value, In (key, value) table /\ entry_value map_physical_memory (key, value) = None
  end.
Proof.
  revert cfg. induction table as [|[k v] table IH]; intros cfg Hok Hnd Hnone.
  { cbn. split; [done|]. split; [by intros |done]. }
  cbn [map fst] in Hnd. apply NoDup_cons in Hnd as [Hk Hnd].
  rewrite list_elem_of_In in Hk.
  unfold parse_to_config. cbn [for_each].
  pose proof (parse_entry_spec k v cfg) as Hs.
  destruct (entry_value map_physical_memory (k, v)) as [n|] eqn:Hv.
  2: { destruct Hs as [why ->]. cbn. exists k, v. split; [by left | done]. }
  destruct Hs as [Hkn ->]. cbn [mbind outcome_bind].
  fold (parse_to_config map_physical_memory (config_set k n cfg) table).
  specialize (IH (config_set k n cfg) ltac:(by eapply config_ok_set) Hnd).
  specialize (IH ltac:(intros key Hin; rewrite config_get_set_ne by (by intros ->); apply Hnone; by right)).
  destruct (parse_to_config _ _ table) as [cfg'|why].
  - destruct IH as (Hok' & Hin & Hout). split; [done|]. split.
    + intros key value [[= <- <-] | H]; [|by apply Hin].
      rewrite Hout, config_get_set, Hv by done. by split.
    + intros key Hn. cbn in Hn. rewrite Hout, config_get_set_ne; naive_solver.
  - destruct IH as (key & value & H & Hval). exists key, value. split; [by right | done].
Qed.
End config_spec.

(** C39 (functional). The build script reads a manifest table, whose keys are
    distinct, exactly: it accepts the table if and only if every entry is a known
    key with a value of the right kind (an aligned address as a string, a
    positive stack size), each field of the result is then the value of its entry
    or unset, every address is a page-aligned [u64], and the compiled-in stack
    size is positive. *)
Theorem parse_to_config_spec mpm table :
  NoDup (map fst table) ->
  match parse_to_config mpm default_config table with
  | Ret cfg =>
      config_ok cfg /\
      (forall key value, In (key, value) table ->
         is_Some (config_get key cfg) /\ config_get key cfg = entry_value mpm (key, value)) /\
      (forall key, ~ In key (map fst table) -> config_get key cfg = None)
  | Panic _ => exists key value, In (key, value) table /\ entry_value mpm (key, value) = None
  end.
Proof.
  assert (forall key, config_get key default_config = None) as Hd.
  { intros key. unfold config_get. by repeat case_match. }
  intros Hnd. pose proof (parse_to_config_inv mpm table default_config config_ok_default Hnd (fun k _ => Hd k)) as H.
  destruct (parse_to_config _ _ _); [|done]. destruct H as (? & ? & H). split; [done|]. split; [done|].
  intros key Hk. by rewrite H.
Qed.

Definition sample_table : list (string * Value) :=
  [("boot-info-address", VString "4096"); ("kernel-stack-size", VInteger 128);
   ("physical-memory-offset", VString "0xFFFF800000000000")].

Lemma parse_to_config_spec_witness :
  exists cfg, parse_to_config true default_config sample_table = Ret cfg /\ config_ok cfg /\
    physical_memory_offset cfg = Some 0xFFFF800000000000 /\
    KERNEL_STACK_SIZE (constants cfg) = 128 /\ kernel_stack_address cfg = None.
Proof.
  assert (NoDup (map fst sample_table)) as Hnd by (apply (bool_decide_unpack _); vm_compute; exact I).
  pose proof (parse_to_config_spec true sample_table Hnd) as H.
  destruct (parse_to_config true default_config sample_table) as [cfg|why] eqn:E.
  - exists cfg. split; [done|]. destruct H as (Hok & _ & _). split; [done|].
    vm_compute in E. injection E as <-. done.
  - vm_compute in E. discriminate E.
Defined.

(** A number printed in decimal is read back, and not taken for hexadecimal. *)
Lemma display_uint_read n :
  is_u64 n ->
  u64_from_str_radix (display_uint n) 10 = Ok n /\ starts_with (display_uint n) "0x" = false.
Proof.
  unfold is_u64. intros Hn. assert (Hi : 0 <= 0 < 2 ^ 64) by lia.
  pose proof (parse_display_uint 1 _ _ n (or_introl eq_refl) Hi ltac:(lia) ltac:(lia)) as Hp. split.
  - destruct (display_uint_head n) as (d & r & Hd & Heq); [lia|].
    destruct (digit_char_not_sign d Hd) as [Hp1 Hm1]. rewrite Heq in Hp |- *.
    unfold u64_from_str_radix. cbn [from_str_radix]. rewrite Hp1, Hm1. cbn [andb orb].
    rewrite Hp. f_equal. lia.
  - destruct (starts_with (display_uint n) "0x") eqn:Hx; [|done].
    apply starts_with_inv in Hx as [rest Hr]. by rewrite Hr in Hp.
Qed.

(** An aligned address printed in decimal is read back. *)
Theorem parse_aligned_addr_display key n :
  is_u64 n -> n mod 4096 = 0 -> parse_aligned_addr key (display_uint n) = Ret n.
Proof.
  intros Hn Hm. destruct (display_uint_read n Hn) as [Hr Hx].
  unfold parse_aligned_addr. rewrite Hx, Hr. cbn [mbind outcome_bind]. by rewrite Hm.
Qed.

Lemma parse_aligned_addr_display_witness :
  parse_aligned_addr "boot-info-address" "18446744073709547520" = Ret 18446744073709547520.
Proof.
  apply (parse_aligned_addr_display "boot-info-address" 18446744073709547520).
  - by_compute.
  - reflexivity.
Defined.
