(* ===== verification/BuildHost.v ===== *)
(** * What the build script runs on (src/bootloader/build.rs)

    A build script is a program of the host: it reads environment variables,
    looks for files, runs commands and prints.  [script] is a tree of such
    [call]s, each with a continuation for every answer, and [runs] says which
    sequences of calls and answers are possible and how they end.  Nothing is
    assumed about the answers.  Paths are those of a Unix host; they come from
    Rust [String]s, so [display] and [to_string_lossy] leave them as they are. *)

From Stdlib Require Import Lia Ascii.
From stdpp Require Import base decidable strings numbers list.
From S2P Require Import Prelude RustStr.

Open Scope Z_scope.

(** ** Paths and text *)

Definition is_slash (c : string) : bool := String.eqb c "/".

(** The components of a path without the root and the current directory. *)
Definition components (p : string) : list string :=
  List.filter (fun w => negb (String.eqb w "" || String.eqb w ".")) (split_chars is_slash (chars p)).

(** [Path::file_name]. *)
Definition file_name (p : string) : option string :=
  match last (components p) with
  | Some w => if String.eqb w ".." then None else Some w
  | None => None
  end.

(** The text before and after the last dot. *)
Fixpoint rsplit_once_dot (s : string) : option (string * string) :=
  match s with
  | EmptyString => None
  | String a s' =>
      match rsplit_once_dot s' with
      | Some (before, after) => Some (String a before, after)
      | None => if Ascii.eqb a "."%char then Some ("", s') else None
      end
  end.

(** [Path::file_stem]: a leading dot does not start an extension. *)
Definition file_stem (p : string) : option string :=
  name ← file_name p;
  match rsplit_once_dot name with
  | Some (before, _) => Some (if String.eqb before "" then name else before)
  | None => Some name
  end.

Fixpoint ends_with_slash (s : string) : bool :=
  match s with
  | EmptyString => false
  | String a s' => if String.eqb s' "" then Ascii.eqb a "/"%char else ends_with_slash s'
  end.

(** [Path::join]. *)
Definition path_join (dir p : string) : string :=
  if starts_with p "/" then p
  else if String.eqb dir "" || ends_with_slash dir then dir +:+ p
  else dir +:+ "/" +:+ p.

(** [OsStr::to_str]. *)
Definition to_str (s : string) : option string := if valid_str s then Some s else None.

(** [str::replace] of one ASCII character by another. *)
Fixpoint replace_char (a b : ascii) (s : string) : string :=
  match s with
  | EmptyString => ""
  | String x s' => String (if Ascii.eqb x a then b else x) (replace_char a b s')
  end.

(** The bytes that may follow the lead byte [b] of a character: the width and
    the range of the second byte, as in the UTF-8 table of the Unicode standard. *)
Definition utf8_second (b : Z) : option (nat * Z * Z) :=
  if (0xC2 <=? b) && (b <=? 0xDF) then Some (2%nat, 0x80, 0xBF)
  else if b =? 0xE0 then Some (3%nat, 0xA0, 0xBF)
  else if b =? 0xED then Some (3%nat, 0x80, 0x9F)
  else if (0xE1 <=? b) && (b <=? 0xEF) then Some (3%nat, 0x80, 0xBF)
  else if b =? 0xF0 then Some (4%nat, 0x90, 0xBF)
  else if (0xF1 <=? b) && (b <=? 0xF3) then Some (4%nat, 0x80, 0xBF)
  else if b =? 0xF4 then Some (4%nat, 0x80, 0x8F)
  else None.

(** U+FFFD, which stands for bytes that are no character. *)
Definition replacement : string :=
  String (ascii_of_N 0xEF) (String (ascii_of_N 0xBF) (String (ascii_of_N 0xBD) "")).

Definition byte_in (a : ascii) (lo hi : Z) : bool := (lo <=? byte_of a) && (byte_of a <=? hi).

(** [String::from_utf8_lossy]: a maximal prefix of a character that is not
    continued becomes one replacement character. *)
Fixpoint from_utf8_lossy (s : string) : string :=
  match s with
  | EmptyString => ""
  | String a s1 =>
      if byte_of a <? 0x80 then String a (from_utf8_lossy s1)
      else match utf8_second (byte_of a) with
      | None => replacement +:+ from_utf8_lossy s1
      | Some (w, lo, hi) =>
          match s1 with
          | String b s2 =>
              if negb (byte_in b lo hi) then replacement +:+ from_utf8_lossy s1
              else if (w =? 2)%nat then String a (String b (from_utf8_lossy s2))
              else match s2 with
              | String c s3 =>
                  if negb (byte_in c 0x80 0xBF) then replacement +:+ from_utf8_lossy s2
                  else if (w =? 3)%nat then String a (String b (String c (from_utf8_lossy s3)))
                  else match s3 with
                  | String d s4 =>
                      if negb (byte_in d 0x80 0xBF) then replacement +:+ from_utf8_lossy s3
                      else String a (String b (String c (String d (from_utf8_lossy s4))))
                  | EmptyString => replacement
                  end
              | EmptyString => replacement
              end
          | EmptyString => replacement
          end
      end
  end.

Fixpoint strip_cr (s : string) : string :=
  match s with
  | EmptyString => ""
  | String a s' =>
      if String.eqb s' "" && Ascii.eqb a "013"%char then "" else String a (strip_cr s')
  end.

(** [str::lines]: without the line feeds and a carriage return before them; a
    last line feed begins no line. *)
Fixpoint lines_from (s line : string) : list string :=
  match s with
  | EmptyString => if String.eqb line "" then [] else [line]
  | String a s' =>
      if Ascii.eqb a "010"%char then strip_cr line :: lines_from s' ""
      else lines_from s' (line +:+ String a "")
  end.

Definition lines (s : string) : list string := lines_from s "".

Definition is_ascii_whitespace (c : string) : bool :=
  existsb (String.eqb c)
    [" "; String "009"%char ""; String "010"%char ""; String "012"%char ""; String "013"%char ""].

Definition split_ascii_whitespace (s : string) : list string :=
  List.filter (fun w => negb (String.eqb w "")) (split_chars is_ascii_whitespace (chars s)).

(** [{:?}] of an [Option<u64>]. *)
Definition debug_option (o : option Z) : string :=
  match o with Some n => "Some(" +:+ display_uint n +:+ ")" | None => "None" end.

(** ** Calls to the host *)

Inductive VarError := NotPresent | NotUnicode.

(** [llvm_tools::Error]; of the other errors only the text matters. *)
Inductive LlvmError := LlvmNotFound | LlvmOther (debug : string).

(** [std::process::Command]. *)
Record Command := {
  program : string;
  args : list string;
  current_dir : option string;
}.

Definition Command_new (program : string) : Command :=
  {| program := program; args := []; current_dir := None |}.
Definition arg (c : Command) (a : string) : Command :=
  {| program := program c; args := args c ++ [a]; current_dir := current_dir c |}.
Definition in_dir (c : Command) (dir : string) : Command :=
  {| program := program c; args := args c; current_dir := Some dir |}.

Inductive call :=
| EnvVar (name : string)
| PathExists (p : string)
| LlvmToolsNew
| LlvmTool (name : string)
| CommandOutput (c : Command)
| CommandStatus (c : Command)
| ReadToString (p : string)
| FileCreate (p : string)
| WriteAll (p text : string)
| Println (text : string)
| Eprintln (text : string)
| Eprint (text : string).

(** What the host answers: [None] and [false] stand for an [io::Error], the
    [bool] of [CommandStatus] is [ExitStatus::success].  Of an [Output] the script
    only looks at the bytes of [stdout], not at the status. *)
Definition answer (c : call) : Type :=
  match c with
  | EnvVar _ => result string VarError
  | PathExists _ => bool
  | LlvmToolsNew => result unit LlvmError
  | LlvmTool _ => option string
  | CommandOutput _ => option string
  | CommandStatus _ => option bool
  | ReadToString _ => option string
  | FileCreate _ | WriteAll _ _ => bool
  | Println _ | Eprintln _ | Eprint _ => unit
  end.

(** ** Scripts *)

Inductive script (A : Type) : Type :=
| Return (a : A)
| Exit (code : Z)
| Stop (why : string)
| Do (c : call) (k : answer c -> script A).
Arguments Return {A} a.
Arguments Exit {A} code.
Arguments Stop {A} why.
Arguments Do {A} c k.

#[export] Instance script_ret : MRet script := @Return.
#[export] Instance script_bind : MBind script := fun A B f =>
  fix go (m : script A) : script B :=
  match m with
  | Return a => f a
  | Exit code => Exit code
  | Stop why => Stop why
  | Do c k => Do c (fun r => go (k r))
  end.

Definition request (c : call) : script (answer c) := Do c Return.

(** A computation without calls. *)
Definition pure {A} (m : outcome A) : script A :=
  match m with Ret a => Return a | Panic why => Stop why end.

(** [expect] on the answer of a call. *)
Definition expect_some {A} (o : option A) (why : string) : script A := pure (expect o why).

(** How a script ends. *)
Inductive ending (A : Type) : Type :=
| Finished (a : A)
| Exited (code : Z)
| Panicked (why : string).
Arguments Finished {A} a.
Arguments Exited {A} code.
Arguments Panicked {A} why.

Record event := Event { ev_call : call; ev_answer : answer ev_call }.

(** The runs of a script: its calls in order with their answers, and its end. *)
Fixpoint runs {A} (m : script A) (tr : list event) (e : ending A) : Prop :=
  match m with
  | Return a => tr = [] /\ e = Finished a
  | Exit code => tr = [] /\ e = Exited code
  | Stop why => tr = [] /\ e = Panicked why
  | Do c k => exists r tr', tr = Event c r :: tr' /\ runs (k r) tr' e
  end.

(** A host that answers each call from what was asked before. *)
Definition host := list event -> forall c, answer c.

Fixpoint perform {A} (h : host) (m : script A) (past : list event) : list event * ending A :=
  match m with
  | Return a => ([], Finished a)
  | Exit code => ([], Exited code)
  | Stop why => ([], Panicked why)
  | Do c k =>
      let ev := Event c (h past c) in
      let '(tr, e) := perform h (k (h past c)) (past ++ [ev]) in (ev :: tr, e)
  end.

(** ** Proofs *)

Lemma trace_request c tr e :
  runs (request c) tr e <-> exists r, tr = [Event c r] /\ e = Finished r.
Proof.
  unfold request. cbn. split.
  - intros (r & tr' & -> & -> & ->). eauto.
  - intros (r & -> & ->). exists r, []. auto.
Qed.

Lemma trace_pure {A} (m : outcome A) tr a :
  runs (pure m) tr (Finished a) <-> tr = [] /\ m = Ret a.
Proof. destruct m; cbn; split; intros [-> H]; split; congruence. Qed.

(** A sequence of scripts that finishes has finished its parts in turn. *)
Lemma trace_bind {A B} (m : script A) (f : A -> script B) tr b :
  runs (m ≫= f) tr (Finished b) <->
  exists tr1 a tr2, tr = tr1 ++ tr2 /\ runs m tr1 (Finished a) /\ runs (f a) tr2 (Finished b).
Proof.
  revert tr. induction m as [a|code|why|c k IH]; intros tr; cbn.
  - split; [intros H; by exists [], a, tr|].
    intros (tr1 & a' & tr2 & -> & [-> Ha] & Hf). by injection Ha as ->.
  - split; [by intros [] | by intros (? & ? & ? & _ & [] & _)].
  - split; [by intros [] | by intros (? & ? & ? & _ & [] & _)].
  - split.
    + intros (r & tr' & -> & (tr1 & a & tr2 & -> & H1 & H2)%IH).
      exists (Event c r :: tr1), a, tr2. eauto 10.
    + intros (tr1 & a & tr2 & -> & (r & tr' & -> & H1) & H2).
      exists r, (tr' ++ tr2). split; [done|]. apply IH. eauto 10.
Qed.

(** One that stops early has stopped in one of its parts. *)
Lemma trace_bind_stop {A B} (m : script A) (f : A -> script B) tr e :
  runs (m ≫= f) tr e ->
  (exists tr1 a tr2, tr = tr1 ++ tr2 /\ runs m tr1 (Finished a) /\ runs (f a) tr2 e) \/
  (exists code, runs m tr (Exited code) /\ e = Exited code) \/
  (exists why, runs m tr (Panicked why) /\ e = Panicked why).
Proof.
  revert tr. induction m as [a|code|why|c k IH]; intros tr; cbn.
  - intros H. left. by exists [], a, tr.
  - intros [-> ->]. right. left. by exists code.
  - intros [-> ->]. right. right. by exists why.
  - intros (r & tr' & -> & Hk). apply IH in Hk as [Hk | [Hk | Hk]].
    + destruct Hk as (tr1 & a & tr2 & -> & H1 & H2). left. exists (Event c r :: tr1), a, tr2. eauto 10.
    + destruct Hk as (code & Hk & ->). eauto 10.
    + destruct Hk as (why & Hk & ->). eauto 10.
Qed.

(** What a host makes of a script is one of its runs. *)
Lemma perform_runs {A} h (m : script A) past :
  runs m (fst (perform h m past)) (snd (perform h m past)).
Proof.
  revert past. induction m as [a|code|why|c k IH]; intros past; cbn; [done..|].
  specialize (IH (h past c) (past ++ [Event c (h past c)])).
  destruct (perform _ _ _) as [tr e]. cbn. eauto.
Qed.
