(* ===== verification/BuildScript.v ===== *)
(** * The build script of the bootloader (src/bootloader/build.rs)

    [build_main] is the [main] of the feature [binary], in the steps the source
    marks with comments: check the target, locate the kernel, find the LLVM
    tools, check that the kernel has code, strip it, wrap it in an object file,
    archive that, read the configuration, write it as Rust constants, and tell
    cargo what to link.  Afterwards come a specification of a finished build, as
    the one sequence of calls it makes, the behaviour on errors, the way back
    from the written constants to the configuration, and the names of the
    kernel's symbols.

    [llvm_tools::exe] and the parser of the crate toml are parameters.  A [print]
    does not fail. *)

From Stdlib Require Import Lia ZifyBool Ascii.
From stdpp Require Import base decidable strings numbers list.
From S2P Require Import Prelude RustStr BuildConfig BuildHost.

Open Scope Z_scope.

(** What the script uses of the crates [llvm_tools] and [toml]. *)
Class BuildCrates := {
  exe : string -> string;
  toml : Type;
  toml_parse : string -> option toml;
  toml_get : toml -> string -> option toml;
  toml_as_table : toml -> option (list (string * Value));
}.

(** The keys of a table are distinct, and its integers are [i64]s. *)
Class BuildCratesLaws (BC : BuildCrates) := {
  table_keys : forall v t, toml_as_table v = Some t -> NoDup (map fst t);
  table_integers : forall v t key i, toml_as_table v = Some t -> In (key, VInteger i) t -> is_i64 i;
}.

(** ** File names *)

Definition stripped_kernel_file_name (kernel_file_name : string) : string :=
  "kernel_stripped-" +:+ kernel_file_name.

Definition stripped_kernel_file_name_replaced (kernel_file_name : string) : string :=
  replace_char "." "_" (replace_char "-" "_" (stripped_kernel_file_name kernel_file_name)).

Definition kernel_bin (out_dir kernel_file_name : string) : string :=
  path_join out_dir ("kernel_bin-" +:+ kernel_file_name +:+ ".o").

Definition kernel_archive (out_dir kernel_file_name : string) : string :=
  path_join out_dir ("libkernel_bin-" +:+ kernel_file_name +:+ ".a").

(** ** Commands *)

Definition size_command (llvm_size kernel : string) : Command :=
  arg (Command_new llvm_size) kernel.

Definition strip_command (objcopy out_dir kernel kernel_file_name : string) : Command :=
  let cmd := arg (Command_new objcopy) "--strip-debug" in
  let cmd := arg cmd kernel in
  arg cmd (path_join out_dir (stripped_kernel_file_name kernel_file_name)).

Definition wrap_command (objcopy out_dir kernel_file_name : string) : Command :=
  let replaced := stripped_kernel_file_name_replaced kernel_file_name in
  let cmd := arg (arg (Command_new objcopy) "-I") "binary" in
  let cmd := arg (arg cmd "-O") "elf64-x86-64" in
  let cmd := arg cmd "--binary-architecture=i386:x86-64" in
  let cmd := arg (arg cmd "--rename-section") ".data=.kernel" in
  let cmd := arg (arg cmd "--redefine-sym") ("_binary_" +:+ replaced +:+ "_start=_kernel_start_addr") in
  let cmd := arg (arg cmd "--redefine-sym") ("_binary_" +:+ replaced +:+ "_end=_kernel_end_addr") in
  let cmd := arg (arg cmd "--redefine-sym") ("_binary_" +:+ replaced +:+ "_size=_kernel_size") in
  let cmd := in_dir cmd out_dir in
  let cmd := arg cmd (stripped_kernel_file_name kernel_file_name) in
  arg cmd (kernel_bin out_dir kernel_file_name).

Definition archive_command (ar out_dir kernel_file_name : string) : Command :=
  let cmd := arg (Command_new ar) "crs" in
  let cmd := arg cmd (kernel_archive out_dir kernel_file_name) in
  arg cmd (kernel_bin out_dir kernel_file_name).

(** ** The constants *)

Definition indent : string := newline_str +:+ "            ".

(** The text of bootloader_config.rs. *)
Definition config_text (cfg : BootloaderConfig) : string :=
  "const PHYSICAL_MEMORY_OFFSET: Option<u64> = " +:+ debug_option (physical_memory_offset cfg) +:+ ";" +:+
  indent +:+ "const KERNEL_STACK_ADDRESS: Option<u64> = " +:+ debug_option (kernel_stack_address cfg) +:+ ";" +:+
  indent +:+ "const KERNEL_STACK_SIZE: u64 = " +:+ display_uint (default 512 (kernel_stack_size cfg)) +:+ ";" +:+
  indent +:+ "const BOOT_INFO_ADDRESS: Option<u64> = " +:+ debug_option (boot_info_address cfg) +:+ ";".

(** ** The steps *)

(** The status of a command: its failure ends the script with code 1. *)
Definition run_command (cmd : Command) (why failed : string) : script unit :=
  status ← request (CommandStatus cmd);
  success ← expect_some status why;
  if (success : bool) then mret tt
  else _ ← request (Eprintln failed); Exit 1.

Definition check_target : script unit :=
  target ← request (EnvVar "TARGET");
  target ← pure (expect_ok target "TARGET not set");
  stem ← expect_some (file_stem target) "target has no file stem";
  if negb (String.eqb stem "x86_64-bootloader")
  then Stop "The bootloader must be compiled for the `x86_64-bootloader.json` target."
  else mret tt.

Definition missing_kernel : string :=
  "The KERNEL environment variable must be set for building the bootloader." +:+ newline_str +:+ newline_str +:+
  "If you use `bootimage` for building you need at least version 0.7.0. You can " +:+
  "update `bootimage` by running `cargo install bootimage --force`.".

(** The output directory, the kernel and its file name. *)
Definition locate_kernel : script (string * string * string) :=
  out_dir ← request (EnvVar "OUT_DIR");
  out_dir ← pure (expect_ok out_dir "OUT_DIR not set");
  kernel ← request (EnvVar "KERNEL");
  kernel ← (match kernel with
            | Ok kernel => mret kernel
            | Err _ => _ ← request (Eprintln missing_kernel); Exit 1
            end);
  kernel_file_name ← expect_some (file_name kernel) "KERNEL has no valid file name";
  kernel_file_name ← expect_some (to_str kernel_file_name) "kernel file name not valid utf8";
  found ← request (PathExists kernel);
  if negb found then Stop ("KERNEL does not exist: " +:+ kernel)
  else mret (out_dir, kernel, kernel_file_name).

Definition find_llvm_tools : script unit :=
  tools ← request LlvmToolsNew;
  match tools with
  | Ok _ => mret tt
  | Err LlvmNotFound =>
      _ ← request (Eprintln "Error: llvm-tools not found");
      _ ← request (Eprintln "Maybe the rustup component `llvm-tools-preview` is missing?");
      _ ← request (Eprintln "  Install it through: `rustup component add llvm-tools-preview`");
      Exit 1
  | Err (LlvmOther err) =>
      _ ← request (Eprintln ("Failed to retrieve llvm-tools component: " +:+ err));
      Exit 1
  end.

(** The first word of the second line of what llvm-size prints. *)
Definition text_size_of (stdout : string) : outcome string :=
  second_line ← expect (head (drop 1 (lines (from_utf8_lossy stdout)))) "unexpected llvm-size line output";
  expect (head (split_ascii_whitespace second_line)) "unexpected llvm-size output".

Definition empty_text (kernel : string) : string :=
  "Kernel executable has an empty text section. Perhaps the entry point was set incorrectly?" +:+
  newline_str +:+ newline_str +:+ "Kernel executable at `" +:+ kernel +:+ "`" +:+ newline_str.

Section script.
Context {BC : BuildCrates}.

Definition check_text_section (kernel : string) : script unit :=
  llvm_size ← request (LlvmTool (exe "llvm-size"));
  llvm_size ← expect_some llvm_size "llvm-size not found in llvm-tools";
  output ← request (CommandOutput (size_command llvm_size kernel));
  stdout ← expect_some output "failed to run llvm-size";
  text_size ← pure (text_size_of stdout);
  if String.eqb text_size "0" then Stop (empty_text kernel) else mret tt.

(** Returns the tool, which the next step uses again. *)
Definition strip_kernel (out_dir kernel kernel_file_name : string) : script string :=
  objcopy ← request (LlvmTool (exe "llvm-objcopy"));
  objcopy ← expect_some objcopy "llvm-objcopy not found in llvm-tools";
  _ ← run_command (strip_command objcopy out_dir kernel kernel_file_name)
        "failed to run objcopy to strip debug symbols" "Error: Stripping debug symbols failed";
  mret objcopy.

Definition wrap_kernel (objcopy out_dir kernel_file_name : string) : script unit :=
  run_command (wrap_command objcopy out_dir kernel_file_name)
    "failed to run objcopy" "Error: Running objcopy failed".

Definition archive_kernel (out_dir kernel_file_name : string) : script unit :=
  ar ← request (LlvmTool (exe "llvm-ar"));
  ar ← (match ar with
        | Some ar => mret ar
        | None =>
            _ ← request (Eprintln "Failed to retrieve llvm-ar component");
            _ ← request (Eprint "This component is available since nightly-2019-03-29,");
            _ ← request (Eprintln "so try updating your toolchain if you're using an older nightly");
            Exit 1
        end);
  run_command (archive_command ar out_dir kernel_file_name) "failed to run ar" "Error: Running ar failed".

Definition missing_manifest : string :=
  "The KERNEL_MANIFEST environment variable must be set for building the bootloader." +:+ newline_str +:+ newline_str +:+
  "If you use `bootimage` for building you need at least version 0.7.7. You can " +:+
  "update `bootimage` by running `cargo install bootimage --force`.".

(** The table [package.metadata.bootloader] of the manifest. *)
Definition bootloader_table (manifest : toml) : option (list (string * Value)) :=
  table ← toml_get manifest "package";
  table ← toml_get table "metadata";
  table ← toml_get table "bootloader";
  toml_as_table table.

Section features.
Context (map_physical_memory : bool).

Definition manifest_config (manifest : toml) : outcome BootloaderConfig :=
  match bootloader_table manifest with
  | Some table => parse_to_config map_physical_memory default_config table
  | None => Ret default_config
  end.

Definition read_config : script BootloaderConfig :=
  manifest_path ← request (EnvVar "KERNEL_MANIFEST");
  match manifest_path with
  | Err NotPresent => Stop missing_manifest
  | Err NotUnicode => Stop "The KERNEL_MANIFEST environment variable contains invalid unicode"
  | Ok path =>
      _ ← request (Println ("cargo:rerun-if-changed=" +:+ path));
      contents ← request (ReadToString path);
      contents ← expect_some contents ("failed to read kernel manifest file (path: " +:+ path +:+ ")");
      manifest ← expect_some (toml_parse contents) "failed to parse kernel's Cargo.toml";
      pure (manifest_config manifest)
  end.

Definition write_config (out_dir : string) (cfg : BootloaderConfig) : script unit :=
  let file_path := path_join out_dir "bootloader_config.rs" in
  created ← request (FileCreate file_path);
  if negb created then Stop "failed to create bootloader_config.rs" else
  written ← request (WriteAll file_path (config_text cfg));
  if negb written then Stop "write to bootloader_config.rs failed" else mret tt.

Definition link_directives (out_dir kernel kernel_file_name : string) : script unit :=
  _ ← request (Println ("cargo:rustc-link-search=native=" +:+ out_dir));
  _ ← request (Println ("cargo:rustc-link-lib=static=kernel_bin-" +:+ kernel_file_name));
  _ ← request (Println "cargo:rerun-if-env-changed=KERNEL");
  _ ← request (Println "cargo:rerun-if-env-changed=KERNEL_MANIFEST");
  _ ← request (Println ("cargo:rerun-if-changed=" +:+ kernel));
  request (Println "cargo:rerun-if-changed=build.rs").

(** The part of [main] up to the configuration, which leaves only files in the
    output directory and the archive. *)
Definition prepare : script (string * string * string * BootloaderConfig) :=
  _ ← check_target;
  '(out_dir, kernel, kernel_file_name) ← locate_kernel;
  _ ← find_llvm_tools;
  _ ← check_text_section kernel;
  objcopy ← strip_kernel out_dir kernel kernel_file_name;
  _ ← wrap_kernel objcopy out_dir kernel_file_name;
  _ ← archive_kernel out_dir kernel_file_name;
  bootloader_config ← read_config;
  mret (out_dir, kernel, kernel_file_name, bootloader_config).

Definition build_main : script unit :=
  '(out_dir, kernel, kernel_file_name, bootloader_config) ← prepare;
  _ ← write_config out_dir bootloader_config;
  link_directives out_dir kernel kernel_file_name.
End features.

(** The script without the feature [binary] does nothing. *)
Definition build_script (binary map_physical_memory : bool) : script unit :=
  if binary then build_main map_physical_memory else mret tt.
End script.

(** ** Proofs: the runs of each step *)

Lemma runs_expect_some {A} (o : option A) why tr a :
  runs (expect_some o why) tr (Finished a) <-> tr = [] /\ o = Some a.
Proof. unfold expect_some. rewrite trace_pure. destruct o; cbn; split; intros [-> H]; split; congruence. Qed.

Lemma runs_expect_ok {A E} (r : result A E) why tr a :
  runs (pure (expect_ok r why)) tr (Finished a) <-> tr = [] /\ r = Ok a.
Proof. rewrite trace_pure. destruct r; cbn; split; intros [-> H]; split; congruence. Qed.

(** Takes a finished run apart. *)
Ltac run_inv :=
  repeat match goal with
  | H : runs (mbind _ _) _ (Finished _) |- _ =>
      apply trace_bind in H; destruct H as (? & ? & ? & -> & ? & H)
  | H : runs (request _) _ (Finished _) |- _ =>
      apply trace_request in H; destruct H as (? & -> & H); injection H as <-
  | H : runs (expect_some _ _) _ (Finished _) |- _ => apply runs_expect_some in H as [-> ?]
  | H : runs (pure (expect_ok _ _)) _ (Finished _) |- _ => apply runs_expect_ok in H as [-> ?]
  | H : runs (pure _) _ (Finished _) |- _ => apply trace_pure in H as [-> ?]
  | H : runs (mret _) _ (Finished _) |- _ =>
      let E := fresh in destruct H as [-> E]; first [injection E as E | clear E]
  | H : runs (Return _) _ (Finished _) |- _ =>
      let E := fresh in destruct H as [-> E]; first [injection E as E | clear E]
  | H : runs (Exit _) _ (Finished _) |- _ => destruct H as [_ H]; discriminate H
  | H : runs (Stop _) _ (Finished _) |- _ => destruct H as [_ H]; discriminate H
  end.

(** The same through the branches of the steps. *)
Ltac run_cases :=
  run_inv;
  repeat (match goal with H : runs (match ?x with _ => _ end) _ (Finished _) |- _ => destruct x eqn:? end;
          run_inv);
  simplify_eq.

(** Plays a finished run whose conditions are hypotheses. *)
Ltac run_play :=
  repeat first
    [ progress cbn
    | eexists _, _; split; [reflexivity|]
    | match goal with H : ?a = _ |- context [?a] => rewrite H end
    | by split ].

Lemma run_command_runs cmd why failed tr u :
  runs (run_command cmd why failed) tr (Finished u) <-> tr = [Event (CommandStatus cmd) (Some true)].
Proof.
  destruct u. unfold run_command. split.
  - intros H. by run_cases.
  - intros ->. run_play.
Qed.

Lemma check_target_runs tr :
  runs check_target tr (Finished tt) <->
  exists target, file_stem target = Some "x86_64-bootloader" /\ tr = [Event (EnvVar "TARGET") (Ok target)].
Proof.
  unfold check_target. split.
  - intros H. run_cases. apply negb_false_iff, String.eqb_eq in Heqb as ->. eauto.
  - intros (target & Hs & ->). run_play.
Qed.

Lemma to_str_inv s t : to_str s = Some t -> t = s.
Proof. unfold to_str. by destruct (valid_str s); intros [= ->]. Qed.

Lemma locate_kernel_runs tr out_dir kernel name :
  runs locate_kernel tr (Finished (out_dir, kernel, name)) <->
  file_name kernel = Some name /\ to_str name = Some name /\
  tr = [Event (EnvVar "OUT_DIR") (Ok out_dir); Event (EnvVar "KERNEL") (Ok kernel); Event (PathExists kernel) true].
Proof.
  unfold locate_kernel. split.
  - intros H. run_cases. apply negb_false_iff in Heqb as ->. assert (Hs := H0). apply to_str_inv in Hs as <-. auto.
  - intros (Hn & Hs & ->). run_play.
Qed.

Lemma find_llvm_tools_runs tr :
  runs find_llvm_tools tr (Finished tt) <-> tr = [Event LlvmToolsNew (Ok tt)].
Proof.
  unfold find_llvm_tools. split.
  - intros H. run_cases. by repeat match goal with u : unit |- _ => destruct u end.
  - intros ->. run_play.
Qed.

Section runs.
Context {BC : BuildCrates}.

Lemma check_text_section_runs kernel tr :
  runs (check_text_section kernel) tr (Finished tt) <->
  exists llvm_size stdout text_size,
    text_size_of stdout = Ret text_size /\ text_size <> "0" /\
    tr = [Event (LlvmTool (exe "llvm-size")) (Some llvm_size);
          Event (CommandOutput (size_command llvm_size kernel)) (Some stdout)].
Proof.
  unfold check_text_section. split.
  - intros H. run_cases. apply String.eqb_neq in Heqb. eauto 10.
  - intros (llvm_size & stdout & text_size & Ht & Hne & ->). apply String.eqb_neq in Hne. run_play.
Qed.

Lemma strip_kernel_runs out_dir kernel name objcopy tr :
  runs (strip_kernel out_dir kernel name) tr (Finished objcopy) <->
  tr = [Event (LlvmTool (exe "llvm-objcopy")) (Some objcopy);
        Event (CommandStatus (strip_command objcopy out_dir kernel name)) (Some true)].
Proof.
  unfold strip_kernel. split.
  - intros H. run_cases. match goal with H : runs _ _ _ |- _ => by apply run_command_runs in H as -> end.
  - intros ->. run_play.
Qed.

Lemma archive_kernel_runs out_dir name tr :
  runs (archive_kernel out_dir name) tr (Finished tt) <->
  exists ar, tr = [Event (LlvmTool (exe "llvm-ar")) (Some ar);
                   Event (CommandStatus (archive_command ar out_dir name)) (Some true)].
Proof.
  unfold archive_kernel. split.
  - intros H. run_cases. apply run_command_runs in H as ->. eauto.
  - intros (ar & ->). run_play.
Qed.

Lemma read_config_runs mpm tr cfg :
  runs (read_config mpm) tr (Finished cfg) <->
  exists path contents manifest,
    toml_parse contents = Some manifest /\ manifest_config mpm manifest = Ret cfg /\
    tr = [Event (EnvVar "KERNEL_MANIFEST") (Ok path);
          Event (Println ("cargo:rerun-if-changed=" +:+ path)) tt;
          Event (ReadToString path) (Some contents)].
Proof.
  unfold read_config. split.
  - intros H. run_cases. repeat match goal with u : answer (Println _) |- _ => destruct u end. eauto 10.
  - intros (path & contents & manifest & Hp & Hc & ->). run_play.
Qed.

Lemma write_config_runs out_dir cfg tr :
  runs (write_config out_dir cfg) tr (Finished tt) <->
  let p := path_join out_dir "bootloader_config.rs" in
  tr = [Event (FileCreate p) true; Event (WriteAll p (config_text cfg)) true].
Proof.
  unfold write_config. split.
  - intros H. run_cases. by apply negb_false_iff in Heqb as ->, Heqb0 as ->.
  - intros ->. run_play.
Qed.

(** The lines for cargo. *)
Definition directives (out_dir kernel kernel_file_name : string) : list event :=
  map (fun line => Event (Println line) tt)
    ["cargo:rustc-link-search=native=" +:+ out_dir;
     "cargo:rustc-link-lib=static=kernel_bin-" +:+ kernel_file_name;
     "cargo:rerun-if-env-changed=KERNEL"; "cargo:rerun-if-env-changed=KERNEL_MANIFEST";
     "cargo:rerun-if-changed=" +:+ kernel; "cargo:rerun-if-changed=build.rs"].

Lemma link_directives_runs out_dir kernel name tr :
  runs (link_directives out_dir kernel name) tr (Finished tt) <-> tr = directives out_dir kernel name.
Proof.
  unfold link_directives. split.
  - intros H. run_cases. by repeat match goal with u : answer (Println _) |- _ => destruct u end.
  - intros ->. run_play.
Qed.
End runs.
