(* ===== verification/ConfigFile.v ===== *)
(** * The configuration as a file (src/bootloader/build.rs)

    What the build script writes for the bootloader is Rust source: four constant
    declarations.  [read_constants] reads declarations of that form back, and
    gives the constants of the manifest again ([config_file_roundtrip]). *)

From Stdlib Require Import Lia ZifyBool Ascii.
From stdpp Require Import base decidable strings numbers list.
From S2P Require Import Prelude RustStr BuildConfig BuildHost BuildScript.

Open Scope Z_scope.

(** ** A reader *)

Fixpoint strip_prefix (p s : string) : option string :=
  match p, s with
  | EmptyString, _ => Some s
  | String a p', String b s' => if Ascii.eqb a b then strip_prefix p' s' else None
  | _, EmptyString => None
  end.

(** The text before and after the first [c]. *)
Fixpoint split_at (c : ascii) (s : string) : option (string * string) :=
  match s with
  | EmptyString => None
  | String a s' =>
      if Ascii.eqb a c then Some ("", s')
      else '(before, after) ← split_at c s'; Some (String a before, after)
  end.

Definition read_u64 (s : string) : option Z :=
  match u64_from_str_radix s 10 with Ok n => Some n | Err _ => None end.

Definition read_option (s : string) : option (option Z) :=
  if String.eqb s "None" then Some None
  else
    rest ← strip_prefix "Some(" s;
    '(digits, rest) ← split_at ")" rest;
    if String.eqb rest "" then Some <$> read_u64 digits else None.

(** The value of one declaration, and the text after it. *)
Definition read_const {A} (header : string) (read : string -> option A) (s : string) :
    option (A * string) :=
  rest ← strip_prefix header s;
  '(value, rest) ← split_at ";" rest;
  v ← read value;
  Some (v, rest).

Definition read_constants (text : string) : option Constants :=
  '(offset, text) ← read_const "const PHYSICAL_MEMORY_OFFSET: Option<u64> = " read_option text;
  '(stack, text) ← read_const (indent +:+ "const KERNEL_STACK_ADDRESS: Option<u64> = ") read_option text;
  '(size, text) ← read_const (indent +:+ "const KERNEL_STACK_SIZE: u64 = ") read_u64 text;
  '(info, text) ← read_const (indent +:+ "const BOOT_INFO_ADDRESS: Option<u64> = ") read_option text;
  if String.eqb text ""
  then Some {| PHYSICAL_MEMORY_OFFSET := offset; KERNEL_STACK_ADDRESS := stack;
               KERNEL_STACK_SIZE := size; BOOT_INFO_ADDRESS := info |}
  else None.

(** ** Proofs *)

Lemma strip_prefix_app p s : strip_prefix p (p +:+ s) = Some s.
Proof. induction p as [|a p IH]; cbn; [done|]. by rewrite Ascii.eqb_refl. Qed.

(** [c] does not occur in [s]. *)
Fixpoint lacks (c : ascii) (s : string) : bool :=
  match s with EmptyString => true | String a s' => negb (Ascii.eqb a c) && lacks c s' end.

Lemma lacks_app c a b : lacks c (a +:+ b) = lacks c a && lacks c b.
Proof. induction a as [|x a IH]; cbn; [done|]. by rewrite IH, andb_assoc. Qed.

Lemma split_at_app c a b : lacks c a = true -> split_at c (a +:+ String c b) = Some (a, b).
Proof.
  induction a as [|x a IH]; cbn; [by rewrite Ascii.eqb_refl|].
  intros [Hx%negb_true_iff Ha]%andb_prop. rewrite Hx, IH by done. done.
Qed.

(** Only digits are parsed. *)
Lemma parse_digits_lacks radix sign lo hi c s acc z :
  to_digit radix c = None -> parse_digits radix sign lo hi s acc = Ok z -> lacks c s = true.
Proof.
  intros Hc. revert acc. induction s as [|a s IH]; intros acc; cbn; [done|].
  destruct (Ascii.eqb_spec a c) as [->|]; [by rewrite Hc|].
  repeat case_match; try done. apply IH.
Qed.

Lemma display_uint_lacks c n :
  is_u64 n -> to_digit 10 c = None -> lacks c (display_uint n) = true.
Proof.
  intros Hn Hc. unfold is_u64 in Hn.
  by eapply (parse_digits_lacks 10 1 0 (2 ^ 64)), (parse_display_uint 1); [..|lia|lia|lia]; [|left].
Qed.

Definition is_option_u64 (o : option Z) : Prop := match o with Some n => is_u64 n | None => True end.

Lemma read_u64_display n : is_u64 n -> read_u64 (display_uint n) = Some n.
Proof. intros Hn. unfold read_u64. by rewrite (proj1 (display_uint_read n Hn)). Qed.

Lemma read_option_debug o : is_option_u64 o -> read_option (debug_option o) = Some o.
Proof.
  destruct o as [n|]; [|done]. intros Hn. unfold read_option.
  change (String.eqb (debug_option (Some n)) "None") with false. unfold debug_option.
  rewrite strip_prefix_app. cbn [mbind option_bind].
  rewrite split_at_app by by apply display_uint_lacks. cbn [String.eqb mbind option_bind].
  by rewrite read_u64_display.
Qed.

Lemma debug_option_lacks o : is_option_u64 o -> lacks ";" (debug_option o) = true.
Proof.
  destruct o as [n|]; [|done]. intros Hn. unfold debug_option.
  by rewrite !lacks_app, display_uint_lacks.
Qed.

Lemma read_const_app {A} header (read : string -> option A) value rest v :
  lacks ";" value = true -> read value = Some v ->
  read_const header read (header +:+ value +:+ ";" +:+ rest) = Some (v, rest).
Proof.
  intros Hl Hr. unfold read_const. rewrite strip_prefix_app. cbn [mbind option_bind].
  change (";" +:+ rest) with (String ";" rest). rewrite split_at_app by done. cbn. by rewrite Hr.
Qed.

Definition config_range (cfg : BootloaderConfig) : Prop :=
  is_option_u64 (physical_memory_offset cfg) /\ is_option_u64 (kernel_stack_address cfg) /\
  is_option_u64 (kernel_stack_size cfg) /\ is_option_u64 (boot_info_address cfg).

Lemma read_config_text cfg :
  config_range cfg -> read_constants (config_text cfg) = Some (constants cfg).
Proof.
  intros (Ho & Hs & Hn & Hi). unfold read_constants, config_text.
  assert (is_u64 (default 512 (kernel_stack_size cfg))) as Hd by (destruct (kernel_stack_size cfg); [done|by_compute]).
  rewrite read_const_app with (v := physical_memory_offset cfg) by auto using debug_option_lacks, read_option_debug.
  cbn [mbind option_bind]. rewrite <-str_app_assoc.
  rewrite read_const_app with (v := kernel_stack_address cfg) by auto using debug_option_lacks, read_option_debug.
  cbn [mbind option_bind]. rewrite <-str_app_assoc.
  rewrite read_const_app with (v := default 512 (kernel_stack_size cfg))
    by auto using read_u64_display, display_uint_lacks.
  cbn [mbind option_bind]. rewrite <-str_app_assoc.
  rewrite <-(str_app_nil_r ";").
  by rewrite read_const_app with (v := boot_info_address cfg) by auto using debug_option_lacks, read_option_debug.
Qed.

Section manifest.
Context {BC : BuildCrates} {BL : BuildCratesLaws BC} (map_physical_memory : bool).

Lemma bootloader_table_inv manifest t :
  bootloader_table manifest = Some t -> exists v, toml_as_table v = Some t.
Proof. unfold bootloader_table. intros (? & _ & (? & _ & (v & _ & ?)%bind_Some)%bind_Some)%bind_Some. by exists v. Qed.

(** Every value of a configuration is one of its table. *)
Lemma manifest_config_ok manifest cfg :
  manifest_config map_physical_memory manifest = Ret cfg -> config_ok cfg /\ config_range cfg.
Proof.
  unfold manifest_config. destruct (bootloader_table manifest) as [t|] eqn:Ht.
  2: { intros [= <-]. split; [apply config_ok_default | done]. }
  apply bootloader_table_inv in Ht as [v Hv]. intros Hp.
  pose proof (parse_to_config_inv map_physical_memory t default_config config_ok_default
    (table_keys v t Hv)) as H.
  rewrite Hp in H. destruct H as (Hok & Hin & Hout).
  { intros key _. unfold config_get. by repeat case_match. }
  split; [done|]. destruct Hok as [Haddr _].
  assert (forall key, config_get key cfg = None \/ exists n, config_get key cfg = Some n /\ is_u64 n) as Hr.
  { intros key. destruct (config_get key cfg) as [n|] eqn:Hn; [right | by left]. exists n. split; [done|].
    destruct (decide (key = "kernel-stack-size")) as [->|Hne]; [|by apply (Haddr key n)].
    destruct (in_dec String.string_dec "kernel-stack-size" (map fst t)) as [Hk|Hk].
    2: { rewrite (Hout _ Hk) in Hn. discriminate Hn. }
    apply in_map_iff in Hk as ([key value] & [= ->] & Hk).
    destruct (Hin _ _ Hk) as [_ Hv']. rewrite Hn in Hv'. symmetry in Hv'.
    pose proof (entry_value_range _ _ _ _ Hv') as Hpos. cbn in Hpos.
    destruct value as [s|i|]; cbn in Hv'; [done| |done].
    destruct (0 <? i); [|done]. injection Hv' as ->. pose proof (table_integers v t _ _ Hv Hk). arith. }
  unfold config_range. repeat split.
  - destruct (Hr "physical-memory-offset") as [H | (n & H & ?)]; cbn in H; by rewrite H.
  - destruct (Hr "kernel-stack-address") as [H | (n & H & ?)]; cbn in H; by rewrite H.
  - destruct (Hr "kernel-stack-size") as [H | (n & H & ?)]; cbn in H; by rewrite H.
  - destruct (Hr "boot-info-address") as [H | (n & H & ?)]; cbn in H; by rewrite H.
Qed.
End manifest.

Lemma config_file_read {BC : BuildCrates} {BL : BuildCratesLaws BC} mpm manifest cfg :
  manifest_config mpm manifest = Ret cfg ->
  config_ok cfg /\ read_constants (config_text cfg) = Some (constants cfg) /\
  (bootloader_table manifest = None ->
   constants cfg = {| PHYSICAL_MEMORY_OFFSET := None; KERNEL_STACK_ADDRESS := None;
                      KERNEL_STACK_SIZE := 512; BOOT_INFO_ADDRESS := None |}).
Proof.
  intros H. pose proof H as [Hok Hr]%manifest_config_ok. split; [done|].
  split; [by apply read_config_text|]. intros Ht. unfold manifest_config in H. rewrite Ht in H.
  by injection H as <-.
Qed.

(** C36 (roundtrip). The four constant declarations the build script writes for an
    accepted manifest read back as the constants of its configuration, whose
    addresses are page-aligned [u64]s and whose stack has at least one page.  A
    manifest without a table for the bootloader leaves the addresses to it and
    gives the kernel a stack of 512 pages. *)
Theorem config_file_roundtrip {BC : BuildCrates} {BL : BuildCratesLaws BC} mpm manifest cfg :
  manifest_config mpm manifest = Ret cfg ->
  config_ok cfg /\ read_constants (config_text cfg) = Some (constants cfg) /\
  (bootloader_table manifest = None ->
   constants cfg = {| PHYSICAL_MEMORY_OFFSET := None; KERNEL_STACK_ADDRESS := None;
                      KERNEL_STACK_SIZE := 512; BOOT_INFO_ADDRESS := None |}).
Proof. apply config_file_read. Qed.

(** ** A sample *)

(** A TOML document: tables within tables. *)
Inductive Doc := Leaf (v : Value) | Table (t : list (string * Doc)).

Fixpoint assoc {A} (key : string) (l : list (string * A)) : option A :=
  match l with
  | [] => None
  | (k, v) :: l' => if String.eqb k key then Some v else assoc key l'
  end.

(** The entries of a table with distinct keys and [i64] integers. *)
Definition leaf_of (d : Doc) : Value := match d with Leaf v => v | Table _ => VOther end.

Definition value_fits (v : Value) : bool :=
  match v with VInteger i => bool_decide (is_i64 i) | _ => true end.

Definition leaves (d : Doc) : option (list (string * Value)) :=
  match d with
  | Leaf _ => None
  | Table t =>
      let entries := map (fun e => (fst e, leaf_of (snd e))) t in
      if bool_decide (NoDup (map fst entries)) && forallb (fun e => value_fits (snd e)) entries
      then Some entries else None
  end.

Definition sample_manifest : Doc :=
  Table [("package", Table [("name", Leaf (VString "kernel"));
    ("metadata", Table [("bootloader",
       Table [("physical-memory-offset", Leaf (VString "0x0000100000000000"));
              ("kernel-stack-size", Leaf (VInteger 128))])])])].

(** A manifest that leaves everything to the bootloader. *)
Definition plain_manifest : Doc := Table [("package", Table [("name", Leaf (VString "llm-os"))])].

#[export] Instance sample_crates : BuildCrates := {|
  exe := fun name => name;
  toml := Doc;
  toml_parse := fun text => if String.eqb text "manifest" then Some sample_manifest
    else if String.eqb text "plain" then Some plain_manifest else None;
  toml_get := fun d key => match d with Table t => assoc key t | Leaf _ => None end;
  toml_as_table := leaves;
|}.

#[export] Instance sample_crates_laws : BuildCratesLaws sample_crates.
Proof.
  split.
  - intros [?|t] l; cbn; [done|]. case_match eqn:H; [|done]. intros [= <-].
    apply andb_prop in H as [H _]. by apply bool_decide_eq_true in H.
  - intros [?|t] l key i; cbn; [done|]. case_match eqn:H; [|done]. intros [= <-] Hin.
    apply andb_prop in H as [_ H]. rewrite forallb_forall in H. specialize (H _ Hin). cbn in H.
    by apply bool_decide_eq_true in H.
Qed.

Definition sample_config : BootloaderConfig :=
  {| physical_memory_offset := Some 0x0000100000000000; kernel_stack_address := None;
     kernel_stack_size := Some 128; boot_info_address := None |}.

Lemma config_file_roundtrip_witness :
  manifest_config true sample_manifest = Ret sample_config /\
  read_constants (config_text sample_config) = Some (constants sample_config).
Proof.
  assert (manifest_config true sample_manifest = Ret sample_config) as H by (vm_compute; reflexivity).
  split; [exact H|]. exact (proj1 (proj2 (config_file_roundtrip true sample_manifest sample_config H))).
Defined.
