(* ===== verification/BuildTheorems.v ===== *)
(** * What the build script guarantees (src/bootloader/build.rs)

    A finished build is one sequence of calls, given by what the host answered
    ([build_refines]).  An answer that reports a failure ends the build with
    nothing but messages after it ([build_stops_on_failure]); nothing is written
    for the bootloader, nor linked, before everything else has succeeded
    ([build_links_last]).  The names given to the kernel's symbols are right for
    the file names cargo usually makes, but not for all ([kernel_symbols_renamed]). *)

From Stdlib Require Import Lia ZifyBool Ascii.
From stdpp Require Import base decidable strings numbers list.
From S2P Require Import Prelude RustStr BuildConfig BuildHost BuildScript ConfigFile.

Open Scope Z_scope.

(** ** A finished build *)

(** What the host told a build that finished. *)
Record BuildRun {BC : BuildCrates} := {
  b_target : string;
  b_out_dir : string;
  b_kernel : string;
  b_name : string;            (* the kernel's file name *)
  b_llvm_size : string;
  b_sizes : string;           (* what llvm-size printed *)
  b_text_size : string;
  b_objcopy : string;
  b_ar : string;
  b_manifest_path : string;
  b_contents : string;
  b_manifest : toml;
  b_config : BootloaderConfig;
}.

Section spec.
Context {BC : BuildCrates} (map_physical_memory : bool).

(** The script's conditions. *)
Record accepted (b : BuildRun) : Prop := {
  a_target : file_stem (b_target b) = Some "x86_64-bootloader";
  a_name : file_name (b_kernel b) = Some (b_name b);
  a_utf8 : to_str (b_name b) = Some (b_name b);
  a_sizes : text_size_of (b_sizes b) = Ret (b_text_size b);
  a_text : b_text_size b <> "0";
  a_manifest : toml_parse (b_contents b) = Some (b_manifest b);
  a_config : manifest_config map_physical_memory (b_manifest b) = Ret (b_config b);
}.

(** The calls up to the configuration: the kernel is stripped, wrapped and
    archived, in this order, after the check of its text section. *)
Definition prepared (b : BuildRun) : list event :=
  [Event (EnvVar "TARGET") (Ok (b_target b));
   Event (EnvVar "OUT_DIR") (Ok (b_out_dir b));
   Event (EnvVar "KERNEL") (Ok (b_kernel b));
   Event (PathExists (b_kernel b)) true;
   Event LlvmToolsNew (Ok tt);
   Event (LlvmTool (exe "llvm-size")) (Some (b_llvm_size b));
   Event (CommandOutput (size_command (b_llvm_size b) (b_kernel b))) (Some (b_sizes b));
   Event (LlvmTool (exe "llvm-objcopy")) (Some (b_objcopy b));
   Event (CommandStatus (strip_command (b_objcopy b) (b_out_dir b) (b_kernel b) (b_name b))) (Some true);
   Event (CommandStatus (wrap_command (b_objcopy b) (b_out_dir b) (b_name b))) (Some true);
   Event (LlvmTool (exe "llvm-ar")) (Some (b_ar b));
   Event (CommandStatus (archive_command (b_ar b) (b_out_dir b) (b_name b))) (Some true);
   Event (EnvVar "KERNEL_MANIFEST") (Ok (b_manifest_path b));
   Event (Println ("cargo:rerun-if-changed=" +:+ b_manifest_path b)) tt;
   Event (ReadToString (b_manifest_path b)) (Some (b_contents b))].

(** The calls after it: the constants are written and the archive linked. *)
Definition published (b : BuildRun) : list event :=
  let p := path_join (b_out_dir b) "bootloader_config.rs" in
  Event (FileCreate p) true :: Event (WriteAll p (config_text (b_config b))) true ::
  directives (b_out_dir b) (b_kernel b) (b_name b).

Lemma prepare_runs tr out_dir kernel name cfg :
  runs (prepare map_physical_memory) tr (Finished (out_dir, kernel, name, cfg)) <->
  exists b, accepted b /\ tr = prepared b /\
    b_out_dir b = out_dir /\ b_kernel b = kernel /\ b_name b = name /\ b_config b = cfg.
Proof.
  unfold prepare. split.
  - intros H. run_cases.
    repeat match goal with u : unit |- _ => destruct u end.
    repeat match goal with
    | H : runs check_target _ _ |- _ => apply check_target_runs in H as (target & ? & ->)
    | H : runs locate_kernel _ _ |- _ => apply locate_kernel_runs in H as (? & ? & ->)
    | H : runs find_llvm_tools _ _ |- _ => apply find_llvm_tools_runs in H as ->
    | H : runs (check_text_section _) _ _ |- _ =>
        apply check_text_section_runs in H as (llvm_size & sizes & text_size & ? & ? & ->)
    | H : runs (strip_kernel _ _ _) _ _ |- _ => apply strip_kernel_runs in H as ->
    | H : runs (wrap_kernel _ _ _) _ _ |- _ => apply run_command_runs in H as ->
    | H : runs (archive_kernel _ _) _ _ |- _ => apply archive_kernel_runs in H as (ar & ->)
    | H : runs (read_config _) _ _ |- _ =>
        apply read_config_runs in H as (path & contents & manifest & ? & ? & ->)
    end.
    match goal with
    | _ : manifest_config _ _ = Ret ?cfg |- context [strip_command ?o ?out_dir ?kernel ?name] =>
      exists (Build_BuildRun _ target out_dir kernel name llvm_size sizes text_size o ar path contents manifest cfg)
    end. split; [by split | done].
  - intros (b & [] & -> & <- & <- & <- & <-).
    apply trace_bind. eexists [_], tt, _. split; [reflexivity|]. split; [apply check_target_runs; eauto|].
    apply trace_bind. eexists [_; _; _], (_, _, _), _. split; [reflexivity|].
    split; [apply locate_kernel_runs; eauto|].
    apply trace_bind. eexists [_], tt, _. split; [reflexivity|]. split; [by apply find_llvm_tools_runs|].
    apply trace_bind. eexists [_; _], tt, _. split; [reflexivity|].
    split; [apply check_text_section_runs; eauto 10|].
    apply trace_bind. eexists [_; _], _, _. split; [reflexivity|]. split; [by apply strip_kernel_runs|].
    apply trace_bind. eexists [_], tt, _. split; [reflexivity|]. split; [by apply run_command_runs|].
    apply trace_bind. eexists [_; _], tt, _. split; [reflexivity|]. split; [apply archive_kernel_runs; eauto|].
    apply trace_bind. eexists [_; _; _], _, _. split; [reflexivity|].
    split; [apply read_config_runs; eauto 10|]. done.
Qed.

Lemma build_main_runs tr :
  runs (build_main map_physical_memory) tr (Finished tt) <->
  exists b, accepted b /\ tr = prepared b ++ published b.
Proof.
  unfold build_main. split.
  - intros H. apply trace_bind in H as (tr1 & [[[out_dir kernel] name] cfg] & tr2 & -> & H1 & H2).
    apply prepare_runs in H1 as (b & Hb & -> & <- & <- & <- & <-).
    apply trace_bind in H2 as (tr1 & [] & tr3 & -> & H1 & H2).
    apply write_config_runs in H1 as ->. apply link_directives_runs in H2 as ->. eauto.
  - intros (b & Hb & ->). apply trace_bind.
    exists (prepared b), (b_out_dir b, b_kernel b, b_name b, b_config b), (published b).
    split; [done|]. split; [apply prepare_runs; eauto 10|].
    apply trace_bind. eexists [_; _], tt, _. split; [reflexivity|].
    split; [by apply write_config_runs | by apply link_directives_runs].
Qed.
End spec.

(** C17 (refinement). The build script finishes on exactly the sequences of calls
    of the specification: for answers that name a target, a kernel with a
    non-empty text section, and a manifest whose table is accepted, it checks,
    strips, wraps and archives the kernel, writes the constants of the manifest
    to bootloader_config.rs in the output directory, and then tells cargo to link
    the archive and when to run the script again; every command succeeded. *)
Theorem build_refines {BC : BuildCrates} mpm tr :
  runs (build_script true mpm) tr (Finished tt) <->
  exists b, accepted mpm b /\ tr = prepared b ++ published b.
Proof. apply build_main_runs. Qed.

(** ** Errors *)

(** An answer that reports that something is missing or has failed. *)
Definition failed (c : call) : answer c -> bool :=
  match c return answer c -> bool with
  | EnvVar _ => fun r => match r with Ok _ => false | Err _ => true end
  | PathExists _ | FileCreate _ | WriteAll _ _ => fun ok => negb ok
  | LlvmToolsNew => fun r => match r with Ok _ => false | Err _ => true end
  | LlvmTool _ | CommandOutput _ | ReadToString _ =>
      fun r => match r with Some _ => false | None => true end
  | CommandStatus _ => fun r => match r with Some true => false | _ => true end
  | Println _ | Eprintln _ | Eprint _ => fun _ => false
  end.

Definition is_message (c : call) : bool :=
  match c with Eprintln _ | Eprint _ => true | _ => false end.

(** The endings of a build that did not finish. *)
Definition unsuccessful {A} (e : ending A) : Prop :=
  e = Exited 1 \/ exists why, e = Panicked why.

(** A script that prints messages and gives up. *)
Fixpoint quits {A} (m : script A) : Prop :=
  match m with
  | Return _ => False
  | Exit code => code = 1
  | Stop _ => True
  | Do c k => is_message c = true /\ forall r, quits (k r)
  end.

(** One that does so after every failure. *)
Fixpoint careful {A} (m : script A) : Prop :=
  match m with
  | Return _ | Stop _ => True
  | Exit code => code = 1
  | Do c k => forall r, if failed c r then quits (k r) else careful (k r)
  end.

Lemma quits_runs {A} (m : script A) tr e :
  quits m -> runs m tr e -> unsuccessful e /\ Forall (fun ev => is_message (ev_call ev) = true) tr.
Proof.
  revert tr. induction m as [a|code|why|c k IH]; intros tr; cbn; [done| | |].
  - intros -> [-> ->]. split; [by left | done].
  - intros _ [-> ->]. split; [right; eauto | done].
  - intros [Hc Hk] (r & tr' & -> & H). destruct (IH r tr' (Hk r) H). split; [done|]. by constructor.
Qed.

Lemma quits_bind {A B} (m : script A) (f : A -> script B) : quits m -> quits (m ≫= f).
Proof. induction m as [a|code|why|c k IH]; cbn; try done. intros [? Hk]. split; [done|]. intros r. exact (IH r (Hk r)). Qed.

Lemma careful_bind {A B} (m : script A) (f : A -> script B) :
  careful m -> (forall a, careful (f a)) -> careful (m ≫= f).
Proof.
  intros Hm Hf. induction m as [a|code|why|c k IH]; cbn in *; [done..|].
  intros r. specialize (Hm r). destruct (failed c r); [exact (quits_bind _ f Hm) | exact (IH r Hm)].
Qed.

Lemma careful_runs {A} (m : script A) tr e :
  careful m -> runs m tr e ->
  (forall code, e = Exited code -> code = 1) /\
  (forall before ev after, tr = before ++ ev :: after -> failed (ev_call ev) (ev_answer ev) = true ->
     unsuccessful e /\ Forall (fun ev => is_message (ev_call ev) = true) after).
Proof.
  revert tr. induction m as [a|code|why|c k IH]; intros tr; cbn.
  - intros _ [-> ->]. split; [done|]. intros [|? ?] ? ? [=].
  - intros -> [-> ->]. split; [by intros ? [= ->]|]. intros [|? ?] ? ? [=].
  - intros _ [-> ->]. split; [done|]. intros [|? ?] ? ? [=].
  - intros Hc (r & tr' & -> & H). specialize (Hc r). destruct (failed c r) eqn:Hf.
    + destruct (quits_runs _ _ _ Hc H) as [He Hall]. split.
      { intros code ->. destruct He as [[= ->] | [? [=]]]. done. }
      intros [|ev' before] ev after Heq _; cbn in Heq.
      { injection Heq as <- <-. done. }
      injection Heq as <- ->. split; [done|]. by apply Forall_app in Hall as [_ [_ Hall]%Forall_cons].
    + destruct (IH r tr' Hc H) as [He Hall]. split; [done|].
      intros [|ev' before] ev after Heq Hb; cbn in Heq.
      { injection Heq as <- <-. cbn in Hb. congruence. }
      injection Heq as <- ->. by eapply Hall.
Qed.

Lemma careful_pure {A} (m : outcome A) : careful (pure m).
Proof. by destruct m. Qed.

(** Goes through the answers of a step. *)
Ltac careful_step :=
  repeat match goal with
  | |- True => exact I
  | |- _ /\ _ => split
  | |- ?x = ?x => reflexivity
  | |- forall _, _ => intros ?
  | |- careful (pure _) => apply careful_pure
  | |- careful (expect_some _ _) => apply careful_pure
  | |- careful (expect_some _ _ ≫= _) => apply careful_bind
  | |- careful (pure _ ≫= _) => apply careful_bind
  | _ => progress cbn
  | |- context [match ?x with _ => _ end] => is_var x; destruct x
  | |- context [match ?x with _ => _ end] => destruct x
  end.

Lemma careful_run_command cmd why failed : careful (run_command cmd why failed).
Proof. unfold run_command. careful_step. Qed.

Section careful.
Context {BC : BuildCrates}.

Lemma careful_prepare mpm : careful (prepare mpm).
Proof.
  unfold prepare.
  apply careful_bind; [unfold check_target; careful_step | intros _].
  apply careful_bind; [unfold locate_kernel; careful_step | intros [[out_dir kernel] name]].
  apply careful_bind; [unfold find_llvm_tools; careful_step | intros _].
  apply careful_bind; [unfold check_text_section; careful_step | intros _].
  apply careful_bind; [unfold strip_kernel; careful_step | intros objcopy].
  apply careful_bind; [apply careful_run_command | intros _].
  apply careful_bind; [unfold archive_kernel; careful_step | intros _].
  apply careful_bind; [unfold read_config; careful_step | done].
Qed.

Lemma careful_build mpm : careful (build_main mpm).
Proof.
  apply careful_bind; [apply careful_prepare | intros [[[out_dir kernel] name] cfg]].
  apply careful_bind; [unfold write_config; careful_step | intros _].
  unfold link_directives. careful_step.
Qed.
End careful.

(** C35 (error). As soon as an environment variable or a file is missing, a tool is
    not found, a command cannot be run or one whose status the script asks for
    reports failure, or a file cannot be read or written, the build gives up:
    after that answer the script only prints messages, and it ends in a panic or
    with exit code 1, the only code it ever exits with. *)
Theorem build_stops_on_failure {BC : BuildCrates} mpm tr e :
  runs (build_script true mpm) tr e ->
  (forall code, e = Exited code -> code = 1) /\
  (forall before ev after, tr = before ++ ev :: after -> failed (ev_call ev) (ev_answer ev) = true ->
     unsuccessful e /\ Forall (fun ev => is_message (ev_call ev) = true) after).
Proof. apply careful_runs, careful_build. Qed.

(** ** What is left behind *)

(** The calls by which the script hands its results on. *)
Definition publishes (c : call) : bool :=
  match c with
  | FileCreate _ | WriteAll _ _ => true
  | Println line => starts_with line "cargo:rustc-link"
  | _ => false
  end.

Fixpoint never {A} (p : call -> bool) (m : script A) : Prop :=
  match m with
  | Do c k => p c = false /\ forall r, never p (k r)
  | _ => True
  end.

Lemma never_runs {A} p (m : script A) tr e :
  never p m -> runs m tr e -> Forall (fun ev => p (ev_call ev) = false) tr.
Proof.
  revert tr. induction m as [a|code|why|c k IH]; intros tr; cbn.
  1-3: by intros _ [-> _].
  intros [Hc Hk] (r & tr' & -> & H). constructor; [done | by eapply IH].
Qed.

Lemma never_bind {A B} p (m : script A) (f : A -> script B) :
  never p m -> (forall a, never p (f a)) -> never p (m ≫= f).
Proof.
  intros Hm Hf. induction m as [a|code|why|c k IH]; cbn in *; [done..|].
  destruct Hm as [Hc Hk]. split; [done|]. intros r. exact (IH r (Hk r)).
Qed.

Lemma never_pure {A} p (m : outcome A) : never p (pure m).
Proof. by destruct m. Qed.

Lemma never_request p c : p c = false -> never p (request c).
Proof. by split. Qed.

Create HintDb script.
#[export] Hint Resolve never_pure : script.
#[export] Hint Extern 1 (never _ (request _)) => apply never_request; reflexivity : script.
#[export] Hint Extern 1 (never _ (expect_some _ _)) => apply never_pure : script.
#[export] Hint Extern 1 (never _ (mret _)) => exact I : script.
#[export] Hint Extern 1 (never _ (Return _)) => exact I : script.
#[export] Hint Extern 1 (never _ (Exit _)) => exact I : script.
#[export] Hint Extern 1 (never _ (Stop _)) => exact I : script.

Ltac never_step :=
  repeat match goal with
  | |- never _ (mbind _ _) => apply never_bind; [|intros]
  | |- never _ (match ?x with _ => _ end) => destruct x
  end; auto with script.

Section published.
Context {BC : BuildCrates}.

Lemma prepare_never_publishes mpm : never publishes (prepare mpm).
Proof.
  unfold prepare, check_target, locate_kernel, find_llvm_tools, check_text_section, strip_kernel,
    wrap_kernel, archive_kernel, read_config, run_command.
  never_step.
Qed.

(** The last two steps from the run of the first ones. *)
Lemma publish_runs (b : BuildRun) tr e :
  runs (_ ← write_config (b_out_dir b) (b_config b);
        link_directives (b_out_dir b) (b_kernel b) (b_name b)) tr e ->
  let p := path_join (b_out_dir b) "bootloader_config.rs" in
  e = Finished tt /\ tr = published b \/
  (exists why, e = Panicked why) /\
    (tr = [Event (FileCreate p) false] \/
     tr = [Event (FileCreate p) true; Event (WriteAll p (config_text (b_config b))) false]).
Proof.
  intros (created & tr1 & -> & H). destruct created.
  2: { destruct H as [-> ->]. right. split; [eauto | by left]. }
  destruct H as (written & tr2 & -> & H). destruct written.
  2: { destruct H as [-> ->]. right. split; [eauto | by right]. }
  left. do 6 destruct H as ([] & ? & -> & H). by destruct H as [-> ->].
Qed.
End published.

(** C18 (safety). The script hands nothing on before everything before it has
    succeeded: a run that creates or writes a file itself, or tells cargo to link
    anything, has made all the preparing calls with good answers and an accepted
    manifest, and then either finished or stopped in writing the constants,
    without a link directive. *)
Theorem build_links_last {BC : BuildCrates} mpm tr e ev :
  runs (build_script true mpm) tr e -> In ev tr -> publishes (ev_call ev) = true ->
  exists b rest, accepted mpm b /\ tr = prepared b ++ rest /\
    let p := path_join (b_out_dir b) "bootloader_config.rs" in
    (e = Finished tt /\ rest = published b \/
     (exists why, e = Panicked why) /\
       (rest = [Event (FileCreate p) false] \/
        rest = [Event (FileCreate p) true; Event (WriteAll p (config_text (b_config b))) false])).
Proof.
  intros H Hin Hp. cbn [build_script] in H. unfold build_main in H.
  assert (forall e', ~ runs (prepare mpm) tr e') as Hnot.
  { intros e' H'. pose proof (never_runs _ _ _ _ (prepare_never_publishes mpm) H') as Hall.
    rewrite List.Forall_forall in Hall. rewrite (Hall ev Hin) in Hp. done. }
  apply trace_bind_stop in H as [H | [(code & H & _) | (why & H & _)]];
    [|by destruct (Hnot _ H) | by destruct (Hnot _ H)].
  destruct H as (tr1 & [[[out_dir kernel] name] cfg] & tr2 & -> & H1 & H2).
  apply prepare_runs in H1 as (b & Hb & -> & <- & <- & <- & <-).
  exists b, tr2. split; [done|]. split; [done|]. by apply publish_runs.
Qed.

(** ** The kernel's symbols *)

(** The values given with a flag. *)
Fixpoint flag_values (flag : string) (l : list string) : list string :=
  match l with
  | f :: (v :: _) as l' => if String.eqb f flag then v :: flag_values flag l' else flag_values flag l'
  | _ => []
  end.

Definition is_alphanumeric (a : ascii) : bool :=
  let b := byte_of a in
  ((48 <=? b) && (b <=? 57)) || ((65 <=? b) && (b <=? 90)) || ((97 <=? b) && (b <=? 122)).

Fixpoint map_string (f : ascii -> ascii) (s : string) : string :=
  match s with EmptyString => "" | String a s' => String (f a) (map_string f s') end.

Fixpoint all_chars (p : ascii -> bool) (s : string) : bool :=
  match s with EmptyString => true | String a s' => p a && all_chars p s' end.

(** llvm-objcopy, reading [-I binary], names three symbols after the file, with
    every character that is not alphanumeric replaced by an underscore; [mangle]
    is that replacement. *)
Class Objcopy := { mangle : string -> string }.
Class ObjcopyLaws (O : Objcopy) := {
  mangle_spec : forall file, mangle file = map_string (fun a => if is_alphanumeric a then a else "_"%char) file;
}.

(** The characters of a file name that the script takes into account. *)
Definition plain_char (a : ascii) : bool :=
  is_alphanumeric a || Ascii.eqb a "_" || Ascii.eqb a "-" || Ascii.eqb a ".".

(** The arguments that rename the symbols of [file] to those the bootloader uses. *)
Definition renames {O : Objcopy} (file : string) : list string :=
  ["_binary_" +:+ mangle file +:+ "_start=_kernel_start_addr";
   "_binary_" +:+ mangle file +:+ "_end=_kernel_end_addr";
   "_binary_" +:+ mangle file +:+ "_size=_kernel_size"].

Lemma replace_char_map a b s : replace_char a b s = map_string (fun x => if Ascii.eqb x a then b else x) s.
Proof. induction s as [|x s IH]; cbn; [done|]. by rewrite IH. Qed.

Lemma map_string_eq f g s :
  map_string f s = map_string g s <-> all_chars (fun a => Ascii.eqb (f a) (g a)) s = true.
Proof.
  induction s as [|x s IH]; cbn; [done|]. rewrite andb_true_iff, Ascii.eqb_eq, <-IH.
  split; [intros [= ? ?]; done | intros [-> ->]; done].
Qed.

Lemma map_string_map f g s : map_string f (map_string g s) = map_string (fun a => f (g a)) s.
Proof. induction s as [|x s IH]; cbn; [done|]. by rewrite IH. Qed.

Lemma all_chars_app p a b : all_chars p (a +:+ b) = all_chars p a && all_chars p b.
Proof. induction a as [|x a IH]; cbn; [done|]. by rewrite IH, andb_assoc. Qed.

Lemma all_chars_ext p q s : (forall a, p a = q a) -> all_chars p s = all_chars q s.
Proof. intros H. induction s as [|x s IH]; cbn; [done|]. by rewrite H, IH. Qed.

(** The script and llvm-objcopy agree on a character exactly if it is plain. *)
Lemma replaced_char a :
  Ascii.eqb (if Ascii.eqb (if Ascii.eqb a "-" then "_" else a) "." then "_" else
             if Ascii.eqb a "-" then "_" else a)%char
            (if is_alphanumeric a then a else "_"%char) = plain_char a.
Proof. destruct a as [[] [] [] [] [] [] [] []]; reflexivity. Qed.

Section symbols.
Context {O : Objcopy} {OL : ObjcopyLaws O}.

Lemma replaced_mangle name :
  stripped_kernel_file_name_replaced name = mangle (stripped_kernel_file_name name) <->
  all_chars plain_char name = true.
Proof.
  unfold stripped_kernel_file_name_replaced. rewrite mangle_spec, !replace_char_map, map_string_map, map_string_eq.
  rewrite (all_chars_ext _ plain_char) by (intros a; apply replaced_char).
  unfold stripped_kernel_file_name. by rewrite all_chars_app.
Qed.

Lemma str_app_cancel_l a b c : a +:+ b = a +:+ c -> b = c.
Proof. induction a as [|x a IH]; cbn; [done|]. intros [= H]. by apply IH. Qed.

Lemma str_app_cancel_r a b c : a +:+ c = b +:+ c -> a = b.
Proof.
  revert b. induction a as [|x a IH]; intros [|y b]; cbn; [done| | |].
  - intros H. apply (f_equal String.length) in H. cbn in H. rewrite str_length_app in H. lia.
  - intros H. apply (f_equal String.length) in H. cbn in H. rewrite str_length_app in H. lia.
  - intros [= -> H]. by rewrite (IH b H).
Qed.
End symbols.

(** C37 (functional). The command that wraps the kernel renames the symbols that
    llvm-objcopy gives it to [_kernel_start_addr], [_kernel_end_addr] and
    [_kernel_size], which the bootloader links against, exactly if the kernel's
    file name consists of letters, digits, underscores, hyphens and dots. *)
Theorem kernel_symbols_renamed {O : Objcopy} {OL : ObjcopyLaws O} objcopy out_dir name :
  flag_values "--redefine-sym" (args (wrap_command objcopy out_dir name)) =
    renames (stripped_kernel_file_name name) <->
  all_chars plain_char name = true.
Proof.
  rewrite <-replaced_mangle. unfold renames. split.
  - intros [= H _ _].
    exact (str_app_cancel_r (stripped_kernel_file_name_replaced name) _ "_start=_kernel_start_addr" H).
  - intros <-. reflexivity.
Qed.

(** ** A sample *)

(** A host on which the build succeeds, up to its answer to [WriteAll]. *)
Definition sample_host (written : bool) : host := fun _ c =>
  match c return answer c with
  | EnvVar name => Ok
      (if String.eqb name "TARGET" then "/build/x86_64-bootloader.json"
       else if String.eqb name "OUT_DIR" then "/build/out"
       else if String.eqb name "KERNEL" then "target/llm_os/llm-os"
       else "Cargo.toml")
  | PathExists _ | FileCreate _ => true
  | LlvmToolsNew => Ok tt
  | LlvmTool name => Some ("/llvm/" +:+ name)
  | CommandOutput _ => Some ("   text    data" +:+ newline_str +:+ "  40960   1024" +:+ newline_str)
  | CommandStatus _ => Some true
  | ReadToString _ => Some "manifest"
  | WriteAll _ _ => written
  | Println _ | Eprintln _ | Eprint _ => tt
  end.

Definition sample_run (written : bool) : list event * ending unit :=
  perform (sample_host written) (build_script true true) [].

(** On this host the build finishes. *)
Example sample_finishes : snd (sample_run true) = Finished tt.
Proof. vm_compute. reflexivity. Qed.

Lemma sample_build_runs written : runs (build_script true true) (fst (sample_run written)) (snd (sample_run written)).
Proof. exact (perform_runs (sample_host written) (build_script true true) []). Qed.

(** The file cannot be written. *)
Lemma build_stops_on_failure_witness :
  unsuccessful (snd (sample_run false)) /\ length (fst (sample_run false)) = 17%nat.
Proof.
  split; [|vm_compute; reflexivity].
  pose proof (build_stops_on_failure true (fst (sample_run false)) (snd (sample_run false))
    (sample_build_runs false)) as [_ H].
  exact (proj1 (H (take 16 (fst (sample_run false)))
    (Event (WriteAll "/build/out/bootloader_config.rs" (config_text sample_config)) false) []
    ltac:(vm_compute; reflexivity) eq_refl)).
Defined.

Lemma build_links_last_witness :
  exists b, accepted true b /\ exists rest, fst (sample_run true) = prepared b ++ rest.
Proof.
  pose proof (build_links_last true (fst (sample_run true)) (snd (sample_run true))
    (Event (Println "cargo:rustc-link-search=native=/build/out") tt) (sample_build_runs true)
    ltac:(vm_compute; tauto) eq_refl) as (b & rest & Hb & Htr & _).
  exists b. split; [exact Hb|]. exists rest. exact Htr.
Defined.

#[local] Instance sample_objcopy : Objcopy := {|
  mangle := map_string (fun a => if is_alphanumeric a then a else "_"%char);
|}.

#[local] Instance sample_objcopy_laws : ObjcopyLaws sample_objcopy.
Proof. by split. Qed.

(** The kernel of this repository is found; one called [c++] would not be. *)
Lemma kernel_symbols_renamed_witness :
  flag_values "--redefine-sym" (args (wrap_command "objcopy" "out" "llm-os")) =
    renames (stripped_kernel_file_name "llm-os") /\
  flag_values "--redefine-sym" (args (wrap_command "objcopy" "out" "c++")) <>
    renames (stripped_kernel_file_name "c++").
Proof.
  split.
  - apply (kernel_symbols_renamed "objcopy" "out" "llm-os"). reflexivity.
  - intros H. apply (kernel_symbols_renamed "objcopy" "out" "c++") in H. discriminate H.
Defined.
