(* ===== verification/BootInfo.v ===== *)
(** * The boot information (src/bootloader/src/bootinfo/mod.rs)

    The structure the bootloader writes for the kernel.  An absent TLS segment
    is stored as a template of three zeroes because [Option] has no C layout. *)

From Stdlib Require Import Lia.
From stdpp Require Import base decidable strings numbers list.
From S2P Require Import Prelude MemoryMap X86.

Open Scope Z_scope.

Record TlsTemplate := { tls_start_addr : Z; tls_file_size : Z; tls_mem_size : Z }.

Record BootInfo := {
  memory_map : MemoryMap;
  recursive_page_table_addr : Z;
  physical_memory_offset : Z;
  bi_tls_template : TlsTemplate;
  non_exhaustive : Z;
}.

Definition BootInfo_new (memory_map : MemoryMap) (tls_template : option TlsTemplate)
    (recursive_page_table_addr physical_memory_offset : Z) : BootInfo :=
  let tls_template :=
    match tls_template with
    | Some t => t
    | None => {| tls_start_addr := 0; tls_file_size := 0; tls_mem_size := 0 |}
    end in
  {| memory_map := memory_map;
     recursive_page_table_addr := recursive_page_table_addr;
     physical_memory_offset := physical_memory_offset;
     bi_tls_template := tls_template;
     non_exhaustive := 0 |}.

(** The map of a mutable boot information replaced. *)
Definition with_memory_map (mm : MemoryMap) (self : BootInfo) : BootInfo :=
  {| memory_map := mm; recursive_page_table_addr := recursive_page_table_addr self;
     physical_memory_offset := physical_memory_offset self; bi_tls_template := bi_tls_template self;
     non_exhaustive := non_exhaustive self |}.

Definition tls_template (self : BootInfo) : option TlsTemplate :=
  if tls_mem_size (bi_tls_template self) >? 0 then Some (bi_tls_template self) else None.

Definition recursive_index (self : BootInfo) : Z :=
  Z.land (Z.shiftr (recursive_page_table_addr self) 12) 0x1ff.

(** The macro [entry_point!] of src/bootloader/src/lib.rs: the function it
    declares under the symbol [_start] checks the signature of the one it is given
    and calls it with its own argument. *)
Definition __impl_start {R : Type} (path : BootInfo -> R) (boot_info : BootInfo) : R :=
  let f : BootInfo -> R := path in
  f boot_info.

(** The address of the page whose four table indices are all [i]. *)
Definition recursive_addr (i : Z) : Z :=
  sign_extend48 (Z.lor (Z.shiftl i 39) (Z.lor (Z.shiftl i 30) (Z.lor (Z.shiftl i 21) (Z.shiftl i 12)))).

Lemma land_511 z : Z.land z 0x1ff = z mod 512.
Proof. change 0x1ff with (Z.ones 9). rewrite Z.land_ones by lia. done. Qed.

Lemma recursive_addr_index i : 0 <= i < 512 -> Z.land (Z.shiftr (recursive_addr i) 12) 0x1ff = i.
Proof.
  intros Hi. rewrite land_511.
  assert (Forall (fun n => Z.shiftr (recursive_addr (Z.of_nat n)) 12 mod 512 = Z.of_nat n)
    (seq 0 512)) as Hall by by_compute.
  rewrite Forall_forall in Hall. rewrite <-(Z2Nat.id i) by lia.
  apply Hall, elem_of_seq. lia.
Qed.

(** C36 (roundtrip). The boot information gives back what it was built from: the
    TLS template unless it was absent or of size 0, in which case there is none;
    the map and the offset unchanged; and, when the recursive entry of the page
    table is [i], the index [i]. *)
Theorem boot_info_roundtrip mm tls i offset :
  0 <= i < 512 ->
  let info := BootInfo_new mm tls (recursive_addr i) offset in
  memory_map info = mm /\ physical_memory_offset info = offset /\ recursive_index info = i /\
  tls_template info =
    match tls with
    | Some t => if tls_mem_size t >? 0 then Some t else None
    | None => None
    end.
Proof.
  intros Hi info. split; [reflexivity|]. split; [reflexivity|].
  split; [exact (recursive_addr_index i Hi) | by destruct tls].
Qed.

Lemma boot_info_roundtrip_witness :
  let info := BootInfo_new MemoryMap_new None (recursive_addr 510) 0x10000000000 in
  memory_map info = MemoryMap_new /\ physical_memory_offset info = 0x10000000000 /\
  recursive_index info = 510 /\ tls_template info = None.
Proof. apply (boot_info_roundtrip MemoryMap_new None 510 0x10000000000). lia. Defined.
