(* ===== verification/PageTable.v ===== *)
(** * Loading the kernel (src/bootloader/src/page_table.rs)

    [map_segment] maps the frames of the kernel file at the addresses of a
    segment, gives the segment a copy of its last file page when zeroes follow
    it, maps fresh frames for the rest and zeroes it; [map_kernel] does so for
    all segments and maps the stack.  The page table is the recursive one of the
    crate x86_64: its operations are those of [Mapper] and [unmap], and the pages
    under which it reaches its own tables, the [window], are left out of its
    laws, because they change whenever a table is added.

    The state is the page table, the memory map behind the frame allocator and
    the bytes of the physical memory, the frames of page tables apart (they are
    the page table's own state).  Writing at an unmapped address is a fault; the
    [WRITABLE] flag does not matter because write protection is enabled only
    later, by [enable_write_protect_bit]. *)

From Stdlib Require Import Lia.
From stdpp Require Import base decidable strings numbers list.
From S2P Require Import Prelude UnstableSort MemoryMap X86 X86Huge FrameAllocator EntryCost Level4 Memory Paging BootInfo.

Open Scope Z_scope.

(** ** Interfaces *)

(** Of the crate xmas_elf: the type of a segment and its flags. *)
Inductive SegmentType :=
| Null | Load | Dynamic | Interp | Note | ShLib | Phdr | Tls | GnuRelro
| OsSpecific (t : Z)
| ProcessorSpecific (t : Z).

Class XmasElf := {
  get_type : ProgramHeader64 -> result SegmentType string;
  is_execute : Z -> bool;
  is_write : Z -> bool;
}.

Section recursive.
Context {X : X86Phys} {V : X86Virt} {HG : X86Huge X V}.

(** The 2 MiB page around a page, and the first page of a 2 MiB page. *)
Definition huge_of (p : Page) : Page2M := page2_containing_address (page_start_address p).
Definition first_page (q : Page2M) : Page := page_containing_address (page2_start_address q).

Inductive UnmapError :=
| UnmapParentEntryHugePage
| PageNotMapped
| InvalidFrameAddress (addr : PhysAddr).

Class Recursive (M : Type) := {
  unmap : Page -> M -> result PhysFrame UnmapError * M;
  window : M -> Page -> bool;
  (** the frame and the flags a 2 MiB page is mapped with *)
  translate2 : M -> Page2M -> option (PhysFrame2M * Z);
  (** the entry for a 2 MiB page is in use: by a mapping or by a table of pages *)
  occupied2 : M -> Page2M -> bool;
  (** the 2 MiB page lies under an entry that maps 1 GiB *)
  huge_parent2 : M -> Page2M -> bool;
  (** the entry for the 1 GiB of addresses from [z * 2 ^ 30] on is in use *)
  occupied3 : M -> Z -> bool;
}.

(** Take [n] frames from an allocator, or all it has; were there [n]? *)
Fixpoint fa_draw {A} {FA : FrameAlloc A} (n : nat) (a : A) : outcome (bool * A) :=
  match n with
  | O => Ret (true, a)
  | S n' =>
      '(r, a') ← fa_allocate_frame a;
      match r with Some _ => fa_draw n' a' | None => Ret (false, a') end
  end.

(** What no operation on pages changes. *)
Definition same_layout {M} {MP : Mapper M} {RM : Recursive M} (m m' : M) : Prop :=
  (forall p, window m' p = window m p /\ huge_parent m' p = huge_parent m p) /\
  forall q, window m (first_page q) = false ->
    translate2 m' q = translate2 m q /\ huge_parent2 m' q = huge_parent2 m q.

(** Tables of pages are added only for 2 MiB pages of [Q]. *)
Definition same_tables {M} {RM : Recursive M} (Q : Page2M -> Prop) (m m' : M) : Prop :=
  forall q, window m (first_page q) = false -> ~ Q q -> occupied2 m' q = occupied2 m q.

(** No table is taken away. *)
Definition grown {M} {RM : Recursive M} (m m' : M) : Prop :=
  (forall q, occupied2 m q = true -> occupied2 m' q = true) /\
  forall z, occupied3 m z = true -> occupied3 m' z = true.

(** [map_to] takes at most three frames for new tables from the allocator, of
    which nothing is assumed, and fails when one is missing; it takes none when
    there is a table for the page's 2 MiB already.  [unmap] removes a mapping,
    and no table.  A page that is mapped does not lie under a huge page. *)
Class RecursiveLaws (M : Type) {MP : Mapper M} {RM : Recursive M} : Prop := {
  huge_not_mapped m p e : translate m p = Some e -> huge_parent m p = false;
  map_to_draws A (FA : FrameAlloc A) page frame flags m (a : A) :
    window m page = false ->
    exists n, (n <= 3)%nat /\ (occupied2 m (huge_of page) = true -> n = 0%nat) /\
      match fa_draw n a with
      | Panic why => map_to page frame flags m a = Panic why
      | Ret (complete, a') =>
          exists r m', map_to page frame flags m a = Ret (r, m', a') /\ same_layout m m' /\
            same_tables (fun q => q = huge_of page) m m' /\
            match r with
            | Ok _ => complete = true /\ grown m m' /\ occupied2 m' (huge_of page) = true /\
                translate m page = None /\ translate m' page = Some (frame, flags) /\
                forall p, window m p = false -> p <> page -> translate m' p = translate m p
            | Err e => (forall p, window m p = false -> translate m' p = translate m p) /\
                match e with
                | FrameAllocationFailed => complete = false
                | ParentEntryHugePage => huge_parent m page = true
                | PageAlreadyMapped f => exists fl, translate m page = Some (f, fl)
                end
            end
      end;
  unmap_spec page m :
    window m page = false ->
    match unmap page m with
    | (Ok f, m') => same_layout m m' /\ same_tables (fun q => q = huge_of page) m m' /\ grown m m' /\
        (exists fl, translate m page = Some (f, fl)) /\
        translate m' page = None /\
        forall p, window m p = false -> p <> page -> translate m' p = translate m p
    | (Err e, m') => m' = m /\
        match e with
        | UnmapParentEntryHugePage => huge_parent m page = true
        | PageNotMapped | InvalidFrameAddress _ => translate m page = None
        end
    end;
}.
End recursive.

(** ** State and effects *)

Record LoadState {M : Type} := {
  page_table : M;
  frames : MemoryMap;
  ram : Z -> Z;
}.
Arguments LoadState M : clear implicits.

(** A computation on the state that may fail with an error or panic. *)
Definition loader (M E A : Type) : Type := LoadState M -> outcome (result A E * LoadState M).

Section loader.
Context {M : Type}.

#[export] Instance loader_ret {E} : MRet (loader M E) := fun A a s => Ret (Ok a, s).
#[export] Instance loader_bind {E} : MBind (loader M E) := fun A B f m s =>
  match m s with
  | Ret (Ok a, s') => f a s'
  | Ret (Err e, s') => Ret (Err e, s')
  | Panic why => Panic why
  end.

Definition fail {E A} (e : E) : loader M E A := fun s => Ret (Err e, s).

(** A computation that does not touch the state. *)
Definition pure {E A} (m : outcome A) : loader M E A := fun s =>
  match m with Ret a => Ret (Ok a, s) | Panic why => Panic why end.

(** The conversion of the error in [?]. *)
Definition map_err {E E' A} (f : E -> E') (m : loader M E A) : loader M E' A := fun s =>
  match m s with
  | Ret (Ok a, s') => Ret (Ok a, s')
  | Ret (Err e, s') => Ret (Err (f e), s')
  | Panic why => Panic why
  end.

Fixpoint for_all {E A} (l : list A) (body : A -> loader M E unit) : loader M E unit :=
  match l with
  | [] => mret tt
  | x :: l' => _ ← body x; for_all l' body
  end.
End loader.

(** ** Operations *)

Record MemoryInfo `{X86Virt} := { stack_end : VirtAddr; tls_segment : option TlsTemplate }.

Inductive MapKernelError `{X86Phys} :=
| Mapping (e : MapToError)
| MultipleTlsSegments.

Section operations.
Context {B : Build} {SORT : UnstableSort} {X : X86Phys} {V : X86Virt} {HG : X86Huge X V} {ELF : XmasElf}.
Context {M : Type} {MP : Mapper M} {RM : Recursive M}.

Abbreviation mapping := (loader M MapToError).

(** [allocate_frame(t).ok_or(FrameAllocationFailed)?] *)
Definition allocate_or_fail (t : MemoryRegionType) : mapping PhysFrame := fun s =>
  '(r, mm) ← allocate_frame t (frames s);
  Ret (match r with Some frame => Ok frame | None => Err FrameAllocationFailed end,
       {| page_table := page_table s; frames := mm; ram := ram s |}).

(** [PageTableAllocator] *)
#[local] Instance page_table_allocator : FrameAlloc MemoryMap := allocate_frame PageTable.

Definition map_page (page : Page) (phys_frame : PhysFrame) (flags : Z) : mapping unit := fun s =>
  '(r, m, mm) ← map_to page phys_frame flags (page_table s) (frames s);
  Ret (r, {| page_table := m; frames := mm; ram := ram s |}).

(** The result of [unmap], as [map_segment] handles it. *)
Definition unmap_page (page : Page) : mapping unit := fun s =>
  let '(r, m) := unmap page (page_table s) in
  let s' := {| page_table := m; frames := frames s; ram := ram s |} in
  match r with
  | Ok _ => Ret (Ok tt, s')
  | Err UnmapParentEntryHugePage => Ret (Err ParentEntryHugePage, s')
  | Err _ => Panic "internal error: entered unreachable code"
  end.

(** Memory accesses through the page table: the contents of a page by offset,
    and one byte. *)
Definition page_fault : string := "page fault".

Definition read_page (page : Page) : mapping (Z -> Z) := fun s =>
  match translate (page_table s) page with
  | Some (f, _) => Ret (Ok (fun i => ram s (4096 * frame_number f + i)), s)
  | None => Panic page_fault
  end.

Definition write_page (page : Page) (bytes : Z -> Z) : mapping unit := fun s =>
  match translate (page_table s) page with
  | Some (f, _) =>
      let base := 4096 * frame_number f in
      Ret (Ok tt, {| page_table := page_table s; frames := frames s;
                     ram := fun j => if (base <=? j) && (j <? base + 4096) then bytes (j - base)
                                     else ram s j |})
  | None => Panic page_fault
  end.

Definition write_byte (addr : VirtAddr) (b : Z) : mapping unit := fun s =>
  match translate (page_table s) (page_containing_address addr) with
  | Some (f, _) =>
      let at_ := 4096 * frame_number f + virt_as_u64 addr mod 4096 in
      Ret (Ok tt, {| page_table := page_table s; frames := frames s;
                     ram := fun j => if j =? at_ then b else ram s j |})
  | None => Panic page_fault
  end.

Definition segment_flags (flags : Z) : Z :=
  let page_table_flags := PRESENT in
  let page_table_flags :=
    if negb (is_execute flags) then Z.lor page_table_flags NO_EXECUTE else page_table_flags in
  if is_write flags then Z.lor page_table_flags WRITABLE else page_table_flags.

(** The loop over the frames of the file. *)
Definition map_file_frame (start_frame : PhysFrame) (start_page : Page) (flags : Z) (frame : PhysFrame) :
    mapping unit :=
  offset ← pure (frame_sub frame start_frame);
  page ← pure (page_add start_page offset);
  map_page page frame flags.

(** A page of the segment or the stack that has a frame of its own. *)
Definition map_fresh_page (t : MemoryRegionType) (flags : Z) (page : Page) : mapping unit :=
  frame ← allocate_or_fail t;
  map_page page frame flags.

(** The last page of the file is replaced by a copy, through a temporary
    mapping. *)
Definition copy_last_page (virt_start_addr : VirtAddr) (file_size flags : Z) : mapping unit :=
  temp ← pure (VirtAddr_new 0xfeeefeee000);
  let temp_page := page_containing_address temp in
  new_frame ← allocate_or_fail Kernel;
  _ ← map_page temp_page new_frame flags;
  past ← pure (virt_add virt_start_addr file_size);
  last ← pure (virt_sub past 1);
  let last_page := page_containing_address last in
  contents ← read_page last_page;
  _ ← write_page temp_page contents;
  _ ← unmap_page last_page;
  map_page last_page new_frame flags.

Definition zero_byte (virt_start_addr : VirtAddr) (offset : Z) : mapping unit :=
  addr ← pure (virt_add virt_start_addr offset);
  write_byte addr 0.

(** [for offset in lo..hi] *)
Definition offsets (lo hi : Z) : list Z :=
  map (fun i => lo + Z.of_nat i) (seq 0 (Z.to_nat (hi - lo))).

Definition map_bss (virt_start_addr : VirtAddr) (file_size mem_size flags : Z) : mapping unit :=
  zero_start ← pure (virt_add virt_start_addr file_size);
  zero_end ← pure (virt_add virt_start_addr mem_size);
  _ ← (if negb (Z.land (virt_as_u64 zero_start) 0xfff =? 0)
       then copy_last_page virt_start_addr file_size flags else mret tt);
  up ← pure (align_up (virt_as_u64 zero_start) 4096);
  start_addr ← pure (VirtAddr_new up);
  let start_page := page_containing_address start_addr in
  let end_page := page_containing_address zero_end in
  _ ← for_all (page_range_inclusive start_page end_page) (map_fresh_page Kernel flags);
  for_all (offsets file_size mem_size) (zero_byte virt_start_addr).

Definition map_segment (segment : ProgramHeader64) (kernel_start : PhysAddr) :
    mapping (option TlsTemplate) :=
  typ ← pure (unwrap (get_type segment));
  match typ with
  | Load =>
      phys_start_addr ← pure (phys_add kernel_start (ph_offset segment));
      virt_start_addr ← pure (VirtAddr_new (virtual_addr segment));
      let start_page := page_containing_address virt_start_addr in
      let start_frame := frame_containing_address phys_start_addr in
      past ← pure (phys_add phys_start_addr (file_size segment));
      last ← pure (phys_sub past 1);
      let end_frame := frame_containing_address last in
      let flags := segment_flags (ph_flags segment) in
      _ ← for_all (frame_range_inclusive start_frame end_frame)
            (map_file_frame start_frame start_page flags);
      _ ← (if mem_size segment >? file_size segment
           then map_bss virt_start_addr (file_size segment) (mem_size segment) flags
           else mret tt);
      mret None
  | Tls =>
      mret (Some {| tls_start_addr := virtual_addr segment; tls_file_size := file_size segment;
                    tls_mem_size := mem_size segment |})
  | _ => mret None
  end.

(** The loop over the segments. *)
Fixpoint map_segments (segments : list ProgramHeader64) (kernel_start : PhysAddr)
    (tls_segment : option TlsTemplate) : loader M MapKernelError (option TlsTemplate) :=
  match segments with
  | [] => mret tls_segment
  | segment :: segments' =>
      tls ← map_err Mapping (map_segment segment kernel_start);
      match tls with
      | Some tls =>
          match tls_segment with
          | Some _ => fail MultipleTlsSegments
          | None => map_segments segments' kernel_start (Some tls)
          end
      | None => map_segments segments' kernel_start tls_segment
      end
  end.

Definition map_kernel (kernel_start : PhysAddr) (stack_start : Page) (stack_size : Z)
    (segments : list ProgramHeader64) : loader M MapKernelError MemoryInfo :=
  tls_segment ← map_segments segments kernel_start None;
  stack_start ← pure (page_add stack_start 1);
  stack_end ← pure (page_add stack_start stack_size);
  let flags := Z.lor PRESENT WRITABLE in
  _ ← map_err Mapping (for_all (page_range stack_start stack_end) (map_fresh_page KernelStack flags));
  mret {| stack_end := page_start_address stack_end; tls_segment := tls_segment |}.
End operations.

(** ** What a computation does to the state *)

Section proofs.
Context {B : Build} {SORT : UnstableSort} {SL : UnstableSortLaws SORT}.
Context {X : X86Phys} {XL : X86PhysLaws X} {V : X86Virt} {VL : X86VirtLaws V} {HG : X86Huge X V} {ELF : XmasElf}.
Context {M : Type} {MP : Mapper M} {RM : Recursive M} {RL : RecursiveLaws M}.

Abbreviation state := (LoadState M).

(** The map is well formed and no frame has two owners. *)
Definition ready (s : state) : Prop := wf_map (frames s) /\ disjoint_map (frames s).

(** From [mm] to [mm'] at most [n] usable frames are taken. *)
Definition within (n : nat) (mm mm' : MemoryMap) : Prop :=
  (length (usable_numbers mm) <= length (usable_numbers mm') + n)%nat.

Lemma within_refl n mm : within n mm mm.
Proof. unfold within. lia. Qed.

(** The entries of the memory map a computation may use: for allocations of one
    type, for two more on account of every table that may have to be made, and
    some to spare. *)
Record Budget := {
  kind : MemoryRegionType;
  spare : nat;
  page_tables : list Page2M;
  page_directories : list Z;
}.

Definition missing (b : Budget) (m : M) : nat :=
  length (List.filter (fun q => negb (occupied2 m q)) (page_tables b)) +
  length (List.filter (fun z => negb (occupied3 m z)) (page_directories b)).

Definition slack (b : Budget) (s : state) : nat :=
  spare b + entry_cost (kind b) (frames s) + 2 * missing b (page_table s).

(** The budget of allocations for [t] before what [b] is for. *)
Definition before (t : MemoryRegionType) (b : Budget) : Budget :=
  {| kind := t; spare := S (spare b); page_tables := page_tables b; page_directories := page_directories b |}.

Lemma slack_before t b s : (slack b s <= slack (before t b) s)%nat.
Proof.
  unfold slack, missing, before. cbn [kind spare page_tables page_directories].
  pose proof (entry_cost_kind (kind b) t (frames s)). lia.
Qed.

Lemma filter_sub {A} (f g : A -> bool) l :
  (forall x, g x = true -> f x = true) -> (length (List.filter g l) <= length (List.filter f l))%nat.
Proof.
  intros Hfg. induction l as [|x l IH]; cbn [List.filter]; [lia|].
  destruct (g x) eqn:Hg; [rewrite (Hfg x Hg); cbn [length]; lia|]. destruct (f x); cbn [length]; lia.
Qed.

Lemma missing_grown b (m m' : M) : grown m m' -> (missing b m' <= missing b m)%nat.
Proof.
  intros [H2 H3]. unfold missing.
  apply Nat.add_le_mono; apply filter_sub; intros x; rewrite !negb_true_iff, <-!not_true_iff_false; auto.
Qed.

(** [c] returns from [s] in a state with [Q] and takes at most [n] frames; when
    it succeeds the budget [b] has become [b']; it panics only because the memory
    map has not got the entries of [b] left. *)
Definition runs {E A} (b b' : Budget) (n : nat) (c : loader M E A) (s : state)
    (Q : result A E -> state -> Prop) : Prop :=
  match c s with
  | Ret (r, s') =>
      ready s' /\ within n (frames s) (frames s') /\
      match r with Ok _ => (slack b' s' <= slack b s)%nat | Err _ => True end /\ Q r s'
  | Panic why => why = map_full /\ (MAX_MEMORY_MAP_SIZE < slack b s)%nat
  end.

Lemma runs_weaken {E A} b b' n n' (c : loader M E A) s (Q Q' : _ -> _ -> Prop) :
  (n <= n')%nat -> (forall r s', Q r s' -> Q' r s') -> runs b b' n c s Q -> runs b b' n' c s Q'.
Proof.
  unfold runs, within. destruct (c s) as [[r s']|]; intros Hn HQ; [|done]. intros (? & ? & ? & ?).
  split; [done|]. split; [lia | auto].
Qed.

(** A larger budget will do, and less may be left of it. *)
Lemma runs_budget {E A} a a' b b' n (c : loader M E A) s (Q : _ -> _ -> Prop) :
  (forall s, slack b s <= slack a s)%nat -> (forall s, slack a' s <= slack b' s)%nat ->
  runs b b' n c s Q -> runs a a' n c s Q.
Proof.
  unfold runs. intros Ha Hb. pose proof (Ha s). destruct (c s) as [[[x|e] s']|]; [| |intuition lia];
    intros (? & ? & Hle & ?); split_and!; auto. pose proof (Hb s'). lia.
Qed.

Lemma runs_ret {E A} b (a : A) s (Q : result A E -> state -> Prop) :
  ready s -> Q (Ok a) s -> runs b b 0 (mret a) s Q.
Proof. intros. unfold runs, mret, loader_ret. auto using within_refl. Qed.

Lemma runs_fail {E A} b b' (e : E) s (Q : result A E -> state -> Prop) :
  ready s -> Q (Err e) s -> runs b b' 0 (fail e) s Q.
Proof. intros. unfold runs, fail. auto using within_refl. Qed.

Lemma runs_bind {E A C} b b1 b' n1 n2 (c : loader M E A) (k : A -> loader M E C) s
    (Q1 : result A E -> state -> Prop) (Q : result C E -> state -> Prop) :
  runs b b1 n1 c s Q1 ->
  (forall a s1, ready s1 -> Q1 (Ok a) s1 -> runs b1 b' n2 (k a) s1 Q) ->
  (forall e s1, Q1 (Err e) s1 -> Q (Err e) s1) ->
  runs b b' (n1 + n2) (c ≫= k) s Q.
Proof.
  unfold runs, within, mbind, loader_bind. intros Hc Hk He. destruct (c s) as [[[a|e] s1]|]; [| |done].
  - destruct Hc as (Hr & Hn & Hb & HQ). specialize (Hk a s1 Hr HQ).
    destruct (k a s1) as [[[x|e] s2]|]; [| |intuition lia]; destruct Hk as (? & ? & ? & ?);
      (split; [done|]; split; [lia|]; split; [lia || done | done]).
  - destruct Hc as (Hr & Hn & _ & HQ). split; [done|]. split; [lia | auto].
Qed.

(** A computed value, known in advance. *)
Lemma runs_pure {E A C} b b' n (o : outcome A) a (k : A -> loader M E C) s Q :
  o = Ret a -> runs b b' n (k a) s Q -> runs b b' n (pure o ≫= k) s Q.
Proof. intros ->. unfold runs, mbind, loader_bind, pure. done. Qed.

(** A step whose error is converted. *)
Lemma runs_bind_err {E E' A C} b b1 b' n1 n2 (f : E -> E') (c : loader M E A) (k : A -> loader M E' C) s
    (Q1 : result A E -> state -> Prop) (Q : result C E' -> state -> Prop) :
  runs b b1 n1 c s Q1 ->
  (forall a s1, ready s1 -> Q1 (Ok a) s1 -> runs b1 b' n2 (k a) s1 Q) ->
  (forall e s1, Q1 (Err e) s1 -> Q (Err (f e)) s1) ->
  runs b b' (n1 + n2) (map_err f c ≫= k) s Q.
Proof.
  intros Hc Hk He. eapply (runs_bind _ b1 _ _ _ _ _ _ (fun r s' =>
    match r with Ok a => Q1 (Ok a) s' | Err e' => exists e, e' = f e /\ Q1 (Err e) s' end)); [|done|].
  - unfold runs, map_err in *. destruct (c s) as [[[a|e] s1]|]; [done | | done].
    destruct Hc as (? & ? & ? & ?). split_and!; eauto.
  - intros e' s1 (e & -> & H). auto.
Qed.

(** Frames leave the usable memory and nothing else changes its owner. *)
Definition consumed (mm mm' : MemoryMap) : Prop :=
  forall n, owners n mm' = owners n mm \/ (owners n mm = [Usable] /\ Usable ∉ owners n mm').

#[export] Instance consumed_preorder : PreOrder consumed.
Proof.
  split; [by left|]. intros m1 m2 m3 H12 H23 n.
  destruct (H12 n) as [H1 | [H1 H1']], (H23 n) as [H2 | [H2 H2']].
  - left. congruence.
  - right. split; [congruence | done].
  - right. rewrite H2. done.
  - rewrite H2 in H1'. destruct H1'. by left.
Qed.

Lemma consumed_kept mm mm' n : consumed mm mm' -> owners n mm <> [Usable] -> owners n mm' = owners n mm.
Proof. intros H Hn. by destruct (H n) as [|[]]. Qed.

(** A frame that was handed out on the way. *)
Definition fresh (mm mm' : MemoryMap) (f : PhysFrame) : Prop :=
  owners (frame_number f) mm = [Usable] /\ Usable ∉ owners (frame_number f) mm'.

Lemma fresh_after mm mm1 mm' f : fresh mm mm1 f -> consumed mm1 mm' -> fresh mm mm' f.
Proof.
  intros [H1 H2] H. split; [done|]. destruct (H (frame_number f)) as [-> | [Hu _]]; [done|].
  rewrite Hu in H2. destruct H2. by left.
Qed.

Lemma fresh_before mm mm1 mm' f : consumed mm mm1 -> fresh mm1 mm' f -> fresh mm mm' f.
Proof.
  intros H [H1 H2]. split; [|done]. destruct (H (frame_number f)) as [Heq | [? Hu]]; [congruence|].
  rewrite H1 in Hu. destruct Hu. by left.
Qed.

Lemma fresh_not_usable mm mm' f : fresh mm mm' f -> owners (frame_number f) mm' <> [Usable].
Proof. intros [_ H] Heq. rewrite Heq in H. destruct H. by left. Qed.

(** *** The allocator *)

(** One frame less. *)
Lemma usable_after t f mm mm' :
  disjoint_map mm -> (forall n, owners n mm' = if is_frame f n then [t] else owners n mm) ->
  (length (usable_numbers mm) <= length (usable_numbers mm') + 1)%nat.
Proof.
  intros Hd Hex. pose proof (NoDup_usable_list (slice mm) Hd) as Hnd.
  assert (usable_numbers mm ⊆+ frame_number f :: usable_numbers mm') as Hsub.
  { apply NoDup_submseteq; [done|]. intros n Hn. destruct (Z.eq_dec n (frame_number f)) as [->|Hne]; [by left|].
    right. apply elem_of_usable_numbers. apply elem_of_usable_numbers in Hn. rewrite Hex. unfold is_frame.
    by rewrite (proj2 (Z.eqb_neq _ _) Hne). }
  apply submseteq_length in Hsub. cbn in Hsub. lia.
Qed.

Lemma allocate_consumed t mm r mm' :
  t <> Usable -> wf_map mm -> disjoint_map mm -> allocate_frame t mm = Ret (r, mm') ->
  wf_map mm' /\ disjoint_map mm' /\ within 1 mm mm' /\ consumed mm mm' /\
  match r with
  | Some f => fresh mm mm' f /\ owners (frame_number f) mm' = [t]
  | None => forall f, Usable ∉ owners f mm'
  end.
Proof.
  intros Ht Hw Hd Heq. destruct (allocate_frame_cases t mm Hw) as
    [(f & mm1 & Hf & Hw1 & Hle & Hu & Hm) | [[Hf Hno] | [Hf _]]]; [| |congruence];
    rewrite Hf in Heq; injection Heq as <- <-; [|by split_and!; auto using within_refl].
  assert (forall n, owners n mm1 = if is_frame f n then [t] else owners n mm) as Hex.
  { apply moved_disjoint; [done..|]. unfold is_frame. by intros n ->%Z.eqb_eq. }
  assert (disjoint_map mm1) as Hd1 by (by eapply exact_disjoint).
  split; [done|]. split; [done|]. split; [by eapply usable_after|].
  apply singleton_usable in Hu; [|apply Hd].
  assert (owners (frame_number f) mm1 = [t]) as Hft by (rewrite Hex; unfold is_frame; by rewrite Z.eqb_refl).
  assert (Usable ∉ owners (frame_number f) mm1) as Hnu.
  { rewrite Hft. intros H%list_elem_of_singleton. by subst. }
  split; [|done]. intros n. destruct (Z.eq_dec n (frame_number f)) as [->|Hn]; [by right|].
  left. rewrite Hex. unfold is_frame. by rewrite (proj2 (Z.eqb_neq _ _) Hn).
Qed.

(** A panic of the allocator means that the map is full. *)
Lemma allocate_panics t mm why : wf_map mm -> allocate_frame t mm = Panic why -> why = map_full.
Proof.
  intros Hw Heq. destruct (allocate_frame_cases t mm Hw) as [(f & mm' & Hf & _) | [[Hf _] | [Hf ?]]]; congruence.
Qed.

(** The frames drawn for new page tables: however many, they are of one type. *)
Lemma draw_consumed n mm :
  wf_map mm -> disjoint_map mm ->
  match fa_draw (FA := page_table_allocator) n mm with
  | Ret (complete, mm') =>
      wf_map mm' /\ disjoint_map mm' /\ within n mm mm' /\ consumed mm mm' /\
      (entry_cost PageTable mm' <= entry_cost PageTable mm)%nat /\
      (complete = false -> forall f, Usable ∉ owners f mm')
  | Panic why => why = map_full /\ (MAX_MEMORY_MAP_SIZE < entry_cost PageTable mm)%nat
  end.
Proof.
  revert mm. induction n as [|n IH]; intros mm Hw Hd; cbn [fa_draw].
  { split_and!; [done | done | apply within_refl | reflexivity | lia | done]. }
  unfold fa_allocate_frame, page_table_allocator.
  pose proof (allocate_entry_cost PageTable mm ltac:(done) Hw Hd) as Hcost.
  destruct (allocate_frame PageTable mm) as [[r mm1]|why] eqn:Heq; cbn [mbind outcome_bind].
  2: { apply allocate_panics in Heq as ->; done. }
  apply allocate_consumed in Heq as (Hw1 & Hd1 & Hn1 & Hc1 & Hr); [|done..].
  unfold within in *. destruct r as [f|]; [|by split_and!; auto; lia].
  specialize (IH mm1 Hw1 Hd1). fold page_table_allocator.
  destruct (fa_draw n mm1) as [[complete mm2]|]; [|intuition lia].
  destruct IH as (? & ? & ? & ? & ? & ?). split_and!; [done | done | lia | by etransitivity | lia | done].
Qed.

(** In a budget for another type they cost two entries, which a table that is made
    pays for. *)
Lemma draw_slack b n s complete mm m :
  ready s -> fa_draw (FA := page_table_allocator) n (frames s) = Ret (complete, mm) ->
  (n = 0%nat \/ missing b m < missing b (page_table s))%nat -> (missing b m <= missing b (page_table s))%nat ->
  (slack b {| page_table := m; frames := mm; ram := ram s |} <= slack b s)%nat.
Proof.
  intros [Hw Hd] Heq Hn Hle. pose proof (draw_consumed n (frames s) Hw Hd) as Hdraw. rewrite Heq in Hdraw.
  destruct Hdraw as (_ & _ & _ & _ & Hcost & _). unfold slack in *. cbn [frames page_table].
  destruct Hn as [-> | Hlt]; [injection Heq as _ <-; lia|].
  pose proof (entry_cost_kind (kind b) PageTable mm). pose proof (entry_cost_kind PageTable (kind b) (frames s)). lia.
Qed.

Lemma draw_panics b n s why :
  ready s -> fa_draw (FA := page_table_allocator) n (frames s) = Panic why ->
  (n <> 0%nat -> 0 < missing b (page_table s))%nat ->
  why = map_full /\ (MAX_MEMORY_MAP_SIZE < slack b s)%nat.
Proof.
  intros [Hw Hd] Heq Hm. pose proof (draw_consumed n (frames s) Hw Hd) as Hdraw. rewrite Heq in Hdraw.
  destruct Hdraw as [-> Hlt]. split; [done|]. specialize (Hm ltac:(by intros ->)). unfold slack.
  pose proof (entry_cost_kind PageTable (kind b) (frames s)). lia.
Qed.

(** A table of [b] that is made is missing no longer. *)
Lemma filter_drop {A} (f g : A -> bool) l x :
  (forall y, g y = true -> f y = true) -> x ∈ l -> f x = true -> g x = false ->
  (length (List.filter g l) < length (List.filter f l))%nat.
Proof.
  intros Hfg Hx Hf Hg. apply list_elem_of_split in Hx as (l1 & l2 & ->).
  rewrite !List.filter_app, !length_app. cbn [List.filter]. rewrite Hf, Hg. cbn [length].
  pose proof (filter_sub f g l1 Hfg). pose proof (filter_sub f g l2 Hfg). lia.
Qed.

Lemma missing_table b q (m m' : M) :
  grown m m' -> q ∈ page_tables b -> occupied2 m q = false -> occupied2 m' q = true ->
  (missing b m' < missing b m)%nat.
Proof.
  intros [H2 H3] Hq Hm Hm'. unfold missing. apply Nat.add_lt_le_mono.
  - apply (filter_drop _ _ _ q); [|done | by rewrite Hm | by rewrite Hm'].
    intros x. rewrite !negb_true_iff, <-!not_true_iff_false; auto.
  - apply filter_sub. intros x. rewrite !negb_true_iff, <-!not_true_iff_false; auto.
Qed.

Lemma missing_directory b z (m m' : M) :
  grown m m' -> z ∈ page_directories b -> occupied3 m z = false -> occupied3 m' z = true ->
  (missing b m' < missing b m)%nat.
Proof.
  intros [H2 H3] Hq Hm Hm'. unfold missing. apply Nat.add_le_lt_mono.
  - apply filter_sub. intros x. rewrite !negb_true_iff, <-!not_true_iff_false; auto.
  - apply (filter_drop _ _ _ z); [|done | by rewrite Hm | by rewrite Hm'].
    intros x. rewrite !negb_true_iff, <-!not_true_iff_false; auto.
Qed.

Lemma missing_some b m : (exists q, q ∈ page_tables b /\ occupied2 m q = false) \/
  (exists z, z ∈ page_directories b /\ occupied3 m z = false) -> (0 < missing b m)%nat.
Proof.
  unfold missing. intros [(q & Hq & Ho) | (z & Hz & Ho)]; [apply Nat.add_pos_l | apply Nat.add_pos_r];
    (apply list_elem_of_split in Hq as (l1 & l2 & ->) || apply list_elem_of_split in Hz as (l1 & l2 & ->));
    rewrite List.filter_app, length_app; cbn [List.filter]; rewrite Ho; cbn [negb length]; lia.
Qed.

(** *** Pages *)

Definition tr (s : state) (p : Page) : option (PhysFrame * Z) := translate (page_table s) p.

Definition reserved (s : state) (p : Page) : bool := window (page_table s) p.

(** What a step that deals with the pages of [P] leaves as it is: frames that
    were not usable keep their owner and their bytes, other pages their mapping. *)
Record only_on (P : Page -> Prop) (s s' : state) : Prop := {
  oo_layout : same_layout (page_table s) (page_table s');
  oo_frames : consumed (frames s) (frames s');
  oo_ram : forall n i, owners n (frames s) <> [Usable] -> 0 <= i < 4096 ->
    ram s' (4096 * n + i) = ram s (4096 * n + i);
  oo_pages : forall p, reserved s p = false -> ~ P p -> tr s' p = tr s p;
  oo_tables : same_tables (fun q => exists p, P p /\ huge_of p = q) (page_table s) (page_table s');
}.

(** Why a mapping failed. *)
Definition cause (e : MapToError) (P : Page -> Prop) (s s' : state) : Prop :=
  match e with
  | FrameAllocationFailed => forall f, Usable ∉ owners f (frames s')
  | ParentEntryHugePage => exists p, P p /\ huge_parent (page_table s) p = true
  | PageAlreadyMapped f => exists p fl, P p /\ tr s p = Some (f, fl)
  end.

Lemma same_layout_refl (m : M) : same_layout m m.
Proof. by split. Qed.

Lemma same_layout_trans (m m1 m2 : M) : same_layout m m1 -> same_layout m1 m2 -> same_layout m m2.
Proof.
  intros [H1 H1'] [H2 H2']. split.
  - intros p. destruct (H1 p), (H2 p). split; congruence.
  - intros q Hq. destruct (H1' q Hq), (H2' q) as [-> ->]; [|done]. by rewrite (proj1 (H1 _)).
Qed.

Lemma only_on_refl P s : only_on P s s.
Proof. by constructor. Qed.

Lemma only_on_reserved P s s' p : only_on P s s' -> reserved s' p = reserved s p.
Proof. intros [H _ _ _ _]. apply H. Qed.

Lemma only_on_trans (P Q R : Page -> Prop) s s1 s2 :
  (forall p, P p -> R p) -> (forall p, Q p -> R p) ->
  only_on P s s1 -> only_on Q s1 s2 -> only_on R s s2.
Proof.
  intros HP HQ H1 H2. constructor.
  - exact (same_layout_trans _ _ _ (oo_layout _ _ _ H1) (oo_layout _ _ _ H2)).
  - etransitivity; [apply H1 | apply H2].
  - intros n i Hn Hi. rewrite (oo_ram _ _ _ H2), (oo_ram _ _ _ H1); [done..| |done].
    by rewrite (consumed_kept _ _ _ (oo_frames _ _ _ H1)).
  - intros p Hp Hno. rewrite (oo_pages _ _ _ H2), (oo_pages _ _ _ H1); auto.
    by rewrite (only_on_reserved _ _ _ _ H1).
  - intros q Hq Hno. rewrite (oo_tables _ _ _ H2), (oo_tables _ _ _ H1); [done | done | | |].
    + intros (p & Hp & Heq). apply Hno. eauto.
    + fold (reserved s1 (first_page q)). by rewrite (only_on_reserved _ _ _ _ H1).
    + intros (p & Hp & Heq). apply Hno. eauto.
Qed.

Lemma only_on_weaken (P R : Page -> Prop) s s' :
  (forall p, P p -> R p) -> only_on P s s' -> only_on R s s'.
Proof. intros H Ho. eapply only_on_trans; [exact H | exact H | exact Ho | apply only_on_refl]. Qed.

Lemma cause_weaken e (P R : Page -> Prop) s s' :
  (forall p, P p -> R p) -> cause e P s s' -> cause e R s s'.
Proof.
  intros H. destruct e; simpl; [done | intros (p & ? & ?); eauto | intros (p & fl & ? & ?); eauto 6].
Qed.

(** The cause of a later failure is there from the beginning. *)
Lemma cause_before e (P Q R : Page -> Prop) s s1 s2 :
  (forall p, P p -> R p) -> (forall p, P p -> ~ Q p /\ reserved s p = false) ->
  only_on Q s s1 -> cause e P s1 s2 -> cause e R s s2.
Proof.
  intros HR HQ Ho. destruct e; simpl; [done | |].
  - intros (p & Hp & Hh). exists p. split; [auto|]. by rewrite <-(proj2 (proj1 (oo_layout _ _ _ Ho) p)).
  - intros (p & fl & Hp & Ht). exists p, fl. split; [auto|]. destruct (HQ p Hp).
    by rewrite <-(oo_pages _ _ _ Ho).
Qed.

(** *** The single steps *)

Lemma runs_allocate b t s :
  kind b = t -> t <> Usable -> ready s ->
  runs b b 1 (allocate_or_fail t) s (fun r s' =>
    page_table s' = page_table s /\ ram s' = ram s /\ only_on (fun _ => False) s s' /\
    match r with
    | Ok f => fresh (frames s) (frames s') f /\ owners (frame_number f) (frames s') = [t]
    | Err e => cause e (fun _ => False) s s'
    end).
Proof.
  intros Hk Ht [Hw Hd]. unfold runs, allocate_or_fail, slack. rewrite Hk.
  pose proof (allocate_entry_cost t (frames s) Ht Hw Hd) as Hcost.
  destruct (allocate_frame t (frames s)) as [[r mm]|why] eqn:Heq; cbn [mbind outcome_bind].
  2: { apply allocate_panics in Heq as ->; [|done]. split; [done | lia]. }
  apply allocate_consumed in Heq as (Hw1 & Hd1 & Hn1 & Hc1 & Hr); [|done..].
  split; [done|]. split; [done|]. split; [by destruct r; cbn [frames page_table]; [lia|]|]. do 2 (split; [done|]).
  split; [by constructor|]. by destruct r.
Qed.

Lemma runs_map_page b page frame flags s :
  ready s -> reserved s page = false -> huge_of page ∈ page_tables b ->
  runs b b 3 (map_page page frame flags) s (fun r s' =>
    ram s' = ram s /\ only_on (fun p => p = page) s s' /\
    match r with
    | Ok _ => tr s page = None /\ tr s' page = Some (frame, flags)
    | Err e => cause e (fun p => p = page) s s'
    end).
Proof.
  intros Hs Hwin Hcov. pose proof Hs as [Hw Hd]. unfold runs, map_page.
  destruct (map_to_draws _ page_table_allocator page frame flags (page_table s) (frames s) Hwin)
    as (n & Hn & Hocc & Hm).
  pose proof (draw_consumed n (frames s) Hw Hd) as Hdraw.
  destruct (fa_draw n (frames s)) as [[complete mm]|why] eqn:Heq.
  2: { rewrite Hm. apply (draw_panics b) in Heq; [done | done |]. intros Hn0. apply missing_some. left.
       exists (huge_of page). split; [done|]. apply not_true_is_false. auto. }
  destruct Hm as (r & m & -> & Hlay & Htab & Hr). destruct Hdraw as (Hw1 & Hd1 & Hle & Hc & _ & Hnone).
  cbn [mbind outcome_bind]. split; [done|]. split; [unfold within in *; cbn; lia|].
  assert (same_tables (fun q => exists p, p = page /\ huge_of p = q) (page_table s) m) as Htab'.
  { intros q Hq Hno. apply Htab; [done|]. intros ->. eauto. }
  destruct r as [[]|e].
  - destruct Hr as (_ & Hgrown & Hocc' & H0 & H1 & Hother). split.
    { eapply draw_slack; [done | exact Heq | | by apply missing_grown].
      destruct (occupied2 (page_table s) (huge_of page)) eqn:Ho; [left; auto | right].
      by apply (missing_table b (huge_of page)). }
    split; [done|]. split; [|done]. constructor; [done..| |done]. unfold tr. cbn. auto.
  - split; [done|]. split; [done|]. destruct Hr as [Hother He].
    split; [by constructor; unfold tr; cbn; auto|].
    destruct e; cbn; [auto | eauto |]. destruct He as [fl ?]. by exists page, fl.
Qed.

Lemma runs_unmap_page b page s f fl :
  ready s -> reserved s page = false -> tr s page = Some (f, fl) ->
  runs b b 0 (unmap_page page) s (fun r s' =>
    r = Ok tt /\ ram s' = ram s /\ frames s' = frames s /\ only_on (fun p => p = page) s s' /\
    tr s' page = None).
Proof.
  intros Hs Hwin Ht. unfold runs, unmap_page. pose proof (unmap_spec page (page_table s) Hwin) as Hu.
  destruct (unmap page (page_table s)) as [[f'|e] m].
  - destruct Hu as (Hlay & Htab & Hgrown & _ & Hnone & Hother). split; [done|].
    split; [apply within_refl|]. split; [pose proof (missing_grown b _ _ Hgrown); unfold slack; cbn; lia|].
    split_and!; [done..| |done].
    constructor; [done | done | done | unfold tr; cbn; auto |]. intros q Hq Hno. apply Htab; [done|]. intros ->. eauto.
  - destruct Hu as [_ Hu]. unfold tr in Ht. destruct e; [|congruence..].
    apply huge_not_mapped in Ht. congruence.
Qed.
End proofs.
