(* ===== verification/BootPaging.v ===== *)
(** * The page table while booting

    [bootloader_main] makes the active page table recursive, removes 2 MiB pages
    from it, adds others, and at the end removes the recursive entry.  These
    operations of the crate x86_64 are a class with laws from its documentation,
    on top of [Mapper] and [Recursive]; [Tables] is a page table that obeys them
    all. *)

From Stdlib Require Import Lia.
From stdpp Require Import base decidable strings numbers list.
From S2P Require Import Prelude UnstableSort MemoryMap X86 X86Huge FrameAllocator Level4 Memory Paging BootInfo.
From S2P Require Import PageTable.

Open Scope Z_scope.

(** ** The interface *)

Section interface.
Context {X : X86Phys} {V : X86Virt} {HG : X86Huge X V}.

Inductive MapToError2 :=
| FrameAllocationFailed2
| ParentEntryHugePage2
| PageAlreadyMapped2 (frame : PhysFrame2M).

Inductive InvalidPageTable := NotRecursive | NotActive.

Class BootTable (M : Type) := {
  map_to2 : forall A, FrameAlloc A -> Page2M -> PhysFrame2M -> Z -> M -> A ->
    outcome (result unit MapToError2 * M * A);
  unmap2 : Page2M -> M -> result PhysFrame2M UnmapError * M;
  (** the level 4 entry [i] is set to an address and flags *)
  set_level4_entry : PageTableIndex -> PhysAddr -> Z -> M -> M;
  (** [RecursivePageTable::new] of the table at an address *)
  RecursivePageTable_new : VirtAddr -> M -> result unit InvalidPageTable;
  (** the address of the active level 4 table *)
  root : M -> PhysAddr;
}.
#[global] Arguments map_to2 {M _ A _} page frame flags m a.

Definition level4 (p : Page) : Z := index_as_u64 (p4_index p).

(** The page through which a recursive level 4 table reaches itself. *)
Definition recursive_page (r : PageTableIndex) : Page := from_page_table_indices r r r r.

Definition recursive_at {M} {RM : Recursive M} (r : PageTableIndex) (m : M) : Prop :=
  forall p, window m p = (level4 p =? index_as_u64 r).

(** What changing the 2 MiB page [q] leaves as it is. *)
Record same_beside {M} {MP : Mapper M} {RM : Recursive M} (q : Page2M) (m m' : M) : Prop := {
  sb_window : forall p, window m' p = window m p;
  sb_translate : forall p, window m p = false -> translate m' p = translate m p;
  sb_huge : forall p, window m p = false -> huge_of p <> q -> huge_parent m' p = huge_parent m p;
  sb_huge2 : forall q', window m (first_page q') = false -> huge_parent2 m' q' = huge_parent2 m q';
  sb_other : forall q', window m (first_page q') = false -> q' <> q ->
    translate2 m' q' = translate2 m q' /\ occupied2 m' q' = occupied2 m q';
}.

(** The 1 GiB of addresses around a page. *)
Definition gib_of (q : Page2M) : Z := virt_as_u64 (page2_start_address q) / 2 ^ 30.

(** [map_to2] takes at most two frames for new tables, and none when there is
    one for the page's 1 GiB.  Making the table
    recursive changes only what lies under the entry that is set, and removing
    the recursive entry nothing else. *)
Class BootTableLaws (M : Type) {MP : Mapper M} {RM : Recursive M} {BT : BootTable M} : Prop := {
  map_to2_draws A (FA : FrameAlloc A) q frame flags m (a : A) :
    window m (first_page q) = false ->
    exists n, (n <= 2)%nat /\ (occupied3 m (gib_of q) = true -> n = 0%nat) /\
      match fa_draw n a with
      | Panic why => map_to2 q frame flags m a = Panic why
      | Ret (complete, a') =>
          exists r m', map_to2 q frame flags m a = Ret (r, m', a') /\ same_beside q m m' /\
            match r with
            | Ok _ => complete = true /\ grown m m' /\ occupied3 m' (gib_of q) = true /\
                occupied2 m q = false /\ translate2 m' q = Some (frame, flags)
            | Err e => translate2 m' q = translate2 m q /\
                match e with
                | FrameAllocationFailed2 => complete = false
                | ParentEntryHugePage2 => huge_parent2 m q = true
                | PageAlreadyMapped2 _ => occupied2 m q = true
                end
            end
      end;
  unmap2_ok q m f fl :
    window m (first_page q) = false -> translate2 m q = Some (f, fl) ->
    exists m', unmap2 q m = (Ok f, m') /\ same_beside q m m' /\ translate2 m' q = None /\
      occupied2 m' q = false /\ forall p, huge_of p = q -> huge_parent m' p = false;
  recursive_new r m :
    let m' := set_level4_entry r (root m) (Z.lor PRESENT WRITABLE) m in
    RecursivePageTable_new (page_start_address (recursive_page r)) m' = Ok tt /\ recursive_at r m' /\
    (forall p, level4 p <> index_as_u64 r ->
       translate m' p = translate m p /\ huge_parent m' p = huge_parent m p) /\
    forall q, level4 (first_page q) <> index_as_u64 r ->
      translate2 m' q = translate2 m q /\ occupied2 m' q = occupied2 m q /\
      huge_parent2 m' q = huge_parent2 m q;
  unmap_recursive r m :
    recursive_at r m ->
    exists f m', unmap (recursive_page r) m = (Ok f, m') /\
      (forall p, window m p = false -> window m' p = false /\
         translate m' p = translate m p /\ huge_parent m' p = huge_parent m p) /\
      forall q, window m (first_page q) = false -> translate2 m' q = translate2 m q;
}.
End interface.

(** ** A page table *)

(** The mappings of small and of huge pages by address, the 2 MiB pages whose
    table is kept although a page was unmapped, and the recursive entry of the
    level 4 table.  A table of 4 KiB pages takes a frame; those above it are
    there from the start. *)
Record Tables `{X86Huge} := {
  small : list (Z * (PhysFrame * Z));
  huge : list (Z * (PhysFrame2M * Z));
  kept : list Z;
  level4_table : PhysFrame;
  recursive_entry : option Z;
}.

Section tables.
Context {X : X86Phys} {XL : X86PhysLaws X} {V : X86Virt} {VL : X86VirtLaws V}.
Context {HG : X86Huge X V} {HL : X86HugeLaws HG}.

Definition with_small (l : list (Z * (PhysFrame * Z))) (m : Tables) : Tables :=
  {| small := l; huge := huge m; kept := kept m; level4_table := level4_table m; recursive_entry := recursive_entry m |}.
Definition with_huge (l : list (Z * (PhysFrame2M * Z))) (m : Tables) : Tables :=
  {| small := small m; huge := l; kept := kept m; level4_table := level4_table m; recursive_entry := recursive_entry m |}.
Definition with_kept (l : list Z) (m : Tables) : Tables :=
  {| small := small m; huge := huge m; kept := l; level4_table := level4_table m; recursive_entry := recursive_entry m |}.
Definition with_entry (e : option Z) (m : Tables) : Tables :=
  {| small := small m; huge := huge m; kept := kept m; level4_table := level4_table m; recursive_entry := e |}.

Definition without {E} (z : Z) (l : list (Z * E)) : list (Z * E) := List.filter (fun e => negb (e.1 =? z)) l.

(** The address of the 2 MiB page around an address. *)
Definition base2 (z : Z) : Z := z - z mod SIZE_2M.

Definition tables_huge (m : Tables) (p : Page) : bool :=
  bool_decide (is_Some (table_find (base2 (page_addr p)) (huge m))).

Definition tables_small (m : Tables) (p : Page) : option (PhysFrame * Z) :=
  if tables_huge m p then None else table_find (page_addr p) (small m).

Definition tables_occupied (m : Tables) (q : Page2M) : bool :=
  bool_decide (is_Some (table_find (page2_addr q) (huge m))) ||
  (existsb (fun e => base2 e.1 =? page2_addr q) (small m) || existsb (Z.eqb (page2_addr q)) (kept m)).

Definition tables_map_to A (FA : FrameAlloc A) (page : Page) (frame : PhysFrame) (flags : Z) (m : Tables) (a : A) :
    outcome (result unit MapToError * Tables * A) :=
  if tables_huge m page then Ret (Err ParentEntryHugePage, m, a)
  else match table_find (page_addr page) (small m) with
       | Some (f, _) => Ret (Err (PageAlreadyMapped f), m, a)
       | None =>
           '(complete, a') ← fa_draw (if tables_occupied m (huge_of page) then 0 else 1) a;
           if complete : bool then Ret (Ok tt, with_small ((page_addr page, (frame, flags)) :: small m) m, a')
           else Ret (Err FrameAllocationFailed, m, a')
       end.

#[export] Instance tables_mapper : Mapper Tables := {
  map_to := tables_map_to;
  translate := tables_small;
  huge_parent := tables_huge;
}.

#[export] Instance tables_recursive : Recursive Tables := {
  unmap page m :=
    if bool_decide (recursive_entry m = Some (level4 page)) then (Ok (level4_table m), with_entry None m)
    else match tables_small m page with
         | Some (f, _) =>
             (Ok f, with_kept (base2 (page_addr page) :: kept m) (with_small (without (page_addr page) (small m)) m))
         | None => (Err (if tables_huge m page then UnmapParentEntryHugePage else PageNotMapped), m)
         end;
  window m p := bool_decide (recursive_entry m = Some (level4 p));
  translate2 m q := table_find (page2_addr q) (huge m);
  occupied2 := tables_occupied;
  huge_parent2 _ _ := false;
  occupied3 _ _ := true;
}.

#[export] Instance tables_boot : BootTable Tables := {
  map_to2 A _ page frame flags m a :=
    if tables_occupied m page then Ret (Err (PageAlreadyMapped2 frame), m, a)
    else Ret (Ok tt, with_huge ((page2_addr page, (frame, flags)) :: huge m) m, a);
  unmap2 page m :=
    match table_find (page2_addr page) (huge m) with
    | Some (f, _) =>
        (Ok f, with_kept (List.filter (fun b => negb (page2_addr page =? b)) (kept m))
                 (with_small (List.filter (fun e => negb (base2 e.1 =? page2_addr page)) (small m))
                   (with_huge (without (page2_addr page) (huge m)) m)))
    | None => (Err PageNotMapped, m)
    end;
  set_level4_entry i _ _ m := with_entry (Some (index_as_u64 i)) m;
  RecursivePageTable_new addr m :=
    if bool_decide (recursive_entry m = Some (level4 (page_containing_address addr)))
    then Ok tt else Err NotRecursive;
  root m := frame_start_address (level4_table m);
}.

Lemma find_without {E} z z' (m : list (Z * E)) :
  table_find z (without z' m) = if z =? z' then None else table_find z m.
Proof.
  unfold without. induction m as [|[k e] m IH]; cbn [List.filter table_find fst]; [by destruct (z =? z')|].
  destruct (Z.eqb_spec k z') as [->|Hk]; cbn [negb table_find]; rewrite IH.
  - by destruct (z =? z') eqn:E'.
  - destruct (Z.eqb_spec z k) as [->|]; [|done]. by rewrite (proj2 (Z.eqb_neq _ _) Hk).
Qed.

Lemma find_filter_base {E} z b (m : list (Z * E)) :
  base2 z <> b -> table_find z (List.filter (fun e => negb (base2 e.1 =? b)) m) = table_find z m.
Proof.
  intros Hz. induction m as [|[k e] m IH]; cbn [List.filter table_find fst]; [done|].
  destruct (Z.eqb_spec (base2 k) b) as [Hk|Hk]; cbn [negb table_find]; rewrite IH; [|done].
  destruct (Z.eqb_spec z k) as [->|]; done.
Qed.

Lemma page_addr_inj p q : page_addr p = page_addr q -> p = q.
Proof. intros H. apply page_inj, virt_inj, H. Qed.

Lemma huge_of_base p : page2_addr (huge_of p) = base2 (page_addr p).
Proof. unfold huge_of. by rewrite page2_containing. Qed.

Lemma huge_of_eq p q : huge_of p = q <-> base2 (page_addr p) = page2_addr q.
Proof. rewrite <-huge_of_base. split; [by intros -> | apply page2_inj]. Qed.

Lemma tables_same m m' :
  huge m' = huge m -> recursive_entry m' = recursive_entry m -> same_layout m m'.
Proof. intros Hh Hr. split; intros p; cbn; unfold tables_huge; by rewrite ?Hh, ?Hr. Qed.

Lemma existsb_without b z (l : list (Z * (PhysFrame * Z))) :
  base2 z <> b ->
  existsb (fun e => base2 e.1 =? b) (without z l) = existsb (fun e => base2 e.1 =? b) l.
Proof.
  intros Hz. unfold without. induction l as [|[k e] l IH]; cbn; [done|]. destruct (Z.eqb_spec k z) as [->|]; cbn.
  - rewrite (proj2 (Z.eqb_neq _ _) Hz). exact IH.
  - by rewrite IH.
Qed.

Lemma existsb_filter_base b b' (l : list (Z * (PhysFrame * Z))) :
  existsb (fun e => base2 e.1 =? b) (List.filter (fun e => negb (base2 e.1 =? b')) l) =
  if b =? b' then false else existsb (fun e => base2 e.1 =? b) l.
Proof.
  induction l as [|[k e] l IH]; cbn; [by destruct (b =? b')|].
  destruct (Z.eqb_spec (base2 k) b') as [->|Hk]; cbn; rewrite IH; [|].
  - destruct (Z.eqb_spec b b') as [->|]; [done|]. destruct (Z.eqb_spec b' b); [congruence | done].
  - destruct (Z.eqb_spec b b') as [->|]; [|done]. by rewrite (proj2 (Z.eqb_neq _ _) Hk).
Qed.

Lemma existsb_filter_kept b b' l :
  existsb (Z.eqb b) (List.filter (fun x => negb (b' =? x)) l) = if b =? b' then false else existsb (Z.eqb b) l.
Proof.
  induction l as [|x l IH]; cbn; [by destruct (b =? b')|].
  destruct (Z.eqb_spec b' x) as [<-|Hx]; cbn; rewrite IH; destruct (Z.eqb_spec b b') as [->|]; try done.
  by rewrite (proj2 (Z.eqb_neq _ _) Hx).
Qed.

Lemma huge_of_ne_base q page : q <> huge_of page -> base2 (page_addr page) <> page2_addr q.
Proof. intros H Heq. apply H. symmetry. by apply huge_of_eq. Qed.

Lemma tables_map_small page frame flags m :
  tables_huge m page = false -> table_find (page_addr page) (small m) = None ->
  let m' := with_small ((page_addr page, (frame, flags)) :: small m) m in
  same_tables (fun q => q = huge_of page) m m' /\ tables_small m' page = Some (frame, flags) /\
  forall p, p <> page -> tables_small m' p = tables_small m p.
Proof.
  intros Hh Hn m'. split; [|split].
  - intros q _ Hq. cbn. unfold tables_occupied. cbn.
    by rewrite (proj2 (Z.eqb_neq _ _) (huge_of_ne_base _ _ Hq)).
  - unfold tables_small. change (tables_huge m' page) with (tables_huge m page). rewrite Hh. cbn.
    by rewrite Z.eqb_refl.
  - intros p Hp. unfold tables_small. change (tables_huge m' p) with (tables_huge m p).
    destruct (tables_huge m p); [done|]. cbn. rewrite (proj2 (Z.eqb_neq _ _)); [done|].
    intros Heq. apply Hp, page_addr_inj, Heq.
Qed.

Lemma tables_unmap_small page m :
  let m' := with_kept (base2 (page_addr page) :: kept m) (with_small (without (page_addr page) (small m)) m) in
  same_tables (fun q => q = huge_of page) m m' /\ tables_small m' page = None /\
  forall p, p <> page -> tables_small m' p = tables_small m p.
Proof.
  intros m'. split; [|split].
  - intros q _ Hq. pose proof (huge_of_ne_base _ _ Hq) as Hb. cbn. unfold tables_occupied. cbn.
    rewrite existsb_without by done. f_equal. f_equal. by rewrite (proj2 (Z.eqb_neq _ _) (not_eq_sym Hb)).
  - unfold tables_small. change (tables_huge m' page) with (tables_huge m page).
    destruct (tables_huge m page); [done|]. cbn. by rewrite find_without, Z.eqb_refl.
  - intros p Hp. unfold tables_small. change (tables_huge m' p) with (tables_huge m p).
    destruct (tables_huge m p); [done|]. cbn. rewrite find_without, (proj2 (Z.eqb_neq _ _)); [done|].
    intros Heq. apply Hp, page_addr_inj, Heq.
Qed.

Lemma tables_unmap_grown page m q :
  let m' := with_kept (base2 (page_addr page) :: kept m) (with_small (without (page_addr page) (small m)) m) in
  tables_occupied m q = true -> tables_occupied m' q = true.
Proof.
  intros m'. unfold tables_occupied. cbn. rewrite !orb_true_iff, !Z.eqb_eq.
  destruct (Z.eq_dec (base2 (page_addr page)) (page2_addr q)) as [->|Hne]; [auto|].
  rewrite existsb_without by done. tauto.
Qed.

#[export] Instance tables_recursive_laws : RecursiveLaws Tables.
Proof.
  constructor.
  - intros m p e. cbn. unfold tables_small. by destruct (tables_huge m p).
  - intros A FA page frame flags m a _. cbn. unfold tables_map_to.
    destruct (tables_huge m page) eqn:Hh.
    { exists 0%nat. split; [lia|]. split; [done|]. eexists _, _. split; [done|]. split; [by apply tables_same|].
      by repeat split. }
    destruct (table_find (page_addr page) (small m)) as [[f fl]|] eqn:Hf.
    + exists 0%nat. split; [lia|]. split; [done|]. eexists _, _. split; [done|]. split; [by apply tables_same|].
      split; [done|]. split; [done|]. exists fl. unfold tables_small. by rewrite Hh.
    + exists (if tables_occupied m (huge_of page) then 0 else 1)%nat. split; [destruct (tables_occupied m _); lia|].
      split; [by intros ->|]. destruct (fa_draw _ a) as [[complete a']|why]; cbn [mbind outcome_bind]; [|done].
      destruct (tables_map_small page frame flags m Hh Hf) as (Ht & Hs & Ho).
      destruct complete; (eexists _, _; split; [done|]; split; [by apply tables_same|]; split; [done|]);
        [|by repeat split].
      split; [done|]. split; [|split].
      * split; [|done]. intros q. cbn. unfold tables_occupied. cbn. destruct (_ =? page2_addr q); [by rewrite orb_true_r|done].
      * cbn. unfold tables_occupied. cbn. by rewrite huge_of_base, Z.eqb_refl, orb_true_r.
      * split; [unfold tables_small; by rewrite Hh|]. split; [done|]. intros p _. apply Ho.
  - intros page m Hw. cbn in Hw |- *. rewrite Hw.
    destruct (tables_small m page) as [[f fl]|] eqn:Hf.
    + destruct (tables_unmap_small page m) as (Ht & Hs & Ho). split; [by apply tables_same|].
      split; [done|]. split; [split; [apply tables_unmap_grown | done]|]. split; [by exists fl|]. split; [done|]. intros p _. apply Ho.
    + split; [done|]. destruct (tables_huge m page); done.
Qed.

(** It is a mapper for the kernel, too. *)
#[export] Instance tables_mapper_laws : MapperLaws Tables.
Proof.
  constructor. intros A FA FL page frame flags m a k Hr. cbn. unfold tables_map_to.
  destruct (tables_huge m page) eqn:Hh.
  { exists (Err ParentEntryHugePage), m, a, 0%nat. by split_and!; [|lia|..]. }
  destruct (table_find (page_addr page) (small m)) as [[f fl]|] eqn:Hf.
  { exists (Err (PageAlreadyMapped f)), m, a, 0%nat. split_and!; [done | lia | done | done | done|].
    exists fl. unfold tables_small. by rewrite Hh. }
  destruct (tables_map_small page frame flags m Hh Hf) as (_ & Hs & Ho).
  assert (tables_small m page = None) as Hn by (unfold tables_small; by rewrite Hh).
  destruct (tables_occupied m (huge_of page)); cbn [fa_draw mbind outcome_bind].
  { eexists (Ok tt), _, a, 0%nat. split; [done|]. by split_and!; [lia|..]. }
  destruct (fa_allocate_spec a (2 + k) Hr) as (r & a' & Ha & _ & Hrem). rewrite Ha. cbn [mbind outcome_bind].
  assert (fa_allocate_n 1 a = Ret a') as Hd by (cbn; by rewrite Ha).
  destruct r as [g|]; cbn [mbind outcome_bind].
  - eexists (Ok tt), _, a', 1%nat. split; [done|]. by split_and!; [lia|..].
  - exists (Err FrameAllocationFailed), m, a', 1%nat. split_and!; [done | lia | done | done | done | apply Hrem].
Qed.

(** Huge mappings *)
Lemma tables_map_huge q frame flags m :
  tables_occupied m q = false ->
  let m' := with_huge ((page2_addr q, (frame, flags)) :: huge m) m in same_beside q m m'.
Proof.
  intros Hocc m'. apply orb_false_iff in Hocc as [Hh [Hs _]%orb_false_iff].
  assert (forall p, huge_of p <> q -> tables_huge m' p = tables_huge m p) as Hhuge.
  { intros p Hp. unfold tables_huge. cbn. rewrite (proj2 (Z.eqb_neq _ _)); [done|].
    intros Heq. by apply Hp, huge_of_eq. }
  constructor; [done | |by intros; apply Hhuge | done |].
  - intros p _. cbn. unfold tables_small. 
    destruct (Z.eq_dec (base2 (page_addr p)) (page2_addr q)) as [Hp|Hp]; [|by rewrite Hhuge; [|rewrite huge_of_eq]].
    unfold tables_huge. cbn. rewrite Hp, Z.eqb_refl. cbn.
    rewrite bool_decide_eq_false in Hh. rewrite bool_decide_false by done.
    destruct (table_find (page_addr p) (small m)) as [e|] eqn:Hf; [|done]. exfalso.
    clear - Hs Hf Hp. induction (small m) as [|[k e'] l IH]; cbn in *; [done|].
    destruct (Z.eqb_spec (page_addr p) k) as [<-|]; [|by apply orb_false_iff in Hs as []; auto].
    rewrite Hp, Z.eqb_refl in Hs. done.
  - intros q' _ Hne. cbn. unfold tables_occupied. cbn.
    rewrite (proj2 (Z.eqb_neq (page2_addr q') (page2_addr q))); [done|]. intros Heq. by apply Hne, page2_inj.
Qed.

Lemma tables_unmap_huge q m e :
  table_find (page2_addr q) (huge m) = Some e ->
  let m' := with_kept (List.filter (fun b => negb (page2_addr q =? b)) (kept m))
              (with_small (List.filter (fun e => negb (base2 e.1 =? page2_addr q)) (small m))
                (with_huge (without (page2_addr q) (huge m)) m)) in
  same_beside q m m' /\ tables_occupied m' q = false /\ forall p, huge_of p = q -> tables_huge m' p = false.
Proof.
  intros Hf m'.
  assert (forall p, tables_huge m' p = if base2 (page_addr p) =? page2_addr q then false else tables_huge m p)
    as Hhuge.
  { intros p. unfold tables_huge. cbn. rewrite find_without. by destruct (_ =? _). }
  split; [|split].
  - constructor; [done | | |done |].
    + intros p _. cbn. unfold tables_small. rewrite Hhuge.
      destruct (Z.eqb_spec (base2 (page_addr p)) (page2_addr q)) as [Hp|Hp].
      * unfold tables_huge at 1. rewrite Hp, Hf, bool_decide_true by done. cbn.
        clear - Hp. induction (small m) as [|[k e'] l IH]; cbn; [done|].
        destruct (Z.eqb_spec (base2 k) (page2_addr q)) as [|Hk]; cbn; [done|].
        destruct (Z.eqb_spec (page_addr p) k) as [<-|]; [congruence | done].
      * destruct (tables_huge m p); [done|]. cbn. by apply find_filter_base.
    + intros p _ Hp. cbn. rewrite Hhuge, (proj2 (Z.eqb_neq _ _)); [done|].
      intros Heq. by apply Hp, huge_of_eq.
    + intros q' _ Hne. assert (page2_addr q' <> page2_addr q) as Ha by (intros Heq; by apply Hne, page2_inj).
      cbn. unfold tables_occupied. cbn.
      by rewrite find_without, existsb_filter_base, existsb_filter_kept, (proj2 (Z.eqb_neq _ _) Ha).
  - unfold tables_occupied. cbn. by rewrite find_without, existsb_filter_base, existsb_filter_kept, Z.eqb_refl.
  - intros p Hp%huge_of_eq. by rewrite Hhuge, Hp, Z.eqb_refl.
Qed.

Lemma recursive_page_level4 r : level4 (recursive_page r) = index_as_u64 r.
Proof.
  unfold level4, recursive_page. rewrite p4_index_bits, from_indices. unfold index.
  pose proof (index_range r). unfold sign_extend48. destruct (Z.ltb_spec (index_as_u64 r * 2 ^ 39 +
    index_as_u64 r * 2 ^ 30 + index_as_u64 r * 2 ^ 21 + index_as_u64 r * 2 ^ 12) (2 ^ 47)); dlia.
Qed.

#[export] Instance tables_boot_laws : BootTableLaws Tables.
Proof.
  constructor.
  - intros A FA q frame flags m a _. exists 0%nat. split; [lia|]. split; [done|]. cbn.
    destruct (tables_occupied m q) eqn:Hocc; (eexists _, _; split; [done|]).
    + split; [by constructor | done].
    + split; [by apply tables_map_huge|]. split; [done|]. split; [|split; [done|]; split; [done|]; cbn; by rewrite Z.eqb_refl].
      split; [|done]. intros q'. cbn. unfold tables_occupied. cbn.
      destruct (page2_addr q' =? page2_addr q); [intros _; by rewrite bool_decide_true by (by eexists) | done].
  - intros q m f fl _ Hf. cbn in Hf |- *. rewrite Hf. eexists. split; [done|].
    destruct (tables_unmap_huge q m (f, fl) Hf) as (H1 & H2 & H3).
    split; [done|]. split; [|done]. cbn. by rewrite find_without, Z.eqb_refl.
  - intros r m m'. assert (recursive_at r m') as Hrec.
    { intros p. cbn. destruct (Z.eqb_spec (level4 p) (index_as_u64 r)) as [->|Hne];
        [by apply bool_decide_true | apply bool_decide_false; congruence]. }
    split; [|by repeat split].
    cbn. rewrite bool_decide_true; [done|]. f_equal.
    replace (page_containing_address (page_start_address (recursive_page r))) with (recursive_page r);
      [by rewrite recursive_page_level4|].
    apply page_addr_inj. unfold page_addr. rewrite page_containing, page_aligned. lia.
  - intros r m Hrec. specialize (Hrec (recursive_page r)). cbn in Hrec.
    rewrite recursive_page_level4, Z.eqb_refl in Hrec. cbn. rewrite recursive_page_level4, Hrec.
    eexists _, _. split; [done|]. done.
Qed.
End tables.
