(* ===== verification/KernelLoad.v ===== *)
(** * What loading the kernel achieves (src/bootloader/src/page_table.rs)

    Proofs about the operations of [PageTable]: after [map_segment] the bytes
    of the file are readable at the segment's addresses and zeroes behind them;
    after [map_kernel] that holds for all segments, and the stack has frames of
    its own. *)

From Stdlib Require Import Lia ZifyBool.
From stdpp Require Import base decidable strings numbers list.
From S2P Require Import Prelude UnstableSort MemoryMap X86 X86Huge FrameAllocator Level4 Paging BootInfo PageTable.

Open Scope Z_scope.

(** ** Arithmetic of bytes in frames *)

Lemma frame_byte_inj n m i j :
  0 <= i < 4096 -> 0 <= j < 4096 -> 4096 * n + i = 4096 * m + j -> n = m /\ i = j.
Proof. lia. Qed.

Lemma mod_4096 z : 0 <= z mod 4096 < 4096.
Proof. dlia. Qed.

Lemma land_fff z : Z.land z 0xfff = z mod 4096.
Proof. change 0xfff with (Z.ones 12). by rewrite Z.land_ones. Qed.

Lemma elem_of_offsets o lo hi : o ∈ offsets lo hi <-> lo <= o < hi.
Proof.
  unfold offsets. rewrite list_elem_of_fmap. split.
  - intros (i & -> & Hi%elem_of_seq). lia.
  - intros Ho. exists (Z.to_nat (o - lo)). rewrite elem_of_seq. lia.
Qed.

(** ** Page numbers *)

Section pages.
Context {V : X86Virt} {VL : X86VirtLaws V}.

Definition page_number (p : Page) : Z := page_addr p / 4096.

(** Page [p] has a number from [lo] up to [hi], excluded. *)
Definition in_pages (lo hi : Z) (p : Page) : Prop := lo <= page_number p < hi.

Lemma page_addr_number p : page_addr p = 4096 * page_number p.
Proof. unfold page_number, page_addr. pose proof (page_aligned p). dlia. Qed.

Lemma page_number_inj p q : page_number p = page_number q -> p = q.
Proof.
  intros H. apply page_inj, virt_inj. pose proof (page_addr_number p) as Hp.
  pose proof (page_addr_number q) as Hq. unfold page_addr in *. congruence.
Qed.

#[local] Instance page_addr_inj : Inj (=) (=) page_addr.
Proof. intros p q H. apply page_number_inj. unfold page_number. congruence. Qed.

Lemma containing_page_number a : page_number (page_containing_address a) = virt_as_u64 a / 4096.
Proof. unfold page_number, page_addr. rewrite page_containing. dlia. Qed.

Lemma page_add_number p n :
  0 <= n -> 4096 * (page_number p + n) < 2 ^ 47 ->
  exists q, page_add p n = Ret q /\ page_number q = page_number p + n.
Proof.
  intros Hn Hlt. pose proof (page_addr_number p) as Hp. unfold page_addr in Hp.
  pose proof (virt_canonical (page_start_address p)) as Hc.
  destruct (page_add_ok p n) as (q & -> & Hq); [done | unfold canonical in *; lia |].
  exists q. split; [done|]. unfold page_number, page_addr. rewrite Hq, Hp. dlia.
Qed.

(** A list of consecutive pages. *)
Lemma consecutive_pages l lo n :
  map page_addr l = map (fun i => 4096 * lo + 4096 * Z.of_nat i) (seq 0 n) ->
  length l = n /\ NoDup l /\ forall p, p ∈ l <-> in_pages lo (lo + Z.of_nat n) p.
Proof.
  intros Hl. split; [by apply (f_equal length) in Hl; rewrite !length_map, length_seq in Hl|]. split.
  { apply (NoDup_fmap_1 page_addr). change (NoDup (map page_addr l)). rewrite Hl.
    apply (NoDup_fmap_2_strong (fun i => 4096 * lo + 4096 * Z.of_nat i)); [|apply NoDup_seq].
    intros i j _ _ ?. lia. }
  intros p. rewrite <-(list_elem_of_fmap_inj page_addr).
  change (page_addr <$> l) with (map page_addr l). rewrite Hl. unfold in_pages.
  rewrite list_elem_of_fmap. pose proof (page_addr_number p). split.
  - intros (i & Hi & Hin%elem_of_seq). lia.
  - intros Hr. exists (Z.to_nat (page_number p - lo)). rewrite elem_of_seq. lia.
Qed.
End pages.

Section proofs.
Context {B : Build} {SORT : UnstableSort} {SL : UnstableSortLaws SORT}.
Context {X : X86Phys} {XL : X86PhysLaws X} {V : X86Virt} {VL : X86VirtLaws V} {HG : X86Huge X V} {ELF : XmasElf}.
Context {M : Type} {MP : Mapper M} {RM : Recursive M} {RL : RecursiveLaws M}.
Context {budget : Budget}.

Abbreviation state := (LoadState M).

(** ** Loops that map pages *)

(** None of the pages is one the page table uses for itself. *)
Definition clear_of_window (P : Page -> Prop) (s : state) : Prop := forall p, P p -> reserved s p = false.

(** The budget allows for a table for each of the pages. *)
Definition covered (P : Page -> Prop) : Prop := forall p, P p -> huge_of p ∈ page_tables budget.

Lemma clear_of_window_kept (P Q : Page -> Prop) R s s' :
  (forall p, Q p -> P p) -> only_on R s s' -> clear_of_window P s -> clear_of_window Q s'.
Proof. intros H Ho Hc p Hp. rewrite (only_on_reserved _ _ _ _ Ho). auto. Qed.

(** [s'] has the pages of [P], which had no mapping in [s], mapped with [flags]. *)
Definition now_mapped (P : Page -> Prop) (flags : Z) (G : Page -> PhysFrame -> Prop) (s s' : state) : Prop :=
  forall p, P p -> tr s p = None /\ exists f, tr s' p = Some (f, flags) /\ G p f.

(** The frames of the file, from the one at [a] frames into it. *)
Lemma runs_map_file_frames start_frame start_page flags l a s :
  (forall i f, l !! i = Some f -> frame_number f = frame_number start_frame + a + Z.of_nat i) ->
  0 <= a -> 4096 * (page_number start_page + a + Z.of_nat (length l)) <= 2 ^ 47 ->
  let lo := page_number start_page + a in
  let P := in_pages lo (lo + Z.of_nat (length l)) in
  ready s -> clear_of_window P s -> covered P ->
  runs budget budget (3 * length l) (for_all l (map_file_frame start_frame start_page flags)) s (fun r s' =>
    ram s' = ram s /\ only_on P s s' /\
    match r with
    | Ok _ => now_mapped P flags (fun p f =>
        frame_number f = frame_number start_frame + (page_number p - page_number start_page)) s s'
    | Err e => cause e P s s'
    end).
Proof.
  revert a s. induction l as [|f l IH]; intros a s Hl Ha Hlt lo P Hs Hw Hcov; cbn [for_all length].
  { apply runs_ret; [done|]. split; [done|]. split; [apply only_on_refl|].
    intros p Hp. unfold P, in_pages in Hp. simpl in Hp. lia. }
  cbn [length] in *. pose proof (Hl 0%nat f eq_refl) as Hf.
  destruct (page_add_number start_page a) as (page & Hpage & Hpn); [lia | lia |].
  assert (forall p, p = page -> P p) as HPp by (intros p ->; unfold P, in_pages; lia).
  eapply (runs_weaken _ _ (3 + 3 * length l)); [lia | intros r s' H; exact H|].
  eapply runs_bind.
  - eapply runs_pure; [rewrite frame_sub_ok by lia; done|].
    eapply runs_pure; [replace (frame_number f - frame_number start_frame) with a by lia; exact Hpage|].
    apply runs_map_page; [done | by apply Hw, HPp | by apply Hcov, HPp].
  - intros [] s1 Hs1 (Hram & Ho & H0 & H1).
    set (Q := in_pages (lo + 1) (lo + 1 + Z.of_nat (length l))).
    assert (forall p, Q p -> P p) as HQP by (intros p; unfold P, Q, in_pages; lia).
    assert (forall p, Q p -> p <> page) as HQp by (intros p Hp ->; unfold Q, in_pages in Hp; lia).
    eapply runs_weaken; [reflexivity | |apply (IH (a + 1))]; try lia; try done.
    + replace (page_number start_page + (a + 1)) with (lo + 1) by lia. fold Q.
      intros r s2 (Hram2 & Ho2 & Hr). split; [congruence|].
      split; [by eapply only_on_trans; [exact HPp | exact HQP | exact Ho | exact Ho2]|].
      destruct r as [[]|e].
      * intros p Hp. destruct (decide (page_number p = lo)) as [Hpl|Hpl].
        -- assert (p = page) as -> by (apply page_number_inj; lia). split; [done|].
           exists f. rewrite (oo_pages _ _ _ Ho2), H1; [|rewrite (only_on_reserved _ _ _ _ Ho); auto |].
           ++ split; [done | lia].
           ++ intros Hq. by apply (HQp page).
        -- assert (Q p) as Hq by (unfold P, Q, in_pages in *; lia). destruct (Hr p Hq) as [Hn Hex].
           split; [|done]. rewrite <-(oo_pages _ _ _ Ho); auto.
      * eapply cause_before; [exact HQP | |exact Ho | exact Hr]. intros p Hq. auto.
    + intros i g Hi. rewrite (Hl (S i) g Hi). lia.
    + replace (page_number start_page + (a + 1)) with (lo + 1) by lia. fold Q.
      by eapply clear_of_window_kept.
    + replace (page_number start_page + (a + 1)) with (lo + 1) by lia. fold Q. intros p Hp. auto.
  - intros e s1 (Hram & Ho & Hc). split; [done|].
    split; [exact (only_on_weaken _ _ _ _ HPp Ho) | exact (cause_weaken _ _ _ _ _ HPp Hc)].
Qed.

(** Distinct pages have distinct frames. *)
Definition distinct_frames (P : Page -> Prop) (s : state) : Prop :=
  forall p q f g fl fl', P p -> P q -> tr s p = Some (f, fl) -> tr s q = Some (g, fl') ->
    frame_number f = frame_number g -> p = q.

(** A frame handed out between [s] and [s'] for [t]. *)
Definition fresh_for (t : MemoryRegionType) (s s' : state) (f : PhysFrame) : Prop :=
  fresh (frames s) (frames s') f /\ owners (frame_number f) (frames s') = [t].

Lemma fresh_for_after t s s1 s' f :
  t <> Usable -> fresh_for t s s1 f -> consumed (frames s1) (frames s') -> fresh_for t s s' f.
Proof.
  intros Ht [H1 H2] Hc. split; [by eapply fresh_after|].
  rewrite (consumed_kept _ _ _ Hc); [done|]. rewrite H2. congruence.
Qed.

Lemma fresh_for_before t s s1 s' f :
  consumed (frames s) (frames s1) -> fresh_for t s1 s' f -> fresh_for t s s' f.
Proof. intros Hc [H1 H2]. split; [by eapply fresh_before | done]. Qed.

(** One page with a frame of its own. *)
Lemma runs_map_fresh_page t flags page s :
  kind budget = t -> t <> Usable -> ready s -> reserved s page = false -> huge_of page ∈ page_tables budget ->
  runs budget budget 4 (map_fresh_page t flags page) s (fun r s' =>
    ram s' = ram s /\ only_on (fun p => p = page) s s' /\
    match r with
    | Ok _ => tr s page = None /\ exists f, tr s' page = Some (f, flags) /\ fresh_for t s s' f
    | Err e => cause e (fun p => p = page) s s'
    end).
Proof.
  intros Hkind Ht Hs Hw Hcov. eapply (runs_bind budget budget budget 1 3); [by apply runs_allocate| |].
  - intros f s1 Hs1 (Hpt & Hram1 & Ho1 & Hf). assert (tr s1 = tr s) as Htr by (unfold tr; by rewrite Hpt).
    eapply runs_weaken; [reflexivity | |apply runs_map_page; [done | unfold reserved; by rewrite Hpt | done]].
    intros r s2 (Hram2 & Ho2 & Hr). split; [congruence|].
    split; [by eapply only_on_trans; [|intros p H; exact H |exact Ho1 | exact Ho2]; intros ? []|].
    destruct r as [[]|e].
    + destruct Hr as [H0 H1]. rewrite Htr in H0. split; [done|]. exists f. split; [done|].
      eapply fresh_for_after; [done | exact Hf | apply Ho2].
    + rename Hr into Hc. destruct e; [exact Hc | |]; cbn in Hc |- *; unfold tr in *; by rewrite Hpt in Hc.
  - intros e s1 (_ & Hram & Ho & Hc). split; [done|].
    split; [by eapply only_on_weaken; [|exact Ho] | by eapply cause_weaken; [|exact Hc]]; intros ? [].
Qed.

Lemma runs_map_fresh_pages t flags l s :
  kind budget = t -> t <> Usable -> NoDup l -> ready s -> clear_of_window (fun p => p ∈ l) s ->
  covered (fun p => p ∈ l) ->
  runs budget budget (4 * length l) (for_all l (map_fresh_page t flags)) s (fun r s' =>
    ram s' = ram s /\ only_on (fun p => p ∈ l) s s' /\
    match r with
    | Ok _ => now_mapped (fun p => p ∈ l) flags (fun _ f => fresh_for t s s' f) s s' /\
        distinct_frames (fun p => p ∈ l) s'
    | Err e => cause e (fun p => p ∈ l) s s'
    end).
Proof.
  intros Hkind Ht. revert s. induction l as [|page l IH]; intros s Hnd Hs Hw Hcov; cbn [for_all].
  { apply runs_ret; [done|]. split; [done|]. split; [apply only_on_refl|].
    split; [by intros p Hp%not_elem_of_nil | by intros p q f g ? ? Hp%not_elem_of_nil]. }
  apply NoDup_cons in Hnd as [Hnin Hnd].
  assert (forall p, p = page -> p ∈ page :: l) as Hhd by (intros p ->; left).
  assert (forall p, p ∈ l -> p ∈ page :: l) as Htl by (intros p Hp; by right).
  eapply (runs_weaken _ _ (4 + 4 * length l)); [cbn [length]; lia | intros r s' H; exact H|].
  eapply runs_bind; [apply runs_map_fresh_page; auto| |].
  - intros [] s1 Hs1 (Hram & Ho & H0 & f & H1 & Hf).
    eapply runs_weaken; [reflexivity | |apply IH; [done | done | exact (clear_of_window_kept _ _ _ _ _ Htl Ho Hw) | intros p Hp; auto]].
    intros r s2 (Hram2 & Ho2 & Hr). split; [congruence|].
    split; [by eapply only_on_trans; [exact Hhd | exact Htl | exact Ho | exact Ho2]|].
    destruct r as [[]|e].
    2: { eapply cause_before; [exact Htl | |exact Ho | exact Hr].
         intros p Hp. split; [by intros -> | auto]. }
    destruct Hr as [Hnow Hdist].
    assert (tr s2 page = Some (f, flags)) as Hpage.
    { rewrite (oo_pages _ _ _ Ho2); [done | rewrite (only_on_reserved _ _ _ _ Ho); auto | done]. }
    assert (forall p, p ∈ l -> exists g, tr s2 p = Some (g, flags) /\ frame_number g <> frame_number f) as Hne.
    { intros p Hp. destruct (Hnow p Hp) as (_ & g & Hg & [[Hg1 _] _]). exists g. split; [done|].
      intros Heq. destruct Hf as [[_ Hf] _]. rewrite <-Heq, Hg1 in Hf. destruct Hf. by left. }
    split.
    + intros p [-> | Hp]%elem_of_cons.
      * split; [done|]. exists f. split; [done|]. eapply fresh_for_after; [done | exact Hf | apply Ho2].
      * destruct (Hnow p Hp) as (Hn & g & Hg & Hgf). split.
        -- rewrite <-(oo_pages _ _ _ Ho); [done | auto |]. by intros ->.
        -- exists g. split; [done|]. eapply fresh_for_before; [apply Ho | done].
    + intros p q g h fl fl' [-> | Hp]%elem_of_cons [-> | Hq]%elem_of_cons Hg Hh Heq; [done| | |].
      * destruct (Hne q Hq) as (k & Hk & Hkf). exfalso. congruence.
      * destruct (Hne p Hp) as (k & Hk & Hkf). exfalso. congruence.
      * by eapply Hdist.
  - intros e s1 (Hram & Ho & Hc). split; [done|].
    split; [exact (only_on_weaken _ _ _ _ Hhd Ho) | exact (cause_weaken _ _ _ _ _ Hhd Hc)].
Qed.

(** ** Memory accesses *)

Definition with_ram (s : state) (m : Z -> Z) : state :=
  {| page_table := page_table s; frames := frames s; ram := m |}.

Lemma runs_read_page page s f fl :
  ready s -> tr s page = Some (f, fl) ->
  runs budget budget 0 (read_page page) s (fun r s' => s' = s /\ r = Ok (fun i => ram s (4096 * frame_number f + i))).
Proof.
  unfold tr. intros Hs Ht. unfold runs, read_page. rewrite Ht. auto using within_refl.
Qed.

(** The bytes of frame [n] replaced. *)
Definition fill_frame (n : Z) (bytes : Z -> Z) (m : Z -> Z) : Z -> Z := fun j =>
  if (4096 * n <=? j) && (j <? 4096 * n + 4096) then bytes (j - 4096 * n) else m j.

Lemma fill_frame_in n bytes m i : 0 <= i < 4096 -> fill_frame n bytes m (4096 * n + i) = bytes i.
Proof.
  intros Hi. unfold fill_frame.
  replace ((4096 * n <=? 4096 * n + i) && (4096 * n + i <? 4096 * n + 4096)) with true by lia.
  f_equal. lia.
Qed.

Lemma fill_frame_out n bytes m k i : 0 <= i < 4096 -> k <> n -> fill_frame n bytes m (4096 * k + i) = m (4096 * k + i).
Proof.
  intros Hi Hk. unfold fill_frame.
  destruct (Z.leb_spec (4096 * n) (4096 * k + i)), (Z.ltb_spec (4096 * k + i) (4096 * n + 4096));
    cbn [andb]; lia || done.
Qed.

Lemma runs_write_page page bytes s f fl :
  ready s -> tr s page = Some (f, fl) ->
  runs budget budget 0 (write_page page bytes) s (fun r s' =>
    r = Ok tt /\ s' = with_ram s (fill_frame (frame_number f) bytes (ram s))).
Proof.
  unfold tr. intros Hs Ht. unfold runs, write_page. rewrite Ht. auto using within_refl.
Qed.

(** Byte [j] of the memory is what address [z] refers to. *)
Definition backs (s : state) (z j : Z) : Prop :=
  exists p f fl, page_number p = z / 4096 /\ tr s p = Some (f, fl) /\ j = 4096 * frame_number f + z mod 4096.

Lemma runs_zero_byte v o s j :
  ready s -> 0 <= o -> 0 <= virt_as_u64 v -> virt_as_u64 v + o < 2 ^ 47 -> backs s (virt_as_u64 v + o) j ->
  runs budget budget 0 (zero_byte v o) s (fun r s' =>
    r = Ok tt /\ s' = with_ram s (fun i => if i =? j then 0 else ram s i)).
Proof.
  intros Hs Ho Hv Hlt (p & f & fl & Hp & Ht & Hj).
  destruct (virt_add_ok v o) as (a & Ha & Hav); [done | unfold canonical; lia |].
  eapply runs_pure; [exact Ha|]. unfold runs, write_byte.
  assert (page_containing_address a = p) as ->.
  { apply page_number_inj. rewrite containing_page_number, Hav. done. }
  unfold tr in Ht. rewrite Ht, Hav, <-Hj. auto using within_refl.
Qed.

(** The loop that zeroes: all the bytes the offsets refer to, and no others. *)
Lemma runs_zero_bytes v l s :
  ready s -> 0 <= virt_as_u64 v ->
  (forall o, o ∈ l -> 0 <= o /\ virt_as_u64 v + o < 2 ^ 47 /\ exists j, backs s (virt_as_u64 v + o) j) ->
  runs budget budget 0 (for_all l (zero_byte v)) s (fun r s' =>
    r = Ok tt /\ (exists m, s' = with_ram s m) /\
    (forall o j, o ∈ l -> backs s (virt_as_u64 v + o) j -> ram s' j = 0) /\
    (forall j, (forall o, o ∈ l -> ~ backs s (virt_as_u64 v + o) j) -> ram s' j = ram s j) /\
    (forall j, ram s j = 0 -> ram s' j = 0)).
Proof.
  revert s. induction l as [|o l IH]; intros s Hs Hv Hl; cbn [for_all].
  { apply runs_ret; [done|]. split; [done|]. split; [by exists (ram s); destruct s|].
    split; [by intros o j H%not_elem_of_nil | done]. }
  destruct (Hl o) as (Ho & Hlt & j & Hj); [left|].
  apply (runs_bind budget budget budget 0 0 _ _ _ _ _ (runs_zero_byte v o s j Hs Ho Hv Hlt Hj)); [|by intros e s1 [? _]].
  intros [] s1 Hs1 [_ ->]. set (m1 := fun i => if i =? j then 0 else ram s i) in *.
  assert (m1 j = 0) as Hm1 by (unfold m1; by rewrite Z.eqb_refl).
  eapply runs_weaken; [reflexivity | |apply IH; [done | done |]].
  2: { intros o' Ho'. apply Hl. by right. }
  intros r s2 (-> & [m ->] & H1 & H2 & H3). split; [done|]. split; [by exists m|].
  change (backs (with_ram s m1)) with (backs s) in H1, H2. cbn [ram with_ram] in H1, H2, H3 |- *.
  split_and!.
  - intros o' j' [-> | Ho']%elem_of_cons Hb; [|by eapply H1].
    apply H3. assert (j' = j) as ->; [|done]. destruct Hj as (p & f & fl & Hp & Ht & ->).
    destruct Hb as (p' & f' & fl' & Hp' & Ht' & ->).
    assert (p' = p) as -> by (apply page_number_inj; congruence). congruence.
  - intros j' Hno. rewrite H2; [|intros o' Ho'; apply Hno; by right]. unfold m1.
    destruct (Z.eqb_spec j' j) as [->|]; [|done]. destruct (Hno o); [left | done].
  - intros j' Hz. apply H3. unfold m1. by case_match.
Qed.

(** ** The copy of the last page *)

Lemma only_on_table P s s' :
  page_table s' = page_table s -> only_on P s s' -> only_on (fun _ => False) s s'.
Proof.
  intros Heq [? ? ? _ _]. constructor; [done..| |].
  - intros p _ _. unfold tr. by rewrite Heq.
  - intros q _ _. by rewrite Heq.
Qed.

(** Bytes of frames that were usable may be written. *)
Lemma only_on_fill P s s1 n bytes :
  only_on P s s1 -> owners n (frames s) = [Usable] ->
  only_on P s (with_ram s1 (fill_frame n bytes (ram s1))).
Proof.
  intros [H1 H2 H3 H4 H5] Hn. constructor; [done | done | | done | done]. intros k i Hk Hi. cbn [ram with_ram].
  rewrite fill_frame_out; [by apply H3 | done | congruence].
Qed.

Definition temp_page_number : Z := 0xfeeefeee.

Definition is_temp (p : Page) : Prop := page_number p = temp_page_number.

(** The second half: the last page moves to the new frame. *)
Lemma runs_remap last f f0 flags fl s :
  ready s -> reserved s last = false -> huge_of last ∈ page_tables budget -> tr s last = Some (f0, fl) ->
  runs budget budget 3 (_ ← unmap_page last; map_page last f flags) s (fun r s' =>
    ram s' = ram s /\ only_on (fun p => p = last) s s' /\
    match r with
    | Ok _ => tr s' last = Some (f, flags)
    | Err e => cause e (fun _ => False) s s'
    end).
Proof.
  intros Hs Hw Hcov Ht.
  apply (runs_bind budget budget budget 0 3 _ _ _ _ _ (runs_unmap_page _ _ _ _ _ Hs Hw Ht)); [|by intros e s1 [? _]].
  intros [] s1 Hs1 (_ & Hram & Hfr & Ho & Hnone).
  eapply runs_weaken; [reflexivity | |apply runs_map_page; [done | by rewrite (only_on_reserved _ _ _ _ Ho) | done]].
  intros r s2 (Hram2 & Ho2 & Hr). split; [congruence|].
  split; [by eapply only_on_trans; [| |exact Ho | exact Ho2]|]. destruct r as [[]|e]; [by destruct Hr|].
  rename Hr into Hc. destruct e; [done | |].
  - destruct Hc as (p & -> & Hh). rewrite (proj2 (proj1 (oo_layout _ _ _ Ho) last)) in Hh.
    apply huge_not_mapped in Ht. congruence.
  - destruct Hc as (p & fl' & -> & Hp). congruence.
Qed.

(** The temporary mapping is made and stays. *)
Definition temp_used (s s' : state) : Prop := forall p, is_temp p -> tr s p = None /\ is_Some (tr s' p).

Lemma runs_copy_last_page v fs flags last f0 s :
  kind budget = Kernel -> ready s -> 0 <= virt_as_u64 v -> 0 <= fs -> 0 < virt_as_u64 v + fs < 2 ^ 47 ->
  page_number last = (virt_as_u64 v + fs - 1) / 4096 -> ~ is_temp last ->
  clear_of_window (fun p => p = last \/ is_temp p) s -> covered (fun p => p = last \/ is_temp p) ->
  tr s last = Some (f0, flags) ->
  runs budget budget 7 (copy_last_page v fs flags) s (fun r s' =>
    only_on (fun p => p = last \/ is_temp p) s s' /\
    match r with
    | Ok _ => temp_used s s' /\
        exists f, tr s' last = Some (f, flags) /\ fresh_for Kernel s s' f /\
          forall i, 0 <= i < 4096 -> ram s' (4096 * frame_number f + i) = ram s (4096 * frame_number f0 + i)
    | Err e => cause e is_temp s s'
    end).
Proof.
  intros Hkind Hs Hv Hfs Hlt Hlast Hnt Hw Hcov Htl. unfold copy_last_page.
  destruct (VirtAddr_new_canonical 0xfeeefeee000) as (temp & Htemp & Htv); [by_compute|].
  eapply runs_pure; [exact Htemp|]. set (tp := page_containing_address temp).
  assert (is_temp tp) as Htp by (unfold is_temp, tp; by rewrite containing_page_number, Htv).
  assert (forall p, is_temp p <-> p = tp) as Hit.
  { intros p. split; [|by intros ->]. intros Hp. apply page_number_inj. unfold is_temp in *. congruence. }
  eapply (runs_bind budget budget budget 1 6); [by apply runs_allocate| |].
  2: { intros e s1 (_ & _ & Ho & Hc).
       split; [by eapply only_on_weaken; [|exact Ho] | by eapply cause_weaken; [|exact Hc]]; intros ? []. }
  intros f s1 Hs1 (Hpt & Hram1 & Ho1 & Hf). assert (tr s1 = tr s) as Htr by (unfold tr; by rewrite Hpt).
  eapply (runs_bind budget budget budget 3 3);
    [apply runs_map_page; [done | unfold reserved; rewrite Hpt; apply Hw; by right | apply Hcov; by right]| |].
  2: { intros e s2 (_ & Ho2 & Hc). split.
       - eapply only_on_trans; [| |exact Ho1 | exact Ho2]; [intros ? [] | intros p ->; by right].
       - eapply cause_before; [| |exact Ho1 | exact Hc]; [by intros p ->|].
         intros p ->. split; [by intros [] | apply Hw; by right]. }
  intros [] s2 Hs2 (Hram2 & Ho2 & Hn2 & Hm2).
  destruct (virt_add_ok v fs) as (a & Ha & Hav); [lia | unfold canonical; lia |].
  eapply runs_pure; [exact Ha|].
  destruct (virt_sub_ok a 1) as (b & Hb & Hbv); [lia | unfold canonical; lia |].
  eapply runs_pure; [exact Hb|].
  assert (page_containing_address b = last) as ->.
  { apply page_number_inj. rewrite containing_page_number, Hbv, Hav. done. }
  assert (last <> tp) as Hne by (intros ->; by apply Hnt).
  assert (tr s2 last = Some (f0, flags)) as Hl2.
  { rewrite (oo_pages _ _ _ Ho2), Htr; [done | unfold reserved; rewrite Hpt; apply Hw; by left | done]. }
  apply (runs_bind budget budget budget 0 3 _ _ _ _ _ (runs_read_page _ _ _ _ Hs2 Hl2)); [|by intros e s3 [_ ?]].
  intros bytes s3 _ [-> [= ->]].
  apply (runs_bind budget budget budget 0 3 _ _ _ _ _ (runs_write_page _ _ _ _ _ Hs2 Hm2)); [|by intros e s3 [? _]].
  intros [] s3 Hs3 [_ ->].
  set (s3 := with_ram s2 _) in *.
  assert (only_on (fun p => p = tp) s s3) as Ho3.
  { apply only_on_fill; [|apply Hf]. eapply only_on_trans; [| |exact Ho1 | exact Ho2]; [intros ? [] | done]. }
  eapply runs_weaken; [reflexivity | |eapply runs_remap; [done | |apply Hcov; by left |exact Hl2]].
  2: { rewrite (only_on_reserved _ _ _ _ Ho3). apply Hw. by left. }
  intros r s4 (Hram4 & Ho4 & Hr). split.
  { eapply only_on_trans; [| |exact Ho3 | exact Ho4]; [intros p ->; by right | intros p ->; by left]. }
  destruct r as [[]|e].
  2: { eapply cause_before; [| |exact Ho3 | exact Hr]; intros ? []. }
  split.
  { intros p ->%Hit. rewrite <-Htr. split; [done|]. rewrite (oo_pages _ _ _ Ho4); [by eexists| |done].
    rewrite (only_on_reserved _ _ _ _ Ho3). apply Hw. by right. }
  exists f. split; [done|]. split.
  - eapply fresh_for_after; [done | eapply fresh_for_after; [done | exact Hf | apply Ho2] | apply Ho4].
  - intros i Hi. rewrite Hram4. cbn [ram s3 with_ram]. rewrite fill_frame_in by done. congruence.
Qed.

Lemma page_exists k : 0 <= k < 2 ^ 35 -> exists p, page_number p = k.
Proof.
  intros Hk. destruct (VirtAddr_new_canonical (4096 * k)) as (a & _ & Ha); [unfold canonical; lia|].
  exists (page_containing_address a). rewrite containing_page_number, Ha. dlia.
Qed.

(** ** The pages of a segment *)

Section segment.
Context (v : VirtAddr) (fs ms flags n0 : Z).
Abbreviation a := (virt_as_u64 v).
Abbreviation first := (a / 4096).
Abbreviation last := ((a + fs - 1) / 4096).
Abbreviation final := ((a + ms) / 4096).

Hypothesis Hrange : 0 < a /\ 0 <= fs <= ms /\ a + ms < 2 ^ 47 - 8192.
Hypothesis Hkind : kind budget = Kernel.
Hypothesis Htemp : temp_page_number < first \/ final < temp_page_number.

(** Those with bytes of the file, and those behind them. *)
Definition file_pages : Page -> Prop := in_pages first (last + 1).
Definition bss_pages : Page -> Prop := in_pages (last + 1) (final + 1).

(** The frame of the file that page [p] shows. *)
Definition file_number (p : Page) : Z := n0 + (page_number p - first).

(** The file is mapped, straight from where it was loaded. *)
Definition file_direct (s : state) : Prop := forall p, file_pages p ->
  owners (file_number p) (frames s) = [Kernel] /\
  exists f, tr s p = Some (f, flags) /\ frame_number f = file_number p.

(** The bytes of the file in [s0] are mapped in [s]; the last page may be a copy. *)
Definition file_mapped (s0 s : state) : Prop := forall p, file_pages p ->
  exists f, tr s p = Some (f, flags) /\ owners (frame_number f) (frames s) = [Kernel] /\
    (frame_number f = file_number p /\ owners (frame_number f) (frames s0) = [Kernel] \/
     page_number p = last /\ owners (frame_number f) (frames s0) = [Usable]) /\
    forall i, 0 <= i < 4096 ->
      ram s (4096 * frame_number f + i) = ram s0 (4096 * file_number p + i).

(** A last page that is followed by zeroes is a copy. *)
Definition copied (s0 s : state) : Prop := (a + fs) mod 4096 <> 0 ->
  forall p f fl, file_pages p -> page_number p = last -> tr s p = Some (f, fl) ->
    owners (frame_number f) (frames s0) = [Usable].

(** Mappings outside [P] stay. *)
Definition keeps (P : Page -> Prop) (s s' : state) : Prop :=
  forall p e, ~ P p -> reserved s p = false -> tr s p = Some e -> tr s' p = Some e.

Lemma file_direct_mapped s : file_direct s -> file_mapped s s.
Proof.
  intros H p Hp. destruct (H p Hp) as (Hu & f & Hf & Hn). exists f. rewrite Hn. split; [done|].
  split; [done|]. split; [by left | done].
Qed.

(** The temporary page, if the segment needs it. *)
Definition temp_area (p : Page) : Prop := fs < ms /\ (a + fs) mod 4096 <> 0 /\ is_temp p.

Lemma runs_maybe_copy s :
  fs < ms -> ready s -> file_direct s -> clear_of_window (fun p => file_pages p \/ temp_area p) s ->
  covered (fun p => file_pages p \/ temp_area p) ->
  runs budget budget 7 (if negb (Z.land (a + fs) 0xfff =? 0) then copy_last_page v fs flags else mret tt) s (fun r s' =>
    only_on (fun p => file_pages p \/ temp_area p) s s' /\
    match r with
    | Ok _ => file_mapped s s' /\ copied s s' /\ keeps file_pages s s' /\
        ((a + fs) mod 4096 <> 0 -> temp_used s s')
    | Err e => cause e temp_area s s'
    end).
Proof.
  intros Hms Hs Hd Hw Hcov. rewrite land_fff. destruct (Z.eqb_spec ((a + fs) mod 4096) 0) as [H0|H0]; cbn [negb].
  { eapply (runs_weaken _ _ 0); [lia | intros r s' H; exact H|]. apply runs_ret; [done|]. split; [apply only_on_refl|].
    split; [by apply file_direct_mapped|]. split; [by intros [] |]. split; [by intros p e _ _ | by intros []]. }
  destruct (page_exists last) as [lp Hlp]; [dlia|].
  assert (file_pages lp) as Hfl by (unfold file_pages, in_pages; dlia).
  assert (~ is_temp lp) as Hnt by (unfold is_temp; dlia).
  assert (forall p, is_temp p -> temp_area p) as Hta by (intros p Hp; unfold temp_area; auto).
  assert (forall p, p = lp \/ is_temp p -> file_pages p \/ temp_area p) as Hsub.
  { intros p [-> | ?]; [by left | right; auto]. }
  destruct (Hd lp Hfl) as (Hu & f0 & Hf0 & Hn0).
  eapply runs_weaken; [reflexivity | |apply (runs_copy_last_page v fs flags lp f0)];
    [|done | done | lia | lia | lia | done | done | intros p Hp; auto | intros p Hp; apply Hcov; auto | done].
  intros r s' [Ho Hr]. split; [exact (only_on_weaken _ _ _ _ Hsub Ho)|].
  destruct r as [[]|e]; [|exact (cause_weaken _ _ _ _ _ Hta Hr)]. destruct Hr as (Htn & f & Hf & [[Hf1 Hf2] Hf3] & Hcopy).
  assert (forall p, p <> lp -> ~ is_temp p -> reserved s p = false -> tr s' p = tr s p) as Hother.
  { intros p Hp Hpt Hr. apply (oo_pages _ _ _ Ho); [done|]. by intros [?|?]. }
  split; [|split; [|split; [|done]]].
  - intros p Hp. destruct (decide (page_number p = last)) as [Hpl|Hpl].
    + assert (p = lp) as -> by (apply page_number_inj; congruence). exists f. split; [done|].
      split; [done|]. split; [by right|].
      intros i Hi. rewrite Hcopy by done. by rewrite Hn0.
    + destruct (Hd p Hp) as (Hup & g & Hg & Hgn). exists g. rewrite Hother; [|by intros ->| |apply Hw; by left].
      2: { unfold is_temp. unfold file_pages, in_pages in Hp. dlia. }
      rewrite Hgn. split; [done|]. split; [by rewrite (consumed_kept _ _ _ (oo_frames _ _ _ Ho)); rewrite Hup|].
      split; [by left|]. intros i Hi. by rewrite (oo_ram _ _ _ Ho); [| rewrite Hup |].
  - intros _ p g fl Hp Hpl Hg. assert (p = lp) as -> by (apply page_number_inj; congruence). congruence.
  - intros p e Hp Hr Ht. destruct (decide (page_number p = temp_page_number)) as [Hpt|Hpt].
    + destruct (Htn p Hpt) as [Hn _]. congruence.
    + rewrite Hother; [done | by intros -> | done | done].
Qed.

(** The segment is in place in [s]: the bytes of the file, as they were in [s0],
    and zeroes, in frames that belong to the kernel. *)
Definition loaded_at (s0 s : state) : Prop := forall i, 0 <= i < ms ->
  exists p f, page_number p = (a + i) / 4096 /\ tr s p = Some (f, flags) /\
    owners (frame_number f) (frames s) = [Kernel] /\
    ram s (4096 * frame_number f + (a + i) mod 4096) =
      if i <? fs then ram s0 (4096 * n0 + a mod 4096 + i) else 0.

(** The pages behind the file have frames that were usable. *)
Definition bss_mapped (s0 s : state) : Prop := forall p, bss_pages p ->
  exists f, tr s p = Some (f, flags) /\ owners (frame_number f) (frames s0) = [Usable] /\
    owners (frame_number f) (frames s) = [Kernel].

Definition all_pages : Page -> Prop := in_pages first (final + 1).

Lemma all_pages_cases p : all_pages p <-> file_pages p \/ bss_pages p.
Proof. unfold all_pages, file_pages, bss_pages, in_pages. dlia. Qed.

(** All pages are backed, each by a frame of its own. *)
Record pages_ready (s0 s : state) : Prop := {
  pr_file : file_mapped s0 s;
  pr_copied : copied s0 s;
  pr_bss : bss_mapped s0 s;
  pr_distinct : distinct_frames all_pages s;
}.

(** An address of the segment at or behind the end of the file is in a frame that
    was usable; every address of the segment is in some frame. *)
Lemma pages_ready_backed s0 s i :
  pages_ready s0 s -> 0 <= i < ms -> exists j, backs s (a + i) j.
Proof.
  intros H Hi. destruct (page_exists ((a + i) / 4096)) as [p Hp]; [dlia|].
  assert (all_pages p) as [Hf|Hb]%all_pages_cases by (unfold all_pages, in_pages; dlia).
  - destruct (pr_file _ _ H p Hf) as (f & Hf' & _). by eexists _, p, f, flags.
  - destruct (pr_bss _ _ H p Hb) as (f & Hf' & _). by eexists _, p, f, flags.
Qed.

Lemma pages_ready_zero_frames s0 s o p f fl :
  pages_ready s0 s -> fs <= o < ms -> page_number p = (a + o) / 4096 -> tr s p = Some (f, fl) ->
  owners (frame_number f) (frames s0) = [Usable].
Proof.
  intros H Ho Hp Ht. assert (all_pages p) as [Hf|Hb]%all_pages_cases by (unfold all_pages, in_pages; dlia).
  - unfold file_pages, in_pages in Hf. eapply (pr_copied _ _ H); [|done| |exact Ht]; dlia.
  - destruct (pr_bss _ _ H p Hb) as (g & Hg & Hu & _). congruence.
Qed.

Lemma runs_zero_segment P s0 s :
  ready s -> pages_ready s0 s -> only_on P s0 s ->
  runs budget budget 0 (for_all (offsets fs ms) (zero_byte v)) s (fun r s' =>
    r = Ok tt /\ (forall p, tr s' p = tr s p) /\ only_on P s0 s' /\ loaded_at s0 s').
Proof.
  intros Hs Hpr Ho.
  eapply runs_weaken; [reflexivity | |apply runs_zero_bytes; [done | lia |]].
  2: { intros o Hoff%elem_of_offsets. split; [lia|]. split; [lia|].
       apply (pages_ready_backed s0); [done | lia]. }
  intros r s' (-> & [m ->] & Hzero & Hsame & _). cbn [ram with_ram] in Hzero, Hsame.
  split; [done|]. split; [done|]. split.
  - destruct Ho as [H1 H2 H3 H4 H5]. constructor; [done | done | | done | done]. cbn [ram with_ram].
    intros n i Hn Hi. rewrite Hsame; [by apply H3|].
    intros o Hoff%elem_of_offsets (p & f & fl & Hp & Ht & Hj).
    apply frame_byte_inj in Hj as [-> _]; [|done | apply mod_4096].
    apply Hn. by eapply pages_ready_zero_frames.
  - intros i Hi. destruct (pages_ready_backed s0 s i Hpr Hi) as (j & p & f & fl & Hp & Ht & Hj).
    assert (all_pages p) as Hall by (unfold all_pages, in_pages; dlia).
    destruct (Z.ltb_spec i fs) as [Hlt|Hge].
    + destruct (pr_file _ _ Hpr p) as (g & Hg & Hgu & _ & Hbytes).
      { unfold file_pages, in_pages. dlia. }
      rewrite Hg in Ht. injection Ht as -> <-. exists p, f. do 3 (split; [done|]). cbn [ram with_ram].
      rewrite Hsame.
      { rewrite Hbytes by apply mod_4096. f_equal. unfold file_number. rewrite Hp. dlia. }
      intros o Hoff%elem_of_offsets (q & g & gl & Hq & Htq & Hj').
      apply frame_byte_inj in Hj' as [Hfg Hmod]; [|apply mod_4096..].
      assert (all_pages q) as Hallq by (unfold all_pages, in_pages; dlia).
      pose proof (pr_distinct _ _ Hpr p q f g flags gl Hall Hallq Hg Htq Hfg) as <-. dlia.
    + assert (fl = flags /\ owners (frame_number f) (frames s) = [Kernel]) as [-> Hu].
      { apply all_pages_cases in Hall as [Hf|Hb].
        - destruct (pr_file _ _ Hpr p Hf) as (g & Hg & Hgu & _). rewrite Hg in Ht. by injection Ht as -> <-.
        - destruct (pr_bss _ _ Hpr p Hb) as (g & Hg & _ & Hgu). rewrite Hg in Ht. by injection Ht as -> <-. }
      exists p, f. do 3 (split; [done|]). cbn [ram with_ram]. apply (Hzero i).
      * apply elem_of_offsets. lia.
      * by eexists p, f, _.
Qed.

(** Distinct pages of the file have distinct frames: those of the file, and the
    copy. *)
Lemma file_mapped_distinct s0 s : file_mapped s0 s -> distinct_frames file_pages s.
Proof.
  intros H p q f g fl fl' Hp Hq Hf Hg Heq.
  destruct (H p Hp) as (f' & Hf' & _ & Hcf & _), (H q Hq) as (g' & Hg' & _ & Hcg & _).
  assert (f' = f) as -> by congruence. assert (g' = g) as -> by congruence.
  apply page_number_inj. unfold file_number in *.
  destruct Hcf as [[? ?] | [? ?]], Hcg as [[? ?] | [? ?]]; congruence || lia.
Qed.

Lemma runs_bss_pages s0 s l :
  ready s -> file_mapped s0 s -> copied s0 s -> consumed (frames s0) (frames s) ->
  clear_of_window all_pages s -> covered all_pages -> NoDup l -> (forall p, p ∈ l <-> bss_pages p) ->
  runs budget budget (4 * length l) (for_all l (map_fresh_page Kernel flags)) s (fun r s' =>
    only_on bss_pages s s' /\
    match r with
    | Ok _ => pages_ready s0 s' /\ forall p, bss_pages p -> tr s p = None
    | Err e => cause e bss_pages s s'
    end).
Proof.
  intros Hs Hfile Hcop Hcons Hw Hcov Hnd Hl.
  assert (forall p, p ∈ l -> bss_pages p) as Hlb by (intros p; apply Hl).
  eapply runs_weaken; [reflexivity | |apply runs_map_fresh_pages; [done | done | done | done | |]].
  2: { intros p Hp. apply Hw, all_pages_cases. right. by apply Hl. }
  2: { intros p Hp. apply Hcov, all_pages_cases. right. by apply Hl. }
  intros r s' (_ & Ho & Hr). split; [exact (only_on_weaken _ _ _ _ Hlb Ho)|].
  destruct r as [[]|e]; [|exact (cause_weaken _ _ _ _ _ Hlb Hr)]. destruct Hr as [Hnow Hdist].
  split; [|intros p Hp; apply Hnow; by apply Hl].
  assert (forall p, file_pages p -> tr s' p = tr s p) as Hfp.
  { intros p Hp. apply (oo_pages _ _ _ Ho); [apply Hw, all_pages_cases; by left|]. intros Hin%Hl.
    unfold file_pages, bss_pages, in_pages in *. lia. }
  assert (file_mapped s0 s') as Hfile'.
  { intros p Hp. destruct (Hfile p Hp) as (f & Hf & Hu & Hc & Hb). exists f. rewrite Hfp by done.
    split; [done|]. split; [by rewrite (consumed_kept _ _ _ (oo_frames _ _ _ Ho)); rewrite Hu|].
    split; [done|]. intros i Hi. rewrite (oo_ram _ _ _ Ho); [auto | by rewrite Hu | done]. }
  assert (forall p, bss_pages p -> exists f, tr s' p = Some (f, flags) /\ fresh_for Kernel s s' f) as Hbss.
  { intros p Hp. apply Hl in Hp. destruct (Hnow p Hp) as (_ & f & Hf & Hfr). eauto. }
  assert (forall p q f g fl fl', file_pages p -> bss_pages q -> tr s' p = Some (f, fl) ->
    tr s' q = Some (g, fl') -> frame_number f <> frame_number g) as Hcross.
  { intros p q f g fl fl' Hp Hq Hf Hg Heq. destruct (Hfile p Hp) as (f' & Hf' & Hu & _).
    rewrite <-(Hfp p Hp), Hf in Hf'. injection Hf' as <- _.
    destruct (Hbss q Hq) as (g' & Hg' & [[Hgu _] _]). rewrite Hg in Hg'. injection Hg' as <- _. congruence. }
  constructor; [done | | |].
  - intros Hm p f fl Hp Hpl Ht. rewrite Hfp in Ht by done. by eapply Hcop.
  - intros p Hp. destruct (Hbss p Hp) as (f & Hf & [Hfr Hk]). exists f. split; [done|].
    split; [by apply (fresh_before _ _ _ _ Hcons Hfr) | done].
  - intros p q f g fl fl' [Hp|Hp]%all_pages_cases [Hq|Hq]%all_pages_cases Hf Hg Heq.
    + by eapply (file_mapped_distinct s0 s').
    + destruct (Hcross p q f g fl fl' Hp Hq Hf Hg Heq).
    + by destruct (Hcross q p g f fl' fl Hq Hp Hg Hf).
    + by eapply Hdist; [apply Hl | apply Hl | | |].
Qed.

(** The pages [map_bss] maps, as it computes them. *)
Lemma bss_page_range zero_start zero_end :
  virt_as_u64 zero_start = a + fs -> virt_as_u64 zero_end = a + ms ->
  exists up start_addr, align_up (virt_as_u64 zero_start) 4096 = Ret up /\ VirtAddr_new up = Ret start_addr /\
    let l := page_range_inclusive (page_containing_address start_addr) (page_containing_address zero_end) in
    length l = Z.to_nat (final - last) /\ NoDup l /\ forall p, p ∈ l <-> bss_pages p.
Proof.
  intros Hzs Hze. exists (4096 * (last + 1)).
  destruct (VirtAddr_new_canonical (4096 * (last + 1))) as (sa & Hsa & Hsv); [unfold canonical; dlia|].
  exists sa. split; [rewrite align_up_ok, Hzs by lia; do 2 f_equal; dlia|]. split; [done|].
  set (l := page_range_inclusive _ _).
  pose proof (page_range_starts (page_containing_address sa) (page_containing_address zero_end)) as Hr.
  cbv zeta in Hr. fold l in Hr. rewrite !page_containing, Hsv, Hze in Hr. specialize (Hr ltac:(dlia)).
  destruct (consecutive_pages l (last + 1) (Z.to_nat (final - last))) as (Hlen & Hnd & Hin).
  { unfold page_addr. rewrite Hr. replace ((4096 * (last + 1)) mod 4096) with 0 by dlia.
    rewrite Z.sub_0_r. f_equal. f_equal. dlia. }
  split; [done|]. split; [done|]. intros p. rewrite Hin. unfold bss_pages, in_pages. dlia.
Qed.

(** Pages a segment may be concerned with. *)
Definition touched (p : Page) : Prop := all_pages p \/ temp_area p.

Lemma file_touched p : file_pages p \/ temp_area p -> touched p.
Proof. unfold touched. rewrite all_pages_cases. tauto. Qed.

Lemma bss_touched p : bss_pages p -> touched p.
Proof. unfold touched. rewrite all_pages_cases. tauto. Qed.

Lemma bss_not_before p : bss_pages p -> ~ (file_pages p \/ temp_area p).
Proof. unfold bss_pages, file_pages, temp_area, in_pages, is_temp. dlia. Qed.

Lemma runs_map_bss s :
  fs < ms -> ready s -> file_direct s -> clear_of_window touched s -> covered touched ->
  runs budget budget (7 + 4 * Z.to_nat (final - last)) (map_bss v fs ms flags) s (fun r s' =>
    only_on touched s s' /\
    match r with
    | Ok _ => keeps file_pages s s' /\ loaded_at s s' /\ ((a + fs) mod 4096 <> 0 -> temp_used s s')
    | Err e => cause e (fun p => bss_pages p \/ temp_area p) s s'
    end).
Proof.
  intros Hms Hs Hd Hw Hcov. unfold map_bss.
  destruct (virt_add_ok v fs) as (zs & Hzs & Hzsv); [lia | unfold canonical; lia |].
  destruct (virt_add_ok v ms) as (ze & Hze & Hzev); [lia | unfold canonical; lia |].
  destruct (bss_page_range zs ze Hzsv Hzev) as (up & sa & Hup & Hsa & Hlen & Hnd & Hin).
  eapply runs_pure; [exact Hzs|]. eapply runs_pure; [exact Hze|]. rewrite Hzsv.
  eapply runs_bind; [apply runs_maybe_copy; [done | done | done | intros p Hp; apply Hw; by apply file_touched
    | intros p Hp; apply Hcov; by apply file_touched]| |].
  2: { intros e s1 [Ho Hc]. split; [exact (only_on_weaken _ _ _ _ file_touched Ho)|].
       eapply cause_weaken; [|exact Hc]. by right. }
  intros [] s1 Hs1 (Ho1 & Hfile & Hcop & Hkeep & Htmp1). rewrite Hzsv in Hup.
  eapply runs_pure; [exact Hup|]. eapply runs_pure; [exact Hsa|].
  rewrite <-(Nat.add_0_r (4 * _)), <-Hlen. eapply runs_bind.
  - apply (runs_bss_pages s); [done | done | done | apply Ho1 | | |exact Hnd | exact Hin].
    + intros p Hp. rewrite (only_on_reserved _ _ _ _ Ho1). apply Hw. by left.
    + intros p Hp. apply Hcov. by left.
  - intros [] s2 Hs2 (Ho2 & Hpr & Hnone).
    assert (only_on touched s s2) as Ho.
    { exact (only_on_trans _ _ _ _ _ _ file_touched bss_touched Ho1 Ho2). }
    eapply runs_weaken; [reflexivity | |by eapply runs_zero_segment].
    intros r s3 (-> & Htr & Ho3 & Hl). split; [done|]. split; [|split; [done|]].
    2: { intros Hm p Hp. destruct (Htmp1 Hm p Hp) as [Hn Hsome]. split; [done|].
         rewrite Htr, (oo_pages _ _ _ Ho2); [done| |].
         - rewrite (only_on_reserved _ _ _ _ Ho1). apply Hw. right. unfold temp_area. auto.
         - intros Hb. apply bss_not_before in Hb. unfold temp_area in Hb. tauto. }
    intros p e Hp Hr Ht. rewrite Htr, (oo_pages _ _ _ Ho2); [by apply Hkeep| |].
    + by rewrite (only_on_reserved _ _ _ _ Ho1).
    + intros Hb. specialize (Hkeep p e Hp Hr Ht). rewrite (Hnone p Hb) in Hkeep. done.
  - intros e s2 [Ho2 Hc]. split; [exact (only_on_trans _ _ _ _ _ _ file_touched bss_touched Ho1 Ho2)|].
    eapply (cause_before _ bss_pages); [by left | |exact Ho1 | exact Hc].
    intros p Hp. split; [by apply bss_not_before | by apply Hw, bss_touched].
Qed.

(** A segment without zeroes behind the file. *)
Lemma file_direct_loaded s0 s :
  file_direct s -> ram s = ram s0 -> ms = fs -> loaded_at s0 s.
Proof.
  intros Hd Hram Heq i Hi. destruct (page_exists ((a + i) / 4096)) as [p Hp]; [dlia|].
  destruct (Hd p) as (Hu & f & Hf & Hn); [unfold file_pages, in_pages; dlia|].
  exists p, f. rewrite Hn. do 3 (split; [done|]). destruct (Z.ltb_spec i fs); [|lia].
  rewrite Hram. f_equal. unfold file_number. rewrite Hp. dlia.
Qed.
End segment.

(** ** Segments *)

Definition load_address (kernel_start : PhysAddr) (seg : ProgramHeader64) : Z :=
  phys_as_u64 kernel_start + ph_offset seg.

(** What an ELF file promises of a segment to load, in the lower half of the
    address space and away from the temporary page. *)
Record load_ok (kernel_start : PhysAddr) (seg : ProgramHeader64) : Prop := {
  lo_type : get_type seg = Ok Load;
  lo_sizes : 0 <= file_size seg <= mem_size seg;
  lo_virt : 0 < virtual_addr seg /\ virtual_addr seg + mem_size seg < 2 ^ 47 - 8192;
  lo_phys : 0 <= ph_offset seg /\ 0 < load_address kernel_start seg /\
    load_address kernel_start seg + file_size seg < 2 ^ 52 - 8192;
  lo_congruent : virtual_addr seg mod 4096 = load_address kernel_start seg mod 4096;
  lo_temp : temp_page_number < virtual_addr seg / 4096 \/
    (virtual_addr seg + mem_size seg) / 4096 < temp_page_number;
}.

(** The frames of the file belong to the kernel. *)
Definition image_reserved (kernel_start : PhysAddr) (seg : ProgramHeader64) (s : state) : Prop :=
  forall n, load_address kernel_start seg / 4096 <= n <=
      (load_address kernel_start seg + file_size seg - 1) / 4096 ->
    owners n (frames s) = [Kernel].

Definition segment_pages (seg : ProgramHeader64) : Page -> Prop :=
  in_pages (virtual_addr seg / 4096) ((virtual_addr seg + mem_size seg) / 4096 + 1).

(** Zeroes follow the file in its last page. *)
Definition needs_copy (seg : ProgramHeader64) : bool :=
  (file_size seg <? mem_size seg) && negb ((virtual_addr seg + file_size seg) mod 4096 =? 0).

Definition segment_touched (seg : ProgramHeader64) (p : Page) : Prop :=
  segment_pages seg p \/ needs_copy seg = true /\ is_temp p.

(** Frames that loading the segment may take: three tables and one frame per page. *)
Definition segment_room (seg : ProgramHeader64) : nat :=
  7 + 4 * Z.to_nat ((virtual_addr seg + mem_size seg) / 4096 - virtual_addr seg / 4096 + 1).

(** The segment can be read at its address in [s]: the bytes the file had in
    [s0], then zeroes, with the segment's flags, and in frames that belong to the
    kernel. *)
Definition loaded (kernel_start : PhysAddr) (seg : ProgramHeader64) (s0 s : state) : Prop :=
  forall i, 0 <= i < mem_size seg ->
    exists p f, page_number p = (virtual_addr seg + i) / 4096 /\
      tr s p = Some (f, segment_flags (ph_flags seg)) /\
      owners (frame_number f) (frames s) = [Kernel] /\
      ram s (4096 * frame_number f + (virtual_addr seg + i) mod 4096) =
        if i <? file_size seg then ram s0 (load_address kernel_start seg + i) else 0.

Abbreviation nowhere := (fun _ : Page => False).

(** The frames the loop over the file goes through. *)
Lemma file_frames start last_byte :
  phys_as_u64 start <= phys_as_u64 last_byte + 1 -> phys_as_u64 last_byte < 2 ^ 52 - 4096 ->
  let l := frame_range_inclusive (frame_containing_address start) (frame_containing_address last_byte) in
  length l = Z.to_nat (phys_as_u64 last_byte / 4096 - phys_as_u64 start / 4096 + 1) /\
  forall i f, l !! i = Some f -> frame_number f = phys_as_u64 start / 4096 + Z.of_nat i.
Proof.
  intros Hle Hlt l. pose proof (phys_range start). pose proof (phys_range last_byte).
  pose proof (frame_range_numbers (frame_containing_address start) (frame_containing_address last_byte)) as Hr.
  fold l in Hr. rewrite !containing_number in Hr. specialize (Hr ltac:(dlia)). split.
  { apply (f_equal length) in Hr. by rewrite !length_map, length_seq in Hr. }
  intros i f Hi. assert (map frame_number l !! i = Some (frame_number f)) as Hm by (by rewrite list_lookup_fmap, Hi).
  rewrite Hr, list_lookup_fmap in Hm. destruct (seq _ _ !! i) as [k|] eqn:Hk; [|done].
  apply lookup_seq in Hk as [-> _]. cbn in Hm. by injection Hm as <-.
Qed.

Lemma keeps_trans (P : Page -> Prop) s s1 s2 :
  (forall p, reserved s1 p = reserved s p) -> (forall p, P p -> tr s p = None) ->
  keeps nowhere s s1 -> keeps P s1 s2 -> keeps nowhere s s2.
Proof.
  intros Hr Hn H1 H2 p e Hp Hw Ht. apply H2; [|by rewrite Hr | by apply H1].
  intros HP. rewrite Hn in Ht; done.
Qed.

(** The first loop of [map_segment], over the file. *)
Lemma runs_map_file v start last_byte flags fs ms s :
  let a := virt_as_u64 v in let ps := phys_as_u64 start in
  0 < a /\ 0 <= fs <= ms /\ a + ms < 2 ^ 47 - 8192 -> 0 < ps -> ps + fs < 2 ^ 52 - 8192 ->
  a mod 4096 = ps mod 4096 -> phys_as_u64 last_byte = ps + fs - 1 ->
  ready s -> clear_of_window (file_pages v fs) s -> covered (file_pages v fs) ->
  (forall n, ps / 4096 <= n <= (ps + fs - 1) / 4096 -> owners n (frames s) = [Kernel]) ->
  let start_frame := frame_containing_address start in
  runs budget budget (3 * Z.to_nat ((a + fs - 1) / 4096 - a / 4096 + 1))
    (for_all (frame_range_inclusive start_frame (frame_containing_address last_byte))
       (map_file_frame start_frame (page_containing_address v) flags)) s (fun r s' =>
    ram s' = ram s /\ only_on (file_pages v fs) s s' /\
    match r with
    | Ok _ => file_direct v fs flags (ps / 4096) s' /\ forall p, file_pages v fs p -> tr s p = None
    | Err e => cause e (file_pages v fs) s s'
    end).
Proof.
  intros a ps Ha Hps Hend Hcong Hlast Hs Hw Hcov Himg start_frame.
  destruct (file_frames start last_byte) as [Hlen Hl]; [lia | lia |].
  set (l := frame_range_inclusive _ _) in *. fold ps in Hlen, Hl. rewrite Hlast in Hlen.
  pose proof (runs_map_file_frames start_frame (page_containing_address v) flags l 0 s) as Hrun.
  assert (frame_number start_frame = ps / 4096) as Hsf by apply containing_number.
  cbv zeta in Hrun. rewrite containing_page_number, Hsf in Hrun. fold a in Hrun.
  assert (forall p, in_pages (a / 4096 + 0) (a / 4096 + 0 + Z.of_nat (length l)) p <-> file_pages v fs p) as Hpp.
  { intros p. unfold file_pages, in_pages. fold a. rewrite Hlen. subst a ps. dlia. }
  eapply runs_weaken; [| |apply Hrun].
  - rewrite Hlen. subst a ps. dlia.
  - intros r s' (Hram & Ho & Hr). split; [done|].
    assert (forall p, in_pages (a / 4096 + 0) (a / 4096 + 0 + Z.of_nat (length l)) p -> file_pages v fs p) as Hp1 by
      (intros p; apply Hpp).
    split; [exact (only_on_weaken _ _ _ _ Hp1 Ho)|].
    destruct r as [[]|e]; [|exact (cause_weaken _ _ _ _ _ Hp1 Hr)].
    split; [|intros p Hp; apply Hr; by apply Hpp].
    intros p Hp. unfold file_number. fold a.
    assert (owners (ps / 4096 + (page_number p - a / 4096)) (frames s) = [Kernel]) as Hu.
    { apply Himg. unfold file_pages, in_pages in Hp. fold a in Hp. subst a ps. dlia. }
    split; [by rewrite (consumed_kept _ _ _ (oo_frames _ _ _ Ho)); rewrite Hu|].
    destruct (Hr p) as (_ & f & Hf & Hn); [by apply Hpp | by exists f].
  - intros i f Hi. rewrite (Hl i f Hi). lia.
  - lia.
  - rewrite Hlen. subst a ps. dlia.
  - done.
  - intros p Hp. by apply Hw, Hpp.
  - intros p Hp. by apply Hcov, Hpp.
Qed.

Lemma get_type_unwrap seg t : get_type seg = Ok t -> unwrap (get_type seg) = Ret t.
Proof. by intros ->. Qed.

(** The part of [map_segment] behind the first loop. *)
Lemma runs_maybe_bss v fs ms flags n0 s :
  let a := virt_as_u64 v in
  0 < a /\ 0 <= fs <= ms /\ a + ms < 2 ^ 47 - 8192 ->
  temp_page_number < a / 4096 \/ (a + ms) / 4096 < temp_page_number -> kind budget = Kernel ->
  ready s -> file_direct v fs flags n0 s -> clear_of_window (touched v fs ms) s ->
  covered (touched v fs ms) ->
  runs budget budget (7 + 4 * Z.to_nat ((a + ms) / 4096 - (a + fs - 1) / 4096))
    (if ms >? fs then map_bss v fs ms flags else mret tt) s (fun r s' =>
    only_on (touched v fs ms) s s' /\
    match r with
    | Ok _ => keeps (file_pages v fs) s s' /\ loaded_at v fs ms flags n0 s s' /\
        (fs < ms -> (a + fs) mod 4096 <> 0 -> temp_used s s')
    | Err e => cause e (fun p => bss_pages v fs ms p \/ temp_area v fs ms p) s s'
    end).
Proof.
  intros a Ha Ht Hkind Hs Hd Hw Hcov. destruct (Z.gtb_spec ms fs) as [Hlt|Hge].
  { eapply runs_weaken; [reflexivity | |by apply runs_map_bss]. intros [[]|e] s'; [|done].
    intros (Ho & Hk & Hl & Ht'). auto. }
  eapply (runs_weaken _ _ 0); [lia | intros r s' H; exact H|]. apply runs_ret; [done|].
  split; [apply only_on_refl|]. split; [by intros p e _ _|]. split; [|lia].
  apply file_direct_loaded; [done | done | done | lia].
Qed.

Lemma segment_touched_cases seg v p :
  virt_as_u64 v = virtual_addr seg -> touched v (file_size seg) (mem_size seg) p <-> segment_touched seg p.
Proof.
  intros Hv. unfold touched, segment_touched, temp_area, needs_copy, all_pages, segment_pages. rewrite Hv.
  rewrite andb_true_iff, negb_true_iff, Z.ltb_lt, Z.eqb_neq. tauto.
Qed.

Lemma runs_map_load kernel_start seg s :
  kind budget = Kernel -> load_ok kernel_start seg -> ready s -> image_reserved kernel_start seg s ->
  clear_of_window (segment_touched seg) s -> covered (segment_touched seg) ->
  runs budget budget (segment_room seg) (map_segment seg kernel_start) s (fun r s' =>
    only_on (segment_touched seg) s s' /\
    match r with
    | Ok tls => tls = None /\ keeps nowhere s s' /\ loaded kernel_start seg s s' /\
        (needs_copy seg = true -> temp_used s s')
    | Err e => cause e (segment_touched seg) s s'
    end).
Proof.
  intros Hkind [Htype Hsz Hvr Hpr Hcong Htmp] Hs Himg Hw Hcov. unfold image_reserved, load_address in *.
  pose proof (phys_range kernel_start) as Hkr. unfold map_segment.
  eapply runs_pure; [by apply get_type_unwrap|]. cbn iota.
  destruct (phys_add_ok kernel_start (ph_offset seg)) as (start & Hst & Hstv); [lia | lia |].
  destruct (VirtAddr_new_canonical (virtual_addr seg)) as (v & Hv & Hvv); [unfold canonical; lia|].
  destruct (phys_add_ok start (file_size seg)) as (past & Hpa & Hpav); [lia | lia |].
  destruct (phys_sub_ok past 1) as (lb & Hlb & Hlbv); [lia|].
  eapply runs_pure; [exact Hst|]. eapply runs_pure; [exact Hv|].
  eapply runs_pure; [exact Hpa|]. eapply runs_pure; [exact Hlb|].
  set (flags := segment_flags (ph_flags seg)).
  assert (forall p, touched v (file_size seg) (mem_size seg) p -> segment_touched seg p) as Hts by
    (intros p; by apply segment_touched_cases).
  assert (0 < virt_as_u64 v /\ 0 <= file_size seg <= mem_size seg /\
    virt_as_u64 v + mem_size seg < 2 ^ 47 - 8192) as Hrange by lia.
  rewrite <-Hvv in Htmp, Hcong.
  assert (forall p, file_pages v (file_size seg) p -> segment_touched seg p) as Hfs.
  { intros p Hp. apply Hts. eapply file_touched; [exact Hrange | exact Htmp | by left]. }
  assert (forall p, bss_pages v (file_size seg) (mem_size seg) p \/ temp_area v (file_size seg) (mem_size seg) p ->
    segment_touched seg p) as Hbs.
  { intros p [Hp|Hp]; apply Hts; [eapply bss_touched; [exact Hrange | exact Htmp | exact Hp] | by right]. }
  eapply (runs_weaken _ _ (3 * Z.to_nat ((virt_as_u64 v + file_size seg - 1) / 4096 - virt_as_u64 v / 4096 + 1) +
    ((7 + 4 * Z.to_nat ((virt_as_u64 v + mem_size seg) / 4096 - (virt_as_u64 v + file_size seg - 1) / 4096)) + 0))).
  { unfold segment_room. rewrite <-Hvv. dlia. }
  { intros r s' H. exact H. }
  eapply runs_bind.
  - apply (runs_map_file v start lb flags (file_size seg) (mem_size seg)); try done; rewrite ?Hstv; try lia.
    + intros p Hp. apply Hw. auto.
    + intros p Hp. apply Hcov. auto.
    + intros n Hn. apply Himg. lia.
  - intros [] s1 Hs1 (Hram & Ho1 & Hd & Hnone).
    assert (clear_of_window (touched v (file_size seg) (mem_size seg)) s1) as Hw1.
    { intros p Hp. rewrite (only_on_reserved _ _ _ _ Ho1). auto. }
    assert (covered (touched v (file_size seg) (mem_size seg))) as Hcov1 by (intros p Hp; apply Hcov; auto).
    eapply runs_bind; [by eapply runs_maybe_bss| |].
    + intros [] s2 Hs2 (Ho2 & Hk & Hl & Htu). apply runs_ret; [done|].
      split; [exact (only_on_trans _ _ _ _ _ _ Hfs Hts Ho1 Ho2)|]. split; [done|]. split_and!.
      * eapply keeps_trans; [|exact Hnone | |exact Hk]; [intros p; by eapply only_on_reserved|].
        intros p e _ Hr Ht. rewrite (oo_pages _ _ _ Ho1); [done..|]. intros Hp. by rewrite Hnone in Ht.
      * intros i Hi. destruct (Hl i Hi) as (p & f & Hp & Ht & Hu & Hb). exists p, f. rewrite <-Hvv.
        do 3 (split; [done|]). rewrite Hb. case_match; [|done]. rewrite Hram. unfold load_address. f_equal.
        rewrite Hstv. dlia.
      * intros Hneed p Hp. pose proof Hneed as [Hc1 Hc2]%andb_prop. rewrite <-Hvv in Hc2.
        destruct (Htu ltac:(lia) ltac:(lia) p Hp) as [Hn Hsome]. split; [|done].
        rewrite <-Hn. symmetry. apply (oo_pages _ _ _ Ho1); [apply Hw; right; by split|].
        unfold file_pages, in_pages, is_temp in *. dlia.
    + intros e s2 [Ho2 Hc]. split; [exact (only_on_trans _ _ _ _ _ _ Hfs Hts Ho1 Ho2)|].
      eapply (cause_before _ _ _ _ _ _ _ Hbs); [|exact Ho1 | exact Hc].
      intros p Hp. split; [|auto]. intros Hf. unfold file_pages, bss_pages, temp_area, is_temp, in_pages in *. dlia.
  - intros e s1 (_ & Ho & Hc).
    split; [exact (only_on_weaken _ _ _ _ Hfs Ho) | exact (cause_weaken _ _ _ _ _ Hfs Hc)].
Qed.
End proofs.
