(* ===== verification/KernelMapping.v ===== *)
(** * The whole kernel: segments and stack (src/bootloader/src/page_table.rs)

    The loop over the segments and [map_kernel], from the lemmas of [KernelLoad]
    about one segment: what succeeds, and why the rest fails when it does. *)

From Stdlib Require Import Lia ZifyBool.
From stdpp Require Import base decidable strings numbers list.
From S2P Require Import Prelude UnstableSort MemoryMap X86 X86Huge FrameAllocator Level4 Memory Paging BootInfo.
From S2P Require Import PageTable BootPaging KernelLoad.

Open Scope Z_scope.

(** ** The segments of a kernel *)

Section segments.
Context {X : X86Phys} {ELF : XmasElf}.

Definition is_load (seg : ProgramHeader64) : bool :=
  match get_type seg with Ok Load => true | _ => false end.

Definition tls_template_of (seg : ProgramHeader64) : option TlsTemplate :=
  match get_type seg with
  | Ok Tls => Some {| tls_start_addr := virtual_addr seg; tls_file_size := file_size seg;
                      tls_mem_size := mem_size seg |}
  | _ => None
  end.

Definition load_segments (segs : list ProgramHeader64) : list ProgramHeader64 := List.filter is_load segs.

Definition tls_templates (segs : list ProgramHeader64) : list TlsTemplate := omap tls_template_of segs.

(** The bootloader can read the type of every segment, and those to load are as
    an ELF file has them. *)
Definition segments_ok `{X86Virt} (kernel_start : PhysAddr) (segs : list ProgramHeader64) : Prop :=
  forall seg, In seg segs ->
    match get_type seg with Ok Load => load_ok kernel_start seg | Ok _ => True | Err _ => False end.

Fixpoint segments_room (segs : list ProgramHeader64) : nat :=
  match segs with [] => 0 | seg :: segs' => segment_room seg + segments_room segs' end.

Definition copies (segs : list ProgramHeader64) : list ProgramHeader64 :=
  List.filter needs_copy (load_segments segs).
End segments.

(** ** Failures over several steps *)

Section proofs.
Context {B : Build} {SORT : UnstableSort} {SL : UnstableSortLaws SORT}.
Context {X : X86Phys} {XL : X86PhysLaws X} {V : X86Virt} {VL : X86VirtLaws V} {HG : X86Huge X V} {ELF : XmasElf}.
Context {M : Type} {MP : Mapper M} {RM : Recursive M} {RL : RecursiveLaws M}.

Abbreviation state := (LoadState M).
Abbreviation areas := (list (Page -> Prop)).
Abbreviation nowhere := (fun _ : Page => False).

Definition in_some (l : areas) (p : Page) : Prop := exists P, In P l /\ P p.

(** Two of the areas share page [p]. *)
Fixpoint shared (l : areas) (p : Page) : Prop :=
  match l with [] => False | P :: l' => P p /\ in_some l' p \/ shared l' p end.

(** Why mapping the pages of several areas, one after the other, failed. *)
Definition area_cause (e : MapToError) (l : areas) (s s' : state) : Prop :=
  match e with
  | FrameAllocationFailed => forall f, Usable ∉ owners f (frames s')
  | ParentEntryHugePage => exists p, in_some l p /\ huge_parent (page_table s) p = true
  | PageAlreadyMapped f => exists p, in_some l p /\ ((exists fl, tr s p = Some (f, fl)) \/ shared l p)
  end.

Lemma in_some_app l k p : in_some (l ++ k) p <-> in_some l p \/ in_some k p.
Proof.
  split.
  - intros (P & [H|H]%in_app_iff & HP); [left | right]; by exists P.
  - intros [(P & H & HP) | (P & H & HP)]; exists P; rewrite in_app_iff; auto.
Qed.

Lemma in_some_nil p : ~ in_some [] p.
Proof. by intros (P & [] & _). Qed.

Lemma in_some_singleton P p : in_some [P] p <-> P p.
Proof. split; [by intros (Q & [<- | []] & ?) | by exists P; split; [left|]]. Qed.

Lemma shared_app l k p : shared (l ++ k) p <-> shared l p \/ shared k p \/ in_some l p /\ in_some k p.
Proof.
  induction l as [|P l IH]; cbn [app shared].
  { pose proof (in_some_nil p). tauto. }
  rewrite IH, in_some_app. change (P :: l) with ([P] ++ l). rewrite in_some_app, in_some_singleton. tauto.
Qed.

Lemma area_cause_one e (P : Page -> Prop) s s' : cause e P s s' -> area_cause e [P] s s'.
Proof.
  destruct e; simpl; [done | |].
  - intros (p & Hp & ?). exists p. by rewrite in_some_singleton.
  - intros (p & fl & Hp & ?). exists p. rewrite in_some_singleton. eauto.
Qed.

Lemma area_cause_first e l k s s' : area_cause e l s s' -> area_cause e (l ++ k) s s'.
Proof.
  destruct e; simpl; [done | |]; intros (p & Hp & Hc); exists p; rewrite in_some_app; [tauto|].
  rewrite shared_app. tauto.
Qed.

(** A later area fails because of what was there, or of an earlier area. *)
Lemma area_cause_second e l k s s1 s' :
  (forall p, in_some l p \/ ~ in_some l p) -> (forall p, in_some k p -> reserved s p = false) ->
  only_on (in_some l) s s1 -> area_cause e k s1 s' -> area_cause e (l ++ k) s s'.
Proof.
  intros Hdec Hw Ho. destruct e; simpl; [done | |]; intros (p & Hp & Hc); exists p;
    rewrite in_some_app; (split; [tauto|]).
  - by rewrite <-(proj2 (proj1 (oo_layout _ _ _ Ho) p)).
  - rewrite shared_app. destruct Hc as [[fl Ht] | Hs]; [|tauto].
    destruct (Hdec p); [tauto|]. left. exists fl. rewrite <-(oo_pages _ _ _ Ho); auto.
Qed.

Lemma in_some_dec l p : Forall (fun P => P p \/ ~ P p) l -> in_some l p \/ ~ in_some l p.
Proof.
  induction 1 as [|P l HP _ IH]; [right; apply in_some_nil|].
  change (P :: l) with ([P] ++ l). rewrite in_some_app, in_some_singleton. tauto.
Qed.

Lemma segment_touched_dec seg p : segment_touched seg p \/ ~ segment_touched seg p.
Proof. unfold segment_touched, segment_pages, in_pages, is_temp. destruct (needs_copy seg); lia. Qed.

(** ** Loaded segments stay loaded *)

(** The frames of the kernel stay its own and keep their bytes. *)
Definition kernel_intact (s s' : state) : Prop := forall n, owners n (frames s) = [Kernel] ->
  owners n (frames s') = [Kernel] /\ forall i, 0 <= i < 4096 -> ram s' (4096 * n + i) = ram s (4096 * n + i).

#[export] Instance kernel_intact_preorder : PreOrder kernel_intact.
Proof.
  split; [done|]. intros s1 s2 s3 H12 H23 n Hn. destruct (H12 n Hn) as [Hn2 Hr2], (H23 n Hn2) as [Hn3 Hr3].
  split; [done|]. intros i Hi. by rewrite Hr3, Hr2.
Qed.

Lemma only_on_intact P s s' : only_on P s s' -> kernel_intact s s'.
Proof.
  intros Ho n Hn. split.
  - rewrite (consumed_kept _ _ _ (oo_frames _ _ _ Ho)); rewrite Hn; done.
  - intros i Hi. apply (oo_ram _ _ _ Ho); [by rewrite Hn | done].
Qed.

Lemma loaded_stable kernel_start seg s0 s s' :
  clear_of_window (segment_pages seg) s -> loaded kernel_start seg s0 s ->
  0 <= file_size seg <= mem_size seg -> kernel_intact s s' -> keeps nowhere s s' ->
  loaded kernel_start seg s0 s'.
Proof.
  intros Hw Hl Hsz Hi Hk i Hin. destruct (Hl i Hin) as (p & f & Hp & Ht & Hu & Hb). exists p, f.
  assert (segment_pages seg p) as Hsp by (unfold segment_pages, in_pages; dlia).
  split; [done|]. split; [by apply Hk; auto|]. destruct (Hi _ Hu) as [Hu' Hram].
  split; [done|]. by rewrite Hram by apply mod_4096.
Qed.

(** What was loaded from the memory of [s] was there in [s0]. *)
Lemma loaded_since kernel_start seg s0 s s' :
  image_reserved kernel_start seg s0 -> 0 <= load_address kernel_start seg ->
  kernel_intact s0 s -> loaded kernel_start seg s s' -> loaded kernel_start seg s0 s'.
Proof.
  intros Himg Hla Ho Hl i Hi. destruct (Hl i Hi) as (p & f & Hp & Ht & Hu & Hb). exists p, f.
  do 3 (split; [done|]). rewrite Hb. destruct (Z.ltb_spec i (file_size seg)); [|done].
  set (z := load_address kernel_start seg + i).
  assert (z = 4096 * (z / 4096) + z mod 4096) as Hz by dlia. rewrite Hz.
  apply Ho; [|apply mod_4096]. apply Himg. unfold z. dlia.
Qed.

Lemma image_reserved_later kernel_start seg P s s' :
  only_on P s s' -> image_reserved kernel_start seg s -> image_reserved kernel_start seg s'.
Proof.
  intros Ho Himg n Hn. rewrite (consumed_kept _ _ _ (oo_frames _ _ _ Ho)); rewrite Himg by done; done.
Qed.

Lemma keeps_nowhere_trans s s1 s2 :
  (forall p, reserved s1 p = reserved s p) ->
  keeps nowhere s s1 -> keeps nowhere s1 s2 -> keeps nowhere s s2.
Proof. intros Hr H1 H2. by apply (keeps_trans nowhere s s1 s2); [|intros p []| |]. Qed.

(** ** The loop over the segments *)

Section loop.
Context {budget : Budget}.

Lemma runs_other_segment kernel_start seg t s :
  get_type seg = Ok t -> t <> Load -> ready s ->
  runs budget budget 0 (map_segment seg kernel_start) s (fun r s' => s' = s /\ r = Ok (tls_template_of seg)).
Proof.
  intros Ht Hl Hs. unfold map_segment, tls_template_of. rewrite Ht. cbn [unwrap].
  eapply runs_pure; [done|]. destruct t; [|by destruct Hl|..]; by apply runs_ret.
Qed.

Definition segment_areas (segs : list ProgramHeader64) : areas := map segment_touched (load_segments segs).

(** All segments to load are in place. *)
Definition all_loaded (kernel_start : PhysAddr) (segs : list ProgramHeader64) (s0 s : state) : Prop :=
  forall seg, In seg segs -> get_type seg = Ok Load -> loaded kernel_start seg s0 s.

(** What the loop needs: the file where the bootloader expects it, and pages the
    page table does not use itself. *)
Record loadable (kernel_start : PhysAddr) (segs : list ProgramHeader64) (s : state) : Prop := {
  la_ok : segments_ok kernel_start segs;
  la_image : forall seg, In seg segs -> get_type seg = Ok Load -> image_reserved kernel_start seg s;
  la_window : clear_of_window (in_some (segment_areas segs)) s;
}.

Lemma loadable_later kernel_start segs P s s' :
  only_on P s s' -> loadable kernel_start segs s -> loadable kernel_start segs s'.
Proof.
  intros Ho [H1 H2 H3]. constructor; [done | |].
  - intros seg Hin Ht. eapply image_reserved_later; [exact Ho | by apply H2].
  - intros p Hp. rewrite (only_on_reserved _ _ _ _ Ho). by apply H3.
Qed.

Lemma segment_areas_cons seg segs :
  segment_areas (seg :: segs) = (if is_load seg then [segment_touched seg] else []) ++ segment_areas segs.
Proof. unfold segment_areas, load_segments. cbn [List.filter]. by destruct (is_load seg). Qed.

Lemma loadable_tail kernel_start seg segs s : loadable kernel_start (seg :: segs) s -> loadable kernel_start segs s.
Proof.
  intros [H1 H2 H3]. constructor.
  - intros x Hx. apply H1. by right.
  - intros x Hx. apply H2. by right.
  - intros p Hp. apply H3. rewrite segment_areas_cons, in_some_app. by right.
Qed.

(** The state of the loop when it is done: the template found, if there is at
    most one, and at most one segment that needed the temporary page. *)
Definition loop_done (kernel_start : PhysAddr) (segs : list ProgramHeader64) (tls0 tls : option TlsTemplate)
    (s s' : state) : Prop :=
  keeps nowhere s s' /\ all_loaded kernel_start segs s s' /\
  option_list tls = option_list tls0 ++ tls_templates segs /\
  (length (copies segs) <= 1)%nat /\
  (copies segs <> [] -> forall p, is_temp p -> tr s p = None).

Definition loop_failed (e : MapKernelError) (segs : list ProgramHeader64) (tls0 : option TlsTemplate)
    (s s' : state) : Prop :=
  match e with
  | Mapping e => area_cause e (segment_areas segs) s s'
  | MultipleTlsSegments => (2 <= length (option_list tls0 ++ tls_templates segs))%nat
  end.

(** One more segment in front, of another type. *)
Lemma loop_done_other kernel_start seg segs tls0 tls0' tls s s' :
  is_load seg = false ->
  option_list tls0' = option_list tls0 ++ option_list (tls_template_of seg) ->
  loop_done kernel_start segs tls0' tls s s' -> loop_done kernel_start (seg :: segs) tls0 tls s s'.
Proof.
  intros Hl Htls (Hk & Hload & Heq & Hc & Hn). unfold loop_done, copies, load_segments in *.
  cbn [List.filter]. rewrite Hl. split; [done|]. split; [|split; [|done]].
  - intros x [<- | Hx] Ht; [|by apply Hload]. unfold is_load in Hl. by rewrite Ht in Hl.
  - rewrite Heq, Htls. unfold tls_templates. cbn [omap list_omap].
    by destruct (tls_template_of seg); rewrite <-?app_assoc.
Qed.

Lemma loop_failed_other e seg segs tls0 tls0' s s' :
  is_load seg = false ->
  option_list tls0' = option_list tls0 ++ option_list (tls_template_of seg) ->
  loop_failed e segs tls0' s s' -> loop_failed e (seg :: segs) tls0 s s'.
Proof.
  intros Hl Htls. destruct e as [e|]; cbn [loop_failed].
  - rewrite segment_areas_cons, Hl. done.
  - rewrite Htls. unfold tls_templates. cbn [omap list_omap].
    by destruct (tls_template_of seg); rewrite <-?app_assoc.
Qed.

Lemma is_load_iff seg : is_load seg = true <-> get_type seg = Ok Load.
Proof. unfold is_load. by destruct (get_type seg) as [[]|]. Qed.

Lemma load_no_template seg : is_load seg = true -> tls_template_of seg = None.
Proof. intros H%is_load_iff. unfold tls_template_of. by rewrite H. Qed.

(** The temporary page is usable if a segment needs it. *)
Lemma temp_clear kernel_start segs s p :
  loadable kernel_start segs s -> copies segs <> [] -> is_temp p -> reserved s p = false.
Proof.
  intros Hla Hne Hp. destruct (copies segs) as [|x l] eqn:Hc; [done|].
  assert (In x (copies segs)) as [Hx Hn]%List.filter_In by (rewrite Hc; by left).
  apply (la_window _ _ _ Hla). exists (segment_touched x).
  split; [by apply in_map | right; by split].
Qed.

(** One more segment in front, to load. *)
Lemma loop_done_load kernel_start seg segs tls0 tls s s1 s' :
  load_ok kernel_start seg -> loadable kernel_start (seg :: segs) s ->
  only_on (segment_touched seg) s s1 -> keeps nowhere s s1 -> loaded kernel_start seg s s1 ->
  (needs_copy seg = true -> temp_used s s1) -> only_on (in_some (segment_areas segs)) s1 s' ->
  loop_done kernel_start segs tls0 tls s1 s' -> loop_done kernel_start (seg :: segs) tls0 tls s s'.
Proof.
  intros Hok Hla Ho1 Hk1 Hl1 Htmp Ho2 (Hk & Hload & Heq & Hc & Hn).
  assert (is_load seg = true) as Hl by apply is_load_iff, Hok.
  assert (forall p, segment_touched seg p -> reserved s p = false) as Hw.
  { intros p Hp. apply (la_window _ _ _ Hla). rewrite segment_areas_cons, Hl, in_some_app, in_some_singleton.
    by left. }
  split; [by eapply keeps_nowhere_trans; [intros p; by eapply only_on_reserved | |]|]. split; [|split].
  - intros x Hx Ht. destruct Hx as [<- | Hx].
    + eapply loaded_stable; [|exact Hl1 | apply Hok | by eapply only_on_intact | done].
      intros p Hp. rewrite (only_on_reserved _ _ _ _ Ho1). apply Hw. by left.
    + eapply loaded_since; [apply (la_image _ _ _ Hla); [by right | done] | |by eapply only_on_intact | by apply Hload].
      pose proof (la_ok _ _ _ Hla x (or_intror Hx)) as Hx'. rewrite Ht in Hx'. pose proof (lo_phys _ _ Hx'). lia.
  - rewrite Heq. unfold tls_templates. cbn [omap list_omap]. by rewrite load_no_template.
  - unfold copies, load_segments in *. cbn [List.filter]. rewrite Hl. cbn [List.filter].
    destruct (needs_copy seg) eqn:Hneed.
    + specialize (Htmp eq_refl). destruct (List.filter needs_copy (List.filter is_load segs)) as [|x l] eqn:Hf.
      { split; [cbn; lia|]. intros _ p Hp. by apply Htmp. }
      exfalso. destruct (page_exists temp_page_number) as [p Hp]; [by_compute|].
      destruct (Htmp p Hp) as [_ [e He]]. rewrite (Hn ltac:(done) p Hp) in He. done.
    + split; [done|]. intros Hne p Hp. specialize (Hn Hne p Hp).
      destruct (tr s p) as [e|] eqn:Ht; [|done]. rewrite <-Hn. symmetry.
      apply Hk1; [tauto | |done]. eapply temp_clear; [by eapply loadable_tail | exact Hne | done].
Qed.

(** What the loop establishes. *)
Definition loop_post (kernel_start : PhysAddr) (segs : list ProgramHeader64) (tls0 : option TlsTemplate)
    (s : state) (r : result (option TlsTemplate) MapKernelError) (s' : state) : Prop :=
  only_on (in_some (segment_areas segs)) s s' /\
  match r with
  | Ok tls => loop_done kernel_start segs tls0 tls s s'
  | Err e => loop_failed e segs tls0 s s'
  end.

Lemma loop_post_other kernel_start seg segs tls0 tls0' s r s' :
  is_load seg = false ->
  option_list tls0' = option_list tls0 ++ option_list (tls_template_of seg) ->
  loop_post kernel_start segs tls0' s r s' -> loop_post kernel_start (seg :: segs) tls0 s r s'.
Proof.
  intros Hl Htls [Ho Hr]. split; [by rewrite segment_areas_cons, Hl|].
  destruct r; [by eapply loop_done_other | by eapply loop_failed_other].
Qed.

Lemma runs_map_segments kernel_start segs tls0 s :
  kind budget = Kernel -> ready s -> loadable kernel_start segs s ->
  covered (budget := budget) (in_some (segment_areas segs)) ->
  runs budget budget (segments_room segs) (map_segments segs kernel_start tls0) s (loop_post kernel_start segs tls0 s).
Proof.
  intros Hkind. revert tls0 s. induction segs as [|seg segs IH]; intros tls0 s Hs Hla Hcov; cbn [map_segments segments_room].
  { apply runs_ret; [done|]. split; [apply only_on_refl|]. split; [by intros p e _ _|]. split; [by intros x []|].
    split; [by rewrite app_nil_r|]. split; [cbn; lia | done]. }
  pose proof (loadable_tail _ _ _ _ Hla) as Hlt.
  pose proof (la_ok _ _ _ Hla seg (or_introl eq_refl)) as Hseg.
  assert (covered (budget := budget) (in_some (segment_areas segs))) as Hcovt.
  { intros p Hp. apply Hcov. rewrite segment_areas_cons, in_some_app. by right. }
  destruct (get_type seg) as [t|] eqn:Ht; [|done].
  destruct (is_load seg) eqn:Hl.
  - apply is_load_iff in Hl as Htl. rewrite Htl in Ht. injection Ht as <-.
    pose proof (segment_areas_cons seg segs) as Hareas. rewrite Hl in Hareas.
    assert (clear_of_window (segment_touched seg) s) as Hw.
    { intros p Hp. apply (la_window _ _ _ Hla). rewrite Hareas, in_some_app, in_some_singleton. by left. }
    assert (forall p, segment_touched seg p -> in_some (segment_areas (seg :: segs)) p) as Hsub1.
    { intros p Hp. rewrite Hareas, in_some_app, in_some_singleton. by left. }
    assert (forall p, in_some (segment_areas segs) p -> in_some (segment_areas (seg :: segs)) p) as Hsub2.
    { intros p Hp. rewrite Hareas, in_some_app. by right. }
    eapply runs_bind_err.
    + apply runs_map_load; [done | done | done | by apply (la_image _ _ _ Hla); [left|] | done | intros p Hp; auto].
    + intros tls s1 Hs1 (Ho1 & -> & Hk1 & Hl1 & Htmp).
      eapply runs_weaken; [reflexivity | |apply IH; [done | by eapply loadable_later | done]].
      intros r s2 [Ho2 Hr]. split; [exact (only_on_trans _ _ _ _ _ _ Hsub1 Hsub2 Ho1 Ho2)|].
      destruct r as [tls|e]; [by eapply loop_done_load|].
      destruct e as [e|]; cbn [loop_failed] in Hr |- *.
      * rewrite Hareas. eapply area_cause_second; [| |by eapply only_on_weaken; [|exact Ho1]; intros p Hp; apply in_some_singleton | exact Hr].
        -- intros p. rewrite in_some_singleton. apply segment_touched_dec.
        -- intros p Hp. apply (la_window _ _ _ Hla). by apply Hsub2.
      * unfold tls_templates in *. cbn [omap list_omap]. by rewrite load_no_template.
    + intros e s1 [Ho Hc]. split; [exact (only_on_weaken _ _ _ _ Hsub1 Ho)|].
      cbn [loop_failed]. rewrite Hareas. by apply area_cause_first, area_cause_one.
  - assert (t <> Load) as Htl by (intros ->; apply is_load_iff in Ht; congruence).
    eapply (runs_weaken _ _ (0 + segments_room segs)); [lia | intros r s' H; exact H|].
    eapply runs_bind_err; [by eapply runs_other_segment| |by intros e s1 [_ ?]].
    intros tls s1 _ [-> [= ->]]. destruct (tls_template_of seg) as [tls|] eqn:Htls.
    + destruct tls0 as [tls0|].
      * eapply (runs_weaken _ _ 0); [lia | intros r s' H; exact H|]. apply runs_fail; [done|].
        split; [apply only_on_refl|]. cbn [loop_failed]. unfold tls_templates. cbn [omap list_omap].
        rewrite Htls. cbn. lia.
      * eapply runs_weaken; [reflexivity | |by apply IH]. intros r s'. apply loop_post_other; [done|]. by rewrite Htls.
    + eapply runs_weaken; [reflexivity | |by apply IH]. intros r s'. apply loop_post_other; [done|].
      by rewrite Htls, app_nil_r.
Qed.

End loop.

(** ** The stack *)

Definition stack_pages (stack_start : Page) (stack_size : Z) : Page -> Prop :=
  in_pages (page_number stack_start + 1) (page_number stack_start + 1 + stack_size).

Definition stack_flags : Z := Z.lor PRESENT WRITABLE.

Lemma stack_page_range stack_start stack_size :
  0 <= stack_size -> 4096 * (page_number stack_start + 1 + stack_size) < 2 ^ 47 ->
  exists s0 s1, page_add stack_start 1 = Ret s0 /\ page_add s0 stack_size = Ret s1 /\
    virt_as_u64 (page_start_address s1) = 4096 * (page_number stack_start + 1 + stack_size) /\
    let l := page_range s0 s1 in
    length l = Z.to_nat stack_size /\ NoDup l /\ forall p, p ∈ l <-> stack_pages stack_start stack_size p.
Proof.
  intros Hsz Hlt.
  destruct (page_add_number stack_start 1) as (s0 & H0 & Hn0); [lia | lia |].
  destruct (page_add_number s0 stack_size) as (s1 & H1 & Hn1); [lia | lia |].
  exists s0, s1. do 2 (split; [done|]). pose proof (page_addr_number s0) as Ha0.
  pose proof (page_addr_number s1) as Ha1. unfold page_addr in Ha0, Ha1. split; [lia|].
  pose proof (page_range_exclusive s0 s1) as Hr. cbv zeta in Hr. rewrite Ha0, Ha1 in Hr.
  specialize (Hr ltac:(lia)). intros l.
  destruct (consecutive_pages l (page_number s0) (Z.to_nat stack_size)) as (Hlen & Hnd & Hin).
  { unfold page_addr, l. rewrite Hr. f_equal. f_equal. dlia. }
  split; [done|]. split; [done|]. intros p. rewrite Hin. unfold stack_pages, in_pages. lia.
Qed.

(** The kernel is in place: all segments, their TLS template, and a stack whose
    pages have frames of their own, below [stack_end] and above a guard page. *)
Record kernel_mapped (kernel_start : PhysAddr) (segs : list ProgramHeader64) (stack_start : Page)
    (stack_size : Z) (info : MemoryInfo) (s s' : state) : Prop := {
  km_keeps : keeps nowhere s s';
  km_loaded : all_loaded kernel_start segs s s';
  km_tls : option_list (tls_segment info) = tls_templates segs;
  km_copies : (length (copies segs) <= 1)%nat;
  km_stack : now_mapped (stack_pages stack_start stack_size) stack_flags
    (fun _ f => fresh_for KernelStack s s' f) s s';
  km_distinct : distinct_frames (stack_pages stack_start stack_size) s';
  km_end : virt_as_u64 (stack_end info) = 4096 * (page_number stack_start + 1 + stack_size);
  km_guard : reserved s stack_start = false -> ~ in_some (segment_areas segs) stack_start ->
    tr s' stack_start = tr s stack_start;
}.

Definition kernel_areas (segs : list ProgramHeader64) (stack_start : Page) (stack_size : Z) : areas :=
  segment_areas segs ++ [stack_pages stack_start stack_size].

Definition kernel_room (segs : list ProgramHeader64) (stack_size : Z) : nat :=
  segments_room segs + 4 * Z.to_nat stack_size.

Definition kernel_failed (e : MapKernelError) (segs : list ProgramHeader64) (stack_start : Page)
    (stack_size : Z) (s s' : state) : Prop :=
  match e with
  | Mapping e => area_cause e (kernel_areas segs stack_start stack_size) s s'
  | MultipleTlsSegments => (2 <= length (tls_templates segs))%nat
  end.

Lemma segment_areas_dec segs p : in_some (segment_areas segs) p \/ ~ in_some (segment_areas segs) p.
Proof.
  apply in_some_dec. unfold segment_areas. apply Forall_map, Forall_true.
  intros seg. apply segment_touched_dec.
Qed.

Lemma runs_map_kernel {budget : Budget} kernel_start stack_start stack_size segs s :
  ready s -> loadable kernel_start segs s -> 0 <= stack_size ->
  4096 * (page_number stack_start + 1 + stack_size) < 2 ^ 47 ->
  clear_of_window (stack_pages stack_start stack_size) s ->
  kind budget = KernelStack -> covered (budget := budget) (in_some (kernel_areas segs stack_start stack_size)) ->
  runs (before Kernel budget) budget (kernel_room segs stack_size)
    (map_kernel kernel_start stack_start stack_size segs) s (fun r s' =>
    only_on (in_some (kernel_areas segs stack_start stack_size)) s s' /\
    match r with
    | Ok info => kernel_mapped kernel_start segs stack_start stack_size info s s'
    | Err e => kernel_failed e segs stack_start stack_size s s'
    end).
Proof.
  intros Hs Hla Hsz Hlt Hw Hkind Hcov. set (stack := stack_pages stack_start stack_size) in *.
  assert (forall p, in_some (segment_areas segs) p -> in_some (segment_areas segs ++ [stack]) p) as Hsub1.
  { intros p Hp. rewrite in_some_app. by left. }
  assert (forall p, stack p -> in_some (segment_areas segs ++ [stack]) p) as Hsub2.
  { intros p Hp. rewrite in_some_app, in_some_singleton. by right. }
  eapply (runs_bind _ (before Kernel budget)).
  { apply runs_map_segments; [done | done | done|]. intros p Hp. by apply Hcov, Hsub1. }
  2: { intros e s1 [Ho Hf]. split; [exact (only_on_weaken _ _ _ _ Hsub1 Ho)|].
       destruct e; [by apply area_cause_first | done]. }
  intros tls s1 Hs1 (Ho1 & Hk1 & Hl1 & Htls & Hcop & _).
  destruct (stack_page_range stack_start stack_size Hsz Hlt) as (p0 & p1 & Hp0 & Hp1 & Hend & Hlen & Hnd & Hin).
  eapply runs_pure; [exact Hp0|]. eapply runs_pure; [exact Hp1|].
  apply (runs_budget _ _ budget budget); [apply slack_before | done|].
  eapply (runs_weaken _ _ (4 * length (page_range p0 p1) + 0)); [lia | intros r s' H; exact H|].
  assert (forall p, p ∈ page_range p0 p1 -> stack p) as Hst by (intros p; by apply Hin).
  eapply runs_bind_err.
  - apply runs_map_fresh_pages; [done | done | done | done | |]; intros p Hp.
    + rewrite (only_on_reserved _ _ _ _ Ho1). auto.
    + by apply Hcov, Hsub2, Hst.
  - intros [] s2 Hs2 (Hram & Ho2 & Hnow & Hdist). apply runs_ret; [done|].
    assert (only_on stack s1 s2) as Ho2' by exact (only_on_weaken _ _ _ _ Hst Ho2).
    split; [exact (only_on_trans _ _ _ _ _ _ Hsub1 Hsub2 Ho1 Ho2')|].
    assert (keeps nowhere s1 s2) as Hk2.
    { intros p e _ Hr Ht. rewrite (oo_pages _ _ _ Ho2); [done..|]. intros Hp. destruct (Hnow p Hp). congruence. }
    constructor; [| |done|done| | |done|].
    + by eapply keeps_nowhere_trans; [intros p; by eapply only_on_reserved | |].
    + intros seg Hseg Ht. pose proof (la_ok _ _ _ Hla seg Hseg) as Hok. rewrite Ht in Hok.
      eapply loaded_stable; [|by apply Hl1 | apply Hok | by eapply only_on_intact | done].
      intros p Hp. rewrite (only_on_reserved _ _ _ _ Ho1). apply (la_window _ _ _ Hla).
      exists (segment_touched seg). split; [|by left]. apply in_map. apply List.filter_In.
      by rewrite is_load_iff.
    + intros p Hp. destruct (Hnow p) as (Hn & f & Hf & Hfr); [by apply Hin|]. split.
      * destruct (tr s p) as [e|] eqn:Ht; [|done]. apply Hk1 in Ht; [congruence | tauto | auto].
      * exists f. split; [done|]. eapply fresh_for_before; [apply Ho1 | done].
    + intros p q f g fl fl' Hp Hq. apply Hdist; by apply Hin.
    + intros Hr Hno. rewrite (oo_pages _ _ _ Ho2'), (oo_pages _ _ _ Ho1); [done..| |].
      * by rewrite (only_on_reserved _ _ _ _ Ho1).
      * unfold stack, stack_pages, in_pages. lia.
  - intros e s2 (_ & Ho2 & Hc). assert (only_on stack s1 s2) as Ho2' by exact (only_on_weaken _ _ _ _ Hst Ho2).
    split; [exact (only_on_trans _ _ _ _ _ _ Hsub1 Hsub2 Ho1 Ho2')|].
    apply (area_cause_second e (segment_areas segs) [stack] s s1 s2);
      [apply segment_areas_dec | |exact Ho1 | apply (area_cause_one e stack)].
    + intros p Hp. exact (Hw p (proj1 (in_some_singleton stack p) Hp)).
    + exact (cause_weaken _ _ _ _ _ Hst Hc).
Qed.
End proofs.
