(* ===== verification/TableBudget.v ===== *)
(** * Entries of the memory map for a whole kernel

    A loader's budget counts the tables the page table may have to add, one for
    every 2 MiB with a page to map.  Here such a budget is computed from the
    segments and the stack, and what a computation does within one is restated
    for the entries in use at its start.  Two entries per table and two or three
    more are enough, whatever the number of frames. *)

From Stdlib Require Import Lia.
From stdpp Require Import base decidable strings numbers list.
From S2P Require Import Prelude UnstableSort MemoryMap X86 X86Huge FrameAllocator EntryCost Level4 Memory Paging BootInfo.
From S2P Require Import PageTable BootPaging KernelLoad KernelMapping.

Open Scope Z_scope.

Lemma no_usable mm : (forall f, Usable ∉ owners f mm) -> length (usable_numbers mm) = 0%nat.
Proof.
  intros H. destruct (usable_numbers mm) as [|f l] eqn:E; [done|].
  destruct (H f). apply elem_of_usable_numbers. rewrite E. by left.
Qed.

(** The tables for the pages with numbers from [lo] to [hi]. *)
Definition tables_for (lo hi : Z) : nat := Z.to_nat (hi / 512 - lo / 512 + 1).

Section counting.
Context {X : X86Phys} {ELF : XmasElf}.

Definition segment_tables (seg : ProgramHeader64) : nat :=
  tables_for (virtual_addr seg / 4096) ((virtual_addr seg + mem_size seg) / 4096) +
  if needs_copy seg then 1 else 0.

Fixpoint segments_tables (segs : list ProgramHeader64) : nat :=
  match segs with
  | [] => 0
  | seg :: segs' => (if is_load seg then segment_tables seg else 0) + segments_tables segs'
  end.

Definition kernel_tables `{X86Virt} (segs : list ProgramHeader64) (stack_start : Page) (stack_size : Z) : nat :=
  segments_tables segs + tables_for (page_number stack_start + 1) (page_number stack_start + stack_size).
End counting.

Section proofs.
Context {B : Build} {SORT : UnstableSort} {SL : UnstableSortLaws SORT}.
Context {X : X86Phys} {XL : X86PhysLaws X} {V : X86Virt} {VL : X86VirtLaws V}.
Context {HG : X86Huge X V} {HL : X86HugeLaws HG} {ELF : XmasElf}.

(** ** A list of 2 MiB pages for an area *)

Lemma cover_steps lo n :
  0 <= lo -> lo + Z.of_nat n <= 2 ^ 26 ->
  exists l : list Page2M, length l = n /\ forall p, lo <= page_number p / 512 < lo + Z.of_nat n -> huge_of p ∈ l.
Proof.
  intros Hlo. induction n as [|n IH]; intros Hlt; [exists []; split; [done | lia]|].
  destruct IH as (l & Hl & Hin); [lia|].
  destruct (page_exists (512 * (lo + Z.of_nat n))) as [q Hq]; [lia|].
  exists (huge_of q :: l). split; [cbn; lia|]. intros p Hp.
  destruct (decide (page_number p / 512 = lo + Z.of_nat n)) as [He|He]; [|right; apply Hin; lia].
  assert (huge_of p = huge_of q) as ->; [|left].
  apply page2_inj. rewrite !huge_of_base, !page_addr_number, Hq. unfold base2, SIZE_2M. dlia.
Qed.

Lemma cover_pages lo hi :
  0 <= lo <= 2 ^ 35 -> hi < 2 ^ 35 ->
  exists l : list Page2M, length l = tables_for lo hi /\ forall p, lo <= page_number p <= hi -> huge_of p ∈ l.
Proof.
  intros Hlo Hhi. destruct (cover_steps (lo / 512) (tables_for lo hi)) as (l & Hl & Hin);
    [dlia | unfold tables_for; dlia |].
  exists l. split; [done|]. intros p Hp. apply Hin. unfold tables_for. dlia.
Qed.

Lemma cover_one p : exists l : list Page2M, length l = 1%nat /\ huge_of p ∈ l.
Proof. exists [huge_of p]. split; [done | left]. Qed.

Lemma cover_segment kernel_start seg :
  load_ok kernel_start seg ->
  exists l : list Page2M, length l = segment_tables seg /\ forall p, segment_touched seg p -> huge_of p ∈ l.
Proof.
  intros Hok. pose proof (lo_virt _ _ Hok). pose proof (lo_sizes _ _ Hok).
  destruct (cover_pages (virtual_addr seg / 4096) ((virtual_addr seg + mem_size seg) / 4096))
    as (l & Hl & Hin); [dlia | dlia |].
  destruct (page_exists temp_page_number) as [tp Htp]; [by_compute|].
  exists (l ++ if needs_copy seg then [huge_of tp] else []). unfold segment_tables. rewrite length_app, Hl.
  split; [by destruct (needs_copy seg)|]. intros p [Hp | [-> Hp]]; apply elem_of_app.
  - left. apply Hin. unfold segment_pages, in_pages in Hp. lia.
  - right. apply list_elem_of_singleton. f_equal. apply page_number_inj. congruence.
Qed.

Lemma cover_segments kernel_start segs :
  segments_ok kernel_start segs ->
  exists l : list Page2M, length l = segments_tables segs /\
    forall p, in_some (segment_areas segs) p -> huge_of p ∈ l.
Proof.
  induction segs as [|seg segs IH]; intros Hok; [exists []; split; [done | by intros p (P & [] & _)]|].
  destruct IH as (l & Hl & Hin); [intros x Hx; apply Hok; by right|].
  pose proof (Hok seg (or_introl eq_refl)) as Hseg. cbn [segments_tables]. destruct (is_load seg) eqn:Hld.
  - apply is_load_iff in Hld as Ht. rewrite Ht in Hseg. destruct (cover_segment _ _ Hseg) as (k & Hk & Hkin).
    exists (k ++ l). rewrite length_app, Hk, Hl. split; [done|]. intros p.
    rewrite segment_areas_cons, Hld, in_some_app, in_some_singleton, elem_of_app. intros [?|?]; auto.
  - exists l. split; [done|]. intros p. rewrite segment_areas_cons, Hld. apply Hin.
Qed.

Lemma page_number_nonneg (p : Page) : 0 <= page_number p.
Proof.
  pose proof (virt_canonical (page_start_address p)) as Hc. pose proof (page_addr_number p) as Hp.
  unfold page_addr, canonical in *. lia.
Qed.

Lemma cover_kernel kernel_start segs stack_start stack_size :
  segments_ok kernel_start segs -> 0 <= stack_size ->
  4096 * (page_number stack_start + 1 + stack_size) < 2 ^ 47 ->
  exists l : list Page2M, length l = kernel_tables segs stack_start stack_size /\
    forall p, in_some (kernel_areas segs stack_start stack_size) p -> huge_of p ∈ l.
Proof.
  intros Hok Hsz Hlt. pose proof (page_number_nonneg stack_start). destruct (cover_segments _ _ Hok) as (l & Hl & Hin).
  destruct (cover_pages (page_number stack_start + 1) (page_number stack_start + stack_size))
    as (k & Hk & Hkin); [lia | lia |].
  exists (l ++ k). unfold kernel_tables. rewrite length_app, Hl, Hk. split; [done|]. intros p.
  unfold kernel_areas. rewrite in_some_app, in_some_singleton, elem_of_app. intros [Hp|Hp]; [auto|].
  right. apply Hkin. unfold stack_pages, in_pages in Hp. lia.
Qed.

(** ** Computations within a budget *)

Section finishes.
Context {M : Type} {MP : Mapper M} {RM : Recursive M}.

(** [c] returns from [s] in a state with [Q] and takes at most [n] frames; it
    panics only because the memory map has not got [e] entries left. *)
Definition finishes {E A} (e n : nat) (c : loader M E A) (s : LoadState M)
    (Q : result A E -> LoadState M -> Prop) : Prop :=
  match c s with
  | Ret (r, s') => ready s' /\ within n (frames s) (frames s') /\ Q r s'
  | Panic why => why = map_full /\ (MAX_MEMORY_MAP_SIZE < entries_used (frames s) + e)%nat
  end.

Lemma slack_used budget (s : LoadState M) :
  (slack budget s <= entries_used (frames s) + (1 + spare budget +
     2 * (length (page_tables budget) + length (page_directories budget))))%nat.
Proof.
  unfold slack, missing. pose proof (entry_cost_used (kind budget) (frames s)).
  pose proof (List.filter_length_le (fun q => negb (occupied2 (page_table s) q)) (page_tables budget)).
  pose proof (List.filter_length_le (fun z => negb (occupied3 (page_table s) z)) (page_directories budget)). lia.
Qed.

Lemma runs_finishes {E A} budget budget' e n (c : loader M E A) s Q :
  (1 + spare budget + 2 * (length (page_tables budget) + length (page_directories budget)) <= e)%nat ->
  runs budget budget' n c s Q -> finishes e n c s Q.
Proof.
  intros He. unfold runs, finishes. pose proof (slack_used budget s).
  destruct (c s) as [[r s']|]; [tauto|]. intros [-> ?]. split; [done | lia].
Qed.

Lemma finishes_weaken {E A} e n (c : loader M E A) s (Q Q' : _ -> _ -> Prop) :
  (forall r s', Q r s' -> Q' r s') -> finishes e n c s Q -> finishes e n c s Q'.
Proof. unfold finishes. intros HQ. destruct (c s) as [[r s']|]; [|done]. intros (? & ? & ?). auto. Qed.

(** A computation that is known to succeed. *)
Definition succeeds {E A} (c : loader M E A) (s : LoadState M) : bool :=
  match c s with Ret (Ok _, _) => true | _ => false end.

Lemma finishes_succeeds {E A} e n (c : loader M E A) s Q :
  succeeds c s = true -> finishes e n c s Q -> exists a s', c s = Ret (Ok a, s') /\ Q (Ok a) s'.
Proof.
  unfold succeeds, finishes. destruct (c s) as [[[a|err] s']|]; [|done..]. intros _ (_ & _ & HQ). eauto.
Qed.

Lemma finishes_returns {E A} e n (c : loader M E A) s Q :
  (entries_used (frames s) + e <= MAX_MEMORY_MAP_SIZE)%nat -> finishes e n c s Q ->
  exists r s', c s = Ret (r, s') /\ Q r s'.
Proof.
  unfold finishes. destruct (c s) as [[r s']|]; [|lia]. intros _ (_ & _ & HQ). eauto.
Qed.
End finishes.

Definition tables_budget (t : MemoryRegionType) (l : list Page2M) : Budget :=
  {| kind := t; spare := 0; page_tables := l; page_directories := [] |}.
End proofs.
