(* ===== verification/KernelTheorems.v ===== *)
(** * Theorems about loading the kernel (src/bootloader/src/page_table.rs)

    What [map_segment] and [map_kernel] do, and a concrete kernel, on a table of
    [BootPaging], for which the hypotheses hold. *)

From Stdlib Require Import Lia ZifyBool.
From stdpp Require Import base decidable strings numbers list.
From S2P Require Import Prelude UnstableSort MemoryMap X86 X86Huge FrameAllocator EntryCost Level4 Memory Paging BootInfo.
From S2P Require Import PageTable BootPaging KernelLoad KernelMapping TableBudget.

Open Scope Z_scope.

Section properties.
Context {B : Build} {SORT : UnstableSort} {SL : UnstableSortLaws SORT}.
Context {X : X86Phys} {XL : X86PhysLaws X} {V : X86Virt} {VL : X86VirtLaws V}.
Context {HG : X86Huge X V} {HL : X86HugeLaws HG} {ELF : XmasElf}.
Context {M : Type} {MP : Mapper M} {RM : Recursive M} {RL : RecursiveLaws M}.

(** The entries for a segment, and for a whole kernel. *)
Definition segment_entries (seg : ProgramHeader64) : nat := 1 + 2 * segment_tables seg.

Definition kernel_entries (segs : list ProgramHeader64) (stack_start : Page) (stack_size : Z) : nat :=
  2 + 2 * kernel_tables segs stack_start stack_size.

Lemma finishes_map_kernel kernel_start stack_start stack_size segs (s : LoadState M) :
  ready s -> loadable kernel_start segs s -> 0 <= stack_size ->
  4096 * (page_number stack_start + 1 + stack_size) < 2 ^ 47 ->
  clear_of_window (stack_pages stack_start stack_size) s ->
  finishes (kernel_entries segs stack_start stack_size) (kernel_room segs stack_size)
    (map_kernel kernel_start stack_start stack_size segs) s (fun r s' =>
    only_on (in_some (kernel_areas segs stack_start stack_size)) s s' /\
    match r with
    | Ok info => kernel_mapped kernel_start segs stack_start stack_size info s s'
    | Err e => kernel_failed e segs stack_start stack_size s s'
    end).
Proof.
  intros Hs Hla Hsz Hlt Hw.
  destruct (cover_kernel _ _ _ _ (la_ok _ _ _ Hla) Hsz Hlt) as (l & Hl & Hin).
  apply (runs_finishes (before Kernel (tables_budget KernelStack l)) (tables_budget KernelStack l)).
  - cbn [before tables_budget spare page_tables page_directories length]. rewrite Hl. unfold kernel_entries. lia.
  - by apply runs_map_kernel.
Qed.

(** Loading a segment: the code panics only if the memory map
    has too few free entries, never reaches its [unreachable!] arms and never
    faults.  When it succeeds, every address of the segment reads the byte of the
    kernel file, or zero behind the end of the file, through pages with the
    segment's flags in frames that belong to the kernel; every mapping there was
    before is still there.  When it fails, the error names its cause: no usable
    frame is left, or a page of the segment (or the temporary page) was mapped
    before or lies under a huge page.  In all cases frames that were in use keep
    their owner and their contents. *)
Theorem map_segment_loads kernel_start seg (s : LoadState M) :
  load_ok kernel_start seg -> ready s -> image_reserved kernel_start seg s ->
  clear_of_window (segment_touched seg) s ->
  finishes (segment_entries seg) (segment_room seg) (map_segment seg kernel_start) s (fun r s' =>
    only_on (segment_touched seg) s s' /\
    match r with
    | Ok tls => tls = None /\ keeps (fun _ => False) s s' /\ loaded kernel_start seg s s'
    | Err e => cause e (segment_touched seg) s s'
    end).
Proof.
  intros Hok Hs Himg Hw.
  destruct (cover_segment _ _ Hok) as (l & Hl & Hin).
  apply (runs_finishes (tables_budget Kernel l) (tables_budget Kernel l)).
  { cbn [tables_budget spare page_tables page_directories length]. rewrite Hl. unfold segment_entries. lia. }
  eapply runs_weaken; [reflexivity | |by apply runs_map_load]. intros [tls|e] s'; [|done].
  intros (? & ? & ? & ? & _). auto.
Qed.

(** C16 (functional). Loading the kernel: on success all its segments are loaded,
    the TLS template is that of the only TLS segment, the stack is mapped
    writable to distinct frames that were usable before and belong to the kernel
    stack now, the stack ends where [stack_end] says, and the page in front of it
    is left unmapped as a guard if it was.  The only panic is a full memory map,
    for which it takes a kernel with many 2 MiB regions.  On failure the error is either a TLS
    segment too many or a mapping that failed for a reason that was there before
    or because two of the areas to map share a page. *)
Theorem map_kernel_loads kernel_start stack_start stack_size segs (s : LoadState M) :
  ready s -> loadable kernel_start segs s -> 0 <= stack_size ->
  4096 * (page_number stack_start + 1 + stack_size) < 2 ^ 47 ->
  clear_of_window (stack_pages stack_start stack_size) s ->
  finishes (kernel_entries segs stack_start stack_size) (kernel_room segs stack_size)
    (map_kernel kernel_start stack_start stack_size segs) s (fun r s' =>
    only_on (in_some (kernel_areas segs stack_start stack_size)) s s' /\
    match r with
    | Ok info => kernel_mapped kernel_start segs stack_start stack_size info s s'
    | Err e => kernel_failed e segs stack_start stack_size s s'
    end).
Proof. apply finishes_map_kernel. Qed.

(** Loading succeeds where nothing stands in its way: enough
    free entries in the memory map (two per table of pages, and two more), enough
    usable frames (at most four per page), no page of the kernel or its stack mapped before, under a huge
    page or needed twice, and at most one TLS segment. *)
Theorem map_kernel_succeeds kernel_start stack_start stack_size segs (s : LoadState M) :
  ready s -> loadable kernel_start segs s -> 0 <= stack_size ->
  4096 * (page_number stack_start + 1 + stack_size) < 2 ^ 47 ->
  clear_of_window (stack_pages stack_start stack_size) s ->
  (entries_used (frames s) + kernel_entries segs stack_start stack_size <= MAX_MEMORY_MAP_SIZE)%nat ->
  (kernel_room segs stack_size < length (usable_numbers (frames s)))%nat ->
  (forall p, in_some (kernel_areas segs stack_start stack_size) p ->
     tr s p = None /\ huge_parent (page_table s) p = false /\
     ~ shared (kernel_areas segs stack_start stack_size) p) ->
  (length (tls_templates segs) <= 1)%nat ->
  exists info s', map_kernel kernel_start stack_start stack_size segs s = Ret (Ok info, s') /\
    kernel_mapped kernel_start segs stack_start stack_size info s s'.
Proof.
  intros Hs Hla Hsz Hlt Hw Hroom Hmem Hfree Htls.
  pose proof (finishes_map_kernel kernel_start stack_start stack_size segs s Hs Hla Hsz Hlt Hw) as Hrun.
  unfold finishes in Hrun. destruct (map_kernel kernel_start stack_start stack_size segs s) as [[[info|e] s']|]; [| |lia].
  - destruct Hrun as (_ & _ & _ & Hk). eauto.
  - exfalso. destruct Hrun as (_ & Hfr & _ & Hf). unfold within in Hfr. destruct e as [e|]; cbn [kernel_failed] in Hf; [|lia].
    destruct e; cbn [area_cause] in Hf.
    + rewrite (no_usable _ Hf) in Hfr. lia.
    + destruct Hf as (p & Hp & Hh). destruct (Hfree p Hp) as (_ & ? & _). congruence.
    + destruct Hf as (p & Hp & [[fl Ht] | Hsh]); destruct (Hfree p Hp) as (? & _ & ?); [congruence | done].
Qed.

(** C21 (error). A kernel with two segments whose file part ends inside a page
    and is followed by zeroes is never loaded: the temporary mapping made for the
    first is not removed, so that the second cannot make its own. *)
Theorem second_copy_refused kernel_start stack_start stack_size segs (s : LoadState M) :
  ready s -> loadable kernel_start segs s -> 0 <= stack_size ->
  4096 * (page_number stack_start + 1 + stack_size) < 2 ^ 47 ->
  clear_of_window (stack_pages stack_start stack_size) s -> (2 <= length (copies segs))%nat ->
  finishes (kernel_entries segs stack_start stack_size) (kernel_room segs stack_size)
    (map_kernel kernel_start stack_start stack_size segs) s (fun r s' =>
    exists e, r = Err e).
Proof.
  intros Hs Hla Hsz Hlt Hw Hc. eapply finishes_weaken; [|by apply finishes_map_kernel].
  intros [info|e] s' [_ Hr]; [|by exists e]. pose proof (km_copies _ _ _ _ _ _ _ Hr). lia.
Qed.
End properties.

(** ** A concrete kernel *)

#[local] Instance checked : Build := true.

(** The numbers of the ELF format. *)
#[local] Instance elf_numbers : XmasElf := {|
  get_type seg :=
    if ph_type seg =? 0 then Ok Null else if ph_type seg =? 1 then Ok Load
    else if ph_type seg =? 7 then Ok Tls else Err "Invalid program header type";
  is_execute flags := Z.testbit flags 0;
  is_write flags := Z.testbit flags 1;
|}.

Lemma sample_start_range : 0 <= 0x400000 < 2 ^ 52.
Proof. lia. Qed.

Definition sample_kernel_start : @PhysAddr phys_numbers := dexist 0x400000 sample_start_range.

Definition text_segment : ProgramHeader64 :=
  {| ph_type := 1; ph_flags := 5; ph_offset := 0x1000; virtual_addr := 0x201000;
     file_size := 0x800; mem_size := 0x800 |}.
Definition data_segment : ProgramHeader64 :=
  {| ph_type := 1; ph_flags := 6; ph_offset := 0x2000; virtual_addr := 0x203000;
     file_size := 0x100; mem_size := 0x1200 |}.
Definition tls_header : ProgramHeader64 :=
  {| ph_type := 7; ph_flags := 4; ph_offset := 0x2000; virtual_addr := 0x203000;
     file_size := 0x10; mem_size := 0x20 |}.
Definition more_data : ProgramHeader64 :=
  {| ph_type := 1; ph_flags := 6; ph_offset := 0x3000; virtual_addr := 0x207000;
     file_size := 0x100; mem_size := 0x200 |}.

(** The file at 4 MiB, usable memory at 8 MiB. *)
Definition load_map : MemoryMap :=
  map_of [mk_region 0 1 FrameZero; mk_region 0x400 0x410 Kernel; mk_region 0x800 0x1000 Usable].

Definition empty_tables : @Tables phys_numbers virt_numbers huge_numbers :=
  {| small := []; huge := []; kept := []; level4_table := frame_containing_address sample_kernel_start;
     recursive_entry := None |}.

Definition sample_state : LoadState Tables :=
  {| page_table := empty_tables; frames := load_map; ram := fun z => z mod 256 |}.

Lemma sample_state_ready : ready sample_state.
Proof.
  assert (wf_map load_map) as Hw by by_compute. split; [done|]. intros f.
  apply apart_kinds; [by apply slice_proper|]. repeat constructor; discriminate.
Qed.

Lemma load_ok_intro ks (seg : ProgramHeader64) :
  get_type seg = Ok Load ->
  bool_decide (0 <= file_size seg <= mem_size seg /\
    (0 < virtual_addr seg /\ virtual_addr seg + mem_size seg < 2 ^ 47 - 8192) /\
    (0 <= ph_offset seg /\ 0 < load_address ks seg /\
     load_address ks seg + file_size seg < 2 ^ 52 - 8192) /\
    virtual_addr seg mod 4096 = load_address ks seg mod 4096 /\
    (temp_page_number < virtual_addr seg / 4096 \/
     (virtual_addr seg + mem_size seg) / 4096 < temp_page_number)) = true ->
  load_ok ks seg.
Proof. intros Ht (H1 & H2 & H3 & H4 & H5)%bool_decide_eq_true. by constructor. Qed.

(** The frames of the sample file belong to the kernel. *)
Lemma sample_image seg :
  0x400 <= load_address sample_kernel_start seg / 4096 ->
  (load_address sample_kernel_start seg + file_size seg - 1) / 4096 < 0x410 ->
  image_reserved sample_kernel_start seg sample_state.
Proof.
  intros H1 H2 n Hn. change (owners n load_map = [Kernel]). unfold owners. change (slice load_map) with
    [mk_region 0 1 FrameZero; mk_region 0x400 0x410 Kernel; mk_region 0x800 0x1000 Usable].
  rewrite !kinds_cons. unfold contains. cbn [mk_region range region_type start_frame_number end_frame_number].
  repeat case_match; try lia; done.
Qed.

Definition sample_kernel : list ProgramHeader64 := [text_segment; tls_header; data_segment].

Lemma sample_loadable : loadable sample_kernel_start sample_kernel sample_state.
Proof.
  constructor.
  - intros seg [<- | [<- | [<- | []]]]; cbn; [|done|]; by apply load_ok_intro.
  - intros seg [<- | [<- | [<- | []]]] _; apply sample_image; by_compute.
  - by intros p _.
Qed.

Lemma data_segment_succeeds :
  succeeds (map_segment data_segment sample_kernel_start) sample_state = true.
Proof. vm_compute. reflexivity. Qed.

Lemma map_segment_loads_witness :
  exists tls s', map_segment data_segment sample_kernel_start sample_state = Ret (Ok tls, s') /\
    only_on (segment_touched data_segment) sample_state s' /\
    tls = None /\ keeps (fun _ => False) sample_state s' /\
    loaded sample_kernel_start data_segment sample_state s'.
Proof.
  refine (finishes_succeeds _ _ _ _ _ data_segment_succeeds
    (map_segment_loads sample_kernel_start data_segment sample_state _ _ _ _));
    [by apply load_ok_intro | apply sample_state_ready | apply sample_image; by_compute | by intros p _].
Defined.

Lemma sample_stack_range : canonical 0x40000000 /\ 0x40000000 mod 4096 = 0.
Proof. split; [left; lia | reflexivity]. Qed.

Definition sample_stack : @Page virt_numbers := dexist 0x40000000 sample_stack_range.

Lemma sample_kernel_succeeds :
  succeeds (map_kernel sample_kernel_start sample_stack 2 sample_kernel) sample_state = true.
Proof. vm_compute. reflexivity. Qed.

Lemma map_kernel_loads_witness :
  exists info s', map_kernel sample_kernel_start sample_stack 2 sample_kernel sample_state = Ret (Ok info, s') /\
    only_on (in_some (kernel_areas sample_kernel sample_stack 2)) sample_state s' /\
    kernel_mapped sample_kernel_start sample_kernel sample_stack 2 info sample_state s'.
Proof.
  refine (finishes_succeeds _ _ _ _ _ sample_kernel_succeeds
    (map_kernel_loads sample_kernel_start sample_stack 2 sample_kernel sample_state _ _ _ _ _));
    [apply sample_state_ready | apply sample_loadable | lia | by_compute | by intros p _].
Defined.

(** With a second segment of that kind. *)
Definition greedy_kernel : list ProgramHeader64 := [data_segment; more_data].

Lemma greedy_loadable : loadable sample_kernel_start greedy_kernel sample_state.
Proof.
  constructor.
  - intros seg [<- | [<- | []]]; cbn; by apply load_ok_intro.
  - intros seg [<- | [<- | []]] _; apply sample_image; by_compute.
  - by intros p _.
Qed.

Lemma greedy_room :
  (entries_used (frames sample_state) + kernel_entries greedy_kernel sample_stack 2 <= MAX_MEMORY_MAP_SIZE)%nat.
Proof. by_compute. Qed.

Lemma second_copy_refused_witness :
  exists r s', map_kernel sample_kernel_start sample_stack 2 greedy_kernel sample_state = Ret (r, s') /\
    exists e, r = Err e.
Proof.
  refine (finishes_returns _ _ _ _ _ greedy_room
    (second_copy_refused sample_kernel_start sample_stack 2 greedy_kernel sample_state _ _ _ _ _ _));
    [apply sample_state_ready | apply greedy_loadable | lia | by_compute | by intros p _ | by_compute].
Defined.

Lemma sample_areas_free p :
  in_some (kernel_areas sample_kernel sample_stack 2) p ->
  tr sample_state p = None /\ huge_parent (page_table sample_state) p = false /\
  ~ shared (kernel_areas sample_kernel sample_stack 2) p.
Proof.
  intros _. split; [done|]. split; [done|].
  unfold kernel_areas, segment_areas. cbn [load_segments sample_kernel List.filter is_load get_type elf_numbers
    ph_type text_segment tls_header data_segment Z.eqb Pos.eqb map app shared].
  intros H. unfold in_some in H. cbn [In] in H.
  assert (forall q, segment_touched text_segment q -> page_number q = 0x201) as H1.
  { intros q [Hq | [Hq _]]; [|done]. unfold segment_pages, in_pages in Hq.
    change (virtual_addr text_segment) with 0x201000 in Hq. change (mem_size text_segment) with 0x800 in Hq. dlia. }
  assert (forall q, segment_touched data_segment q -> 0x203 <= page_number q <= 0x204 \/
    page_number q = temp_page_number) as H2.
  { intros q [Hq | [_ Hq]]; [|by right]. unfold segment_pages, in_pages in Hq.
    change (virtual_addr data_segment) with 0x203000 in Hq. change (mem_size data_segment) with 0x1200 in Hq. dlia. }
  assert (forall q, stack_pages sample_stack 2 q -> 0x40001 <= page_number q < 0x40003) as H3.
  { intros q Hq. unfold stack_pages, in_pages in Hq. change (page_number sample_stack) with 0x40000 in Hq. lia. }
  unfold temp_page_number in *.
  destruct H as [(Ht & Q & [<- | [<- | []]] & Hq) | [(Ht & Q & [<- | []] & Hq) | [(_ & Q & [] & _) | []]]].
  - apply H1 in Ht. apply H2 in Hq. lia.
  - apply H1 in Ht. apply H3 in Hq. lia.
  - apply H2 in Ht. apply H3 in Hq. lia.
Qed.

Lemma map_kernel_succeeds_witness :
  exists info s', map_kernel sample_kernel_start sample_stack 2 sample_kernel sample_state = Ret (Ok info, s') /\
    kernel_mapped sample_kernel_start sample_kernel sample_stack 2 info sample_state s'.
Proof.
  apply (map_kernel_succeeds sample_kernel_start sample_stack 2 sample_kernel sample_state);
    [apply sample_state_ready | apply sample_loadable | lia | by_compute | by intros p _ | by_compute
    | rewrite length_usable_numbers; by_compute | apply sample_areas_free | by_compute].
Defined.
