(* ===== verification/Printer.v ===== *)
(** * The bootloader's printers
      (src/bootloader/src/printer/vga_text_80x25.rs and vga_320x200.rs)

    Both printers write to video memory through raw pointers, so the memory is
    a function from offsets to bytes and no access is checked.  The positions
    are atomic counters, which wrap.  The glyphs come from the crate font8x8: a
    class gives the bitmap of a character. *)

From Stdlib Require Import Lia ZifyBool Ascii.
From stdpp Require Import base decidable strings numbers list.
From S2P Require Import Prelude RustStr.

Open Scope Z_scope.

Abbreviation vmem := (Z -> Z).

Definition poke (i v : Z) (m : vmem) : vmem := fun j => if j =? i then v else m j.

(** ** Text mode *)

Module Text.

(** [SCREEN_SIZE] counts the cells of the screen; a cell is two bytes. *)
Definition SCREEN_SIZE : nat := 80 * 25.

Record Printer := { memory : vmem; CURRENT_OFFSET : Z }.

Definition clear_screen (p : Printer) : Printer :=
  {| memory := foldl (fun m i => poke (Z.of_nat i) 0 m) (memory p) (seq 0 SCREEN_SIZE);
     CURRENT_OFFSET := 0 |}.

Definition write_byte (p : Printer) (byte : Z) : Printer :=
  let index := CURRENT_OFFSET p in
  {| memory := poke (index + 1) 0x4f (poke index byte (memory p));
     CURRENT_OFFSET := wrap64 (index + 2) |}.

Definition write_str (s : string) (p : Printer) : Printer :=
  foldl write_byte p (str_bytes s).
End Text.

(** ** Graphics mode *)

Class Font := glyph : string -> option (list Z).

(** The basic font has eight rows for every printable ASCII character. *)
Class FontLaws (F : Font) : Prop := {
  glyph_ok : forall c, 32 <= code_point c <= 126 -> exists rows, glyph c = Some rows /\ length rows = 8%nat;
}.

Module Pixel.

Definition SCREEN_WIDTH : Z := 320.
Definition SCREEN_HEIGHT : Z := 200.

Record Printer := { memory : vmem; X_POS : Z; Y_POS : Z }.

Definition clear_screen (p : Printer) : Printer :=
  {| memory := foldl (fun m i => poke (Z.of_nat i) 0 m) (memory p)
                 (seq 0 (Z.to_nat (SCREEN_WIDTH * SCREEN_HEIGHT)));
     X_POS := 0; Y_POS := 0 |}.

Definition newline (p : Printer) : Printer :=
  let y_pos := Y_POS p in
  let p1 := {| memory := memory p; X_POS := 0; Y_POS := wrap64 (y_pos + 8) |} in
  if SCREEN_HEIGHT <=? y_pos then clear_screen p1 else p1.

(** The pixels of a glyph: bit [x] of row [y]. *)
Definition draw_bit (x_pos y_pos y byte : Z) (m : vmem) (x : nat) : vmem :=
  if Z.land byte (Z.shiftl 1 (Z.of_nat x)) =? 0 then m
  else poke ((y_pos + y) * SCREEN_WIDTH + x_pos + Z.of_nat x) 0xf m.

Fixpoint draw_rows (x_pos y_pos y : Z) (rendered : list Z) (m : vmem) : vmem :=
  match rendered with
  | [] => m
  | byte :: rest => draw_rows x_pos y_pos (y + 1) rest (foldl (draw_bit x_pos y_pos y byte) m (seq 0 8))
  end.

Section write.
Context {F : Font}.

(** The positions stay below 320 and 208 (see the invariant below), so that the
    sums and products of the source do not overflow. *)
Definition write_char (c : string) (p : Printer) : outcome Printer :=
  if code_point c =? 10 then Ret (newline p)
  else
    let x_pos := X_POS p in
    let y_pos := Y_POS p in
    let p1 := {| memory := memory p; X_POS := wrap64 (x_pos + 8); Y_POS := y_pos |} in
    p2 ← if (32 <=? code_point c) && (code_point c <=? 126) then
           rendered ← expect (glyph c) "character not found in basic font";
           Ret {| memory := draw_rows x_pos y_pos 0 rendered (memory p1);
                  X_POS := X_POS p1; Y_POS := Y_POS p1 |}
         else Panic "unprintable character";
    Ret (if SCREEN_WIDTH <=? x_pos + 8 then newline p2 else p2).

Definition write_str (s : string) (p : Printer) : outcome Printer :=
  for_each (chars s) write_char p.
End write.
End Pixel.

(** ** Lemmas on video memory *)

Lemma poke_same i v m : poke i v m i = v.
Proof. unfold poke. by rewrite Z.eqb_refl. Qed.

Lemma poke_other i j v m : j <> i -> poke i v m j = m j.
Proof. intros H. unfold poke. by rewrite (proj2 (Z.eqb_neq _ _) H). Qed.

Lemma clear_range a n m j :
  foldl (fun m i => poke (Z.of_nat i) 0 m) m (seq a n) j =
    if (Z.of_nat a <=? j) && (j <? Z.of_nat a + Z.of_nat n) then 0 else m j.
Proof.
  revert a m. induction n as [|n IH]; intros a m; cbn [seq foldl].
  { case_match; [lia | done]. }
  rewrite IH, !Nat2Z.inj_succ. unfold poke. repeat case_match; lia || done.
Qed.

(** ** Text mode *)

Lemma text_write_bytes bytes p :
  0 <= Text.CURRENT_OFFSET p -> Text.CURRENT_OFFSET p + 2 * Z.of_nat (length bytes) < 2 ^ 64 ->
  let o := Text.CURRENT_OFFSET p in
  let p' := foldl Text.write_byte p bytes in
  Text.CURRENT_OFFSET p' = o + 2 * Z.of_nat (length bytes) /\
  (forall i b, bytes !! i = Some b ->
     Text.memory p' (o + 2 * Z.of_nat i) = b /\ Text.memory p' (o + 2 * Z.of_nat i + 1) = 0x4f) /\
  (forall j, j < o \/ o + 2 * Z.of_nat (length bytes) <= j -> Text.memory p' j = Text.memory p j).
Proof.
  revert p. induction bytes as [|b bytes IH]; intros p H0 Hlt o p'; cbn [length foldl] in *.
  { subst p' o. split; [lia|]. split; [by intros i b Hi | done]. }
  assert (Text.CURRENT_OFFSET (Text.write_byte p b) = o + 2) as Ho.
  { cbn. unfold wrap64. rewrite Z.mod_small; subst o; lia. }
  destruct (IH (Text.write_byte p b)) as (H1 & H2 & H3); rewrite ?Ho in *; [lia | lia |].
  fold p' in H1, H2, H3. split; [lia|]. split.
  - intros [|i] c Hi; cbn in Hi.
    + injection Hi as <-. rewrite !H3 by lia. cbn. fold o.
      rewrite Z.mul_0_r, Z.add_0_r. rewrite poke_same, poke_other, poke_same by lia. done.
    + destruct (H2 i c Hi) as [Ha Hb].
      replace (o + 2 * Z.of_nat (S i)) with (o + 2 + 2 * Z.of_nat i) by lia. done.
  - intros j Hj. rewrite H3 by lia. cbn. fold o. by rewrite !poke_other by lia.
Qed.

(** The number of bytes of the text screen: 25 rows of 80 cells. *)
Definition TEXT_SCREEN_BYTES : Z := 80 * 25 * 2.

(** What a message of at most 2000 bytes printed right after
    [clear_screen] leaves in video memory: its bytes in the first cells, white
    on red, zeroes behind them up to byte 2000, and from there on what was there
    before.  The screen has 4000 bytes, so its lower half is not cleared. *)
Theorem text_print_after_clear s p :
  (length (str_bytes s) <= 2000)%nat ->
  let n := Z.of_nat (length (str_bytes s)) in
  let p' := Text.write_str s (Text.clear_screen p) in
  Text.CURRENT_OFFSET p' = 2 * n /\
  (forall i b, str_bytes s !! i = Some b ->
     Text.memory p' (2 * Z.of_nat i) = b /\ Text.memory p' (2 * Z.of_nat i + 1) = 0x4f) /\
  (forall j, 2 * n <= j < 2000 -> Text.memory p' j = 0) /\
  (forall j, Z.max (2 * n) 2000 <= j < TEXT_SCREEN_BYTES -> Text.memory p' j = Text.memory p j).
Proof.
  intros Hlen n p'. assert (0 <= n) as Hn by (unfold n; lia).
  destruct (text_write_bytes (str_bytes s) (Text.clear_screen p)) as (H1 & H2 & H3); [done | cbn; lia |].
  fold (Text.write_str s (Text.clear_screen p)) in H1, H2, H3. fold p' n in H1, H2, H3.
  change (Text.CURRENT_OFFSET (Text.clear_screen p)) with 0 in *.
  split; [done|]. split; [exact H2|].
  split; intros j Hj; (rewrite H3 by lia); cbn [Text.clear_screen Text.memory]; rewrite clear_range;
    change (Z.of_nat Text.SCREEN_SIZE) with 2000; destruct (_ && _) eqn:E; lia || done.
Qed.

Lemma text_print_after_clear_witness :
  let p' := Text.write_str "panicked"
    (Text.clear_screen {| Text.memory := fun _ => 7; Text.CURRENT_OFFSET := 160 |}) in
  Text.CURRENT_OFFSET p' = 16 /\ Text.memory p' 0 = 112 /\ Text.memory p' 3000 = 7.
Proof.
  destruct (text_print_after_clear "panicked"
    {| Text.memory := fun _ => 7; Text.CURRENT_OFFSET := 160 |}) as (H1 & H2 & _ & H4); [vm_compute; lia|].
  split; [exact H1|]. split; [exact (proj1 (H2 0%nat 112 eq_refl))|]. apply H4. vm_compute. split; congruence.
Defined.

(** ** Graphics mode *)

(** [m'] differs from [m] at most at the offsets from [lo] to [hi]. *)
Definition same_outside (lo hi : Z) (m m' : vmem) : Prop := forall j, j < lo \/ hi <= j -> m' j = m j.

Lemma same_outside_trans lo hi m1 m2 m3 :
  same_outside lo hi m1 m2 -> same_outside lo hi m2 m3 -> same_outside lo hi m1 m3.
Proof. intros H1 H2 j Hj. by rewrite H2, H1. Qed.

Lemma same_outside_weaken lo hi lo' hi' m m' :
  lo' <= lo -> hi <= hi' -> same_outside lo hi m m' -> same_outside lo' hi' m m'.
Proof. intros ? ? H j Hj. apply H. lia. Qed.

(** A glyph is drawn in the 8 by 8 square at its position. *)
Lemma draw_row_outside x_pos y_pos y byte m :
  0 <= x_pos <= Pixel.SCREEN_WIDTH - 8 ->
  same_outside ((y_pos + y) * Pixel.SCREEN_WIDTH) ((y_pos + y + 1) * Pixel.SCREEN_WIDTH)
    m (foldl (Pixel.draw_bit x_pos y_pos y byte) m (seq 0 8)).
Proof.
  intros Hx. assert (forall l m, Forall (fun x => (x < 8)%nat) l ->
    same_outside ((y_pos + y) * Pixel.SCREEN_WIDTH) ((y_pos + y + 1) * Pixel.SCREEN_WIDTH)
      m (foldl (Pixel.draw_bit x_pos y_pos y byte) m l)) as Hall.
  { intros l. induction l as [|x l IH]; intros m' Hl; [by intros j|].
    apply Forall_cons in Hl as [Hx8 Hl]. cbn [foldl]. eapply same_outside_trans; [|by apply IH].
    intros j Hj. unfold Pixel.draw_bit. case_match; [done|]. unfold Pixel.SCREEN_WIDTH in *.
    apply poke_other. lia. }
  apply Hall. repeat constructor.
Qed.

Lemma draw_rows_outside x_pos y_pos y rows m :
  0 <= x_pos <= Pixel.SCREEN_WIDTH - 8 -> 0 <= y ->
  same_outside ((y_pos + y) * Pixel.SCREEN_WIDTH)
    ((y_pos + y + Z.of_nat (length rows)) * Pixel.SCREEN_WIDTH) m
    (Pixel.draw_rows x_pos y_pos y rows m).
Proof.
  intros Hx. revert y m. induction rows as [|byte rows IH]; intros y m Hy; [by intros j|].
  cbn [Pixel.draw_rows length]. unfold Pixel.SCREEN_WIDTH in *.
  eapply (same_outside_trans _ _ _ (foldl (Pixel.draw_bit x_pos y_pos y byte) m (seq 0 8))).
  - eapply same_outside_weaken; [| |by apply draw_row_outside]; unfold Pixel.SCREEN_WIDTH; lia.
  - eapply same_outside_weaken; [| |apply IH]; lia.
Qed.

(** The positions are those of a character cell; the last row of cells, at 200,
    lies below the screen. *)
Definition cell_position (p : Pixel.Printer) : Prop :=
  0 <= Pixel.X_POS p < 320 /\ Pixel.X_POS p mod 8 = 0 /\
  0 <= Pixel.Y_POS p <= 200 /\ Pixel.Y_POS p mod 8 = 0.

Definition SCREEN_PIXELS : Z := 320 * 200.
(** The end of that last row. *)
Definition DRAWN_PIXELS : Z := 320 * 208.

Lemma clear_screen_outside p :
  same_outside 0 SCREEN_PIXELS (Pixel.memory p) (Pixel.memory (Pixel.clear_screen p)).
Proof.
  intros j Hj. unfold Pixel.clear_screen. cbn [Pixel.memory]. rewrite clear_range.
  rewrite Z2Nat.id by (unfold Pixel.SCREEN_WIDTH, Pixel.SCREEN_HEIGHT; lia).
  unfold SCREEN_PIXELS, Pixel.SCREEN_WIDTH, Pixel.SCREEN_HEIGHT in *.
  destruct (_ && _) eqn:E; [lia | done].
Qed.

Lemma newline_ok p :
  0 <= Pixel.Y_POS p <= 200 -> Pixel.Y_POS p mod 8 = 0 ->
  cell_position (Pixel.newline p) /\
  same_outside 0 SCREEN_PIXELS (Pixel.memory p) (Pixel.memory (Pixel.newline p)).
Proof.
  intros Hy Hm. unfold Pixel.newline. assert (wrap64 (Pixel.Y_POS p + 8) = Pixel.Y_POS p + 8) as ->.
  { unfold wrap64. apply Z.mod_small. lia. }
  destruct (Pixel.SCREEN_HEIGHT <=? Pixel.Y_POS p) eqn:E; unfold Pixel.SCREEN_HEIGHT in E.
  - split; [unfold cell_position; cbn; split_and!; try lia; done|]. exact (clear_screen_outside {| Pixel.memory := Pixel.memory p; Pixel.X_POS := 0;
      Pixel.Y_POS := Pixel.Y_POS p + 8 |}).
  - split; [|by intros j]. unfold cell_position. cbn. dlia.
Qed.

Definition printable_char (c : string) : bool :=
  (code_point c =? 10) || ((32 <=? code_point c) && (code_point c <=? 126)).

Section pixel.
Context {F : Font} {FL : FontLaws F}.

(** The printer after the glyph of a character, before a line break. *)
Definition drawn (rows : list Z) (p : Pixel.Printer) : Pixel.Printer :=
  {| Pixel.memory := Pixel.draw_rows (Pixel.X_POS p) (Pixel.Y_POS p) 0 rows (Pixel.memory p);
     Pixel.X_POS := Pixel.X_POS p + 8; Pixel.Y_POS := Pixel.Y_POS p |}.

Lemma drawn_outside rows p :
  cell_position p -> length rows = 8%nat ->
  same_outside (Pixel.Y_POS p * 320) (Pixel.Y_POS p * 320 + 2560) (Pixel.memory p)
    (Pixel.memory (drawn rows p)).
Proof.
  intros (Hx & Hxm & Hy & Hym) Hr.
  pose proof (draw_rows_outside (Pixel.X_POS p) (Pixel.Y_POS p) 0 rows (Pixel.memory p)) as H.
  rewrite Hr in H. unfold Pixel.SCREEN_WIDTH in H.
  eapply same_outside_weaken; [| |apply H]; dlia.
Qed.

Lemma write_char_glyph c p :
  cell_position p -> 32 <= code_point c <= 126 ->
  exists rows, length rows = 8%nat /\
    Pixel.write_char c p =
      Ret (if 320 <=? Pixel.X_POS p + 8 then Pixel.newline (drawn rows p) else drawn rows p).
Proof.
  intros (Hx & Hxm & Hy & Hym) Hc. destruct (glyph_ok c Hc) as (rows & Hg & Hr).
  exists rows. split; [done|]. unfold Pixel.write_char.
  rewrite (proj2 (Z.eqb_neq (code_point c) 10)) by lia.
  replace ((32 <=? code_point c) && (code_point c <=? 126)) with true by lia.
  rewrite Hg. cbn [expect mbind outcome_bind]. unfold drawn, Pixel.SCREEN_WIDTH.
  cbn [Pixel.memory Pixel.X_POS Pixel.Y_POS].
  replace (wrap64 (Pixel.X_POS p + 8)) with (Pixel.X_POS p + 8); [done|].
  unfold wrap64. rewrite Z.mod_small; lia.
Qed.

Lemma pixel_char_ok c p :
  cell_position p -> printable_char c = true ->
  exists p', Pixel.write_char c p = Ret p' /\ cell_position p' /\
    same_outside 0 DRAWN_PIXELS (Pixel.memory p) (Pixel.memory p').
Proof.
  intros Hp Hc. pose proof Hp as (Hx & Hxm & Hy & Hym).
  unfold printable_char in Hc. apply orb_true_iff in Hc as [Hc|Hc].
  - unfold Pixel.write_char. rewrite Hc. eexists. split; [done|].
    destruct (newline_ok p Hy Hym) as [H1 H2]. split; [done|].
    eapply same_outside_weaken; [| |exact H2]; unfold SCREEN_PIXELS, DRAWN_PIXELS; lia.
  - destruct (write_char_glyph c p Hp) as (rows & Hr & ->); [lia|].
    pose proof (drawn_outside rows p Hp Hr) as Hd.
    assert (same_outside 0 DRAWN_PIXELS (Pixel.memory p) (Pixel.memory (drawn rows p))) as Hd'.
    { eapply same_outside_weaken; [| |exact Hd]; unfold DRAWN_PIXELS; lia. }
    eexists. split; [done|]. destruct (320 <=? Pixel.X_POS p + 8) eqn:E.
    + destruct (newline_ok (drawn rows p)) as [H1 H2]; [done | done |]. split; [done|].
      eapply same_outside_trans; [exact Hd'|].
      eapply same_outside_weaken; [| |exact H2]; unfold SCREEN_PIXELS, DRAWN_PIXELS; lia.
    + split; [|done]. unfold cell_position, drawn. cbn. dlia.
Qed.

(** C40 (bounds). After [clear_screen] any printable text is written without a
    panic, the cursor stays on a character cell, and video memory is changed only
    below offset 66560, the end of a row of characters below the screen. *)
Theorem pixel_writes_bounded s p :
  forallb printable_char (chars s) = true ->
  exists p', Pixel.write_str s (Pixel.clear_screen p) = Ret p' /\ cell_position p' /\
    same_outside 0 DRAWN_PIXELS (Pixel.memory p) (Pixel.memory p').
Proof.
  intros Hs. unfold Pixel.write_str.
  assert (cell_position (Pixel.clear_screen p)) as Hp by (unfold cell_position; cbn; split_and!; try lia; done).
  destruct (for_each_inv (fun _ p' => cell_position p' /\
    same_outside 0 DRAWN_PIXELS (Pixel.memory (Pixel.clear_screen p)) (Pixel.memory p'))
    (chars s) Pixel.write_char (Pixel.clear_screen p)) as (p' & -> & Hp' & Hout).
  - split; [done | by intros j].
  - intros pre c post p1 Heq (Hp1 & Ho1). rewrite Heq, forallb_app in Hs. cbn in Hs.
    rewrite !andb_true_iff in Hs. destruct Hs as (_ & Hc & _).
    destruct (pixel_char_ok c p1 Hp1 Hc) as (p2 & -> & Hp2 & Ho2). exists p2.
    split; [done|]. split; [done|]. by eapply same_outside_trans.
  - exists p'. split; [done|]. split; [done|]. eapply same_outside_trans; [|exact Hout].
    eapply same_outside_weaken; [| |apply clear_screen_outside]; unfold SCREEN_PIXELS, DRAWN_PIXELS; lia.
Qed.

(** The line break compares the row it leaves with the height of
    the screen, so after the 25th line the cursor is in a row below the screen: a
    character written there changes no pixel of the screen. *)
Theorem pixel_line_lost c p :
  cell_position p -> 32 <= code_point c <= 126 ->
  Pixel.Y_POS p = 192 -> forall p1, Pixel.write_char newline_str p = Ret p1 ->
  exists p2, Pixel.write_char c p1 = Ret p2 /\
    forall j, 0 <= j < SCREEN_PIXELS -> Pixel.memory p2 j = Pixel.memory p j.
Proof.
  intros Hp Hc Hy p1 Hw. cbn in Hw. injection Hw as <-.
  assert (Pixel.newline p = {| Pixel.memory := Pixel.memory p; Pixel.X_POS := 0; Pixel.Y_POS := 200 |})
    as -> by (unfold Pixel.newline; by rewrite Hy).
  set (p1 := {| Pixel.memory := Pixel.memory p; Pixel.X_POS := 0; Pixel.Y_POS := 200 |}).
  assert (cell_position p1) as Hp1 by (unfold cell_position; cbn; split_and!; try lia; done).
  destruct (write_char_glyph c p1 Hp1 Hc) as (rows & Hr & ->). eexists. split; [done|].
  intros j Hj. cbn. change (Pixel.memory p j) with (Pixel.memory p1 j).
  apply (drawn_outside rows p1 Hp1 Hr). cbn. unfold SCREEN_PIXELS in Hj. lia.
Qed.
End pixel.

(** A font of solid squares. *)
#[local] Instance block_font : Font := fun _ => Some (replicate 8 255).

#[local] Instance block_font_laws : FontLaws block_font.
Proof. constructor. intros c _. by eexists. Qed.

Definition fresh_screen : Pixel.Printer :=
  {| Pixel.memory := fun _ => 0; Pixel.X_POS := 1; Pixel.Y_POS := 1 |}.

Lemma pixel_writes_bounded_witness :
  exists p', Pixel.write_str "PANIC" (Pixel.clear_screen fresh_screen) = Ret p' /\ cell_position p' /\
    same_outside 0 DRAWN_PIXELS (Pixel.memory fresh_screen) (Pixel.memory p').
Proof. apply (pixel_writes_bounded "PANIC" fresh_screen). reflexivity. Defined.

Definition bottom_line : Pixel.Printer :=
  {| Pixel.memory := fun _ => 0; Pixel.X_POS := 16; Pixel.Y_POS := 192 |}.

Lemma pixel_line_lost_witness :
  exists p2, Pixel.write_char "A" (Pixel.newline bottom_line) = Ret p2 /\
    forall j, 0 <= j < SCREEN_PIXELS -> Pixel.memory p2 j = 0.
Proof.
  apply (pixel_line_lost "A" bottom_line).
  - unfold cell_position; cbn; split_and!; try lia; done.
  - vm_compute. split; congruence.
  - reflexivity.
  - reflexivity.
Defined.
