(* ===== verification/BootMain.v ===== *)
(** * The bootloader's main function (src/bootloader/src/main.rs, sse.rs)

    [bootloader_main] puts the parts together: the memory map, the segments of
    the kernel file, the choice of addresses, the recursive page table, the
    marks, the boot information page, the kernel, the physical memory, and the
    hand-over to the kernel, which is the value it returns here.  The features
    of the crate and the constants of the build script are parameters, as are
    the ELF parser, the page table and the layout of the boot information.
    [IdentityMappedAddr] is its physical address. *)

From Stdlib Require Import Lia.
From stdpp Require Import base decidable strings numbers list.
From S2P Require Import Prelude UnstableSort MemoryMap X86 X86Huge FrameAllocator BootRegions Level4.
From S2P Require Import Memory Paging BuildConfig BootInfo PageTable BootPaging Printer.

Open Scope Z_scope.

(** ** Interfaces *)

(** Of the crate xmas_elf: program headers and the file. *)
Inductive ProgramHeader := Ph32 | Ph64 (header : ProgramHeader64).

Class ElfReader := {
  ElfFile : Type;
  ElfFile_new : list Z -> result ElfFile string;
  sanity_check : ElfFile -> result unit string;
  elf_entry_point : ElfFile -> Z;
  program_iter : ElfFile -> list ProgramHeader;
}.

(** The bytes of the boot information, as the compiler lays it out. *)
Class BootInfoLayout := boot_info_bytes : BootInfo -> list Z.

(** The features of the bootloader crate. *)
Class Features := {
  map_physical_memory : bool;
  recursive_page_table : bool;
  sse : bool;
}.

(** The printer of the selected feature. *)
Inductive Screen := TextScreen (p : Text.Printer) | PixelScreen (p : Pixel.Printer).

Definition clear_screen (s : Screen) : Screen :=
  match s with
  | TextScreen p => TextScreen (Text.clear_screen p)
  | PixelScreen p => PixelScreen (Pixel.clear_screen p)
  end.

(** The message of a panic; the processor stops then. *)
Definition panic {F : Font} (info : string) (s : Screen) : outcome Screen :=
  match s with
  | TextScreen p => Ret (TextScreen (Text.write_str info p))
  | PixelScreen p => p' ← Pixel.write_str info p; Ret (PixelScreen p')
  end.

(** ** Control registers *)

Record Registers := { efer : Z; cr0 : Z; cr4 : Z }.

Definition enable_nxe_bit (r : Registers) : Registers :=
  {| efer := Z.lor (efer r) (2 ^ 11); cr0 := cr0 r; cr4 := cr4 r |}.

Definition enable_write_protect_bit (r : Registers) : Registers :=
  {| efer := efer r; cr0 := Z.lor (cr0 r) (2 ^ 16); cr4 := cr4 r |}.

(** EMULATE_COPROCESSOR is cleared and MONITOR_COPROCESSOR set; OSFXSR and
    OSXMMEXCPT_ENABLE are set. *)
Definition enable_sse (r : Registers) : Registers :=
  {| efer := efer r;
     cr0 := Z.lor (Z.ldiff (cr0 r) (2 ^ 2)) (2 ^ 1);
     cr4 := Z.lor (Z.lor (cr4 r) (2 ^ 9)) (2 ^ 10) |}.

(** ** The parts *)

(** A result that cannot be an error. *)
Definition ok_of {A} (r : result A Empty_set) : A :=
  match r with Ok a => a | Err e => match e with end end.

(** [memory_map.iter().map(|r| r.range.end_addr()).max()] *)
Fixpoint region_ends `{Build} (l : list MemoryRegion) : outcome (list Z) :=
  match l with
  | [] => Ret []
  | r :: l' => e ← end_addr (range r); es ← region_ends l'; Ret (e :: es)
  end.

Definition max_of (l : list Z) : option Z :=
  match l with [] => None | z :: l' => Some (foldr Z.max z l') end.

Definition max_phys_addr `{Build} (memory_map : MemoryMap) : outcome Z :=
  ends ← region_ends (slice memory_map);
  expect (max_of ends) "no physical memory regions found".

Section elf.
Context {ER : ElfReader} {X : X86Phys}.

(** The vector holds 32 headers. *)
Fixpoint collect_segments (l : list ProgramHeader) (segments : list ProgramHeader64) :
    outcome (list ProgramHeader64) :=
  match l with
  | [] => Ret segments
  | Ph64 header :: l' =>
      if decide (length segments < 32)%nat then collect_segments l' (segments ++ [header])
      else Panic "does not support more than 32 program segments"
  | Ph32 :: _ => Panic "does not support 32 bit elf files"
  end.

Definition read_elf (kernel_start : PhysAddr) (kernel_size : Z) (memory : Z -> Z) :
    outcome (Z * list ProgramHeader64) :=
  let kernel := map (fun i => memory (phys_as_u64 kernel_start + i)) (offsets 0 kernel_size) in
  elf_file ← unwrap (ElfFile_new kernel);
  _ ← unwrap (sanity_check elf_file);
  segments ← collect_segments (program_iter elf_file) [];
  Ret (elf_entry_point elf_file, segments).
End elf.

(** [LEVEL_4_SIZE] *)
Definition LEVEL_4_SIZE : Z := 4096 * 512 * 512 * 512.

Section layout.
Context {B : Build} {X : X86Phys} {V : X86Virt} {HG : X86Huge X V}.
Context (C : Constants).

Definition choose_boot_info_page (level4_entries : UsedLevel4Entries) : outcome (Page * UsedLevel4Entries) :=
  match BOOT_INFO_ADDRESS C with
  | Some addr => a ← VirtAddr_new addr; Ret (page_containing_address a, level4_entries)
  | None =>
      '(i, level4_entries) ← get_free_entries 1 level4_entries;
      zero ← PageTableIndex_new 0;
      Ret (from_page_table_indices i zero zero zero, level4_entries)
  end.

Definition choose_stack (boot_info_page : Page) : outcome Page :=
  match KERNEL_STACK_ADDRESS C with
  | Some addr => a ← VirtAddr_new addr; Ret (page_containing_address a)
  | None => page_add boot_info_page 1
  end.

Definition choose_offset (max_phys_addr : Z) (level4_entries : UsedLevel4Entries) :
    outcome (Z * UsedLevel4Entries) :=
  match PHYSICAL_MEMORY_OFFSET C with
  | Some offset => Ret (offset, level4_entries)
  | None =>
      sum ← u64_add max_phys_addr (LEVEL_4_SIZE - 1);
      '(i, level4_entries) ← get_free_entries (sum / LEVEL_4_SIZE) level4_entries;
      zero ← PageTableIndex_new 0;
      Ret (virt_as_u64 (start_from_indices_1gib i zero), level4_entries)
  end.
End layout.

Section booting.
Context {B : Build} {SORT : UnstableSort} {X : X86Phys} {V : X86Virt} {HG : X86Huge X V} {ELF : XmasElf}.
Context {M : Type} {MP : Mapper M} {RM : Recursive M} {BT : BootTable M}.
Context {ER : ElfReader} {BL : BootInfoLayout} {FT : Features}.

(** The state of the loader, without errors: they are panics here. *)
Abbreviation booting := (loader M Empty_set).

Definition expecting {E A} (why : string) (c : loader M E A) : booting A := fun s =>
  match c s with
  | Ret (Ok a, s') => Ret (Ok a, s')
  | Ret (Err _, _) => Panic why
  | Panic why' => Panic why'
  end.

#[local] Existing Instance page_table_allocator.

(** [map_page] for 2 MiB pages. *)
Definition map_page2 (page : Page2M) (frame : PhysFrame2M) (flags : Z) : loader M MapToError2 unit := fun s =>
  '(r, m, mm) ← map_to2 page frame flags (page_table s) (frames s);
  Ret (r, {| page_table := m; frames := mm; ram := ram s |}).

Definition unmap_page2 (page : Page2M) : loader M UnmapError unit := fun s =>
  let '(r, m) := unmap2 page (page_table s) in
  Ret (match r with Ok _ => Ok tt | Err e => Err e end,
       {| page_table := m; frames := frames s; ram := ram s |}).

(** [IdentityMappedAddr::virt]: an address that is mapped to itself; the address
    as such and its number are the [PhysAddr] and its [u64]. *)
Definition identity_virt (a : PhysAddr) : outcome VirtAddr := VirtAddr_new (phys_as_u64 a).

Definition unmap_elf_file (kernel_start : PhysAddr) (kernel_size : Z) : booting unit :=
  start ← pure (identity_virt kernel_start);
  past ← pure (virt_add start kernel_size);
  last ← pure (virt_sub past 1);
  let kernel_start_page := page2_containing_address start in
  let kernel_end_page := page2_containing_address last in
  for_all (page2_range_inclusive kernel_start_page kernel_end_page)
    (fun page => expecting "dealloc error" (unmap_page2 page)).

Definition map_boot_info_page (page : Page) : booting unit :=
  frame ← expecting "frame allocation failed" (allocate_or_fail BootInfoRegion);
  let flags := Z.lor PRESENT WRITABLE in
  expecting "Mapping of bootinfo page failed" (map_page page frame flags).

Definition map_physical_frame (physical_memory_offset : Z) (frame : PhysFrame2M) : booting unit :=
  virt ← pure (u64_add (phys_as_u64 (frame2_start_address frame)) physical_memory_offset);
  addr ← pure (VirtAddr_new virt);
  let flags := Z.lor PRESENT WRITABLE in
  expecting "Mapping of bootinfo page failed" (map_page2 (page2_containing_address addr) frame flags).

Definition map_physical (max_phys_addr physical_memory_offset : Z) : booting unit :=
  zero ← pure (PhysAddr_new 0);
  top ← pure (PhysAddr_new max_phys_addr);
  let start_frame := frame2_containing_address zero in
  let end_frame := frame2_containing_address top in
  for_all (frame2_range_inclusive start_frame end_frame) (map_physical_frame physical_memory_offset).

(** The block under [cfg!(feature = "map_physical_memory")]. *)
Definition provide_physical_memory (C : Constants) (max_phys_addr : Z)
    (level4_entries : UsedLevel4Entries) : booting Z :=
  if map_physical_memory then
    '(offset, _) ← pure (choose_offset C max_phys_addr level4_entries);
    _ ← map_physical max_phys_addr offset;
    mret offset
  else mret 0.

(** An object written at the start of a page; what is behind it stays. *)
Definition write_object (page : Page) (bytes : list Z) : booting unit :=
  old ← expecting page_fault (read_page page);
  expecting page_fault (write_page page (fun i => default (old i) (bytes !! Z.to_nat i))).

(** The recursive entry goes, unless the kernel is to have it. *)
Definition drop_recursive_entry (recursive_page_table_addr : VirtAddr) : booting unit := fun s =>
  if recursive_page_table then Ret (Ok tt, s)
  else
    let '(r, m) := unmap (page_containing_address recursive_page_table_addr) (page_table s) in
    match r with
    | Ok _ => Ret (Ok tt, {| page_table := m; frames := frames s; ram := ram s |})
    | Err _ => Panic "error deallocating recursive entry"
    end.

(** The memory map, which the frame allocator only borrowed. *)
Definition final_memory_map : booting MemoryMap := fun s => Ret (Ok (frames s), s).

(** What the kernel is given. *)
Record Handoff := {
  boot_info_addr : VirtAddr;
  boot_info : BootInfo;
  handoff_stack : VirtAddr;
}.

(** From the frame allocator on. *)
Definition boot_kernel (C : Constants) (kernel_start : PhysAddr) (kernel_size max_phys_addr : Z)
    (segments : list ProgramHeader64) (recursive_page_table_addr : VirtAddr)
    (level4_entries : UsedLevel4Entries) : booting Handoff :=
  _ ← unmap_elf_file kernel_start kernel_size;
  '(boot_info_page, level4_entries) ← pure (choose_boot_info_page C level4_entries);
  _ ← map_boot_info_page boot_info_page;
  kernel_stack_address ← pure (choose_stack C boot_info_page);
  kernel_memory_info ← expecting "kernel mapping failed"
    (map_kernel kernel_start kernel_stack_address (KERNEL_STACK_SIZE C) segments);
  physical_memory_offset ← provide_physical_memory C max_phys_addr level4_entries;
  memory_map ← final_memory_map;
  let info := BootInfo_new memory_map (tls_segment kernel_memory_info)
    (virt_as_u64 recursive_page_table_addr) physical_memory_offset in
  let info := with_memory_map (sort (BootInfo.memory_map info)) info in
  _ ← write_object boot_info_page (boot_info_bytes info);
  _ ← drop_recursive_entry recursive_page_table_addr;
  mret {| boot_info_addr := page_start_address boot_info_page; boot_info := info;
          handoff_stack := stack_end kernel_memory_info |}.

(** The state in which [context_switch] jumps to the kernel. *)
Record Entered := {
  handoff : Handoff;
  entry_point : VirtAddr;
  machine : LoadState M;
  registers : Registers;
  screen : Screen;
}.

Definition bootloader_main (C : Constants) (kernel_start : PhysAddr) (kernel_size : Z)
    (e820_memory_map : list E820MemoryRegion)
    (page_table_start page_table_end bootloader_start bootloader_end p4_physical : PhysAddr)
    (page_table : M) (memory : Z -> Z) (regs : Registers) (screen : Screen) : outcome Entered :=
  let screen := clear_screen screen in
  memory_map ← create_from e820_memory_map;
  max_phys_addr ← max_phys_addr memory_map;
  '(entry_point, segments) ← read_elf kernel_start kernel_size memory;
  level4_entries ← UsedLevel4Entries_new segments;
  let regs := enable_nxe_bit regs in
  '(recursive_index, level4_entries) ← get_free_entries 1 level4_entries;
  let page_table := set_level4_entry recursive_index p4_physical (Z.lor PRESENT WRITABLE) page_table in
  let recursive_page_table_addr := page_start_address (recursive_page recursive_index) in
  _ ← expect_ok (RecursivePageTable_new recursive_page_table_addr page_table)
        "recursive page table creation failed";
  memory_map ← mark_boot_regions kernel_start kernel_size page_table_start page_table_end
    bootloader_start bootloader_end memory_map;
  '(r, s) ← boot_kernel C kernel_start kernel_size max_phys_addr segments recursive_page_table_addr
    level4_entries {| PageTable.page_table := page_table; frames := memory_map; ram := memory |};
  let regs := enable_write_protect_bit regs in
  let regs := if sse then enable_sse regs else regs in
  entry_point ← VirtAddr_new entry_point;
  Ret {| handoff := ok_of r; entry_point := entry_point; machine := s; registers := regs;
         screen := screen |}.

(** The symbols of the linker script, and the number of firmware regions the
    assembly stages counted. *)
Record Symbols := {
  mmap_ent : Z;
  sym_kernel_size : Z;
  sym_page_table_start : Z;
  sym_page_table_end : Z;
  sym_bootloader_start : Z;
  sym_bootloader_end : Z;
  sym_p4 : Z;
}.

(** [firmware] are the regions in memory at [_memory_map]. *)
Definition stage_4 (C : Constants) (s : Symbols) (firmware : list E820MemoryRegion)
    (page_table : M) (memory : Z -> Z) (regs : Registers) (screen : Screen) : outcome Entered :=
  let memory_map_entry_count := Z.land (mmap_ent s) 0xff in
  kernel_start ← PhysAddr_new 0x400000;
  page_table_start ← PhysAddr_new (sym_page_table_start s);
  page_table_end ← PhysAddr_new (sym_page_table_end s);
  bootloader_start ← PhysAddr_new (sym_bootloader_start s);
  bootloader_end ← PhysAddr_new (sym_bootloader_end s);
  p4_physical ← PhysAddr_new (sym_p4 s);
  bootloader_main C kernel_start (sym_kernel_size s) (take (Z.to_nat memory_map_entry_count) firmware)
    page_table_start page_table_end bootloader_start bootloader_end p4_physical page_table memory regs screen.
End booting.
