(* ===== verification/BootSteps.v ===== *)
(** * The steps of [bootloader_main]

    A program logic for the steps that panic instead of failing, the effect of
    changing 2 MiB pages, and the loops over them: the kernel file is unmapped,
    the physical memory is mapped. *)

From Stdlib Require Import Lia.
From stdpp Require Import base decidable strings numbers list.
From S2P Require Import Prelude UnstableSort MemoryMap X86 X86Huge FrameAllocator EntryCost BootRegions Level4.
From S2P Require Import Memory Paging BuildConfig BootInfo PageTable BootPaging KernelLoad KernelMapping TableBudget Printer BootMain.

Open Scope Z_scope.

(** ** 2 MiB pages by their addresses *)

Lemma base2_idem z : base2 (base2 z) = base2 z.
Proof. unfold base2, SIZE_2M. dlia. Qed.

Lemma base2_range z : 0 <= z -> 0 <= base2 z <= z /\ z < base2 z + SIZE_2M.
Proof. unfold base2, SIZE_2M. dlia. Qed.

Lemma base2_shift z b : b mod SIZE_2M = 0 -> base2 (z + b) = base2 z + b.
Proof. unfold base2, SIZE_2M. dlia. Qed.

(** [n] items at consecutive 2 MiB steps. *)
Lemma steps_2m {A} (addr : A -> Z) (l : list A) b n :
  map addr l = map (fun i => b + SIZE_2M * Z.of_nat i) (seq 0 n) ->
  length l = n /\ NoDup l /\
  (forall x, x ∈ l -> b <= addr x < b + SIZE_2M * Z.of_nat n /\ (addr x - b) mod SIZE_2M = 0) /\
  (forall z, b <= z < b + SIZE_2M * Z.of_nat n -> (z - b) mod SIZE_2M = 0 -> exists x, x ∈ l /\ addr x = z).
Proof.
  intros Hl.
  assert (length l = n) as Hlen by (apply (f_equal length) in Hl; by rewrite !length_map, length_seq in Hl).
  split; [done|]. split; [|split].
  - apply (NoDup_fmap_1 addr). change (addr <$> l) with (map addr l). rewrite Hl.
    apply NoDup_fmap_2_strong; [|apply NoDup_seq]. unfold SIZE_2M. intros x y _ _ H. lia.
  - intros x Hx. assert (addr x ∈ map addr l) as Hin by (by apply list_elem_of_fmap_2).
    rewrite Hl in Hin. apply list_elem_of_fmap_1 in Hin as (i & Hi & Hs%elem_of_seq). unfold SIZE_2M in *. dlia.
  - intros z Hz Hm. assert (z ∈ map addr l) as (x & Hx & Hin)%list_elem_of_fmap_1.
    + rewrite Hl. apply list_elem_of_fmap. exists (Z.to_nat ((z - b) / SIZE_2M)).
      rewrite elem_of_seq. unfold SIZE_2M in *. dlia.
    + by exists x.
Qed.

Section proofs.
Context {B : Build} {SORT : UnstableSort} {SL : UnstableSortLaws SORT}.
Context {X : X86Phys} {XL : X86PhysLaws X} {V : X86Virt} {VL : X86VirtLaws V}.
Context {HG : X86Huge X V} {HL : X86HugeLaws HG} {ELF : XmasElf}.
Context {M : Type} {MP : Mapper M} {RM : Recursive M} {RL : RecursiveLaws M}.
Context {BT : BootTable M} {BTL : BootTableLaws M}.

Abbreviation state := (LoadState M).
Abbreviation booting := (loader M Empty_set).

(** ** Steps that panic instead of failing *)

(** [c] returns from [s] in a state with [Q], takes at most [n] frames and leaves
    [b'] of the budget [b]; it panics only for want of entries or of frames. *)
Definition proceeds {A} (b b' : Budget) (n : nat) (c : booting A) (s : state) (Q : A -> state -> Prop) : Prop :=
  match c s with
  | Ret (Ok a, s') => ready s' /\ within n (frames s) (frames s') /\ (slack b' s' <= slack b s)%nat /\ Q a s'
  | Ret (Err _, _) => False
  | Panic why =>
      why = map_full /\ (MAX_MEMORY_MAP_SIZE < slack b s)%nat \/
      (length (usable_numbers (frames s)) <= n)%nat
  end.

Lemma proceeds_weaken {A} b b' n n' (c : booting A) s (Q Q' : A -> state -> Prop) :
  (n <= n')%nat -> (forall a s', Q a s' -> Q' a s') -> proceeds b b' n c s Q -> proceeds b b' n' c s Q'.
Proof.
  unfold proceeds, within. destruct (c s) as [[[a|e] s']|]; intros Hn HQ; [|done|intuition lia].
  intros (? & ? & ? & ?). split; [done|]. split; [lia | auto].
Qed.

Lemma proceeds_budget {A} a a' b b' n (c : booting A) s (Q : A -> state -> Prop) :
  (forall s, slack b s <= slack a s)%nat -> (forall s, slack a' s <= slack b' s)%nat ->
  proceeds b b' n c s Q -> proceeds a a' n c s Q.
Proof.
  unfold proceeds. intros Ha Hb. pose proof (Ha s). destruct (c s) as [[[x|e] s']|]; [|done|intuition lia].
  intros (? & ? & ? & ?). pose proof (Hb s'). split_and!; [done | done | lia | done].
Qed.

Lemma proceeds_ret {A} b (a : A) s (Q : A -> state -> Prop) : ready s -> Q a s -> proceeds b b 0 (mret a) s Q.
Proof. intros. unfold proceeds, mret, loader_ret. auto using within_refl. Qed.

Lemma proceeds_bind {A C} b b1 b' n1 n2 (c : booting A) (k : A -> booting C) s (Q1 : A -> state -> Prop) Q :
  proceeds b b1 n1 c s Q1 -> (forall a s1, ready s1 -> Q1 a s1 -> proceeds b1 b' n2 (k a) s1 Q) ->
  proceeds b b' (n1 + n2) (c ≫= k) s Q.
Proof.
  unfold proceeds, within, mbind, loader_bind. intros Hc Hk. destruct (c s) as [[[a|e] s1]|]; [|done|intuition lia].
  destruct Hc as (Hr & Hn & Hb & HQ). specialize (Hk a s1 Hr HQ).
  destruct (k a s1) as [[[x|e] s2]|]; [|done|intuition lia]. destruct Hk as (? & ? & ? & ?).
  split; [done|]. split; [lia|]. split; [lia | done].
Qed.

Lemma proceeds_pure {A C} b b' n (o : outcome A) a (k : A -> booting C) s Q :
  o = Ret a -> proceeds b b' n (k a) s Q -> proceeds b b' n (pure o ≫= k) s Q.
Proof. intros ->. unfold proceeds, mbind, loader_bind, pure. done. Qed.

(** A step that can only fail for want of frames. *)
Lemma proceeds_expecting {A E} b b' n why (c : loader M E A) s (Q : A -> state -> Prop) :
  runs b b' n c s (fun r s' => match r with Ok a => Q a s' | Err _ => forall f, Usable ∉ owners f (frames s') end) ->
  proceeds b b' n (expecting why c) s Q.
Proof.
  unfold runs, proceeds, expecting. destruct (c s) as [[[a|e] s']|]; [done | |by left].
  intros (_ & Hn & _ & Hno). unfold within in Hn. right. rewrite (no_usable _ Hno) in Hn. lia.
Qed.

(** A budget without tables, which depends on the memory map only. *)
Definition tableless (b : Budget) : Prop := page_tables b = [] /\ page_directories b = [].

Lemma slack_tableless b s s' : tableless b -> frames s' = frames s -> slack b s' = slack b s.
Proof. intros [H1 H2] Hf. unfold slack, missing. by rewrite H1, H2, Hf. Qed.

(** ** 2 MiB pages *)

(** What a step that deals with the 2 MiB pages of [Q] leaves as it is. *)
Record beside (Q : Page2M -> Prop) (s s' : state) : Prop := {
  be_window : forall p, reserved s' p = reserved s p;
  be_frames : consumed (frames s) (frames s');
  be_ram : ram s' = ram s;
  be_pages : forall p, reserved s p = false -> tr s' p = tr s p;
  be_huge : forall p, reserved s p = false -> ~ Q (huge_of p) ->
    huge_parent (page_table s') p = huge_parent (page_table s) p;
  be_huge2 : forall q, reserved s (first_page q) = false ->
    huge_parent2 (page_table s') q = huge_parent2 (page_table s) q;
  be_other : forall q, reserved s (first_page q) = false -> ~ Q q ->
    translate2 (page_table s') q = translate2 (page_table s) q /\
    occupied2 (page_table s') q = occupied2 (page_table s) q;
}.

Lemma beside_refl Q s : beside Q s s.
Proof. by constructor. Qed.

Lemma beside_trans (P Q R : Page2M -> Prop) s s1 s2 :
  (forall q, P q -> R q) -> (forall q, Q q -> R q) -> beside P s s1 -> beside Q s1 s2 -> beside R s s2.
Proof.
  intros HP HQ H1 H2. pose proof (be_window _ _ _ H1) as Hw. constructor.
  - intros p. by rewrite (be_window _ _ _ H2).
  - etransitivity; [apply H1 | apply H2].
  - by rewrite (be_ram _ _ _ H2), (be_ram _ _ _ H1).
  - intros p Hp. by rewrite (be_pages _ _ _ H2), (be_pages _ _ _ H1); [| |rewrite Hw].
  - intros p Hp Hno. rewrite (be_huge _ _ _ H2), (be_huge _ _ _ H1); auto. by rewrite Hw.
  - intros q Hq. by rewrite (be_huge2 _ _ _ H2), (be_huge2 _ _ _ H1); [| |rewrite Hw].
  - intros q Hq Hno. destruct (be_other _ _ _ H1 q Hq) as [<- <-]; [auto|].
    apply (be_other _ _ _ H2); [by rewrite Hw | auto].
Qed.

Lemma beside_intact Q s s' : beside Q s s' -> kernel_intact s s'.
Proof.
  intros Hb n Hn. split; [|intros i _; by rewrite (be_ram _ _ _ Hb)].
  rewrite (consumed_kept _ _ _ (be_frames _ _ _ Hb)); rewrite Hn; done.
Qed.

Lemma same_beside_state q m mm s :
  same_beside q (page_table s) m -> consumed (frames s) mm ->
  beside (fun q' => q' = q) s {| page_table := m; frames := mm; ram := ram s |}.
Proof. intros [H1 H2 H3 H4 H5] Hc. by constructor. Qed.

Lemma runs_map_page2 b q frame flags s :
  ready s -> reserved s (first_page q) = false -> occupied2 (page_table s) q = false ->
  huge_parent2 (page_table s) q = false -> gib_of q ∈ page_directories b ->
  runs b b 2 (map_page2 q frame flags) s (fun r s' =>
    match r with
    | Ok _ => beside (fun q' => q' = q) s s' /\ translate2 (page_table s') q = Some (frame, flags)
    | Err _ => forall f, Usable ∉ owners f (frames s')
    end).
Proof.
  intros Hs Hwin Hocc Hhuge Hcov. pose proof Hs as [Hw Hd]. unfold runs, map_page2.
  destruct (map_to2_draws _ page_table_allocator q frame flags (page_table s) (frames s) Hwin) as (n & Hn & H0 & Hm).
  pose proof (draw_consumed n (frames s) Hw Hd) as Hdraw.
  destruct (fa_draw n (frames s)) as [[complete mm]|why] eqn:Heq.
  2: { rewrite Hm. apply (draw_panics b) in Heq; [done | done |]. intros Hn0. apply missing_some. right.
       exists (gib_of q). split; [done|]. apply not_true_is_false. auto. }
  destruct Hm as (r & m & -> & Hbes & Hr). destruct Hdraw as (Hw1 & Hd1 & Hle & Hc & _ & Hnone).
  cbn [mbind outcome_bind]. split; [done|]. split; [unfold within in *; cbn; lia|].
  destruct r as [[]|e].
  - destruct Hr as (_ & Hgrown & Ho & _ & Ht). split; [|split; [by apply same_beside_state | done]].
    eapply draw_slack; [done | exact Heq | | by apply missing_grown].
    destruct (occupied3 (page_table s) (gib_of q)) eqn:Ho3; [left; auto | right].
    by apply (missing_directory b (gib_of q)).
  - split; [done|]. destruct Hr as [_ He]. destruct e; [by apply Hnone | congruence..].
Qed.

Lemma proceeds_unmap_page2 b q s e :
  tableless b -> ready s -> reserved s (first_page q) = false -> translate2 (page_table s) q = Some e ->
  proceeds b b 0 (expecting "dealloc error" (unmap_page2 q)) s (fun _ s' =>
    beside (fun q' => q' = q) s s' /\ frames s' = frames s /\
    forall p, huge_of p = q -> huge_parent (page_table s') p = false).
Proof.
  intros Htl Hs Hw Ht. destruct e as [f fl]. unfold proceeds, expecting, unmap_page2.
  destruct (unmap2_ok q (page_table s) f fl Hw Ht) as (m & -> & Hbes & _ & _ & Hh).
  split; [done|]. split; [apply within_refl|]. split; [by rewrite (slack_tableless b s)|]. split; [|done].
  apply same_beside_state; [done | reflexivity].
Qed.

(** ** The kernel file *)

Definition in_file (kernel_start kernel_size : Z) (q : Page2M) : Prop :=
  base2 kernel_start <= page2_addr q <= base2 (kernel_start + kernel_size - 1).

Lemma in_file_dec kernel_start kernel_size q :
  in_file kernel_start kernel_size q \/ ~ in_file kernel_start kernel_size q.
Proof. unfold in_file. lia. Qed.

Lemma proceeds_unmap_pages b l s :
  tableless b -> NoDup l -> ready s ->
  (forall q, q ∈ l -> reserved s (first_page q) = false /\ is_Some (translate2 (page_table s) q)) ->
  proceeds b b 0 (for_all l (fun page => expecting "dealloc error" (unmap_page2 page))) s (fun _ s' =>
    beside (fun q => q ∈ l) s s' /\ frames s' = frames s /\
    forall p, reserved s p = false -> huge_of p ∈ l -> huge_parent (page_table s') p = false).
Proof.
  intros Htl. revert s. induction l as [|q l IH]; intros s Hnd Hs Hl; cbn [for_all].
  { apply proceeds_ret; [done|]. split; [apply beside_refl|]. split; [done|]. by intros p _ H%not_elem_of_nil. }
  apply NoDup_cons in Hnd as [Hq Hnd]. destruct (Hl q) as [Hw [e He]]; [left|].
  apply (proceeds_bind b b b 0 0 _ _ _ _ _ (proceeds_unmap_page2 b q s e Htl Hs Hw He)).
  intros [] s1 Hs1 (Hb1 & Hf1 & Hh1). eapply proceeds_weaken; [reflexivity | |apply IH; [done | done |]].
  - intros [] s2 (Hb2 & Hf2 & Hh2). split; [eapply beside_trans; [| |exact Hb1 | exact Hb2];
      [intros q' ->; left | intros q' Hq'; by right]|]. split; [congruence|].
    intros p Hp [Heq | Hin]%elem_of_cons; [|by apply Hh2; [rewrite (be_window _ _ _ Hb1)|]].
    rewrite (be_huge _ _ _ Hb2); [by apply Hh1 | by rewrite (be_window _ _ _ Hb1) | by rewrite Heq].
  - intros q' Hq'. rewrite (be_window _ _ _ Hb1). destruct (Hl q') as [Hw' Hs']; [by right|].
    split; [done|]. destruct (be_other _ _ _ Hb1 q' Hw') as [-> _]; [by intros -> | done].
Qed.

Lemma page2_base q : base2 (page2_addr q) = page2_addr q.
Proof. unfold base2. rewrite page2_aligned. lia. Qed.

Lemma proceeds_unmap_elf_file b kernel_start kernel_size s :
  let ks := phys_as_u64 kernel_start in
  tableless b -> 0 < kernel_size -> ks + kernel_size < 2 ^ 47 - SIZE_2M -> ready s ->
  (forall q, in_file ks kernel_size q ->
     reserved s (first_page q) = false /\ is_Some (translate2 (page_table s) q)) ->
  proceeds b b 0 (unmap_elf_file kernel_start kernel_size) s (fun _ s' =>
    beside (in_file ks kernel_size) s s' /\ frames s' = frames s /\
    forall p, reserved s p = false -> in_file ks kernel_size (huge_of p) ->
      huge_parent (page_table s') p = false).
Proof.
  intros ks Htl Hsz Hlt Hs Hfile. unfold unmap_elf_file, identity_virt. pose proof (phys_range kernel_start). fold ks in H.
  fold ks. destruct (VirtAddr_new_canonical ks) as (start & -> & Hsv); [unfold canonical, SIZE_2M in *; lia|].
  destruct (virt_add_ok start kernel_size) as (past & Hpast & Hpv); [lia | unfold canonical, SIZE_2M in *; lia|].
  destruct (virt_sub_ok past 1) as (last & Hlast & Hlv); [lia | unfold canonical, SIZE_2M in *; lia|].
  eapply proceeds_pure; [done|]. eapply proceeds_pure; [exact Hpast|]. eapply proceeds_pure; [exact Hlast|].
  pose proof (page2_range (page2_containing_address start) (page2_containing_address last)) as Hr.
  rewrite !page2_containing, Hlv, Hpv, Hsv in Hr. fold (base2 ks) (base2 (ks + kernel_size - 1)) in Hr.
  specialize (Hr ltac:(unfold base2, SIZE_2M in *; dlia)).
  apply steps_2m in Hr as (_ & Hnd & Hin & Hex).
  set (l := page2_range_inclusive _ _) in *.
  assert (forall q, q ∈ l <-> in_file ks kernel_size q) as Hiff.
  { intros q. split.
    - intros [Hq1 Hq2]%Hin. unfold in_file. clear - Hq1 Hq2 Hsz. unfold base2, SIZE_2M in *. dlia.
    - intros Hq. destruct (Hex (page2_addr q)) as (x & Hx & ->%page2_inj); [| |done];
        unfold in_file in Hq; pose proof (page2_aligned q); clear - Hq Hsz H0; unfold base2, SIZE_2M in *; dlia. }
  eapply proceeds_weaken; [reflexivity | |apply proceeds_unmap_pages; [done | done | done |]].
  - intros [] s' (Hb & Hf & Hh). split; [|split; [done|]].
    + eapply beside_trans; [| |exact Hb | apply (beside_refl (fun _ => False))]; [|done].
      intros q. apply Hiff.
    + intros p Hp Hq. apply Hh; [done | by apply Hiff].
  - intros q Hq. apply Hfile. by apply Hiff.
Qed.

(** ** The physical memory *)

(** Page [q] is where frame [f] appears. *)
Definition at_offset (offset : Z) (f : PhysFrame2M) (q : Page2M) : Prop :=
  page2_addr q = base2 offset + frame2_addr f.

(** Nothing stands in the way of mapping [q]. *)
Definition vacant2 (s : state) (q : Page2M) : Prop :=
  reserved s (first_page q) = false /\ occupied2 (page_table s) q = false /\
  huge_parent2 (page_table s) q = false.

Definition physical_flags : Z := Z.lor PRESENT WRITABLE.

Definition low_frame (offset : Z) (f : PhysFrame2M) : Prop :=
  0 <= frame2_addr f /\ frame2_addr f mod SIZE_2M = 0 /\ frame2_addr f + offset < 2 ^ 47.

Lemma vacant2_beside Q s s' q : beside Q s s' -> ~ Q q -> vacant2 s q -> vacant2 s' q.
Proof.
  intros Hb Hq (H1 & H2 & H3). destruct (be_other _ _ _ Hb q H1 Hq) as [_ Hocc].
  unfold vacant2. by rewrite (be_window _ _ _ Hb), Hocc, (be_huge2 _ _ _ Hb).
Qed.

Lemma proceeds_map_physical_frame b offset f q s :
  0 <= offset -> low_frame offset f -> at_offset offset f q -> ready s -> vacant2 s q ->
  gib_of q ∈ page_directories b ->
  proceeds b b 2 (map_physical_frame offset f) s (fun _ s' =>
    beside (fun q' => q' = q) s s' /\ translate2 (page_table s') q = Some (f, physical_flags)).
Proof.
  intros Hoff (H0 & Hm & Hlt) Hq Hs (Hw & Hocc & Hh) Hcov. unfold map_physical_frame. fold (frame2_addr f).
  eapply proceeds_pure; [apply u64_add_ok; arith|].
  destruct (VirtAddr_new_canonical (frame2_addr f + offset)) as (a & -> & Ha); [unfold canonical; lia|].
  eapply proceeds_pure; [done|].
  assert (page2_containing_address a = q) as ->.
  { apply page2_inj. rewrite page2_containing, Ha, Hq. clear - Hm. unfold base2, SIZE_2M in *. dlia. }
  apply proceeds_expecting, runs_map_page2; done.
Qed.

Lemma at_offset_inj offset f g q : at_offset offset f q -> at_offset offset g q -> f = g.
Proof. unfold at_offset. intros H1 H2. apply frame2_inj. lia. Qed.

Lemma at_offset_exists offset f : 0 <= offset -> low_frame offset f -> exists q, at_offset offset f q.
Proof.
  intros Hoff (H0 & Hm & Hlt).
  destruct (VirtAddr_new_canonical (frame2_addr f + offset)) as (a & _ & Ha); [unfold canonical; lia|].
  exists (page2_containing_address a). unfold at_offset. rewrite page2_containing, Ha.
  clear - Hm. unfold base2, SIZE_2M in *. dlia.
Qed.

Lemma proceeds_map_frames b offset l s :
  NoDup l -> 0 <= offset -> (forall f, f ∈ l -> low_frame offset f) -> ready s ->
  (forall f q, f ∈ l -> at_offset offset f q -> vacant2 s q /\ gib_of q ∈ page_directories b) ->
  proceeds b b (2 * length l) (for_all l (map_physical_frame offset)) s (fun _ s' =>
    beside (fun q => exists f, f ∈ l /\ at_offset offset f q) s s' /\
    forall f q, f ∈ l -> at_offset offset f q -> translate2 (page_table s') q = Some (f, physical_flags)).
Proof.
  intros Hnd Hoff. revert s Hnd. induction l as [|f l IH]; intros s Hnd Hlow Hs Hvac; cbn [for_all].
  { apply proceeds_ret; [done|]. split; [apply beside_refl|]. by intros f q H%not_elem_of_nil. }
  apply NoDup_cons in Hnd as [Hf Hnd]. destruct (at_offset_exists offset f Hoff) as [q Hq]; [apply Hlow; left|].
  eapply (proceeds_weaken _ _ (2 + 2 * length l)); [cbn [length]; lia | intros a s' H; exact H|].
  eapply proceeds_bind.
  { apply (proceeds_map_physical_frame b offset f q); [done | apply Hlow; left | done | done | apply (Hvac f); [left | done] | apply (Hvac f); [left | done]]. }
  intros [] s1 Hs1 [Hb1 Ht1].
  assert (forall g q', g ∈ l -> at_offset offset g q' -> q' <> q) as Hne.
  { intros g q' Hg Hq' ->. rewrite (at_offset_inj _ _ _ _ Hq Hq') in Hf. done. }
  eapply proceeds_weaken; [reflexivity | |apply IH; [done | | done |]].
  - intros [] s2 [Hb2 Ht2]. split.
    + eapply beside_trans; [| |exact Hb1 | exact Hb2].
      * intros q' ->. exists f. split; [left | done].
      * intros q' (g & Hg & Hq'). exists g. split; [by right | done].
    + intros g q' [-> | Hg]%elem_of_cons Hq'; [|by apply Ht2].
      assert (q' = q) as -> by (apply page2_inj; unfold at_offset in *; congruence).
      destruct (be_other _ _ _ Hb2 q) as [-> _]; [|by intros (g & Hg & Hgq); apply (Hne g q)|done].
      rewrite (be_window _ _ _ Hb1). apply (Hvac f); [left | done].
  - intros g Hg. apply Hlow. by right.
  - intros g q' Hg Hq'. destruct (Hvac g q') as [Hv Hcov]; [by right | done|]. split; [|done].
    apply (vacant2_beside _ _ _ _ Hb1); [by eapply Hne | done].
Qed.

(** The pages the physical memory takes, up to the frame of its end. *)
Definition in_physical (offset top : Z) (q : Page2M) : Prop :=
  base2 offset <= page2_addr q <= base2 offset + base2 top.

(** Behind the offset, rounded down to 2 MiB, every address refers to the
    physical address it is away from it. *)
Definition physical_mapped (offset top : Z) (s : state) : Prop :=
  forall x, 0 <= x < base2 top + SIZE_2M ->
    exists q f, page2_addr q = base2 (base2 offset + x) /\ frame2_addr f = base2 x /\
      translate2 (page_table s) q = Some (f, physical_flags).

Definition physical_room (top : Z) : nat := 2 * Z.to_nat (base2 top / SIZE_2M + 1).

Lemma proceeds_map_physical b top offset s :
  0 <= top < 2 ^ 52 - SIZE_2M -> 0 <= offset -> offset + top < 2 ^ 47 -> ready s ->
  (forall q, in_physical offset top q -> vacant2 s q /\ gib_of q ∈ page_directories b) ->
  proceeds b b (physical_room top) (map_physical top offset) s (fun _ s' =>
    beside (in_physical offset top) s s' /\ physical_mapped offset top s').
Proof.
  intros Htop Hoff Hlt Hs Hvac. unfold map_physical.
  destruct (PhysAddr_new_ok 0) as (zero & -> & Hz); [lia|]. destruct (PhysAddr_new_ok top) as (t & -> & Ht);
    [unfold SIZE_2M in *; lia|].
  eapply proceeds_pure; [done|]. eapply proceeds_pure; [done|].
  pose proof (frame2_range (frame2_containing_address zero) (frame2_containing_address t)) as Hr.
  rewrite !frame2_containing, Hz, Ht in Hr. change (0 - 0 mod SIZE_2M) with 0 in Hr. fold (base2 top) in Hr.
  pose proof (base2_range top ltac:(lia)) as Hbase. specialize (Hr ltac:(lia)).
  apply steps_2m in Hr as (Hlen & Hnd & Hin & Hex). set (l := frame2_range_inclusive _ _) in *.
  rewrite !Z.sub_0_r in Hlen. rewrite !Z.sub_0_r in Hin. rewrite !Z.sub_0_r in Hex.
  assert (0 <= offset - base2 offset < SIZE_2M) as Hob by (unfold base2, SIZE_2M; dlia).
  assert (forall f, f ∈ l -> 0 <= frame2_addr f <= base2 top /\ frame2_addr f mod SIZE_2M = 0) as Hfr.
  { intros f [Hf Hm]%Hin. rewrite Z.sub_0_r in Hm. split; [|done]. clear - Hf Hm Htop. unfold base2, SIZE_2M in *. dlia. }
  eapply proceeds_weaken; [| |apply proceeds_map_frames; [done | done | | done |]].
  - unfold physical_room. lia.
  - intros [] s' [Hb Hm]. split.
    + eapply beside_trans; [| |exact Hb | apply (beside_refl (fun _ => False))]; [|done].
      intros q (f & Hf%Hfr & Hq). unfold in_physical, at_offset in *. lia.
    + intros x Hx. destruct (Hex (base2 x)) as (f & Hf & Hfx).
      { clear - Hx Htop. unfold base2, SIZE_2M in *. dlia. }
      { clear. unfold base2, SIZE_2M. dlia. }
      destruct (at_offset_exists offset f Hoff) as [q Hq].
      { destruct (Hfr f Hf). unfold low_frame. unfold SIZE_2M in *. lia. }
      exists q, f. split; [|split; [done | by apply Hm]]. rewrite Hq, Hfx.
      clear. unfold base2, SIZE_2M. dlia.
  - intros f Hf. destruct (Hfr f Hf). unfold low_frame. lia.
  - intros f q Hf%Hfr Hq. apply Hvac. unfold in_physical, at_offset in *. lia.
Qed.
End proofs.
