(* ===== verification/Boot.v ===== *)
(** * Booting the kernel (src/bootloader/src/main.rs)

    The theorems about [bootloader_main]: from the memory the firmware reports
    and the kernel file to a machine on which the kernel's code, stack, boot
    information and physical memory are where the kernel expects them. *)

From Stdlib Require Import Lia.
From stdpp Require Import base decidable strings numbers list.
From S2P Require Import Prelude UnstableSort MemoryMap X86 X86Huge FrameAllocator EntryCost BootRegions Level4.
From S2P Require Import Memory Paging BuildConfig BootInfo PageTable BootPaging KernelLoad KernelMapping TableBudget Printer.
From S2P Require Import BootMain BootSteps.

Open Scope Z_scope.

(** The boot information fits in a page. *)
Class BootInfoLayoutLaws (L : BootInfoLayout) : Prop := {
  boot_info_fits info : (length (boot_info_bytes info) <= 4096)%nat;
}.

Section proofs.
Context {B : Build} {SORT : UnstableSort} {SL : UnstableSortLaws SORT}.
Context {X : X86Phys} {XL : X86PhysLaws X} {V : X86Virt} {VL : X86VirtLaws V}.
Context {HG : X86Huge X V} {HL : X86HugeLaws HG} {ELF : XmasElf}.
Context {M : Type} {MP : Mapper M} {RM : Recursive M} {RL : RecursiveLaws M}.
Context {BT : BootTable M} {BTL : BootTableLaws M}.
Context {ER : ElfReader} {L : BootInfoLayout} {LL : BootInfoLayoutLaws L} {FT : Features}.

Abbreviation state := (LoadState M).

(** ** Single steps *)

Lemma proceeds_map_boot_info b page s :
  kind b = BootInfoRegion -> huge_of page ∈ page_tables b -> ready s -> reserved s page = false -> tr s page = None -> huge_parent (page_table s) page = false ->
  proceeds b b 4 (map_boot_info_page page) s (fun _ s' =>
    ram s' = ram s /\ only_on (fun p => p = page) s s' /\
    exists f, tr s' page = Some (f, physical_flags) /\ fresh_for BootInfoRegion s s' f).
Proof.
  intros Hkind Hcov Hs Hw Ht Hh. apply (proceeds_bind b b b 1 3 _ _ _ (fun f s1 =>
    page_table s1 = page_table s /\ ram s1 = ram s /\ only_on (fun _ => False) s s1 /\
    fresh_for BootInfoRegion s s1 f)).
  { apply proceeds_expecting. eapply runs_weaken; [reflexivity | |by apply runs_allocate].
    intros [f|e] s1 (Hpt & Hram & Ho & Hr); [done|]. destruct e; [done | |]; destruct Hr as (p & Hr);
      [by destruct Hr | by destruct Hr as (? & [] & _)]. }
  intros f s1 Hs1 (Hpt & Hram & Ho1 & Hf). apply proceeds_expecting.
  eapply runs_weaken; [reflexivity | |apply runs_map_page; [done | unfold reserved; by rewrite Hpt | done]].
  intros [[]|e] s2 (Hram2 & Ho2 & Hr).
  - split; [congruence|]. split; [by eapply only_on_trans; [| |exact Ho1 | exact Ho2]|].
    exists f. split; [apply Hr|]. eapply fresh_for_after; [done | exact Hf | apply Ho2].
  - destruct e; cbn in Hr; [done | |]; unfold tr in *; rewrite Hpt in Hr.
    + destruct Hr as (p & -> & ?). congruence.
    + destruct Hr as (p & fl & -> & ?). congruence.
Qed.

Lemma kernel_failed_no_frames e segs stack_start stack_size (s s' : state) :
  (forall p, in_some (kernel_areas segs stack_start stack_size) p ->
     tr s p = None /\ huge_parent (page_table s) p = false /\
     ~ shared (kernel_areas segs stack_start stack_size) p) ->
  (length (tls_templates segs) <= 1)%nat -> kernel_failed e segs stack_start stack_size s s' ->
  forall f, Usable ∉ owners f (frames s').
Proof.
  intros Hfree Htls. destruct e as [[]|]; cbn [kernel_failed area_cause]; [done | | |lia].
  - intros (p & Hp & Hh). destruct (Hfree p Hp) as (_ & ? & _). congruence.
  - intros (p & Hp & [[fl Ht] | Hsh]); destruct (Hfree p Hp) as (? & _ & ?); [congruence | done].
Qed.

Lemma proceeds_write_object b page bytes f fl s :
  ready s -> tr s page = Some (f, fl) -> (length bytes <= 4096)%nat ->
  proceeds b b 0 (write_object page bytes) s (fun _ s' =>
    page_table s' = page_table s /\ frames s' = frames s /\
    (forall n i, n <> frame_number f -> 0 <= i < 4096 -> ram s' (4096 * n + i) = ram s (4096 * n + i)) /\
    forall i x, bytes !! i = Some x -> ram s' (4096 * frame_number f + Z.of_nat i) = x).
Proof.
  intros Hs Ht Hlen. apply (proceeds_bind b b b 0 0 _ _ _ (fun old s1 => s1 = s)).
  { apply proceeds_expecting. eapply runs_weaken; [reflexivity | |by eapply runs_read_page].
    by intros r s1 [-> ->]. }
  intros old s1 _ ->. apply proceeds_expecting.
  eapply runs_weaken; [reflexivity | |by eapply runs_write_page]. intros r s1 [-> ->].
  split; [done|]. split; [done|]. split.
  - intros n i Hn Hi. cbn [ram with_ram]. by apply fill_frame_out.
  - intros i x Hx. cbn [ram with_ram]. pose proof (lookup_lt_Some _ _ _ Hx).
    rewrite fill_frame_in by lia. by rewrite Nat2Z.id, Hx.
Qed.

(** Page [p] is what it was. *)
Definition same_page (p : Page) (s s' : state) : Prop :=
  reserved s' p = false /\ tr s' p = tr s p /\ huge_parent (page_table s') p = huge_parent (page_table s) p.

Lemma proceeds_drop_recursive b r s :
  tableless b -> ready s -> recursive_at r (page_table s) ->
  proceeds b b 0 (drop_recursive_entry (page_start_address (recursive_page r))) s (fun _ s' =>
    frames s' = frames s /\ ram s' = ram s /\ (forall p, reserved s p = false -> same_page p s s') /\
    forall q, reserved s (first_page q) = false ->
      translate2 (page_table s') q = translate2 (page_table s) q).
Proof.
  intros Htl Hs Hrec. unfold proceeds, drop_recursive_entry.
  destruct recursive_page_table; [split; [done|]; split; [apply within_refl|]; split; [lia | done]|].
  assert (page_containing_address (page_start_address (recursive_page r)) = recursive_page r) as ->.
  { apply page_addr_inj. unfold page_addr. rewrite page_containing, page_aligned. lia. }
  destruct (unmap_recursive r (page_table s) Hrec) as (f & m & -> & Hp & Hq).
  split; [done|]. split; [apply within_refl|]. split; [by rewrite (slack_tableless b s) | done].
Qed.

Lemma proceeds_final {A} b b' n (k : MemoryMap -> loader M Empty_set A) s Q :
  proceeds b b' n (k (frames s)) s Q -> proceeds b b' n (final_memory_map ≫= k) s Q.
Proof. done. Qed.

(** ** The layout *)

Section layout.
Context (C : Constants) (kernel_start : PhysAddr) (kernel_size top : Z) (segs : list ProgramHeader64).
Context (r : PageTableIndex) (info_page stack : Page) (offset : Z).
Abbreviation file := (in_file (phys_as_u64 kernel_start) kernel_size).
Abbreviation stack_size := (KERNEL_STACK_SIZE C).
Abbreviation areas := (kernel_areas segs stack stack_size).

(** A page that nothing is mapped at, the kernel file apart. *)
Definition free (s : state) (p : Page) : Prop :=
  reserved s p = false /\ tr s p = None /\
  (huge_parent (page_table s) p = false \/ file (huge_of p)).

(** No two things want the same page, and the bootloader's own mappings are out
    of the way. *)
Record clear_layout (s : state) : Prop := {
  cl_recursive : recursive_at r (page_table s);
  cl_file : forall q, file q -> reserved s (first_page q) = false /\ is_Some (translate2 (page_table s) q);
  cl_info : free s info_page /\ ~ in_some areas info_page;
  cl_kernel : forall p, in_some areas p -> free s p /\ ~ shared areas p;
  cl_physical : map_physical_memory = true -> forall q, in_physical offset top q ->
    vacant2 s q /\ ~ file q /\ huge_of info_page <> q /\ forall p, in_some areas p -> huge_of p <> q;
}.

(** Sizes and addresses are in range and the segments are those of an ELF file. *)
Record boot_inputs (s : state) : Prop := {
  in_file_size : 0 < kernel_size /\ phys_as_u64 kernel_start + kernel_size < 2 ^ 47 - SIZE_2M;
  in_top : 0 <= top < 2 ^ 52 - SIZE_2M;
  in_offset : map_physical_memory = true -> 0 <= offset /\ offset + top < 2 ^ 47;
  in_stack : 0 <= stack_size /\ 4096 * (page_number stack + 1 + stack_size) < 2 ^ 47;
  in_segments : segments_ok kernel_start segs;
  in_image : forall seg, In seg segs -> get_type seg = Ok Load -> image_reserved kernel_start seg s;
  in_tls : (length (tls_templates segs) <= 1)%nat;
}.

(** The kernel can run: its segments and its stack are in place, and the boot
    information is in its page and says where the physical memory is. *)
Record booted (h : Handoff) (s s' : state) : Prop := {
  bo_loaded : all_loaded kernel_start segs s s';
  bo_stack : forall p, stack_pages stack stack_size p ->
    exists f, tr s' p = Some (f, stack_flags) /\ fresh_for KernelStack s s' f;
  bo_stack_distinct : distinct_frames (stack_pages stack stack_size) s';
  bo_stack_end : virt_as_u64 (handoff_stack h) = 4096 * (page_number stack + 1 + stack_size);
  bo_info_addr : boot_info_addr h = page_start_address info_page;
  bo_info_page : exists f, tr s' info_page = Some (f, physical_flags) /\ fresh_for BootInfoRegion s s' f /\
    forall i b, boot_info_bytes (boot_info h) !! i = Some b ->
      ram s' (4096 * frame_number f + Z.of_nat i) = b;
  bo_info_map : memory_map (boot_info h) = sort (frames s');
  bo_info_offset : map_physical_memory = true -> physical_memory_offset (boot_info h) = offset;
  bo_info_recursive : recursive_page_table_addr (boot_info h) = page_addr (recursive_page r);
  bo_info_tls : tls_template (boot_info h) =
    match tls_templates segs with t :: _ => if tls_mem_size t >? 0 then Some t else None | [] => None end;
  bo_physical : map_physical_memory = true -> physical_mapped offset top s';
  bo_kept : forall p e, reserved s p = false -> tr s p = Some e -> tr s' p = Some e;
  bo_reserved : forall p, reserved s p = false -> reserved s' p = false;
  bo_untouched : forall p, reserved s p = false -> tr s p = None -> huge_parent (page_table s) p = false ->
    ~ in_some areas p -> p <> info_page ->
    (map_physical_memory = true -> ~ in_physical offset top (huge_of p)) ->
    reserved s' p = false /\ tr s' p = None /\ huge_parent (page_table s') p = false;
  bo_frames : consumed (frames s) (frames s');
}.

Definition boot_room : nat :=
  4 + (kernel_room segs stack_size + (if map_physical_memory then physical_room top else 0)).

(** The tables of 2 MiB pages the physical memory needs, by their 1 GiB. *)
Definition physical_gibs : list Z :=
  if map_physical_memory
  then map (fun i => base2 offset / 2 ^ 30 + Z.of_nat i)
         (seq 0 (Z.to_nat ((base2 offset + base2 top) / 2 ^ 30 - base2 offset / 2 ^ 30 + 1)))
  else [].

(** Entries of the memory map: two for every table that may be new, and three. *)
Definition boot_entries : nat :=
  3 + 2 * (1 + kernel_tables segs stack stack_size + length physical_gibs).

(** [c] returns from [s] in a state with [Q] and takes at most [n] frames; it
    panics only because the memory map has not got [e] entries or [n] frames. *)
Definition completes {A} (e n : nat) (c : loader M Empty_set A) (s : state) (Q : A -> state -> Prop) : Prop :=
  match c s with
  | Ret (Ok a, s') => ready s' /\ within n (frames s) (frames s') /\ Q a s'
  | Ret (Err _, _) => False
  | Panic why =>
      why = map_full /\ (MAX_MEMORY_MAP_SIZE < entries_used (frames s) + e)%nat \/
      (length (usable_numbers (frames s)) <= n)%nat
  end.

(** The budget while [l] may be missing, and one that pays for all of it. *)
Definition boot_budget (l : list Page2M) : Budget :=
  {| kind := KernelStack; spare := 0; page_tables := l; page_directories := physical_gibs |}.

Definition without_tables (k : nat) (b : Budget) : Budget :=
  {| kind := kind b; spare := spare b + k; page_tables := []; page_directories := [] |}.

Definition prepaid (b : Budget) : Budget :=
  without_tables (2 * (length (page_tables b) + length (page_directories b))) b.

Lemma slack_prepaid b (s : state) : (slack b s <= slack (prepaid b) s)%nat.
Proof.
  unfold slack, missing, prepaid. cbn [without_tables kind spare page_tables page_directories List.filter length].
  pose proof (List.filter_length_le (fun q => negb (occupied2 (page_table s) q)) (page_tables b)).
  pose proof (List.filter_length_le (fun z => negb (occupied3 (page_table s) z)) (page_directories b)). lia.
Qed.

Lemma slack_without_tables b (s : state) : (slack (without_tables 0 b) s <= slack b s)%nat.
Proof. unfold slack, missing. cbn [without_tables kind spare page_tables page_directories List.filter length]. lia. Qed.

Lemma physical_gibs_cover q :
  map_physical_memory = true -> 0 <= offset -> in_physical offset top q -> gib_of q ∈ physical_gibs.
Proof.
  intros Hm Hoff [H1 H2]. unfold physical_gibs. rewrite Hm. apply list_elem_of_fmap.
  exists (Z.to_nat (gib_of q - base2 offset / 2 ^ 30)). rewrite elem_of_seq.
  pose proof (base2_range offset Hoff). unfold gib_of. fold (page2_addr q). dlia.
Qed.

(** *** The state after each step is as clear as needed for the next *)

Lemma area_of_segments p : in_some (segment_areas segs) p -> in_some areas p.
Proof. unfold kernel_areas. rewrite in_some_app. by left. Qed.

Lemma area_of_segment seg p :
  In seg segs -> get_type seg = Ok Load -> segment_pages seg p -> in_some areas p.
Proof.
  intros Hseg Ht Hp. apply area_of_segments. exists (segment_touched seg).
  split; [|by left]. apply in_map. apply List.filter_In. by rewrite is_load_iff.
Qed.

Lemma area_of_stack p : stack_pages stack stack_size p -> in_some areas p.
Proof. unfold kernel_areas. rewrite in_some_app, in_some_singleton. by right. Qed.

Lemma free_unmapped s s1 p :
  free s p -> beside file s s1 ->
  (forall p, reserved s p = false -> file (huge_of p) -> huge_parent (page_table s1) p = false) ->
  reserved s1 p = false /\ tr s1 p = None /\ huge_parent (page_table s1) p = false.
Proof.
  intros (Hr & Ht & Hh) Hb Hcl. rewrite (be_window _ _ _ Hb), (be_pages _ _ _ Hb) by done.
  split; [done|]. split; [done|]. destruct (in_file_dec (phys_as_u64 kernel_start) kernel_size (huge_of p)); [auto|].
  destruct Hh; [|done]. by rewrite (be_huge _ _ _ Hb).
Qed.

Lemma vacant2_only_on P s s' q :
  only_on P s s' -> (forall p, P p -> huge_of p <> q) -> vacant2 s q -> vacant2 s' q.
Proof.
  intros Ho Hno (H1 & H2 & H3). unfold vacant2. rewrite (only_on_reserved _ _ _ _ Ho).
  destruct (proj2 (oo_layout _ _ _ Ho) q H1) as [_ ->]. rewrite (oo_tables _ _ _ Ho); [done..|].
  intros (p & Hp & Heq). by apply (Hno p).
Qed.

Lemma provide_physical b s used used' :
  (map_physical_memory = true -> choose_offset C top used = Ret (offset, used')) ->
  0 <= top < 2 ^ 52 - SIZE_2M -> (map_physical_memory = true -> 0 <= offset /\ offset + top < 2 ^ 47) ->
  ready s -> (map_physical_memory = true -> forall q, in_physical offset top q ->
    vacant2 s q /\ gib_of q ∈ page_directories b) ->
  proceeds b b (if map_physical_memory then physical_room top else 0) (provide_physical_memory C top used) s
    (fun o s' => beside (fun q => map_physical_memory = true /\ in_physical offset top q) s s' /\
      (map_physical_memory = true -> o = offset /\ physical_mapped offset top s')).
Proof.
  intros Hc Htop Hoff Hs Hvac. unfold provide_physical_memory. destruct map_physical_memory.
  - destruct (Hoff eq_refl). rewrite Hc by done. eapply proceeds_pure; [done|]. cbn beta iota.
    rewrite <-(Nat.add_0_r (physical_room top)).
    eapply proceeds_bind; [apply proceeds_map_physical; auto|]. intros [] s' Hs' [Hb Hm].
    apply proceeds_ret; [done|]. split; [|done].
    eapply beside_trans; [| |exact Hb | apply (beside_refl (fun _ => False))]; [|done]. done.
  - apply proceeds_ret; [done|]. split; [apply beside_refl | done].
Qed.

Lemma physical_mapped_kept s s' :
  (forall q, in_physical offset top q -> translate2 (page_table s') q = translate2 (page_table s) q) ->
  physical_mapped offset top s -> physical_mapped offset top s'.
Proof.
  intros Hq Hm x Hx. destruct (Hm x Hx) as (q & f & Ha & Hf & Ht). exists q, f. split; [done|]. split; [done|].
  rewrite Hq; [done|]. unfold in_physical. rewrite Ha. clear - Hx. unfold base2, SIZE_2M in *. dlia.
Qed.

Lemma tls_template_new mm tls addr o mm' :
  option_list tls = tls_templates segs ->
  tls_template (with_memory_map mm' (BootInfo_new mm tls addr o)) =
    match tls_templates segs with t :: _ => if tls_mem_size t >? 0 then Some t else None | [] => None end.
Proof. intros <-. by destruct tls. Qed.

(** The pieces put together. *)
Lemma booted_intro s s1 s2 s3 s4 s6 f info o Q :
  boot_inputs s -> clear_layout s ->
  beside file s s1 ->
  (forall p, reserved s p = false -> file (huge_of p) -> huge_parent (page_table s1) p = false) ->
  only_on (fun p => p = info_page) s1 s2 -> ram s2 = ram s1 ->
  tr s2 info_page = Some (f, physical_flags) -> fresh_for BootInfoRegion s1 s2 f ->
  only_on (in_some areas) s2 s3 -> kernel_mapped kernel_start segs stack stack_size info s2 s3 ->
  beside Q s3 s4 -> (forall q, Q q -> map_physical_memory = true /\ in_physical offset top q) ->
  (map_physical_memory = true -> o = offset /\ physical_mapped offset top s4) ->
  frames s6 = frames s4 -> (forall p, reserved s p = false -> same_page p s4 s6) ->
  (forall q, reserved s (first_page q) = false -> translate2 (page_table s6) q = translate2 (page_table s4) q) ->
  (forall n i, n <> frame_number f -> 0 <= i < 4096 -> ram s6 (4096 * n + i) = ram s4 (4096 * n + i)) ->
  let bi := with_memory_map (sort (frames s4)) (BootInfo_new (frames s4) (tls_segment info)
    (virt_as_u64 (page_start_address (recursive_page r))) o) in
  (forall i b, boot_info_bytes bi !! i = Some b -> ram s6 (4096 * frame_number f + Z.of_nat i) = b) ->
  booted {| boot_info_addr := page_start_address info_page; boot_info := bi; handoff_stack := stack_end info |} s s6.
Proof.
  intros Hin Hcl Hb1 Hh1 Ho2 Hram2 Hinfo Hf Ho3 Hkm Hb4 HQ Hphys Hfr6 Htr6 Ht26 Hram6 bi Hbytes.
  assert (forall p, reserved s2 p = reserved s p) as Hw2.
  { intros p. by rewrite (only_on_reserved _ _ _ _ Ho2), (be_window _ _ _ Hb1). }
  assert (forall p, reserved s3 p = reserved s p) as Hw3.
  { intros p. by rewrite (only_on_reserved _ _ _ _ Ho3). }
  assert (consumed (frames s3) (frames s6)) as Hc36 by (rewrite Hfr6; apply Hb4).
  assert (consumed (frames s2) (frames s6)) as Hc26 by (etransitivity; [apply Ho3 | done]).
  assert (consumed (frames s) (frames s2)) as Hc02 by (etransitivity; [apply Hb1 | apply Ho2]).
  assert (fresh_for BootInfoRegion s s2 f) as Hf2 by (eapply fresh_for_before; [apply Hb1 | done]).
  assert (forall p, reserved s p = false -> tr s6 p = tr s3 p) as Htr36.
  { intros p Hp. destruct (Htr6 p Hp) as (_ & -> & _). rewrite (be_pages _ _ _ Hb4); [done | by rewrite Hw3]. }
  assert (kernel_intact s3 s6) as Hint.
  { etransitivity; [by eapply beside_intact|]. intros n Hn. rewrite Hfr6. split; [done|]. intros i Hi.
    apply Hram6; [|done]. intros ->. destruct Hf2 as [_ Hown].
    rewrite (consumed_kept _ _ _ (be_frames _ _ _ Hb4)), (consumed_kept _ _ _ (oo_frames _ _ _ Ho3)), Hown in Hn;
      [done | by rewrite Hown |].
    by rewrite (consumed_kept _ _ _ (oo_frames _ _ _ Ho3)); rewrite Hown. }
  constructor; cbn [handoff_stack boot_info_addr boot_info].
  - intros seg Hseg Ht. pose proof (in_segments _ Hin seg Hseg) as Hok. rewrite Ht in Hok.
    eapply loaded_since; [by apply (in_image _ Hin) | apply lo_phys in Hok; lia | |].
    { etransitivity; [eapply beside_intact, Hb1 | eapply only_on_intact, Ho2]. }
    assert (forall p, segment_pages seg p -> reserved s p = false) as Hclr.
    { intros p Hp. apply (cl_kernel _ Hcl). by eapply area_of_segment. }
    eapply loaded_stable; [|by apply (km_loaded _ _ _ _ _ _ _ Hkm) | apply Hok | exact Hint |].
    + intros p Hp. rewrite Hw3. auto.
    + intros p e _ Hp. rewrite Hw3 in Hp. by rewrite Htr36.
  - intros p Hp. assert (reserved s p = false) as Hr.
    { by apply (cl_kernel _ Hcl), area_of_stack. }
    destruct (km_stack _ _ _ _ _ _ _ Hkm p Hp) as (_ & g & Hg & Hfg). exists g. rewrite Htr36 by done.
    split; [done|]. eapply fresh_for_before; [done|]. by eapply fresh_for_after.
  - intros p q g g' fl fl' Hp Hq. assert (forall x, stack_pages stack stack_size x -> reserved s x = false) as Hr.
    { intros x Hx. by apply (cl_kernel _ Hcl), area_of_stack. }
    rewrite !Htr36 by auto. by apply (km_distinct _ _ _ _ _ _ _ Hkm).
  - apply (km_end _ _ _ _ _ _ _ Hkm).
  - done.
  - exists f. destruct (cl_info _ Hcl) as [(Hr & _) Hno]. split; [|split; [|done]].
    + rewrite Htr36, (oo_pages _ _ _ Ho3); [done | by rewrite Hw2 | done | done].
    + by eapply fresh_for_after.
  - cbn. by rewrite Hfr6.
  - intros Hm. by destruct (Hphys Hm) as [-> _].
  - done.
  - apply tls_template_new, (km_tls _ _ _ _ _ _ _ Hkm).
  - intros Hm. destruct (Hphys Hm) as [_ Hp]. eapply physical_mapped_kept; [|exact Hp].
    intros q Hq. apply Ht26. by apply (cl_physical _ Hcl Hm q Hq).
  - intros p e Hp Ht. rewrite Htr36 by done. apply (km_keeps _ _ _ _ _ _ _ Hkm); [tauto | by rewrite Hw2|].
    rewrite (oo_pages _ _ _ Ho2), (be_pages _ _ _ Hb1); [done | done | by rewrite (be_window _ _ _ Hb1)|].
    intros ->. destruct (cl_info _ Hcl) as [(_ & Hn & _) _]. congruence.
  - intros p Hp. by destruct (Htr6 p Hp).
  - intros p Hp Ht Hh Hna Hni Hnp. destruct (Htr6 p Hp) as (Hr6 & Ht6 & Hh6). split; [done|]. split.
    + rewrite Htr36, (oo_pages _ _ _ Ho3), (oo_pages _ _ _ Ho2), (be_pages _ _ _ Hb1); try done;
        [by rewrite (be_window _ _ _ Hb1) | by rewrite Hw2].
    + rewrite Hh6, (be_huge _ _ _ Hb4); [|by rewrite Hw3 | by intros [Hm Hq]%HQ; apply (Hnp Hm)].
      rewrite (proj2 (proj1 (oo_layout _ _ _ Ho3) p)), (proj2 (proj1 (oo_layout _ _ _ Ho2) p)).
      destruct (in_file_dec (phys_as_u64 kernel_start) kernel_size (huge_of p)); [auto|].
      by rewrite (be_huge _ _ _ Hb1).
  - by etransitivity.
Qed.

Lemma proceeds_completes {A} b b' e n (c : loader M Empty_set A) s Q :
  (1 + spare b + 2 * (length (page_tables b) + length (page_directories b)) <= e)%nat ->
  proceeds b b' n c s Q -> completes e n c s Q.
Proof.
  intros He. unfold proceeds, completes. pose proof (slack_used b s).
  destruct (c s) as [[[a|err] s']|]; [|done|]; [intuition|]. intros [[-> ?] | ?]; [left | by right].
  split; [done | lia].
Qed.

Lemma proceeds_boot_kernel used used1 used2 s :
  ready s -> boot_inputs s -> clear_layout s ->
  choose_boot_info_page C used = Ret (info_page, used1) -> choose_stack C info_page = Ret stack ->
  (map_physical_memory = true -> choose_offset C top used1 = Ret (offset, used2)) ->
  completes boot_entries boot_room
    (boot_kernel C kernel_start kernel_size top segs (page_start_address (recursive_page r)) used) s
    (fun h s' => booted h s s').
Proof.
  intros Hs Hin Hcl Hbi Hst Hoff.
  destruct (cover_kernel kernel_start segs stack stack_size (in_segments _ Hin)) as (l & Hl & Hcov); [apply Hin..|].
  destruct (cover_one info_page) as (l0 & Hl0 & Hcov0). set (b3 := boot_budget (l0 ++ l)).
  set (b2 := before Kernel b3). set (b1 := before BootInfoRegion b2).
  apply (proceeds_completes (prepaid b1) (without_tables 0 b3)).
  { subst b1 b2 b3. unfold prepaid, boot_entries, boot_budget, before.
    cbn [without_tables kind spare page_tables page_directories length].
    rewrite length_app, Hl, Hl0. lia. }
  unfold boot_kernel, boot_room.
  apply (proceeds_bind _ (prepaid b1) _ 0 _ _ _ _ _ _ (proceeds_unmap_elf_file (prepaid b1) kernel_start kernel_size s
    (conj eq_refl eq_refl) (proj1 (in_file_size _ Hin)) (proj2 (in_file_size _ Hin)) Hs (cl_file _ Hcl))).
  intros [] s1 Hs1 (Hb1 & Hfr1 & Hh1). rewrite Hbi. eapply proceeds_pure; [done|]. cbn beta iota.
  destruct (cl_info _ Hcl) as [Hfree Hnin]. destruct (free_unmapped s s1 info_page Hfree Hb1 Hh1) as (Hr1 & Ht1 & Hp1).
  eapply (proceeds_bind _ b1 _ 4).
  { eapply (proceeds_budget _ _ b1 b1); [apply slack_prepaid | done|].
    apply proceeds_map_boot_info; [done | |done..]. apply elem_of_app. by left. }
  intros [] s2 Hs2 (Hram2 & Ho2 & f & Hf2 & Hfresh).
  rewrite Hst. eapply proceeds_pure; [done|].
  assert (forall p, in_some areas p -> reserved s2 p = false /\ tr s2 p = None /\
    huge_parent (page_table s2) p = false /\ ~ shared areas p) as Hareas.
  { intros p Hp. destruct (cl_kernel _ Hcl p Hp) as [Hfp Hsh].
    destruct (free_unmapped s s1 p Hfp Hb1 Hh1) as (Hpr & Hpt & Hph). assert (p <> info_page) by (by intros ->).
    rewrite (only_on_reserved _ _ _ _ Ho2), (oo_pages _ _ _ Ho2) by done.
    by rewrite (proj2 (proj1 (oo_layout _ _ _ Ho2) p)). }
  eapply (proceeds_bind _ b3).
  { eapply (proceeds_budget _ _ b2 b3); [apply slack_before | done|].
    apply proceeds_expecting. destruct (in_stack _ Hin).
    eapply runs_weaken; [reflexivity | |apply runs_map_kernel; [done | | done | done | |done |]].
    - intros [info|e] s3 [Ho3 Hr]; [exact (conj Ho3 Hr)|].
      eapply kernel_failed_no_frames; [|apply Hin | exact Hr]. intros p Hp. by apply Hareas.
    - constructor; [apply Hin | |].
      + intros seg Hseg Ht. eapply image_reserved_later; [exact Ho2|]. intros n Hn. rewrite Hfr1.
        by apply (in_image _ Hin seg).
      + intros p Hp. by apply Hareas, area_of_segments.
    - intros p Hp. by apply Hareas, area_of_stack.
    - intros p Hp. apply elem_of_app. right. by apply Hcov. }
  intros info s3 Hs3 [Ho3 Hkm].
  rewrite <-(Nat.add_0_r (if map_physical_memory then physical_room top else 0%nat)). eapply (proceeds_bind _ b3).
  { eapply (provide_physical b3 s3 used1 used2); [done | apply Hin | apply Hin | done |].
    intros Hm q Hq. destruct (cl_physical _ Hcl Hm q Hq) as (Hv & Hnf & Hni & Hna).
    split; [|apply physical_gibs_cover; [done | by apply (in_offset _ Hin) | done]].
    eapply vacant2_only_on; [exact Ho3 | done |]. eapply vacant2_only_on; [exact Ho2 | by intros p -> |].
    by eapply vacant2_beside. }
  intros o s4 Hs4 [Hb4 Hphys].
  apply (proceeds_budget _ _ (without_tables 0 b3) (without_tables 0 b3)); [apply slack_without_tables | done|].
  apply proceeds_final.
  assert (forall p, reserved s4 p = reserved s p) as Hw4.
  { intros p. by rewrite (be_window _ _ _ Hb4), (only_on_reserved _ _ _ _ Ho3), (only_on_reserved _ _ _ _ Ho2),
      (be_window _ _ _ Hb1). }
  assert (tr s4 info_page = Some (f, physical_flags)) as Hf4.
  { rewrite (be_pages _ _ _ Hb4), (oo_pages _ _ _ Ho3); [done | |done |].
    - by rewrite (only_on_reserved _ _ _ _ Ho2).
    - by rewrite <-(be_window _ _ _ Hb4), Hw4, <-(be_window _ _ _ Hb1). }
  eapply (proceeds_bind _ _ _ 0 0).
  { eapply proceeds_write_object; [done | exact Hf4 | apply boot_info_fits]. }
  intros [] s5 Hs5 (Hpt5 & Hfr5 & Hram5 & Hbytes). eapply (proceeds_bind _ _ _ 0 0).
  { apply (proceeds_drop_recursive _ r); [done | done|]. intros p. rewrite Hpt5. fold (reserved s4 p). rewrite Hw4.
    apply (cl_recursive _ Hcl). }
  intros [] s6 Hs6 (Hfr6 & Hram6 & Htr6 & Ht26). apply proceeds_ret; [done|].
  assert (forall p, reserved s p = false -> reserved s5 p = false) as Hw5.
  { intros p Hp. unfold reserved. rewrite Hpt5. fold (reserved s4 p). by rewrite Hw4. }
  eapply booted_intro; try exact Hb4; try done; try congruence.
  - intros p Hp. destruct (Htr6 p) as (Hr6 & Ht6 & Hh6); [auto|]. unfold same_page, tr in *. by rewrite <-Hpt5.
  - intros q Hq. rewrite Ht26 by auto. by rewrite Hpt5.
  - intros n i Hn Hi. rewrite Hram6. by apply Hram5.
  - intros i b Hb. rewrite Hram6. by apply Hbytes.
Qed.
End layout.
End proofs.
