(* ===== verification/Bootloader.v ===== *)
(** * The whole bootloader (src/bootloader/src/main.rs)

    [bootloader_main] from its arguments to the jump into the kernel: reading
    the ELF file, the choice of addresses, the marks and [boot_kernel], and what
    the kernel's frame allocator may then hand out. *)

From Stdlib Require Import Lia.
From stdpp Require Import base decidable strings numbers list.
From S2P Require Import Prelude UnstableSort MemoryMap X86 X86Huge FrameAllocator EntryCost BootRegions Level4.
From S2P Require Import Memory Paging BuildConfig BootInfo PageTable BootPaging KernelLoad KernelMapping TableBudget Printer.
From S2P Require Import BootMain BootSteps Boot.

Open Scope Z_scope.

(** ** The kernel file *)

Lemma collect_segments_ret l acc segs :
  (length acc <= 32)%nat ->
  collect_segments l acc = Ret segs <->
    exists new, l = map Ph64 new /\ segs = acc ++ new /\ (length segs <= 32)%nat.
Proof.
  revert acc. induction l as [|[|h] l IH]; intros acc Hacc; cbn [collect_segments].
  - split.
    + intros [= <-]. exists []. by rewrite app_nil_r.
    + by intros ([|] & ? & -> & _); [rewrite app_nil_r|].
  - split; [done|]. by intros ([|] & ? & _).
  - case_decide as Hlt.
    + rewrite IH by (rewrite length_app; cbn; lia). split.
      * intros (new & -> & -> & Hlen). exists (h :: new). by rewrite <-app_assoc in *.
      * intros ([|h' new] & [= <- ->] & -> & Hlen). exists new. by rewrite <-app_assoc.
    + split; [done|]. intros ([|h' new] & [= <- ->] & -> & Hlen). rewrite length_app in Hlen. cbn in Hlen. lia.
Qed.

Section elf.
Context {ER : ElfReader} {X : X86Phys}.

(** The bytes of the kernel file. *)
Definition kernel_file (kernel_start : PhysAddr) (kernel_size : Z) (memory : Z -> Z) : list Z :=
  map (fun i => memory (phys_as_u64 kernel_start + i)) (offsets 0 kernel_size).

(** C38 (error). The bootloader accepts a kernel file exactly when the parser
    does, its header is sane, and it has at most 32 program headers, all of the
    64 bit format; it then uses all of them, in order.  Otherwise it panics. *)
Theorem read_elf_accepts kernel_start kernel_size memory entry segs :
  read_elf kernel_start kernel_size memory = Ret (entry, segs) <->
    exists elf, ElfFile_new (kernel_file kernel_start kernel_size memory) = Ok elf /\
      sanity_check elf = Ok tt /\ elf_entry_point elf = entry /\
      program_iter elf = map Ph64 segs /\ (length segs <= 32)%nat.
Proof.
  unfold read_elf. fold (kernel_file kernel_start kernel_size memory).
  destruct (ElfFile_new _) as [elf|e]; cbn [unwrap mbind outcome_bind]; [|by split; [|intros (? & ? & _)]].
  destruct (sanity_check elf) as [[]|e] eqn:Hsan; cbn [unwrap mbind outcome_bind].
  2: { split; [done|]. intros (elf' & [= <-] & ? & _). congruence. }
  split.
  - intros (segs' & Hc & [= <- <-])%bind_Ret_inv. apply collect_segments_ret in Hc as (new & Hl & -> & Hlen); [|cbn; lia].
    by exists elf.
  - intros (elf' & [= <-] & _ & <- & Hl & Hlen).
    rewrite (proj2 (collect_segments_ret _ [] segs ltac:(cbn; lia))); [done|]. by exists segs.
Qed.
End elf.

(** ** The end of the physical memory *)

Section top.
Context {B : Build}.

Lemma region_ends_ok l :
  Forall proper_region l -> region_ends l = Ret (map (fun r => 4096 * rend r) l).
Proof.
  induction 1 as [|r l Hr _ IH]; [done|]. cbn [region_ends map]. unfold end_addr, PAGE_SIZE.
  unfold proper_region in Hr. change (end_frame_number (range r)) with (rend r).
  rewrite u64_mul_ok by arith. cbn [mbind outcome_bind]. rewrite IH. cbn [mbind outcome_bind].
  by rewrite Z.mul_comm.
Qed.

Lemma max_of_spec l z : max_of l = Some z -> z ∈ l /\ forall x, x ∈ l -> x <= z.
Proof.
  destruct l as [|y l]; [done|]. cbn [max_of]. intros [= <-]. induction l as [|x l [IH1 IH2]]; cbn [foldr].
  - split; [left|]. intros x [-> | H%not_elem_of_nil]%elem_of_cons; [lia | done].
  - split.
    + destruct (Z.max_spec x (foldr Z.max y l)) as [[_ ->] | [_ ->]]; [|right; left].
      apply elem_of_cons in IH1 as [-> | H]; [left | right; by right].
    + intros z [-> | [-> | Hz]%elem_of_cons]%elem_of_cons; [|lia|].
      * specialize (IH2 y ltac:(left)). lia.
      * specialize (IH2 z ltac:(by right)). lia.
Qed.

Lemma max_phys_addr_spec mm :
  wf_map mm -> slice mm <> [] ->
  exists top, max_phys_addr mm = Ret top /\ 0 <= top < 2 ^ 52 /\
    forall n, owners n mm <> [] -> 4096 * n + 4096 <= top.
Proof.
  intros Hw Hne. pose proof (slice_proper mm Hw) as Hp. unfold max_phys_addr.
  rewrite region_ends_ok by done. cbn [mbind outcome_bind].
  destruct (max_of _) as [top|] eqn:Hmax; [|by destruct (slice mm)].
  apply max_of_spec in Hmax as [Hin Hle]. exists top. split; [done|].
  rewrite Forall_forall in Hp. apply list_elem_of_fmap in Hin as (r & -> & Hr). specialize (Hp r Hr).
  unfold proper_region in Hp. split; [lia|]. intros n Hn.
  destruct (owners n mm) as [|t ts] eqn:Ho; [done|].
  assert (t ∈ owners n mm) as (q & Hq & Hc & _)%kinds_elem by (rewrite Ho; left).
  apply contains_spec in Hc. specialize (Hle (4096 * rend q) ltac:(apply list_elem_of_fmap; eauto)). lia.
Qed.
End top.

(** ** The bootloader *)

Section bootloader.
Context {B : Build} {SORT : UnstableSort} {SL : UnstableSortLaws SORT}.
Context {X : X86Phys} {XL : X86PhysLaws X} {V : X86Virt} {VL : X86VirtLaws V}.
Context {HG : X86Huge X V} {HL : X86HugeLaws HG} {ELF : XmasElf}.
Context {M : Type} {MP : Mapper M} {RM : Recursive M} {RL : RecursiveLaws M}.
Context {BT : BootTable M} {BTL : BootTableLaws M}.
Context {ER : ElfReader} {L : BootInfoLayout} {LL : BootInfoLayoutLaws L} {FT : Features}.

(** The arguments of [bootloader_main] and what it finds in memory. *)
Record Machine := {
  config : Constants;
  kernel_start : PhysAddr;
  kernel_size : Z;
  e820 : list E820MemoryRegion;
  page_table_start : PhysAddr;
  page_table_end : PhysAddr;
  bootloader_start : PhysAddr;
  bootloader_end : PhysAddr;
  tables : M;
  memory : Z -> Z;
}.

(** What it computes on the way: the firmware's map and the end of the memory,
    the kernel's entry point and segments, and the addresses it chooses. *)
Record Plan := {
  firmware_map : MemoryMap;
  top : Z;
  kernel_entry : Z;
  segs : list ProgramHeader64;
  recursive : PageTableIndex;
  info_page : Page;
  stack : Page;
  offset : Z;
}.

Definition run_bootloader (k : Machine) (regs : Registers) (screen : Screen) : outcome Entered :=
  bootloader_main (config k) (kernel_start k) (kernel_size k) (e820 k) (page_table_start k)
    (page_table_end k) (bootloader_start k) (bootloader_end k) (root (tables k)) (tables k) (memory k)
    regs screen.

(** [stage_4] starts it with the addresses of the linker. *)
Lemma stage_4_machine (s : Symbols) C (firmware : list E820MemoryRegion) m mem regs screen :
  0 <= sym_page_table_start s < 2 ^ 52 -> 0 <= sym_page_table_end s < 2 ^ 52 ->
  0 <= sym_bootloader_start s < 2 ^ 52 -> 0 <= sym_bootloader_end s < 2 ^ 52 ->
  sym_p4 s = phys_as_u64 (root m) ->
  exists k, stage_4 C s firmware m mem regs screen = run_bootloader k regs screen /\
    config k = C /\ phys_as_u64 (kernel_start k) = 0x400000 /\ kernel_size k = sym_kernel_size s /\
    e820 k = take (Z.to_nat (mmap_ent s mod 256)) firmware /\ tables k = m /\ memory k = mem.
Proof.
  intros H1 H2 H3 H4 H5. unfold stage_4. pose proof (phys_range (root m)).
  destruct (PhysAddr_new_ok 0x400000) as (ks & -> & Hks); [lia|].
  destruct (PhysAddr_new_ok (sym_page_table_start s)) as (ps & -> & _); [lia|].
  destruct (PhysAddr_new_ok (sym_page_table_end s)) as (pe & -> & _); [lia|].
  destruct (PhysAddr_new_ok (sym_bootloader_start s)) as (bs & -> & _); [lia|].
  destruct (PhysAddr_new_ok (sym_bootloader_end s)) as (be & -> & _); [lia|].
  destruct (PhysAddr_new_ok (sym_p4 s)) as (p4 & -> & Hp4); [lia|]. cbn [mbind outcome_bind].
  assert (p4 = root m) as -> by (apply phys_inj; congruence).
  exists {| config := C; kernel_start := ks; kernel_size := sym_kernel_size s;
            e820 := take (Z.to_nat (Z.land (mmap_ent s) 0xff)) firmware; page_table_start := ps;
            page_table_end := pe; bootloader_start := bs; bootloader_end := be; tables := m; memory := mem |}.
  split; [done|]. cbn. rewrite <-(Z.land_ones _ 8) by lia. done.
Qed.

(** The choice of addresses. *)
Definition plan_chosen (k : Machine) (pl : Plan) : Prop :=
  exists used0 used used1 used2,
    UsedLevel4Entries_new (segs pl) = Ret used0 /\ get_free_entries 1 used0 = Ret (recursive pl, used) /\
    choose_boot_info_page (config k) used = Ret (info_page pl, used1) /\
    choose_stack (config k) (info_page pl) = Ret (stack pl) /\
    (map_physical_memory = true -> choose_offset (config k) (top pl) used1 = Ret (offset pl, used2)).

Definition plan_areas (k : Machine) (pl : Plan) : list (Page -> Prop) :=
  kernel_areas (segs pl) (stack pl) (KERNEL_STACK_SIZE (config k)).

Definition file_page (k : Machine) : Page2M -> Prop := in_file (phys_as_u64 (kernel_start k)) (kernel_size k).

(** A page outside the recursive entry that nothing is mapped at, the kernel file
    apart. *)
Definition vacant (k : Machine) (pl : Plan) (p : Page) : Prop :=
  level4 p <> index_as_u64 (recursive pl) /\ translate (tables k) p = None /\
  (huge_parent (tables k) p = false \/ file_page k (huge_of p)).

(** The page table the assembly stages leave has the kernel file in 2 MiB pages
    and nothing where the bootloader wants to map. *)
Record layout_free (k : Machine) (pl : Plan) : Prop := {
  lf_file : forall q, file_page k q ->
    level4 (first_page q) <> index_as_u64 (recursive pl) /\ is_Some (translate2 (tables k) q);
  lf_info : vacant k pl (info_page pl) /\ ~ in_some (plan_areas k pl) (info_page pl);
  lf_kernel : forall p, in_some (plan_areas k pl) p -> vacant k pl p /\ ~ shared (plan_areas k pl) p;
  lf_physical : map_physical_memory = true -> forall q, in_physical (offset pl) (top pl) q ->
    level4 (first_page q) <> index_as_u64 (recursive pl) /\ occupied2 (tables k) q = false /\
    huge_parent2 (tables k) q = false /\ ~ file_page k q /\ huge_of (info_page pl) <> q /\
    forall p, in_some (plan_areas k pl) p -> huge_of p <> q;
}.

(** The ranges in use, of which the bootloader takes out the usable memory. *)
Definition used_regions (k : Machine) : list MemoryRegion :=
  boot_regions (phys_as_u64 (kernel_start k)) (kernel_size k) (phys_as_u64 (page_table_start k))
    (phys_as_u64 (page_table_end k)) (phys_as_u64 (bootloader_start k)) (phys_as_u64 (bootloader_end k)).

Record memory_ok (k : Machine) (pl : Plan) : Prop := {
  mo_e820 : Forall valid_e820 (e820 k) /\ (length (e820 k) <= MAX_MEMORY_MAP_SIZE)%nat;
  mo_map : create_from (e820 k) = Ret (firmware_map pl);
  mo_disjoint : disjoint_map (firmware_map pl);
  mo_markable : markable (firmware_map pl) (used_regions k);
  mo_entries : (next_entry_index (firmware_map pl) + 8 <= MAX_MEMORY_MAP_SIZE)%nat;
  mo_top : max_phys_addr (firmware_map pl) = Ret (top pl) /\ top pl < 2 ^ 52 - SIZE_2M;
  mo_kernel : 0 < kernel_size k /\ phys_as_u64 (kernel_start k) + kernel_size k < 2 ^ 47 - SIZE_2M;
  mo_tables : phys_as_u64 (page_table_start k) < phys_as_u64 (page_table_end k) < 2 ^ 52 - 4096;
  mo_bootloader : phys_as_u64 (bootloader_start k) < phys_as_u64 (bootloader_end k) < 2 ^ 52 - 4096;
}.

Record kernel_ok (k : Machine) (pl : Plan) : Prop := {
  ko_elf : read_elf (kernel_start k) (kernel_size k) (memory k) = Ret (kernel_entry pl, segs pl);
  ko_entry : canonical (kernel_entry pl);
  ko_segments : segments_ok (kernel_start k) (segs pl);
  ko_inside : forall seg, In seg (segs pl) -> get_type seg = Ok Load ->
    ph_offset seg + file_size seg <= kernel_size k;
  ko_tls : (length (tls_templates (segs pl)) <= 1)%nat;
  ko_stack : 0 <= KERNEL_STACK_SIZE (config k) /\
    4096 * (page_number (stack pl) + 1 + KERNEL_STACK_SIZE (config k)) < 2 ^ 47;
  ko_offset : map_physical_memory = true -> 0 <= offset pl /\ offset pl + top pl < 2 ^ 47;
}.

(** The state in which the frame allocator starts. *)
Definition start_state (k : Machine) (pl : Plan) (mm : MemoryMap) : LoadState M :=
  {| page_table := set_level4_entry (recursive pl) (root (tables k)) (Z.lor PRESENT WRITABLE) (tables k);
     frames := mm; ram := memory k |}.

Lemma layout_free_clear k pl mm :
  layout_free k pl ->
  clear_layout (config k) (kernel_start k) (kernel_size k) (top pl) (segs pl) (recursive pl)
    (info_page pl) (stack pl) (offset pl) (start_state k pl mm).
Proof.
  intros [Hfile Hinfo Hkernel Hphys].
  destruct (recursive_new (recursive pl) (tables k)) as (_ & Hrec & Hp & Hq).
  assert (forall p, level4 p <> index_as_u64 (recursive pl) -> reserved (start_state k pl mm) p = false) as Hres.
  { intros p Hne. unfold reserved. cbn. rewrite (Hrec p). by apply Z.eqb_neq. }
  assert (forall p, vacant k pl p -> free (kernel_start k) (kernel_size k) (start_state k pl mm) p) as Hfree.
  { intros p (Hne & Ht & Hh). unfold free, tr. cbn. destruct (Hp p Hne) as [-> ->]. auto. }
  constructor.
  - exact Hrec.
  - intros q Hf. destruct (Hfile q Hf) as [Hne Hs]. cbn. destruct (Hq q Hne) as [-> _]. auto.
  - destruct Hinfo. auto.
  - intros p Hin. destruct (Hkernel p Hin). auto.
  - intros Hm q Hin. destruct (Hphys Hm q Hin) as (Hne & Hocc & Hh & Hrest). split; [|done].
    unfold vacant2. cbn. destruct (Hq q Hne) as (_ & -> & ->). auto.
Qed.

(** The kernel's frames are marked as its own. *)
Lemma kernel_frames_marked k pl mm n :
  markable (firmware_map pl) (used_regions k) ->
  (forall f, owners f mm = marked_owner (used_regions k) f (owners f (firmware_map pl))) ->
  phys_as_u64 (kernel_start k) / 4096 <= n <= (phys_as_u64 (kernel_start k) + kernel_size k - 1) / 4096 ->
  owners n mm = [Kernel].
Proof.
  intros [Hpairs _] Hmark Hn. rewrite Hmark. unfold used_regions, boot_regions in *.
  inversion Hpairs as [|? ? H1 Hp1]; subst. inversion Hp1 as [|? ? H2 Hp2]; subst.
  rewrite List.Forall_forall in H1, H2.
  set (kr := frames_of Kernel (phys_as_u64 (kernel_start k)) (kernel_size k)) in *.
  assert (contains n kr = true) as Hc by (apply contains_spec; unfold kr, frames_of; cbn; lia).
  specialize (H1 kr ltac:(cbn; auto)). specialize (H2 kr ltac:(cbn; auto)). unfold regions_apart in H1, H2.
  unfold marked_owner. cbn [List.find]. pose proof Hc as Hc'. apply contains_spec in Hc'.
  destruct (contains n (mk_region 0 1 FrameZero)) eqn:E1; [apply contains_spec in E1; lia|].
  destruct (contains n (frames_of Bootloader _ _)) eqn:E2; [apply contains_spec in E2; lia|].
  by rewrite Hc.
Qed.

Lemma start_inputs k pl mm :
  memory_ok k pl -> kernel_ok k pl ->
  (forall f, owners f mm = marked_owner (used_regions k) f (owners f (firmware_map pl))) -> 0 <= top pl ->
  boot_inputs (config k) (kernel_start k) (kernel_size k) (top pl) (segs pl) (stack pl) (offset pl)
    (start_state k pl mm).
Proof.
  intros Hm Hk Hmark Htop. constructor; try apply Hm; try apply Hk.
  - split; [done | apply Hm].
  - intros seg Hseg Ht n Hn. cbn [frames start_state].
    apply (kernel_frames_marked k pl); [apply Hm | done|].
    pose proof (ko_inside _ _ Hk seg Hseg Ht). pose proof (ko_segments _ _ Hk seg Hseg) as Hok. rewrite Ht in Hok.
    pose proof (lo_phys _ _ Hok). pose proof (lo_sizes _ _ Hok). unfold load_address in *. dlia.
Qed.

Lemma create_from_sorted es mm :
  Forall valid_e820 es -> (length es <= MAX_MEMORY_MAP_SIZE)%nat -> create_from es = Ret mm ->
  wf_map mm /\ start_sorted (slice mm).
Proof.
  intros Hv Hlen Heq. destruct (create_from_spec es Hv Hlen) as (mm' & rs & Heq' & Hw & _ & Hs & Hpr & Hsl).
  rewrite Heq in Heq'. injection Heq' as <-. split; [done|]. rewrite Hsl.
  destruct (cut_overlaps_shortened rs Hs Hpr) as [H2 _]. by eapply start_sorted_shortened.
Qed.

(** The parts of [bootloader_main] before the frame allocator. *)
Lemma memory_marked k pl :
  memory_ok k pl ->
  (0 <= top pl /\ forall n, owners n (firmware_map pl) <> [] -> 4096 * n + 4096 <= top pl) /\
  exists mm, mark_boot_regions (kernel_start k) (kernel_size k) (page_table_start k) (page_table_end k)
      (bootloader_start k) (bootloader_end k) (firmware_map pl) = Ret mm /\
    ready (start_state k pl mm) /\
    (entries_used mm <= entries_used (firmware_map pl) + 12)%nat /\
    forall f, owners f mm = marked_owner (used_regions k) f (owners f (firmware_map pl)).
Proof.
  intros [[Hv Hlen] Hmap Hd Hm He [Htop _] [Hk1 Hk2] Ht Hb].
  destruct (create_from_sorted _ _ Hv Hlen Hmap) as [Hw Hs]. split.
  - destruct (max_phys_addr_spec (firmware_map pl) Hw) as (t & Heq & Hr & Hle).
    + intros Hnil. destruct Hm as [_ Hall]. unfold used_regions, boot_regions in Hall.
      apply Forall_cons in Hall as [(_ & _ & (q & Hq & _)) _]. by rewrite Hnil in Hq.
    + rewrite Htop in Heq. injection Heq as <-. split; [lia | done].
  - destruct (mark_boot_regions_ok (kernel_start k) (kernel_size k) (page_table_start k) (page_table_end k)
      (bootloader_start k) (bootloader_end k) (firmware_map pl)) as (mm & Heq & Hw' & Hd' & _ & Hn & Hex);
      try done; [unfold SIZE_2M in *; lia|].
    by exists mm.
Qed.

(** What [bootloader_main] needs of the machine it runs on. *)
Record bootable (k : Machine) (pl : Plan) : Prop := {
  bt_memory : memory_ok k pl;
  bt_kernel : kernel_ok k pl;
  bt_plan : plan_chosen k pl;
  bt_layout : layout_free k pl;
}.

(** Usable frames and entries of the memory map that loading and mapping take. *)
Definition room (k : Machine) (pl : Plan) : nat := boot_room (config k) (top pl) (segs pl).

Definition entry_room (k : Machine) (pl : Plan) : nat :=
  boot_entries (config k) (top pl) (segs pl) (stack pl) (offset pl).

(** What holds when the kernel is entered. *)
Record entered (k : Machine) (pl : Plan) (mm : MemoryMap) (e : Entered) : Prop := {
  en_booted : booted (config k) (kernel_start k) (top pl) (segs pl) (recursive pl) (info_page pl)
    (stack pl) (offset pl) (handoff e) (start_state k pl mm) (machine e);
  en_ready : ready (machine e);
  en_left : (length (usable_numbers mm) <= length (usable_numbers (frames (machine e))) + room k pl)%nat;
  en_entry : virt_as_u64 (entry_point e) = kernel_entry pl;
  en_nxe : Z.testbit (efer (registers e)) 11 = true;
  en_protect : Z.testbit (cr0 (registers e)) 16 = true;
}.

Lemma registers_set regs :
  let regs := enable_write_protect_bit (enable_nxe_bit regs) in
  let regs := if sse then enable_sse regs else regs in
  Z.testbit (efer regs) 11 = true /\ Z.testbit (cr0 regs) 16 = true.
Proof.
  destruct sse; cbn [efer cr0 enable_sse enable_write_protect_bit enable_nxe_bit];
    rewrite ?Z.lor_spec, ?Z.ldiff_spec, ?Z.lor_spec, !Z.pow2_bits_eqb by lia; cbn; by rewrite ?orb_true_r.
Qed.

Lemma run_bootloader_spec k pl regs screen :
  bootable k pl ->
  exists mm, (entries_used mm <= entries_used (firmware_map pl) + 12)%nat /\
    (forall f, owners f mm = marked_owner (used_regions k) f (owners f (firmware_map pl))) /\
    match run_bootloader k regs screen with
    | Ret e => entered k pl mm e
    | Panic why =>
        why = map_full /\ (MAX_MEMORY_MAP_SIZE < entries_used mm + entry_room k pl)%nat \/
        (length (usable_numbers mm) <= room k pl)%nat
    end.
Proof.
  intros [Hm Hk (used0 & used & used1 & used2 & H0 & H1 & H2 & H3 & H4) Hl].
  destruct (memory_marked k pl Hm) as [[Htop _] (mm & Hmark & Hs & Hn & Hown)]. exists mm. do 2 (split; [done|]).
  unfold run_bootloader, bootloader_main.
  rewrite (mo_map _ _ Hm). cbn [mbind outcome_bind]. rewrite (proj1 (mo_top _ _ Hm)). cbn [mbind outcome_bind].
  rewrite (ko_elf _ _ Hk). cbn [mbind outcome_bind]. rewrite H0. cbn [mbind outcome_bind].
  rewrite H1. cbn [mbind outcome_bind].
  destruct (recursive_new (recursive pl) (tables k)) as (-> & _). cbn [expect_ok mbind outcome_bind].
  rewrite Hmark. cbn [mbind outcome_bind]. fold (start_state k pl mm).
  pose proof (proceeds_boot_kernel (config k) (kernel_start k) (kernel_size k) (top pl) (segs pl) (recursive pl)
    (info_page pl) (stack pl) (offset pl) used used1 used2 (start_state k pl mm) Hs
    (start_inputs k pl mm Hm Hk Hown Htop) (layout_free_clear k pl mm Hl) H2 H3 H4) as Hrun.
  unfold completes in Hrun. destruct (boot_kernel _ _ _ _ _ _ _ _) as [[[h|[]] s']|why];
    cbn [mbind outcome_bind]; [|done].
  destruct Hrun as (Hr & Hleft & Hb). destruct (VirtAddr_new_canonical _ (ko_entry _ _ Hk)) as (ep & -> & Hep).
  cbn [mbind outcome_bind]. pose proof (registers_set regs) as [Hnx Hp]. by constructor.
Qed.

(** *** Enough memory *)

Definition frame_total (rs : list MemoryRegion) : nat := length (concat (map region_numbers rs)).

(** Marking takes no more usable frames than the ranges have. *)
Lemma marked_usable rs mm mm' :
  disjoint_map mm -> (forall f, owners f mm' = marked_owner rs f (owners f mm)) ->
  (length (usable_numbers mm) <= length (usable_numbers mm') + frame_total rs)%nat.
Proof.
  intros Hd Hown. pose proof (NoDup_usable_list (slice mm) Hd) as Hnd.
  assert (usable_numbers mm ⊆+ usable_numbers mm' ++ concat (map region_numbers rs)) as Hsub.
  { apply NoDup_submseteq; [done|]. intros n Hn%elem_of_usable_numbers. apply elem_of_app.
    destruct (List.find (contains n) rs) as [q|] eqn:Hf.
    - right. apply List.find_some in Hf as [Hq Hc]. apply list_elem_of_In, in_concat.
      exists (region_numbers q). split; [by apply in_map|]. by apply list_elem_of_In, elem_of_region_numbers.
    - left. apply elem_of_usable_numbers. rewrite Hown. unfold marked_owner. by rewrite Hf. }
  apply submseteq_length in Hsub. by rewrite length_app in Hsub.
Qed.

(** A frame in use that the bootloader's map still has when the kernel starts. *)
Lemma bi_never_hands_out mm n ks self' f :
  wf_map mm -> Z.of_nat n < 2 ^ 64 ->
  bi_allocate_n n (BootInfoFrameAllocator_init (sort mm)) = Ret (ks, self') ->
  Usable ∉ owners f mm -> f ∉ handed_out ks.
Proof.
  intros Hw Hn Heq Hf Hin. destruct (bi_allocate_n_handed_out n (sort mm) (sort_wf mm Hw) Hn) as (ks' & s' & Heq' & _ & Hout).
  rewrite Heq in Heq'. injection Heq' as <- <-. rewrite Hout in Hin. apply elem_of_take in Hin as (j & Hj & _).
  apply list_elem_of_lookup_2, elem_of_usable_numbers in Hj. rewrite (sort_owners _ _ Hw) in Hj. done.
Qed.

(** The frame at byte [i] of a segment. *)
Definition segment_frame (e : Entered) (seg : ProgramHeader64) (i : Z) (f : PhysFrame) : Prop :=
  exists p fl, page_number p = (virtual_addr seg + i) / 4096 /\ tr (machine e) p = Some (f, fl).

Lemma segment_frame_kernel k pl mm e seg i f :
  entered k pl mm e -> In seg (segs pl) -> get_type seg = Ok Load -> 0 <= i < mem_size seg ->
  segment_frame e seg i f -> owners (frame_number f) (frames (machine e)) = [Kernel].
Proof.
  intros He Hseg Ht Hi (p & fl & Hp & Hf).
  destruct (bo_loaded _ _ _ _ _ _ _ _ _ _ _ (en_booted _ _ _ _ He) seg Hseg Ht i Hi) as (q & g & Hq & Hg & Ho & _).
  assert (p = q) as <- by (apply page_number_inj; congruence). congruence.
Qed.
End bootloader.
