(* ===== verification/BootLayout.v ===== *)
(** * Where the bootloader puts things

    Without configured addresses [bootloader_main] takes entries of the level 4
    table that [UsedLevel4Entries] has free: one for the recursive mapping, one
    for the boot information and the stack, and as many as the physical memory
    needs.  What it maps is then disjoint, and free in the page table it starts
    with. *)

From Stdlib Require Import Lia.
From stdpp Require Import base decidable strings numbers list.
From S2P Require Import Prelude UnstableSort MemoryMap X86 X86Huge FrameAllocator EntryCost BootRegions Level4.
From S2P Require Import Memory Paging BuildConfig BootInfo PageTable BootPaging KernelLoad KernelMapping TableBudget Printer.
From S2P Require Import BootMain BootSteps Boot Bootloader.

Open Scope Z_scope.

(** ** Entries *)

(** The entries [UsedLevel4Entries::new] marks. *)
Definition entry_used (segs : list ProgramHeader64) (i : nat) : Prop :=
  i = 0%nat \/ exists s, s ∈ segs /\
    (l4_index (virtual_addr s) <= i <= l4_index (virtual_addr s + mem_size s))%nat.

Lemma sign_extend48_low z : sign_extend48 z < 2 ^ 47 -> 0 <= z -> sign_extend48 z = z /\ z < 2 ^ 47.
Proof. unfold sign_extend48. destruct (Z.ltb_spec z (2 ^ 47)); lia. Qed.

Section entries.
Context {X : X86Phys} {V : X86Virt} {VL : X86VirtLaws V} {HG : X86Huge X V} {HL : X86HugeLaws HG}.

Lemma level4_number p : 0 <= page_number p < 2 ^ 35 -> level4 p = page_number p / 2 ^ 27.
Proof.
  intros Hp. unfold level4. rewrite p4_index_bits. fold (page_addr p). rewrite page_addr_number. dlia.
Qed.

Lemma level4_first q : 0 <= page2_addr q < 2 ^ 47 -> level4 (first_page q) = page2_addr q / 2 ^ 39.
Proof.
  intros Hq. unfold level4, first_page, page2_addr in *. rewrite containing_p4_index. dlia.
Qed.

Lemma huge_of_number p : page2_addr (huge_of p) = base2 (4096 * page_number p).
Proof. by rewrite huge_of_base, page_addr_number. Qed.

Lemma level4_huge_of p : 0 <= page_number p < 2 ^ 35 -> level4 (first_page (huge_of p)) = level4 p.
Proof.
  intros Hp. rewrite (level4_number p) by done. rewrite level4_first by (rewrite huge_of_number; unfold base2, SIZE_2M; dlia).
  rewrite huge_of_number. unfold base2, SIZE_2M. dlia.
Qed.

Lemma segment_entry seg p :
  0 < virtual_addr seg -> virtual_addr seg + mem_size seg < 2 ^ 47 -> segment_pages seg p ->
  0 <= page_number p < 2 ^ 35 /\
  (l4_index (virtual_addr seg) <= Z.to_nat (level4 p) <= l4_index (virtual_addr seg + mem_size seg))%nat.
Proof.
  intros H0 Hlt Hp. unfold segment_pages, in_pages in Hp.
  assert (0 <= page_number p < 2 ^ 35) as Hr by dlia. split; [done|]. rewrite level4_number by done.
  unfold l4_index. split; apply Z2Nat.inj_le; dlia.
Qed.

Lemma temp_entry p : is_temp p -> 0 <= page_number p < 2 ^ 35 /\ level4 p = 31.
Proof.
  unfold is_temp, temp_page_number. intros Hp. assert (0 <= page_number p < 2 ^ 35) by lia.
  split; [done|]. rewrite level4_number, Hp by done. reflexivity.
Qed.
End entries.

(** ** The choice *)

Section choice.
Context {B : Build} {SORT : UnstableSort} {SL : UnstableSortLaws SORT}.
Context {X : X86Phys} {XL : X86PhysLaws X} {V : X86Virt} {VL : X86VirtLaws V}.
Context {HG : X86Huge X V} {HL : X86HugeLaws HG} {ELF : XmasElf}.
Context {M : Type} {MP : Mapper M} {RM : Recursive M} {BT : BootTable M}.
Context {ER : ElfReader} {L : BootInfoLayout} {FT : Features}.

(** No addresses are configured. *)
Definition default_config (C : Constants) : Prop :=
  PHYSICAL_MEMORY_OFFSET C = None /\ KERNEL_STACK_ADDRESS C = None /\ BOOT_INFO_ADDRESS C = None.

(** The entries of the recursive mapping, of the boot information, and the [no]
    entries from [io] on of the physical memory. *)
Record chosen (pl : Plan) (ir ib io no : nat) : Prop := {
  ch_recursive : index_as_u64 (recursive pl) = Z.of_nat ir;
  ch_info : page_addr (info_page pl) = sign_extend48 (Z.of_nat ib * 2 ^ 39);
  ch_offset : map_physical_memory = true ->
    offset pl = sign_extend48 (Z.of_nat io * 2 ^ 39) /\ Z.of_nat no = (top pl + (LEVEL_4_SIZE - 1)) / LEVEL_4_SIZE;
  ch_apart : ir <> ib /\ (map_physical_memory = true -> forall i, (io <= i < io + no)%nat -> i <> ir /\ i <> ib);
  ch_unused : forall i, i = ir \/ i = ib \/ map_physical_memory = true /\ (io <= i < io + no)%nat ->
    ~ entry_used (segs pl) i;
}.

(** Entries taken from a set are no longer free in it. *)
Lemma run_was_free num used used' idx i :
  free_run used idx (Z.to_nat num) -> taken (fun j => idx <= j < idx + Z.to_nat num)%nat used used' ->
  ((idx <= i < idx + Z.to_nat num)%nat -> is_used used' i /\ ~ is_used used i) /\
  (is_used used i -> is_used used' i).
Proof.
  intros Hf Ht. destruct (Ht i) as [Ht1 Ht2]. split.
  - intros Hi. split; [by apply Ht1|]. unfold is_used. specialize (Hf i Hi).
    unfold is_free in Hf. congruence.
  - intros Hu. destruct (decide (idx <= i < idx + Z.to_nat num)%nat); [auto|]. unfold is_used. by rewrite Ht2.
Qed.

Lemma zero_index : exists z, PageTableIndex_new 0 = Ret z /\ index_as_u64 z = 0.
Proof. apply PageTableIndex_new_ok. lia. Qed.

Lemma info_addr i z :
  index_as_u64 z = 0 -> page_addr (from_page_table_indices i z z z) = sign_extend48 (index_as_u64 i * 2 ^ 39).
Proof. intros Hz. unfold page_addr. rewrite from_indices. unfold index. rewrite Hz. f_equal. lia. Qed.

Lemma plan_entries (k : Machine (M := M)) pl :
  default_config (config k) -> Forall valid_segment (segs pl) -> 0 <= top pl < 2 ^ 52 -> plan_chosen k pl ->
  exists ir ib io no, chosen pl ir ib io no /\ page_add (info_page pl) 1 = Ret (stack pl).
Proof.
  intros (Ho & Hst & Hbi) Hv Htop (used0 & used & used1 & used2 & H0 & H1 & H2 & H3 & H4).
  destruct (new_spec (segs pl) Hv) as (u & Heq & Hw & Hm). rewrite H0 in Heq. injection Heq as <-.
  destruct (get_free_entries_Ret 1 used0 _ _ Hw ltac:(lia) H1) as (ir & Hir & Hlr & Hfr & Hw1 & Htr).
  unfold choose_boot_info_page in H2. rewrite Hbi in H2.
  apply bind_Ret_inv in H2 as ([bi ub] & Hgb & H2). destruct zero_index as (z & Hz & Hz0).
  rewrite Hz in H2. cbn in H2. injection H2 as Hinfo <-.
  destruct (get_free_entries_Ret 1 used _ _ Hw1 ltac:(lia) Hgb) as (ib & Hib & Hlb & Hfb & Hw2 & Htb).
  unfold choose_stack in H3. rewrite Hst in H3.
  assert (forall i, (i < LEVEL_4_ENTRIES)%nat -> entry_used (segs pl) i -> is_used used0 i) as Hue by
    (intros i Hi Hu; by apply Hm).
  pose proof (fun i => run_was_free _ _ _ _ i Hfr Htr) as Hr. pose proof (fun i => run_was_free _ _ _ _ i Hfb Htb) as Hb.
  change (Z.to_nat 1) with 1%nat in *.
  assert (page_addr (info_page pl) = sign_extend48 (Z.of_nat ib * 2 ^ 39)) as Hia.
  { rewrite <-Hinfo, info_addr by done. by rewrite Hib. }
  assert (ir <> ib) as Hne.
  { intros <-. destruct (proj1 (Hr ir) ltac:(lia)), (proj1 (Hb ir) ltac:(lia)). done. }
  assert (forall i, i = ir \/ i = ib -> ~ entry_used (segs pl) i) as Hun.
  { intros i [-> | ->] Hu.
    - apply Hue in Hu; [|lia]. by destruct (proj1 (Hr ir) ltac:(lia)).
    - apply Hue in Hu; [|lia]. destruct (proj1 (Hb ib) ltac:(lia)) as [_ Hn]. by apply Hn, Hr. }
  unfold choose_offset in H4. rewrite Ho in H4. destruct map_physical_memory eqn:Hmap.
  2: { exists ir, ib, 0%nat, 0%nat. split; [|done].
       constructor; [done | done | by rewrite Hmap | by rewrite Hmap | rewrite Hmap].
       intros i [? | [? | [? _]]]; [apply Hun; auto.. | done]. }
  specialize (H4 eq_refl). rewrite u64_add_ok in H4 by (unfold LEVEL_4_SIZE; arith). cbn [mbind outcome_bind] in H4.
  apply bind_Ret_inv in H4 as ([oi uo] & Hgo & H4). rewrite Hz in H4. cbn in H4. injection H4 as Hoff <-.
  set (n := (top pl + (LEVEL_4_SIZE - 1)) / LEVEL_4_SIZE) in *.
  assert (0 <= n) as Hn0 by (unfold n, LEVEL_4_SIZE; dlia).
  assert (0 < n) as Hn.
  { destruct (Z.eq_dec n 0) as [E|]; [|lia]. rewrite E in Hgo. done. }
  destruct (get_free_entries_Ret n ub _ _ Hw2 Hn Hgo) as (io & Hio & Hlo & Hfo & _ & Hto).
  pose proof (fun i => run_was_free _ _ _ _ i Hfo Hto) as Hop.
  exists ir, ib, io, (Z.to_nat n). split; [|done]. constructor; rewrite ?Hmap; try done.
  - intros _. rewrite Z2Nat.id by done. split; [|done]. rewrite <-Hoff, from_indices_1gib. unfold index.
    rewrite Hz0, Hio. f_equal. lia.
  - split; [done|]. intros _ i Hi. destruct (proj1 (Hop i) Hi) as [_ Hnu]. split.
    + intros ->. apply Hnu, Hb. apply (proj1 (Hr ir)). lia.
    + intros ->. apply Hnu. apply (proj1 (Hb ib)). lia.
  - intros i [? | [? | [_ Hi]]]; [apply Hun; auto..|]. intros Hu. apply Hue in Hu; [|lia].
    destruct (proj1 (Hop i) Hi) as [_ Hnu]. by apply Hnu, Hb, Hr.
Qed.

(** ** The page table at the start *)

(** The assembly stages map nothing outside the first entry, and there the kernel
    file in 2 MiB pages; the kernel's own pages are free and needed once. *)
Record clean_start (k : Machine (M := M)) (pl : Plan) : Prop := {
  cs_pages : forall p, level4 p <> 0 -> translate (tables k) p = None /\ huge_parent (tables k) p = false;
  cs_huge : forall q, level4 (first_page q) <> 0 ->
    occupied2 (tables k) q = false /\ huge_parent2 (tables k) q = false;
  cs_file : phys_as_u64 (kernel_start k) + kernel_size k <= 2 ^ 39 /\
    forall q, file_page k q -> is_Some (translate2 (tables k) q);
  cs_segments : forall p, in_some (segment_areas (segs pl)) p ->
    translate (tables k) p = None /\ (huge_parent (tables k) p = false \/ file_page k (huge_of p)) /\
    ~ shared (segment_areas (segs pl)) p;
}.

(** Sizes that fit: the stack in its entry, the physical memory in those counted
    for it, and the entry of the temporary page not taken. *)
Record sizes_ok (k : Machine (M := M)) (pl : Plan) : Prop := {
  so_stack : KERNEL_STACK_SIZE (config k) + 2 < 2 ^ 27;
  so_top : map_physical_memory = true -> top pl mod LEVEL_4_SIZE <> 0;
  so_temp : index_as_u64 (recursive pl) <> 31 /\ level4 (info_page pl) <> 31 /\
    (map_physical_memory = true -> ~ offset pl / 2 ^ 39 <= 31 <= (offset pl + top pl) / 2 ^ 39);
}.

Section fixed.
Context (k : Machine (M := M)) (pl : Plan) (ir ib io no : nat).
Hypothesis Hch : chosen pl ir ib io no.
Hypothesis Hstack : page_add (info_page pl) 1 = Ret (stack pl).
Hypothesis Hk : kernel_ok k pl.
Hypothesis Hclean : clean_start k pl.
Hypothesis Hsizes : sizes_ok k pl.
Hypothesis Htop : 0 <= top pl.

(** The boot information and the stack lie in entry [ib]. *)
Lemma info_number : page_number (info_page pl) = Z.of_nat ib * 2 ^ 27 /\ Z.of_nat ib < 2 ^ 8 /\
  page_number (stack pl) = page_number (info_page pl) + 1.
Proof.
  pose proof (ch_info _ _ _ _ _ Hch) as Hi. rewrite page_addr_number in Hi.
  destruct (ko_stack _ _ Hk) as [Hs0 Hs1]. pose proof (page_addr_number (stack pl)) as Hsa.
  assert (canonical (page_addr (info_page pl) + 4096 * 1)) as Hc.
  { pose proof (virt_canonical (page_start_address (info_page pl))) as Hc. fold (page_addr (info_page pl)) in Hc.
    rewrite page_addr_number in *. pose proof (ch_info _ _ _ _ _ Hch) as Hi'. rewrite page_addr_number in Hi'.
    unfold sign_extend48 in Hi'. unfold canonical in *. destruct (Z.ltb_spec (Z.of_nat ib * 2 ^ 39) (2 ^ 47)); dlia. }
  destruct (page_add_ok (info_page pl) 1 ltac:(lia) Hc) as (q & Hq & Hqa). rewrite Hstack in Hq. injection Hq as <-.
  fold (page_addr (stack pl)) (page_addr (info_page pl)) in Hqa. rewrite !page_addr_number in Hqa.
  assert (sign_extend48 (Z.of_nat ib * 2 ^ 39) < 2 ^ 47) as Hlow by lia.
  apply sign_extend48_low in Hlow as [Heq Hlt]; [|lia]. lia.
Qed.

Lemma info_level4 : level4 (info_page pl) = Z.of_nat ib.
Proof. destruct info_number as (Hn & Hlt & _). rewrite level4_number; [rewrite Hn; dlia | lia]. Qed.

Lemma stack_level4 p : stack_pages (stack pl) (KERNEL_STACK_SIZE (config k)) p ->
  0 <= page_number p < 2 ^ 35 /\ level4 p = Z.of_nat ib.
Proof.
  destruct info_number as (Hn & Hlt & Hs). unfold stack_pages, in_pages. intros Hp.
  pose proof (so_stack _ _ Hsizes). assert (0 <= page_number p < 2 ^ 35) by lia. split; [done|].
  rewrite level4_number by done. dlia.
Qed.

(** Pages of segments lie in entries in use, or in the entry of the temporary page. *)
Lemma segments_level4 p : in_some (segment_areas (segs pl)) p ->
  0 <= page_number p < 2 ^ 35 /\ 0 <= level4 p < 512 /\ (entry_used (segs pl) (Z.to_nat (level4 p)) \/ level4 p = 31).
Proof.
  intros (P & (seg & <- & Hseg)%in_map_iff & Hp). apply List.filter_In in Hseg as [Hseg Hl%is_load_iff].
  pose proof (index_range (p4_index p)) as Hr. fold (level4 p) in Hr.
  pose proof (ko_segments _ _ Hk seg Hseg) as Hok. rewrite Hl in Hok. pose proof (lo_virt _ _ Hok).
  destruct Hp as [Hp | [_ Hp]].
  - destruct (segment_entry seg p) as [H1 H2]; [lia | lia | done |]. split; [done|]. split; [done|]. left. right.
    exists seg. split; [by apply list_elem_of_In | done].
  - destruct (temp_entry p Hp) as [H1 H2]. auto.
Qed.

Lemma info_unused : ~ entry_used (segs pl) ib.
Proof. apply (ch_unused _ _ _ _ _ Hch). auto. Qed.

Lemma unused_nonzero i : ~ entry_used (segs pl) i -> i <> 0%nat.
Proof. intros H ->. apply H. by left. Qed.

(** The entries of the physical memory. *)
Lemma physical_level4 q : map_physical_memory = true -> in_physical (offset pl) (top pl) q ->
  0 <= page2_addr q < 2 ^ 47 /\
  exists i, level4 (first_page q) = Z.of_nat i /\ (io <= i < io + no)%nat /\ Z.of_nat i <> 31.
Proof.
  intros Hm Hq. destruct (ch_offset _ _ _ _ _ Hch Hm) as [Ho Hno]. destruct (ko_offset _ _ Hk Hm) as [Ho0 Ho1].
  pose proof (so_top _ _ Hsizes Hm) as Ht. destruct (so_temp _ _ Hsizes) as (_ & _ & H31). specialize (H31 Hm).
  assert (sign_extend48 (Z.of_nat io * 2 ^ 39) < 2 ^ 47) as Hlow by lia.
  apply sign_extend48_low in Hlow as [Heq Hlt]; [|lia]. rewrite Heq in Ho.
  unfold in_physical in Hq. rewrite Ho in *. clear Heq Ho.
  change LEVEL_4_SIZE with (2 ^ 39) in *.
  assert (base2 (Z.of_nat io * 2 ^ 39) = Z.of_nat io * 2 ^ 39) as Hbo by (unfold base2, SIZE_2M; dlia).
  rewrite Hbo in Hq. assert (0 <= base2 (top pl) <= top pl) as Hbt by (unfold base2, SIZE_2M; dlia).
  assert (0 <= page2_addr q < 2 ^ 47) as Hr by lia. split; [done|].
  exists (Z.to_nat (page2_addr q / 2 ^ 39)). rewrite level4_first by done.
  assert (Z.of_nat io <= page2_addr q / 2 ^ 39 <= Z.of_nat io + top pl / 2 ^ 39) as Hd by dlia.
  assert (Z.of_nat no = top pl / 2 ^ 39 + 1) as Hn by (rewrite Hno; dlia).
  rewrite Z2Nat.id by lia. split; [done|]. split; [lia|]. intros E. apply H31. dlia.
Qed.

(** Areas of the kernel: the entry of each of their pages. *)
Lemma areas_level4 p : in_some (plan_areas k pl) p ->
  0 <= page_number p < 2 ^ 35 /\ 0 <= level4 p < 512 /\
  (entry_used (segs pl) (Z.to_nat (level4 p)) \/ level4 p = 31 \/ level4 p = Z.of_nat ib).
Proof.
  unfold plan_areas, kernel_areas. rewrite in_some_app, in_some_singleton. intros [Hp|Hp].
  - apply segments_level4 in Hp. tauto.
  - destruct (stack_level4 p Hp) as [H1 H2]. pose proof (index_range (p4_index p)) as Hr. fold (level4 p) in Hr. auto.
Qed.

Lemma ib_vacant p : level4 p = Z.of_nat ib -> vacant k pl p.
Proof.
  intros Hp. pose proof (unused_nonzero _ info_unused). destruct (ch_apart _ _ _ _ _ Hch) as [Hne _].
  destruct (cs_pages _ _ Hclean p) as [Ht Hh]; [lia|]. unfold vacant.
  rewrite (ch_recursive _ _ _ _ _ Hch), Hp. split; [lia | auto].
Qed.

(** An entry in use is none of those chosen. *)
Lemma used_not_chosen z i : 0 <= z -> entry_used (segs pl) (Z.to_nat z) -> ~ entry_used (segs pl) i -> z <> Z.of_nat i.
Proof. intros Hz Hu Hn ->. by rewrite Nat2Z.id in Hu. Qed.

Lemma layout_of_choice : layout_free k pl.
Proof.
  destruct (so_temp _ _ Hsizes) as (Htr & Hti & _). rewrite info_level4 in Hti.
  pose proof (ch_recursive _ _ _ _ _ Hch) as Hrec. rewrite Hrec in Htr.
  destruct (ch_apart _ _ _ _ _ Hch) as [Hne Hnp].
  assert (~ entry_used (segs pl) ir) as Hunr by (apply (ch_unused _ _ _ _ _ Hch); auto).
  pose proof info_unused as Hunb. pose proof (unused_nonzero _ Hunr) as Hr0.
  assert (forall p, in_some (segment_areas (segs pl)) p -> level4 p <> Z.of_nat ib /\ level4 p <> Z.of_nat ir) as Hseg.
  { intros p Hp. destruct (segments_level4 p Hp) as (_ & [H0 _] & [Hu | ->]); [|lia].
    split; by eapply used_not_chosen. }
  constructor.
  - intros q Hq. destruct (cs_file _ _ Hclean) as [Hend Hs]. split; [|by apply Hs]. rewrite Hrec.
    unfold file_page, in_file in Hq. pose proof (phys_range (kernel_start k)).
    destruct (Z.le_gt_cases (page2_addr q) (2 ^ 39 - 1)) as [Hlt|Hge].
    + assert (0 <= page2_addr q) by (unfold base2, SIZE_2M in Hq; dlia).
      rewrite level4_first by lia. dlia.
    + exfalso. unfold base2, SIZE_2M in Hq. dlia.
  - split; [apply ib_vacant, info_level4|]. unfold plan_areas, kernel_areas. rewrite in_some_app, in_some_singleton.
    intros [Hp|Hp].
    + destruct (Hseg _ Hp) as [H _]. by apply H, info_level4.
    + unfold stack_pages, in_pages in Hp. destruct info_number as (_ & _ & ?). lia.
  - intros p Hp. unfold plan_areas, kernel_areas in *. rewrite in_some_app, in_some_singleton in Hp.
    rewrite shared_app. cbn [shared]. rewrite in_some_singleton. pose proof (in_some_nil p) as Hnil.
    destruct Hp as [Hp|Hp].
    + destruct (cs_segments _ _ Hclean p Hp) as (Ht & Hh & Hsh). destruct (Hseg p Hp) as [Hnb Hnr].
      split; [split; [by rewrite Hrec | done]|]. intros [? | [[[_ ?] | []] | [_ Hst]]]; [done.. |].
      by apply stack_level4 in Hst as [_ ?].
    + destruct (stack_level4 p Hp) as [_ Hl]. split; [by apply ib_vacant|].
      intros [Hsh | [[[_ ?] | []] | [Hs _]]]; [|done |].
      * assert (in_some (segment_areas (segs pl)) p) as Hs.
        { clear - Hsh. induction (segment_areas (segs pl)) as [|P l IH]; [done|].
          destruct Hsh as [[HP _] | Hsh]; [by exists P; split; [left|]|].
          destruct (IH Hsh) as (Q & HQ & HQp). exists Q. split; [by right | done]. }
        by destruct (Hseg p Hs) as [H _].
      * by destruct (Hseg p Hs) as [H _].
  - intros Hm q Hq. destruct (physical_level4 q Hm Hq) as (Hr & i & Hi & Hin & H31).
    destruct (Hnp Hm i Hin) as [Hnr Hnb].
    assert (~ entry_used (segs pl) i) as Hun by (apply (ch_unused _ _ _ _ _ Hch); auto).
    pose proof (unused_nonzero _ Hun) as Hi0. rewrite Hrec, Hi.
    destruct (cs_huge _ _ Hclean q) as [Hocc Hh]; [lia|].
    split; [lia|]. split; [done|]. split; [done|]. split; [|split].
    + intros Hf. unfold file_page, in_file in Hf. destruct (cs_file _ _ Hclean) as [Hend _].
      rewrite level4_first in Hi by done. clear - Hf Hend Hi Hi0. unfold base2, SIZE_2M in Hf. dlia.
    + intros <-. rewrite level4_huge_of, info_level4 in Hi; [lia|]. destruct info_number as (? & ? & _). lia.
    + intros p Hp <-. destruct (areas_level4 p Hp) as (Hpn & [H0 _] & Hcase). rewrite level4_huge_of in Hi by done.
      destruct Hcase as [Hu | [E|E]]; [|lia | lia]. by eapply used_not_chosen.
Qed.
End fixed.

Lemma default_layout k pl :
  default_config (config k) -> Forall valid_segment (segs pl) -> 0 <= top pl < 2 ^ 52 ->
  plan_chosen k pl -> kernel_ok k pl -> clean_start k pl -> sizes_ok k pl -> layout_free k pl.
Proof.
  intros Hc Hv Ht Hpl Hk Hcl Hs. destruct (plan_entries k pl Hc Hv Ht Hpl) as (ir & ib & io & no & Hch & Hst).
  eapply layout_of_choice; [exact Hch | exact Hst | done | done | done | lia].
Qed.

(** C12 (safety). Without configured addresses nothing the bootloader maps
    collides: when the page table it starts with maps nothing outside the first
    level 4 entry and the kernel's segments are free in it, then the recursive
    mapping, the boot information, the stack, the segments and the physical
    memory are all disjoint and free.  (The memory must not end at a multiple of
    512 GiB, and the entry of the temporary page must not be among those
    chosen.) *)
Theorem default_layout_free k pl :
  default_config (config k) -> Forall valid_segment (segs pl) -> 0 <= top pl < 2 ^ 52 ->
  plan_chosen k pl -> kernel_ok k pl -> clean_start k pl -> sizes_ok k pl -> layout_free k pl.
Proof. apply default_layout. Qed.
End choice.
