(* ===== verification/BootTheorems.v ===== *)
(** * Theorems about the bootloader and a machine it boots *)

From Stdlib Require Import Lia.
From stdpp Require Import base decidable strings numbers list.
From S2P Require Import Prelude UnstableSort MemoryMap X86 X86Huge FrameAllocator EntryCost BootRegions Level4.
From S2P Require Import Memory Paging BuildConfig BootInfo PageTable BootPaging KernelLoad KernelMapping TableBudget Printer.
From S2P Require Import BootMain BootSteps Boot Bootloader BootLayout.

Open Scope Z_scope.

Section properties.
Context {B : Build} {SORT : UnstableSort} {SL : UnstableSortLaws SORT}.
Context {X : X86Phys} {XL : X86PhysLaws X} {V : X86Virt} {VL : X86VirtLaws V}.
Context {HG : X86Huge X V} {HL : X86HugeLaws HG} {ELF : XmasElf}.
Context {M : Type} {MP : Mapper M} {RM : Recursive M} {RL : RecursiveLaws M}.
Context {BT : BootTable M} {BTL : BootTableLaws M}.
Context {ER : ElfReader} {L : BootInfoLayout} {LL : BootInfoLayoutLaws L} {FT : Features}.

(** C4 (functional). The bootloader on a bootable machine enters the kernel with
    its segments loaded, a stack of its own, the boot information in its page,
    the physical memory mapped, the marked ranges out of the usable memory and
    the no-execute and write-protect bits set; or it panics because the memory
    map is full or there are too few usable frames, and for no other reason. *)
Theorem bootloader_boots k pl regs screen :
  bootable k pl ->
  exists mm, (entries_used mm <= entries_used (firmware_map pl) + 12)%nat /\
    (forall f, owners f mm = marked_owner (used_regions k) f (owners f (firmware_map pl))) /\
    match run_bootloader k regs screen with
    | Ret e => entered k pl mm e
    | Panic why =>
        why = map_full /\ (MAX_MEMORY_MAP_SIZE < entries_used mm + entry_room k pl)%nat \/
        (length (usable_numbers mm) <= room k pl)%nat
    end.
Proof. apply run_bootloader_spec. Qed.

Lemma enough_room k pl regs screen :
  bootable k pl ->
  (entries_used (firmware_map pl) + 12 + entry_room k pl <= MAX_MEMORY_MAP_SIZE)%nat ->
  (room k pl + frame_total (used_regions k) < length (usable_numbers (firmware_map pl)))%nat ->
  exists e mm, run_bootloader k regs screen = Ret e /\ entered k pl mm e.
Proof.
  intros Hb Hent Hfr. destruct (run_bootloader_spec k pl regs screen Hb) as (mm & Hn & Hown & Hrun).
  pose proof (marked_usable (used_regions k) (firmware_map pl) mm (mo_disjoint _ _ (bt_memory _ _ Hb)) Hown).
  destruct (run_bootloader k regs screen) as [e|why]; [by exists e, mm | lia].
Qed.

(** C13 (termination). With enough free entries in the memory map and enough
    usable frames beside the ranges in use, the bootloader reaches the kernel.
    The entries: three for each of the four ranges that are marked, two for each
    page table that may be new, three, and one for each usable region. *)
Theorem bootloader_enters_kernel k pl regs screen :
  bootable k pl ->
  (entries_used (firmware_map pl) + 12 + entry_room k pl <= MAX_MEMORY_MAP_SIZE)%nat ->
  (room k pl + frame_total (used_regions k) < length (usable_numbers (firmware_map pl)))%nat ->
  exists e mm, run_bootloader k regs screen = Ret e /\ entered k pl mm e.
Proof. apply enough_room. Qed.

(** Frame [n] holds a byte of a segment, a page of the stack, the boot
    information, or something that was in use before. *)
Definition in_use (k : Machine (M := M)) (pl : Plan) (e : Entered) (n : Z) : Prop :=
  (exists seg i f, In seg (segs pl) /\ get_type seg = Ok Load /\ 0 <= i < mem_size seg /\
     segment_frame e seg i f /\ frame_number f = n) \/
  (exists p f fl, (stack_pages (stack pl) (KERNEL_STACK_SIZE (config k)) p \/ p = info_page pl) /\
     tr (machine e) p = Some (f, fl) /\ frame_number f = n) \/
  List.find (contains n) (used_regions k) <> None.

Lemma used_region_type (k : Machine (M := M)) r : In r (used_regions k) -> region_type r <> Usable.
Proof. unfold used_regions, boot_regions, frames_of. intros Hin. repeat destruct Hin as [<- | Hin]; done. Qed.

Lemma in_use_not_usable k pl mm e n :
  (forall f, owners f mm = marked_owner (used_regions k) f (owners f (firmware_map pl))) ->
  entered k pl mm e -> in_use k pl e n -> Usable ∉ owners n (frames (machine e)).
Proof.
  intros Hown He Huse. pose proof (en_booted _ _ _ _ He) as Hbo.
  assert (forall t, owners n (frames (machine e)) = [t] -> t <> Usable -> Usable ∉ owners n (frames (machine e))) as Hno.
  { intros t -> Ht. rewrite list_elem_of_singleton. congruence. }
  destruct Huse as [(seg & i & f & Hseg & Ht & Hi & Hf & <-) | [(p & f & fl & Hp & Hf & <-) | Hq]].
  - by eapply Hno; [eapply segment_frame_kernel|].
  - destruct Hp as [Hp | ->].
    + destruct (bo_stack _ _ _ _ _ _ _ _ _ _ _ Hbo p Hp) as (g & Hg & _ & Ho).
      rewrite Hg in Hf. injection Hf as <- _. by eapply Hno.
    + destruct (bo_info_page _ _ _ _ _ _ _ _ _ _ _ Hbo) as (g & Hg & [_ Ho] & _).
      rewrite Hg in Hf. injection Hf as <- _. by eapply Hno.
  - destruct (List.find (contains n) (used_regions k)) as [q|] eqn:Hfind; [|done].
    assert (region_type q <> Usable) as Ht by (apply List.find_some in Hfind as [? _]; by eapply used_region_type).
    apply (Hno (region_type q)); [|done]. rewrite (consumed_kept _ _ n (bo_frames _ _ _ _ _ _ _ _ _ _ _ Hbo));
      cbn [frames start_state]; rewrite Hown; unfold marked_owner; rewrite Hfind; congruence.
Qed.

(** C5 (safety). From power on to the kernel's own allocations: none of the
    frames [BootInfoFrameAllocator] hands out of the boot information holds a
    byte of a segment, a page of the stack, the boot information, or one of the
    ranges that were in use before (the first frame, the bootloader, the kernel
    file, the page tables). *)
Theorem kernel_memory_is_safe k pl regs screen e n :
  bootable k pl -> run_bootloader k regs screen = Ret e -> Z.of_nat n < 2 ^ 64 ->
  exists ks self',
    bi_allocate_n n (BootInfoFrameAllocator_init (memory_map (boot_info (handoff e)))) = Ret (ks, self') /\
    (forall seg i f, In seg (segs pl) -> get_type seg = Ok Load -> 0 <= i < mem_size seg ->
       segment_frame e seg i f -> frame_number f ∉ handed_out ks) /\
    (forall p f fl, stack_pages (stack pl) (KERNEL_STACK_SIZE (config k)) p \/ p = info_page pl ->
       tr (machine e) p = Some (f, fl) -> frame_number f ∉ handed_out ks) /\
    forall f, List.find (contains f) (used_regions k) <> None -> f ∉ handed_out ks.
Proof.
  intros Hb Hrun Hn. destruct (run_bootloader_spec k pl regs screen Hb) as (mm & _ & Hown & He).
  rewrite Hrun in He. destruct (en_ready _ _ _ _ He) as [Hw Hd].
  rewrite (bo_info_map _ _ _ _ _ _ _ _ _ _ _ (en_booted _ _ _ _ He)).
  destruct (bi_allocate_n_handed_out n (sort (frames (machine e))) (sort_wf _ Hw) Hn) as (ks & self' & Hk & _).
  exists ks, self'. split; [done|].
  assert (forall f, in_use k pl e f -> f ∉ handed_out ks) as Hno.
  { intros f Hf. eapply bi_never_hands_out; [exact Hw | exact Hn | exact Hk | by eapply in_use_not_usable]. }
  split; [|split].
  - intros seg i f Hseg Ht Hi Hf. apply Hno. left. by exists seg, i, f.
  - intros p f fl Hp Hf. apply Hno. right. left. by exists p, f, fl.
  - intros f Hf. apply Hno. by right; right.
Qed.

Lemma physical_memory_spec k pl regs screen e :
  bootable k pl -> map_physical_memory = true -> run_bootloader k regs screen = Ret e ->
  physical_memory_offset (boot_info (handoff e)) = offset pl /\
  (forall x, 0 <= x -> x + offset pl mod SIZE_2M < base2 (top pl) + SIZE_2M ->
     exists q f, page2_addr q = base2 (offset pl + x) /\
       translate2 (page_table (machine e)) q = Some (f, physical_flags) /\
       frame2_addr f + (offset pl + x) mod SIZE_2M = x + offset pl mod SIZE_2M) /\
  forall n, owners n (firmware_map pl) <> [] -> 4096 * n + 4096 <= top pl.
Proof.
  intros Hb Hm Hrun. destruct (run_bootloader_spec k pl regs screen Hb) as (mm & _ & _ & He).
  rewrite Hrun in He. pose proof (en_booted _ _ _ _ He) as Hbo.
  split; [by apply (bo_info_offset _ _ _ _ _ _ _ _ _ _ _ Hbo)|].
  split; [|by apply (memory_marked k pl (bt_memory _ _ Hb))].
  intros x Hx Hlt. pose proof (Z.mod_pos_bound (offset pl) SIZE_2M ltac:(unfold SIZE_2M; lia)).
  destruct (bo_physical _ _ _ _ _ _ _ _ _ _ _ Hbo Hm (x + offset pl mod SIZE_2M)) as (q & f & Hq & Hf & Ht); [lia|].
  exists q, f. split; [|split; [done|]].
  - rewrite Hq. clear. unfold base2, SIZE_2M. dlia.
  - rewrite Hf. clear. unfold base2, SIZE_2M. dlia.
Qed.

(** C14 (functional). The physical memory: the boot information says the offset
    that was chosen, and the virtual address [offset + x] refers to the physical
    address [x], shifted by as much as the offset is away from a multiple of
    2 MiB.  All frames of the firmware's map can be reached this way. *)
Theorem physical_memory_at_offset k pl regs screen e :
  bootable k pl -> map_physical_memory = true -> run_bootloader k regs screen = Ret e ->
  physical_memory_offset (boot_info (handoff e)) = offset pl /\
  (forall x, 0 <= x -> x + offset pl mod SIZE_2M < base2 (top pl) + SIZE_2M ->
     exists q f, page2_addr q = base2 (offset pl + x) /\
       translate2 (page_table (machine e)) q = Some (f, physical_flags) /\
       frame2_addr f + (offset pl + x) mod SIZE_2M = x + offset pl mod SIZE_2M) /\
  forall n, owners n (firmware_map pl) <> [] -> 4096 * n + 4096 <= top pl.
Proof. apply physical_memory_spec. Qed.

(** What is in use is in memory the firmware reported, *)
Lemma used_in_memory (k : Machine (M := M)) pl r n :
  memory_ok k pl -> In r (used_regions k) -> contains n r = true -> owners n (firmware_map pl) <> [].
Proof.
  intros Hm Hr Hn%contains_spec. destruct (mo_markable _ _ Hm) as [_ Hall]. rewrite List.Forall_forall in Hall.
  destruct (Hall r Hr) as (_ & _ & q & Hq & _ & Hs & He). intros Hnil.
  assert (region_type q ∈ owners n (firmware_map pl)) as Hin; [|rewrite Hnil in Hin; by apply not_elem_of_nil in Hin].
  apply kinds_intro; [by apply list_elem_of_In|]. apply contains_spec. lia.
Qed.

(** and so are the page tables. *)
Lemma table_in_memory (k : Machine (M := M)) pl n :
  memory_ok k pl -> phys_as_u64 (page_table_start k) <= 4096 * n < phys_as_u64 (page_table_end k) ->
  owners n (firmware_map pl) <> [].
Proof.
  intros Hm Hn. eapply used_in_memory; [done | unfold used_regions, boot_regions; cbn; eauto 6|].
  apply contains_spec. unfold frames_of, rstart, rend. cbn. dlia.
Qed.

(** C15 (functional). The kernel finds the page table the bootloader built: with
    an offset that is a multiple of 2 MiB, the address [active_level_4_table]
    computes from the offset in the boot information and the page table register
    is mapped writable to the active level 4 table. *)
Theorem kernel_finds_page_table (k : Machine (M := M)) pl regs screen e cr3 off :
  bootable k pl -> map_physical_memory = true -> run_bootloader k regs screen = Ret e ->
  offset pl mod SIZE_2M = 0 -> frame_start_address cr3 = root (tables k) ->
  phys_as_u64 (page_table_start k) <= phys_as_u64 (root (tables k)) < phys_as_u64 (page_table_end k) ->
  virt_as_u64 off = physical_memory_offset (boot_info (handoff e)) ->
  exists a f, active_level_4_table cr3 off = Ret a /\
    translate2 (page_table (machine e)) (page2_containing_address a) = Some (f, physical_flags) /\
    frame2_addr f + virt_as_u64 a mod SIZE_2M = phys_as_u64 (root (tables k)).
Proof.
  intros Hb Hm Hrun Hal Hcr Hrange Hoff.
  destruct (physical_memory_spec k pl regs screen e Hb Hm Hrun) as (Hinfo & Hphys & Htop).
  rewrite Hinfo in Hoff. rewrite <-Hcr in *. rewrite frame_start_number in *.
  pose proof (Htop _ (table_in_memory k pl _ (bt_memory _ _ Hb) Hrange)) as Hle.
  destruct (ko_offset _ _ (bt_kernel _ _ Hb) Hm) as [Ho0 Ho1]. pose proof (frame_number_range cr3).
  assert (top pl < base2 (top pl) + SIZE_2M) as Hbase by (unfold base2, SIZE_2M; dlia).
  destruct (virt_add_ok off (4096 * frame_number cr3)) as (a & Ha & Hav); [lia | unfold canonical; lia|].
  destruct (Hphys (4096 * frame_number cr3)) as (q & f & Hq & Ht & Hf); [lia | lia|].
  exists a, f. unfold active_level_4_table. rewrite frame_start_number. split; [done|].
  assert (page2_containing_address a = q) as ->.
  { apply page2_inj. rewrite page2_containing, Hav, Hoff, Hq. done. }
  split; [done|]. rewrite Hav, Hoff. lia.
Qed.
End properties.

(** ** A machine *)

#[local] Instance checked : Build := true.

(** The feature the kernel asks for. *)
#[local] Instance kernel_features : Features := {| map_physical_memory := true; recursive_page_table := false; sse := false |}.

(** An ELF64 reader: fields are little endian. *)
Definition le_at (bytes : list Z) (at_ n : Z) : Z :=
  foldr (fun b acc => b + 256 * acc) 0 (take (Z.to_nat n) (drop (Z.to_nat at_) bytes)).

Definition header_at (bytes : list Z) (at_ : Z) : ProgramHeader64 :=
  {| ph_type := le_at bytes at_ 4; ph_flags := le_at bytes (at_ + 4) 4;
     ph_offset := le_at bytes (at_ + 8) 8; virtual_addr := le_at bytes (at_ + 16) 8;
     file_size := le_at bytes (at_ + 32) 8; mem_size := le_at bytes (at_ + 40) 8 |}.

#[local] Instance elf64 : ElfReader := {|
  ElfFile := list Z;
  ElfFile_new bytes :=
    if bool_decide (take 4 bytes = [0x7f; 0x45; 0x4c; 0x46]) then Ok bytes else Err "Did not find ELF magic number";
  sanity_check bytes := if le_at bytes 52 2 =? 64 then Ok tt else Err "Invalid header size";
  elf_entry_point bytes := le_at bytes 24 8;
  program_iter bytes :=
    map (fun i => if le_at bytes 4 1 =? 2 then Ph64 (header_at bytes (le_at bytes 32 8 + 56 * Z.of_nat i)) else Ph32)
      (seq 0 (Z.to_nat (le_at bytes 56 2)));
|}.

#[local] Instance elf_types : XmasElf := {|
  get_type seg :=
    if ph_type seg =? 0 then Ok Null else if ph_type seg =? 1 then Ok Load
    else if ph_type seg =? 7 then Ok Tls else Err "Invalid program header type";
  is_execute flags := Z.testbit flags 0;
  is_write flags := Z.testbit flags 1;
|}.

Definition le_bytes (n : nat) (z : Z) : list Z := map (fun i => z / 256 ^ Z.of_nat i mod 256) (seq 0 n).

(** The first fields of the boot information. *)
#[local] Instance info_layout : BootInfoLayout := fun info =>
  le_bytes 8 (recursive_page_table_addr info) ++ le_bytes 8 (physical_memory_offset info).

#[local] Instance info_layout_laws : BootInfoLayoutLaws info_layout.
Proof. constructor. intros info. unfold boot_info_bytes, info_layout, le_bytes. rewrite length_app, !length_map, !length_seq. lia. Qed.

Definition program_header_bytes (seg : ProgramHeader64) : list Z :=
  le_bytes 4 (ph_type seg) ++ le_bytes 4 (ph_flags seg) ++ le_bytes 8 (ph_offset seg) ++
  le_bytes 8 (virtual_addr seg) ++ le_bytes 8 (virtual_addr seg) ++ le_bytes 8 (file_size seg) ++
  le_bytes 8 (mem_size seg) ++ le_bytes 8 0x1000.

Definition text : ProgramHeader64 :=
  {| ph_type := 1; ph_flags := 5; ph_offset := 0x1000; virtual_addr := 0x201000;
     file_size := 0x800; mem_size := 0x800 |}.
Definition data : ProgramHeader64 :=
  {| ph_type := 1; ph_flags := 6; ph_offset := 0x2000; virtual_addr := 0x203000;
     file_size := 0x100; mem_size := 0x200 |}.

(** The headers of the kernel file. *)
Definition elf_header : list Z :=
  [0x7f; 0x45; 0x4c; 0x46; 2; 1; 1] ++ replicate 9 0 ++ le_bytes 2 2 ++ le_bytes 2 62 ++ le_bytes 4 1 ++
  le_bytes 8 0x201000 ++ le_bytes 8 64 ++ le_bytes 8 0 ++ le_bytes 4 0 ++ le_bytes 2 64 ++ le_bytes 2 56 ++
  le_bytes 2 2 ++ le_bytes 6 0 ++ program_header_bytes text ++ program_header_bytes data.

(** The memory: the file at 4 MiB, filled up with a pattern. *)
Definition sample_memory (x : Z) : Z :=
  if (0x400000 <=? x) then nth (Z.to_nat (x - 0x400000)) elf_header (x mod 251) else 0.

Definition frame2 (z : Z) : @PhysFrame2M phys_numbers virt_numbers huge_numbers := frame2_containing_address (phys z).

(** One 2 MiB page for the file. *)
Definition sample_tables : @Tables phys_numbers virt_numbers huge_numbers :=
  {| small := []; huge := [(0x400000, (frame2 0x400000, 0x83))]; kept := [];
     level4_table := frame_containing_address (phys 0x10000); recursive_entry := None |}.

Definition sample_machine : Machine (M := Tables) :=
  {| config := {| PHYSICAL_MEMORY_OFFSET := None; KERNEL_STACK_ADDRESS := None; KERNEL_STACK_SIZE := 512;
                  BOOT_INFO_ADDRESS := None |};
     kernel_start := phys 0x400000; kernel_size := 0x2100;
     e820 := [{| e820_start_addr := 0; e820_len := 0xa0000; e820_region_type := 1; acpi_extended_attributes := 0 |};
              {| e820_start_addr := 0x100000; e820_len := 0x7f00000; e820_region_type := 1; acpi_extended_attributes := 0 |}];
     page_table_start := phys 0x10000; page_table_end := phys 0x18000;
     bootloader_start := phys 0x8000; bootloader_end := phys 0xc000;
     tables := sample_tables; memory := sample_memory |}.

Lemma sample_elf :
  read_elf (phys 0x400000) 0x2100 sample_memory = Ret (0x201000, [text; data]).
Proof. vm_compute. reflexivity. Qed.

Lemma sample_create : create_from (e820 sample_machine) = Ret machine_map.
Proof. vm_compute. reflexivity. Qed.

Lemma sample_top : max_phys_addr machine_map = Ret 0x8000000.
Proof. vm_compute. reflexivity. Qed.

Definition sample_info_page : @Page virt_numbers :=
  @from_page_table_indices phys_numbers virt_numbers huge_numbers 2 0 0 0.

Definition sample_plan : Plan :=
  {| firmware_map := machine_map; top := 0x8000000; kernel_entry := 0x201000; segs := [text; data];
     recursive := 1; info_page := sample_info_page;
     stack := match page_add sample_info_page 1 with Ret p => p | Panic _ => sample_info_page end;
     offset := 3 * 2 ^ 39 |}.

(** The flags after [n] entries have been taken one by one. *)
Definition first_taken (n : nat) : UsedLevel4Entries :=
  {| entry_state := replicate n true ++ replicate (512 - n) false |}.

Lemma sample_entries :
  UsedLevel4Entries_new [text; data] = Ret (first_taken 1) /\
  get_free_entries 1 (first_taken 1) = Ret (1, first_taken 2) /\
  get_free_entries 1 (first_taken 2) = Ret (2, first_taken 3) /\
  get_free_entries 1 (first_taken 3) = Ret (3, first_taken 4).
Proof. split_and!; vm_compute; reflexivity. Qed.

Lemma sample_info_addr : page_addr sample_info_page = 2 * 2 ^ 39.
Proof. unfold page_addr, sample_info_page. rewrite from_indices. reflexivity. Qed.

Lemma sample_stack_page :
  page_add sample_info_page 1 = Ret (stack sample_plan) /\ page_addr (stack sample_plan) = 2 * 2 ^ 39 + 4096.
Proof.
  pose proof sample_info_addr as Ha. unfold page_addr in Ha.
  destruct (page_add_ok sample_info_page 1) as (q & Hq & Hqa); [lia | rewrite Ha; by_compute |].
  cbn [stack sample_plan]. rewrite Hq. split; [done|]. unfold page_addr. rewrite Hqa, Ha. reflexivity.
Qed.

Lemma sample_chosen : plan_chosen sample_machine sample_plan.
Proof.
  destruct sample_entries as (H1 & H2 & H3 & H4). exists (first_taken 1), (first_taken 2), (first_taken 3), (first_taken 4).
  split; [exact H1|]. split; [exact H2|]. split; [|split].
  - unfold choose_boot_info_page. cbn [BOOT_INFO_ADDRESS config sample_machine]. rewrite H3. reflexivity.
  - apply sample_stack_page.
  - intros _. unfold choose_offset. cbn [PHYSICAL_MEMORY_OFFSET config sample_machine top sample_plan].
    rewrite u64_add_ok by (unfold LEVEL_4_SIZE; arith). cbn [mbind outcome_bind].
    change ((0x8000000 + (LEVEL_4_SIZE - 1)) / LEVEL_4_SIZE) with 1. rewrite H4. cbn [mbind outcome_bind PageTableIndex_new virt_numbers].
    change (0 <? 512) with true. cbn [mbind outcome_bind]. rewrite from_indices_1gib. reflexivity.
Qed.

Lemma sample_memory_ok : memory_ok sample_machine sample_plan.
Proof.
  constructor; cbn [firmware_map top sample_plan kernel_start kernel_size page_table_start page_table_end
    bootloader_start bootloader_end sample_machine].
  - split; [repeat constructor; by_compute | by_compute].
  - exact sample_create.
  - exact machine_map_disjoint.
  - split.
    + repeat constructor; unfold regions_apart; by_compute.
    + repeat constructor; try by_compute; try reflexivity;
        [exists (mk_region 0 0xa0 Usable) | exists (mk_region 0 0xa0 Usable)
        | exists (mk_region 0x100 0x8000 Usable) | exists (mk_region 0 0xa0 Usable)];
        (split; [cbn; auto | split; [reflexivity | by_compute]]).
  - by_compute.
  - split; [exact sample_top | by_compute].
  - by_compute.
  - by_compute.
  - by_compute.
Qed.

Lemma sample_load_ok seg : In seg [text; data] -> load_ok (phys 0x400000) seg.
Proof. intros [<- | [<- | []]]; (constructor; [reflexivity | by_compute..]). Qed.

Lemma sample_stack_number : page_number (stack sample_plan) = 2 * 2 ^ 27 + 1.
Proof. pose proof (page_addr_number (stack sample_plan)). pose proof (proj2 sample_stack_page). lia. Qed.

Lemma sample_kernel_ok : kernel_ok sample_machine sample_plan.
Proof.
  constructor.
  - exact sample_elf.
  - by_compute.
  - intros seg Hseg. pose proof (sample_load_ok seg Hseg) as Hok. rewrite (lo_type _ _ Hok). exact Hok.
  - intros seg [<- | [<- | []]] _; by_compute.
  - by_compute.
  - rewrite sample_stack_number. by_compute.
  - intros _. by_compute.
Qed.

Lemma sample_segment_number p : in_some (segment_areas [text; data]) p ->
  (page_number p = 0x201 /\ segment_touched text p /\ ~ segment_touched data p) \/
  ((page_number p = 0x203 \/ page_number p = temp_page_number) /\ ~ segment_touched text p).
Proof.
  unfold segment_touched, segment_pages, in_pages, is_temp, temp_page_number. cbn [virtual_addr mem_size text data].
  change (needs_copy text) with false. change (needs_copy data) with true.
  change (0x201000 / 4096) with 0x201. change ((0x201000 + 0x800) / 4096 + 1) with 0x202.
  change (0x203000 / 4096) with 0x203. change ((0x203000 + 0x200) / 4096 + 1) with 0x204.
  intros (P & [<- | [<- | []]] & HP); unfold segment_touched, segment_pages, in_pages, is_temp, temp_page_number in HP;
    cbn [virtual_addr mem_size text data] in HP.
  - left. change (needs_copy text) with false in HP. change (0x201000 / 4096) with 0x201 in HP.
    change ((0x201000 + 0x800) / 4096 + 1) with 0x202 in HP. destruct HP as [HP | [? _]]; [|done]. split; [lia|]. split; [lia|]. lia.
  - right. change (0x203000 / 4096) with 0x203 in HP. change ((0x203000 + 0x200) / 4096 + 1) with 0x204 in HP.
    destruct HP as [HP | [_ HP]]; (split; [lia|]); (intros [? | [? _]]; [lia | done]).
Qed.

Lemma sample_small p : tables_huge sample_tables p = false -> translate sample_tables p = None.
Proof. intros H. cbn. unfold tables_small. by rewrite H. Qed.

Lemma sample_huge p : base2 (page_addr p) <> 0x400000 -> tables_huge sample_tables p = false.
Proof.
  intros H. unfold tables_huge. cbn [huge sample_tables table_find]. by rewrite (proj2 (Z.eqb_neq _ _) H).
Qed.

Lemma sample_clean : clean_start sample_machine sample_plan.
Proof.
  constructor.
  - intros p Hp. assert (tables_huge sample_tables p = false) as Hh; [|by split; [apply sample_small|]].
    apply sample_huge. intros Hb. apply Hp. unfold level4. rewrite p4_index_bits. fold (page_addr p).
    unfold base2, SIZE_2M in Hb. dlia.
  - intros q Hq. split; [|done]. cbn. unfold tables_occupied. cbn [huge small sample_tables table_find existsb].
    rewrite (proj2 (Z.eqb_neq _ _)); [done|]. intros Hb. apply Hq. by rewrite level4_first, Hb by lia.
  - split; [by_compute|]. intros q Hq. change (base2 0x400000 <= page2_addr q <= base2 0x4020ff) in Hq.
    change (base2 0x400000) with 0x400000 in Hq. change (base2 0x4020ff) with 0x400000 in Hq.
    change (is_Some (table_find (page2_addr q) (huge sample_tables))).
    replace (page2_addr q) with 0x400000 by lia. exists (frame2 0x400000, 0x83). reflexivity.
  - intros p Hp. pose proof (sample_segment_number p Hp) as Hn.
    assert (tables_huge sample_tables p = false) as Hh.
    { apply sample_huge. rewrite page_addr_number. unfold base2, SIZE_2M, temp_page_number in *.
      destruct Hn as [[-> _] | [[-> | ->] _]]; discriminate. }
    split; [by apply sample_small|]. split; [by left|].
    intros [[Ht (P & [<- | []] & Hd)] | [[_ (P & [] & _)] | []]].
    destruct Hn as [(_ & _ & ?) | [_ ?]]; done.
Qed.

Lemma sample_headers_valid : Forall valid_segment (segs sample_plan).
Proof. repeat constructor; by_compute. Qed.

Lemma sample_sizes : sizes_ok sample_machine sample_plan.
Proof.
  constructor; [by_compute | intros _; cbn [top sample_plan]; discriminate |].
  split; [discriminate|]. split; [|intros _; cbn [top offset sample_plan]; intros [_ H]; by apply H].
  rewrite level4_number; pose proof (page_addr_number (info_page sample_plan)) as Hn;
    pose proof sample_info_addr as Ha; cbn [info_page sample_plan] in *; [|lia].
  replace (page_number sample_info_page) with (2 * 2 ^ 27) by lia. discriminate.
Qed.

Lemma sample_machine_bootable : bootable sample_machine sample_plan.
Proof.
  constructor; [exact sample_memory_ok | exact sample_kernel_ok | exact sample_chosen|].
  apply default_layout; [done | exact sample_headers_valid | by_compute | exact sample_chosen
    | exact sample_kernel_ok | exact sample_clean | exact sample_sizes].
Qed.

Lemma sample_entries_left :
  (entries_used (firmware_map sample_plan) + 12 + entry_room sample_machine sample_plan <= MAX_MEMORY_MAP_SIZE)%nat.
Proof. by_compute. Qed.

Lemma sample_frames_left :
  (room sample_machine sample_plan + frame_total (used_regions sample_machine) <
   length (usable_numbers (firmware_map sample_plan)))%nat.
Proof. rewrite length_usable_numbers. by_compute. Qed.

Definition sample_registers : Registers := {| efer := 0x500; cr0 := 0x80000011; cr4 := 0x20 |}.
Definition sample_screen : Screen := TextScreen {| Text.memory := fun _ => 0x20; Text.CURRENT_OFFSET := 0 |}.

Lemma sample_runs :
  exists e mm, run_bootloader sample_machine sample_registers sample_screen = Ret e /\
    entered sample_machine sample_plan mm e.
Proof.
  apply enough_room; [exact sample_machine_bootable | exact sample_entries_left | exact sample_frames_left].
Qed.

Lemma bootloader_boots_witness :
  exists mm, (entries_used mm <= entries_used (firmware_map sample_plan) + 12)%nat /\
    (forall f, owners f mm = marked_owner (used_regions sample_machine) f (owners f (firmware_map sample_plan))) /\
    match run_bootloader sample_machine sample_registers sample_screen with
    | Ret e => entered sample_machine sample_plan mm e
    | Panic why =>
        why = map_full /\ (MAX_MEMORY_MAP_SIZE < entries_used mm + entry_room sample_machine sample_plan)%nat \/
        (length (usable_numbers mm) <= room sample_machine sample_plan)%nat
    end.
Proof.
  pose proof (bootloader_boots sample_machine sample_plan sample_registers sample_screen sample_machine_bootable) as H.
  exact H.
Defined.

Lemma bootloader_enters_kernel_witness :
  exists e mm, run_bootloader sample_machine sample_registers sample_screen = Ret e /\
    entered sample_machine sample_plan mm e.
Proof.
  pose proof (bootloader_enters_kernel sample_machine sample_plan sample_registers sample_screen sample_machine_bootable
    sample_entries_left sample_frames_left) as H.
  exact H.
Defined.

Lemma kernel_memory_is_safe_witness :
  exists e, run_bootloader sample_machine sample_registers sample_screen = Ret e /\
  exists ks self',
    bi_allocate_n 5 (BootInfoFrameAllocator_init (memory_map (boot_info (handoff e)))) = Ret (ks, self') /\
    (forall seg i f, In seg (segs sample_plan) -> get_type seg = Ok Load -> 0 <= i < mem_size seg ->
       segment_frame e seg i f -> frame_number f ∉ handed_out ks) /\
    (forall p f fl, stack_pages (stack sample_plan) (KERNEL_STACK_SIZE (config sample_machine)) p \/ p = info_page sample_plan ->
       tr (machine e) p = Some (f, fl) -> frame_number f ∉ handed_out ks) /\
    forall f, List.find (contains f) (used_regions sample_machine) <> None -> f ∉ handed_out ks.
Proof.
  destruct sample_runs as (e & mm & Hrun & _). exists e. split; [exact Hrun|].
  pose proof (kernel_memory_is_safe sample_machine sample_plan sample_registers sample_screen e 5
    sample_machine_bootable Hrun ltac:(lia)) as H.
  exact H.
Defined.

Lemma physical_memory_at_offset_witness :
  exists e, run_bootloader sample_machine sample_registers sample_screen = Ret e /\
  physical_memory_offset (boot_info (handoff e)) = offset sample_plan /\
  (forall x, 0 <= x -> x + offset sample_plan mod SIZE_2M < base2 (top sample_plan) + SIZE_2M ->
     exists q f, page2_addr q = base2 (offset sample_plan + x) /\
       translate2 (page_table (machine e)) q = Some (f, physical_flags) /\
       frame2_addr f + (offset sample_plan + x) mod SIZE_2M = x + offset sample_plan mod SIZE_2M) /\
  forall n, owners n (firmware_map sample_plan) <> [] -> 4096 * n + 4096 <= top sample_plan.
Proof.
  destruct sample_runs as (e & mm & Hrun & _). exists e. split; [exact Hrun|].
  pose proof (physical_memory_at_offset sample_machine sample_plan sample_registers sample_screen e
    sample_machine_bootable eq_refl Hrun) as H.
  exact H.
Defined.

Lemma default_layout_free_witness : layout_free sample_machine sample_plan.
Proof.
  refine (default_layout_free sample_machine sample_plan _ _ _ sample_chosen sample_kernel_ok sample_clean sample_sizes);
    [done | exact sample_headers_valid | by_compute].
Defined.

Lemma kernel_finds_page_table_witness :
  exists e off a f, run_bootloader sample_machine sample_registers sample_screen = Ret e /\
    active_level_4_table (level4_table sample_tables) off = Ret a /\
    translate2 (page_table (machine e)) (page2_containing_address a) = Some (f, physical_flags) /\
    frame2_addr f + virt_as_u64 a mod SIZE_2M = phys_as_u64 (root (tables sample_machine)).
Proof.
  destruct sample_runs as (e & mm & Hrun & He).
  destruct (VirtAddr_new_canonical (offset sample_plan)) as (off & _ & Hoff); [by_compute|].
  pose proof (bo_info_offset _ _ _ _ _ _ _ _ _ _ _ (en_booted _ _ _ _ He) eq_refl) as Hinfo.
  rewrite <-Hinfo in Hoff.
  destruct (kernel_finds_page_table sample_machine sample_plan sample_registers sample_screen e
    (level4_table sample_tables) off sample_machine_bootable eq_refl Hrun) as (a & f & H);
    [reflexivity | reflexivity | by_compute | exact Hoff |].
  exists e, off, a, f. split; [exact Hrun | exact H].
Defined.
