(* ===== verification/Gdt.v ===== *)
(** * Descriptor tables (src/src/gdt.rs)

    The task state segment names the stack of the double fault handler, and the
    descriptor table holds the kernel's code segment and that segment.  Both are
    structures of the crate x86_64, an interface with the laws the kernel relies
    on; the processor's reaction to a selector that does not fit its register is a
    fault. *)

From Stdlib Require Import Lia.
From stdpp Require Import base decidable strings numbers list.
From S2P Require Import Prelude X86.

Open Scope Z_scope.

(** ** The crate *)

Class DescriptorTables `{X86Virt} := {
  TaskStateSegment : Type;
  TaskStateSegment_new : TaskStateSegment;
  interrupt_stack_table : TaskStateSegment -> list VirtAddr;
  with_interrupt_stack_table : list VirtAddr -> TaskStateSegment -> TaskStateSegment;
  Descriptor : Type;
  kernel_code_segment : Descriptor;
  tss_segment : TaskStateSegment -> Descriptor;
  is_code : Descriptor -> bool;
  descriptor_tss : Descriptor -> option TaskStateSegment;
  SegmentSelector : Type;
  GlobalDescriptorTable : Type;
  GlobalDescriptorTable_new : GlobalDescriptorTable;
  (** panics when the table is full *)
  add_entry : Descriptor -> GlobalDescriptorTable -> outcome (SegmentSelector * GlobalDescriptorTable);
  (** the descriptor the processor finds *)
  entry_at : GlobalDescriptorTable -> SegmentSelector -> option Descriptor;
}.

(** A new table has seven free places; a code segment takes one, a task state
    segment two.  Entries stay where they are. *)
Class DescriptorTablesLaws `{D : DescriptorTables} := {
  places : GlobalDescriptorTable -> nat;
  width : Descriptor -> nat;
  new_places : places GlobalDescriptorTable_new = 7%nat;
  code_width : width kernel_code_segment = 1%nat;
  tss_width t : width (tss_segment t) = 2%nat;
  add_entry_ok d g : (width d <= places g)%nat ->
    exists s g', add_entry d g = Ret (s, g') /\ places g' = (places g - width d)%nat /\
      entry_at g' s = Some d /\ forall s' d', entry_at g s' = Some d' -> entry_at g' s' = Some d';
  code_is_code : is_code kernel_code_segment = true;
  tss_descriptor t : descriptor_tss (tss_segment t) = Some t;
  new_stacks : length (interrupt_stack_table TaskStateSegment_new) = 7%nat;
  stacks_set l t : interrupt_stack_table (with_interrupt_stack_table l t) = l;
}.

(** ** The tables and [init] *)

Definition DOUBLE_FAULT_IST_INDEX : nat := 0.
Definition STACK_SIZE : Z := 4096 * 5.

Section gdt.
Context {V : X86Virt} {D : DescriptorTables}.

Record Selectors := { code_selector : SegmentSelector; tss_selector : SegmentSelector }.

(** [TSS], with the address of the static [STACK]. *)
Definition TSS (stack : Z) : outcome TaskStateSegment :=
  let tss := TaskStateSegment_new in
  stack_start ← VirtAddr_new stack;
  stack_end ← virt_add stack_start STACK_SIZE;
  let table := interrupt_stack_table tss in
  if decide (DOUBLE_FAULT_IST_INDEX < length table)%nat
  then Ret (with_interrupt_stack_table (<[DOUBLE_FAULT_IST_INDEX := stack_end]> table) tss)
  else Panic "index out of bounds".

Definition GDT (stack : Z) : outcome (GlobalDescriptorTable * Selectors) :=
  let gdt := GlobalDescriptorTable_new in
  '(code_selector, gdt) ← add_entry kernel_code_segment gdt;
  tss ← TSS stack;
  '(tss_selector, gdt) ← add_entry (tss_segment tss) gdt;
  Ret (gdt, {| code_selector := code_selector; tss_selector := tss_selector |}).

(** The registers [init] loads. *)
Record Registers := {
  gdtr : option GlobalDescriptorTable;
  cs : option SegmentSelector;
  task_register : option SegmentSelector;
}.

Definition selected (cpu : Registers) (s : SegmentSelector) : option Descriptor :=
  match gdtr cpu with Some gdt => entry_at gdt s | None => None end.

Definition protection_fault : string := "general protection fault".

Definition load (gdt : GlobalDescriptorTable) (cpu : Registers) : Registers :=
  {| gdtr := Some gdt; cs := cs cpu; task_register := task_register cpu |}.

Definition set_cs (s : SegmentSelector) (cpu : Registers) : outcome Registers :=
  match selected cpu s with
  | Some d =>
      if is_code d then Ret {| gdtr := gdtr cpu; cs := Some s; task_register := task_register cpu |}
      else Panic protection_fault
  | None => Panic protection_fault
  end.

Definition load_tss (s : SegmentSelector) (cpu : Registers) : outcome Registers :=
  match selected cpu s ≫= descriptor_tss with
  | Some _ => Ret {| gdtr := gdtr cpu; cs := cs cpu; task_register := Some s |}
  | None => Panic protection_fault
  end.

Definition init (stack : Z) (cpu : Registers) : outcome Registers :=
  '(gdt, selectors) ← GDT stack;
  let cpu := load gdt cpu in
  cpu ← set_cs (code_selector selectors) cpu;
  load_tss (tss_selector selectors) cpu.

(** The stack the processor switches to for a handler with stack index [i]. *)
Definition interrupt_stack (i : nat) (cpu : Registers) : option VirtAddr :=
  s ← task_register cpu;
  d ← selected cpu s;
  tss ← descriptor_tss d;
  interrupt_stack_table tss !! i.
End gdt.

Section properties.
Context {V : X86Virt} {VL : X86VirtLaws V} {D : DescriptorTables} {DL : DescriptorTablesLaws}.

(** [gdt::init] never faults and leaves the processor with the
    kernel's code segment in [CS], and with a task register through which a
    handler with the double fault's stack index runs on the 20 KiB stack that
    ends 20480 bytes behind the start of [STACK]. *)
Theorem init_sets_stack stack cpu :
  0 <= stack -> stack + STACK_SIZE < 2 ^ 47 ->
  exists cpu' s top, init stack cpu = Ret cpu' /\
    cs cpu' = Some s /\ selected cpu' s = Some kernel_code_segment /\
    interrupt_stack DOUBLE_FAULT_IST_INDEX cpu' = Some top /\ virt_as_u64 top = stack + STACK_SIZE.
Proof.
  intros H0 Hlt. unfold STACK_SIZE in *. unfold init, GDT.
  destruct (add_entry_ok kernel_code_segment GlobalDescriptorTable_new) as (s & g & -> & Hp & Hs & _);
    [rewrite code_width, new_places; lia|]. rewrite code_width, new_places in Hp. cbn [mbind outcome_bind].
  unfold TSS. destruct (VirtAddr_new_canonical stack) as (a & -> & Ha); [unfold canonical; lia|]. cbn [mbind outcome_bind].
  destruct (virt_add_ok a STACK_SIZE) as (top & -> & Htop);
    [unfold STACK_SIZE; lia | unfold canonical, STACK_SIZE; lia|]. cbn [mbind outcome_bind].
  rewrite decide_True by (rewrite new_stacks; unfold DOUBLE_FAULT_IST_INDEX; lia). cbn [mbind outcome_bind].
  set (tss := with_interrupt_stack_table _ _).
  destruct (add_entry_ok (tss_segment tss) g) as (t & g' & -> & _ & Ht & Hkeep); [rewrite tss_width; lia|].
  cbn [mbind outcome_bind code_selector tss_selector]. unfold set_cs, selected, load. cbn [gdtr].
  rewrite (Hkeep _ _ Hs), code_is_code. cbn [mbind outcome_bind]. unfold load_tss, selected. cbn [gdtr].
  rewrite Ht. cbn [mbind option_bind]. rewrite tss_descriptor. eexists _, s, top. split; [done|].
  cbn [cs gdtr]. split; [done|]. split; [by apply Hkeep|]. split.
  - unfold interrupt_stack, selected. cbn [task_register gdtr mbind option_bind]. rewrite Ht.
    cbn [mbind option_bind]. rewrite tss_descriptor. cbn [mbind option_bind]. unfold tss. rewrite stacks_set.
    apply list_lookup_insert_eq. rewrite new_stacks. unfold DOUBLE_FAULT_IST_INDEX. lia.
  - rewrite Htop, Ha. done.
Qed.
End properties.

(** ** Tables as lists *)

Definition segment_width {A} (d : option A) : nat := match d with Some _ => 2 | None => 1 end.

Definition used_places {A} (g : list (option A)) : nat := sum_list_with segment_width g.

#[export] Instance list_tables `{X86Virt} : DescriptorTables := {
  TaskStateSegment := list VirtAddr;
  TaskStateSegment_new := match VirtAddr_new 0 with Ret a => replicate 7 a | Panic _ => [] end;
  interrupt_stack_table t := t;
  with_interrupt_stack_table l _ := l;
  Descriptor := option (list VirtAddr);
  kernel_code_segment := None;
  tss_segment t := Some t;
  is_code d := match d with None => true | Some _ => false end;
  descriptor_tss d := d;
  SegmentSelector := nat;
  GlobalDescriptorTable := list (option (list VirtAddr));
  GlobalDescriptorTable_new := [];
  add_entry d g :=
    if decide (used_places g + segment_width d <= 7)%nat then Ret (length g, g ++ [d]) else Panic "GDT full";
  entry_at g s := g !! s;
}.

#[export] Instance list_tables_laws `{V : X86Virt} {VL : X86VirtLaws V} : DescriptorTablesLaws (D := list_tables).
Proof.
  refine {| places := fun g => (7 - used_places g)%nat; width := segment_width |}; try done.
  - intros d g Hd. cbn in *. assert (1 <= segment_width d)%nat by (destruct d; cbn; lia).
    rewrite decide_True by lia. eexists _, _. split; [done|]. split; [|split].
    + unfold used_places. rewrite sum_list_with_app. cbn. lia.
    + by rewrite lookup_app_r, Nat.sub_diag by lia.
    + intros s d'. apply lookup_app_l_Some.
  - cbn. destruct (VirtAddr_new_canonical 0) as (a & -> & _); [unfold canonical; lia | done].
Qed.

Lemma init_sets_stack_witness :
  let cpu : @Registers virt_numbers list_tables := {| gdtr := None; cs := None; task_register := None |} in
  exists cpu' s top, init 0x280000 cpu = Ret cpu' /\
    cs cpu' = Some s /\ selected cpu' s = Some kernel_code_segment /\
    interrupt_stack DOUBLE_FAULT_IST_INDEX cpu' = Some top /\ virt_as_u64 top = 0x280000 + STACK_SIZE.
Proof. intros cpu. apply (init_sets_stack 0x280000 cpu); by_compute. Defined.

(** The code selector means nothing before the table is loaded. *)
Lemma selector_needs_table `{D : DescriptorTables} s (cpu : Registers) :
  gdtr cpu = None -> set_cs s cpu = Panic protection_fault /\ load_tss s cpu = Panic protection_fault.
Proof. intros Hg. unfold set_cs, load_tss, selected. by rewrite Hg. Qed.
