(* ===== verification/Interrupts.v ===== *)
(** * Interrupts and locks
      (src/src/interrupts.rs, the critical sections of src/src/vga_buffer.rs and
      src/src/serial.rs, [init] and [hlt_loop] of src/src/lib.rs)

    The kernel has one thread of control that a hardware interrupt may stop
    between any two actions while interrupts are enabled.  Its global devices
    are behind spin locks, so an interrupt handler that needs a lock the stopped
    code holds never returns.  The machine below has the interrupt flag, the
    locks, the stack of stopped code, the interrupt controller and the console;
    code is a list of the actions that matter for these.  [exec] runs one action,
    [irq] delivers an interrupt, and [reachable] interleaves them freely.

    The decoder of the keyboard is the crate pc_keyboard: a class gives its
    state, its two operations and its result types.  The controller is the
    8259 as the crate pic8259 drives it: an interrupt is delivered only when no
    interrupt of the same or a higher priority is in service, and the end of
    interrupt command ends the one in service of the highest priority.  A handler
    runs with interrupts disabled, the default of [set_handler_fn]. *)

From Stdlib Require Import Lia.
From stdpp Require Import base decidable strings numbers list.
From S2P Require Import Prelude RustStr Vga Console.

Open Scope Z_scope.

Definition PIC_1_OFFSET : Z := 32.
Definition PIC_2_OFFSET : Z := PIC_1_OFFSET + 8.

Inductive InterruptIndex := Timer | Keyboard.

Definition as_u8 (i : InterruptIndex) : Z :=
  match i with Timer => PIC_1_OFFSET | Keyboard => PIC_1_OFFSET + 1 end.

(** What an exception handler prints: the faulting address, the error code and
    the stack frame, formatted. *)
Record exception_info := { accessed_address : string; error_code : string; stack_frame : string }.

Inductive lock := WRITER | SERIAL1 | PICS | KEYBOARD | ALLOCATOR.

#[export] Instance lock_eq_dec : EqDecision lock.
Proof. solve_decision. Defined.

(** The actions of kernel code. *)
Inductive action :=
| SaveAndDisable      (** the entry of [without_interrupts] *)
| Restore             (** its exit: enable again if they were enabled *)
| Lock (l : lock)
| Unlock (l : lock)
| WriteVga (text : string)
| WriteSerial (text : string)
| ReadKey             (** read the port, decode, and print what was decoded *)
| InitPics
| Enable              (** [interrupts::enable] *)
| EndOfInterrupt (vector : Z)
| Raise (vector : Z) (info : exception_info)   (** an exception of the processor *)
| Iret (enabled : bool)                (** return to the stopped code *)
| HltLoop.

(** [vga_buffer::_print] and [serial::_print]. *)
Definition print_code (text : string) : list action :=
  [SaveAndDisable; Lock WRITER; WriteVga text; Unlock WRITER; Restore].
Definition serial_print_code (text : string) : list action :=
  [SaveAndDisable; Lock SERIAL1; WriteSerial text; Unlock SERIAL1; Restore].
Definition println_code (text : string) : list action := print_code (text +:+ newline_str).

(** An allocation: the global allocator locks itself, with interrupts as they
    are. *)
Definition alloc_code : list action := [Lock ALLOCATOR; Unlock ALLOCATOR].

Definition init_code : list action := [Lock PICS; InitPics; Unlock PICS; Enable].

Definition breakpoint_handler (info : exception_info) : list action :=
  println_code ("EXCEPTION: BREAKPOINT" +:+ newline_str +:+ stack_frame info).

(** The panic handler of the kernel. *)
Definition panic_code (info : string) : list action :=
  println_code ("KERNEL PANIC: " +:+ info) ++
  serial_print_code ("KERNEL PANIC: " +:+ info +:+ newline_str) ++ [HltLoop].

Definition double_fault_handler (info : exception_info) : list action :=
  panic_code ("EXCEPTION: DOUBLE FAULT" +:+ newline_str +:+ stack_frame info).

Definition page_fault_handler (info : exception_info) : list action :=
  println_code "EXCEPTION: PAGE FAULT" ++
  println_code ("Accessed Address: " +:+ accessed_address info) ++
  println_code ("Error Code: " +:+ error_code info) ++
  println_code (stack_frame info) ++ [HltLoop].

Definition timer_interrupt_handler : list action :=
  [Lock PICS; EndOfInterrupt (as_u8 Timer); Unlock PICS].

Definition keyboard_interrupt_handler : list action :=
  [Lock KEYBOARD; ReadKey; Lock PICS; EndOfInterrupt (as_u8 Keyboard); Unlock PICS;
   Unlock KEYBOARD].

(** The interrupt descriptor table: the code that runs for a vector.  A vector
    without an entry ends in the double fault handler. *)
Definition IDT (vector : Z) (info : exception_info) : list action :=
  if vector =? 3 then breakpoint_handler info
  else if vector =? 14 then page_fault_handler info
  else if vector =? as_u8 Timer then timer_interrupt_handler
  else if vector =? as_u8 Keyboard then keyboard_interrupt_handler
  else double_fault_handler info.

(** ** The machine *)

(** [pc_keyboard]: what a scan code decodes to. *)
Class KeyboardDecoder := {
  keyboard_state : Type;
  key_event : Type;
  add_byte : Z -> keyboard_state -> result (option key_event) string * keyboard_state;
  process_keyevent : key_event -> keyboard_state -> option string * keyboard_state;
}.

Section machine.
Context {U : Uart} {K : KeyboardDecoder}.

Record machine := {
  interrupts : bool;
  held : list lock;
  frames : list (list action);   (** the running code first *)
  saved : list bool;             (** the flags [without_interrupts] keeps *)
  pics_ready : bool;
  in_service : list Z;
  keyboard : keyboard_state;
  scancode : Z;                  (** what the keyboard port holds *)
  console : Console U;
}.

Inductive exec_result :=
| Step (m : machine)
| Spin (l : lock)      (** waiting for a lock that is held: nobody can free it *)
| Halted               (** in [hlt_loop] *)
| Crash (why : string).

Definition set_code (code : list (list action)) (m : machine) : machine :=
  {| interrupts := interrupts m; held := held m; frames := code; saved := saved m;
     pics_ready := pics_ready m; in_service := in_service m; keyboard := keyboard m;
     scancode := scancode m; console := console m |}.

Definition set_interrupts (b : bool) (m : machine) : machine :=
  {| interrupts := b; held := held m; frames := frames m; saved := saved m;
     pics_ready := pics_ready m; in_service := in_service m; keyboard := keyboard m;
     scancode := scancode m; console := console m |}.

Definition set_saved (s : list bool) (m : machine) : machine :=
  {| interrupts := interrupts m; held := held m; frames := frames m; saved := s;
     pics_ready := pics_ready m; in_service := in_service m; keyboard := keyboard m;
     scancode := scancode m; console := console m |}.

Definition set_held (ls : list lock) (m : machine) : machine :=
  {| interrupts := interrupts m; held := ls; frames := frames m; saved := saved m;
     pics_ready := pics_ready m; in_service := in_service m; keyboard := keyboard m;
     scancode := scancode m; console := console m |}.

Definition set_pics (ready : bool) (vs : list Z) (m : machine) : machine :=
  {| interrupts := interrupts m; held := held m; frames := frames m; saved := saved m;
     pics_ready := ready; in_service := vs; keyboard := keyboard m;
     scancode := scancode m; console := console m |}.

Definition set_keyboard (k : keyboard_state) (m : machine) : machine :=
  {| interrupts := interrupts m; held := held m; frames := frames m; saved := saved m;
     pics_ready := pics_ready m; in_service := in_service m; keyboard := k;
     scancode := scancode m; console := console m |}.

Definition set_console (c : Console U) (m : machine) : machine :=
  {| interrupts := interrupts m; held := held m; frames := frames m; saved := saved m;
     pics_ready := pics_ready m; in_service := in_service m; keyboard := keyboard m;
     scancode := scancode m; console := c |}.

(** Output through one of the two devices. *)
Definition output (write : io unit) (m : machine) : exec_result :=
  match write (console m) with
  | Ret (_, c) => Step (set_console c m)
  | Panic why => Crash why
  end.

(** The body of the keyboard handler: decode, and print through [_print]. *)
Definition read_key (m : machine) : list action * keyboard_state :=
  match add_byte (scancode m) (keyboard m) with
  | (Ok (Some event), k) =>
      match process_keyevent event k with
      | (Some text, k') => (print_code text, k')
      | (None, k') => ([], k')
      end
  | (_, k) => ([], k)
  end.

(** [notify_end_of_interrupt] acts on vectors of the two controllers. *)
Definition handles_interrupt (vector : Z) : bool :=
  (PIC_1_OFFSET <=? vector) && (vector <? PIC_2_OFFSET + 8).

Definition exec (m : machine) : exec_result :=
  match frames m with
  | [] => Halted
  | [] :: _ => Halted
  | (a :: code) :: rest =>
      let m' := set_code (code :: rest) m in
      match a with
      | SaveAndDisable => Step (set_interrupts false (set_saved (interrupts m :: saved m) m'))
      | Restore =>
          match saved m with
          | b :: s => Step (set_interrupts (b || interrupts m) (set_saved s m'))
          | [] => Crash "no saved flag"
          end
      | Lock l => if bool_decide (l ∈ held m) then Spin l else Step (set_held (l :: held m) m')
      | Unlock l => Step (set_held (List.filter (fun x => negb (bool_decide (x = l))) (held m)) m')
      | WriteVga text => output (vga_print text) m'
      | WriteSerial text => output (serial_print text) m'
      | ReadKey =>
          let '(print, k) := read_key m in
          Step (set_keyboard k (set_code ((print ++ code) :: rest) m))
      | InitPics => Step (set_pics true [] m')
      | Enable => Step (set_interrupts true m')
      | EndOfInterrupt v =>
          if handles_interrupt v then Step (set_pics (pics_ready m) (tail (in_service m)) m')
          else Step m'
      | Raise v info =>
          Step (set_interrupts false
            (set_code ((IDT v info ++ [Iret (interrupts m)]) :: code :: rest) m))
      | Iret b => Step (set_interrupts b (set_code rest m))
      | HltLoop => Halted
      end
  end.

(** The controller lets [vector] through: nothing of its priority or a higher
    one is in service. *)
Definition pic_accepts (vector : Z) (vs : list Z) : bool := forallb (fun v => vector <? v) vs.

Definition no_info : exception_info :=
  {| accessed_address := ""; error_code := ""; stack_frame := "" |}.

Definition irq (i : InterruptIndex) (sc : Z) (m : machine) : option machine :=
  if interrupts m && pics_ready m && pic_accepts (as_u8 i) (in_service m) then
    Some {| interrupts := false; held := held m;
            frames := (IDT (as_u8 i) no_info ++ [Iret true]) :: frames m; saved := saved m;
            pics_ready := pics_ready m; in_service := as_u8 i :: in_service m;
            keyboard := keyboard m; scancode := sc; console := console m |}
  else None.

(** One step of the kernel or the arrival of an interrupt. *)
Inductive step (m : machine) : machine -> Prop :=
| step_exec m' : exec m = Step m' -> step m m'
| step_irq i sc m' : irq i sc m = Some m' -> step m m'.

Inductive reachable (m0 : machine) : machine -> Prop :=
| reachable_refl : reachable m0 m0
| reachable_step m m' : reachable m0 m -> step m m' -> reachable m0 m'.

(** What the main thread of control does, call by call. *)
Inductive call :=
| CallPrint (text : string)
| CallSerialPrint (text : string)
| CallAlloc
| CallException (vector : Z) (info : exception_info)
| CallInit
| CallPanic (info : string).

Definition code_of (c : call) : list action :=
  match c with
  | CallPrint text => print_code text
  | CallSerialPrint text => serial_print_code text
  | CallAlloc => alloc_code
  | CallException v info => [Raise v info]
  | CallInit => init_code
  | CallPanic info => panic_code info
  end.

(** The kernel as the bootloader enters it, interrupts disabled, about to make
    these calls and then to enter [hlt_loop]. *)
Definition start (calls : list call) (k : keyboard_state) (c : Console U) : machine :=
  {| interrupts := false; held := []; frames := [flat_map code_of calls ++ [HltLoop]]; saved := [];
     pics_ready := false; in_service := []; keyboard := k; scancode := 0; console := c |}.

(** ** A discipline for code

    [code_ok ctx b sv hs code]: with interrupts enabled as [b], the flags [sv]
    saved and the locks [hs] taken by this code, it never takes a lock twice,
    gives them back in order, and holds no lock but the allocator's while
    interrupts are enabled.  [ctx] is [None] for the main code and [Some b'] for
    a handler that returns to code with the flag [b']; a handler never touches
    the allocator's lock. *)

Definition is_handler (ctx : option bool) : bool := match ctx with Some _ => true | None => false end.

Definition lock_allowed (ctx : option bool) (l : lock) : bool :=
  negb (is_handler ctx && bool_decide (l = ALLOCATOR)).

Definition only_allocator (hs : list lock) : bool := forallb (fun l => bool_decide (l = ALLOCATOR)) hs.

Fixpoint code_ok (ctx : option bool) (b : bool) (sv : list bool) (hs : list lock)
    (code : list action) : bool :=
  implb b (only_allocator hs) &&
  match code with
  | [] => false
  | SaveAndDisable :: k => code_ok ctx false (b :: sv) hs k
  | Restore :: k =>
      match sv with
      | b' :: sv' => code_ok ctx (b' || b) sv' hs k
      | [] => false
      end
  | Lock l :: k => negb (bool_decide (l ∈ hs)) && lock_allowed ctx l && code_ok ctx b sv (l :: hs) k
  | Unlock l :: k =>
      match hs with
      | l' :: hs' => bool_decide (l = l') && negb (bool_decide (l ∈ hs')) && lock_allowed ctx l &&
          code_ok ctx b sv hs' k
      | [] => false
      end
  | WriteVga _ :: k | WriteSerial _ :: k => code_ok ctx b sv hs k
  | ReadKey :: k => is_handler ctx && negb b && negb (bool_decide (WRITER ∈ hs)) && code_ok ctx b sv hs k
  | InitPics :: k => negb (is_handler ctx) && code_ok ctx b sv hs k
  | Enable :: k => negb (is_handler ctx) && code_ok ctx true sv hs k
  | EndOfInterrupt v :: k => is_handler ctx && handles_interrupt v && code_ok ctx b sv hs k
  | Raise v _ :: k => negb (is_handler ctx) && bool_decide (hs = []) && bool_decide (v < 32) &&
      code_ok ctx b sv hs k
  | Iret b' :: k =>
      match k with [] => bool_decide (ctx = Some b' /\ hs = [] /\ sv = []) | _ => false end
  | HltLoop :: _ => true
  end.

(** The end of interrupt commands code still has to give. *)
Definition is_eoi (a : action) : bool := match a with EndOfInterrupt _ => true | _ => false end.
Definition eois (code : list action) : nat := length (List.filter is_eoi code).

Lemma code_ok_locks ctx sv hs code : code_ok ctx true sv hs code = true -> only_allocator hs = true.
Proof. destruct code; simpl; by intros [? _]%andb_true_iff. Qed.

(** A critical section fits anywhere its lock is free. *)
Lemma code_ok_section ctx b sv hs l w k :
  l ∉ hs -> l <> ALLOCATOR -> (exists text, w = WriteVga text \/ w = WriteSerial text) ->
  code_ok ctx b sv hs k = true ->
  code_ok ctx b sv hs ([SaveAndDisable; Lock l; w; Unlock l; Restore] ++ k) = true.
Proof.
  intros Hl Ha Hw Hk. assert (implb b (only_allocator hs) = true) as Hb.
  { destruct b; [by apply code_ok_locks in Hk | done]. }
  assert (lock_allowed ctx l = true) as Hal.
  { unfold lock_allowed. rewrite bool_decide_false by done. by rewrite andb_false_r. }
  cbn [app code_ok]. rewrite Hb, Hal. cbn [implb negb andb].
  destruct Hw as [text [-> | ->]]; cbn [app code_ok implb andb];
    rewrite (bool_decide_false (l ∈ hs)), (bool_decide_true (l = l)), ?Hal by done; cbn [negb andb];
    by rewrite orb_false_r.
Qed.

(** ** The invariant *)

(** The code below the running one: none below the main code, and below a
    handler the main code it stopped, which may hold the allocator's lock. *)
Definition rest_ok (ctx : option bool) (sv : list bool) (hs : list lock) (rest : list (list action)) : Prop :=
  match ctx, rest with
  | None, [] => sv = [] /\ hs = []
  | Some b, [code] => code_ok None b sv hs code = true /\ only_allocator hs = true
  | _, _ => False
  end.

(** The interrupts in service are the ones the running handler will end. *)
Definition service_ok (ctx : option bool) (top : list action) (vs : list Z) : Prop :=
  match ctx with None => vs = [] | Some _ => eois top = length vs end.

(** A handler runs with interrupts disabled. *)
Definition handler_ok (ctx : option bool) (b : bool) (sv : list bool) (hs : list lock) : Prop :=
  is_handler ctx = true -> b = false /\ Forall (fun x => x = false) sv /\ ALLOCATOR ∉ hs.

Record inv_at (m : machine) (ctx : option bool) (top : list action) (rest : list (list action))
    (sv' sv : list bool) (hs' hs : list lock) : Prop := {
  inv_console : wf_console (console m);
  inv_frames : frames m = top :: rest;
  inv_saved : saved m = sv' ++ sv;
  inv_held : held m = hs' ++ hs;
  inv_code : code_ok ctx (interrupts m) sv' hs' top = true;
  inv_rest : rest_ok ctx sv hs rest;
  inv_service : service_ok ctx top (in_service m);
  inv_handler : handler_ok ctx (interrupts m) sv' hs';
}.

Definition inv (m : machine) : Prop :=
  exists ctx top rest sv' sv hs' hs, inv_at m ctx top rest sv' sv hs' hs.

Lemma lock_free ctx l sv hs hs' rest :
  rest_ok ctx sv hs rest -> lock_allowed ctx l = true -> l ∉ hs' -> l ∉ hs' ++ hs.
Proof.
  intros Hr Hl Hn. apply not_elem_of_app. split; [done|].
  destruct ctx as [b|]; destruct rest as [|code [|]]; simpl in Hr; try done.
  - destruct Hr as [_ Ha]. intros Hin. unfold only_allocator in Ha. rewrite forallb_forall in Ha.
    apply list_elem_of_In, Ha, bool_decide_eq_true in Hin. subst l. done.
  - destruct Hr as [_ ->]. apply not_elem_of_nil.
Qed.

Lemma unlock_first (l : lock) hs :
  l ∉ hs -> List.filter (fun x => negb (bool_decide (x = l))) (l :: hs) = hs.
Proof.
  intros Hn. simpl. rewrite bool_decide_true by done. simpl. apply bfilter_Forall_true.
  apply Forall_forall. intros x Hx. rewrite bool_decide_false; [done|]. by intros ->.
Qed.

Lemma code_ok_cons_locks ctx b sv hs a k :
  code_ok ctx b sv hs (a :: k) = true -> implb b (only_allocator hs) = true.
Proof. simpl. by intros [? _]%andb_true_iff. Qed.

Lemma vga_print_ok text (c : Console U) :
  wf_console c -> exists c', vga_print text c = Ret (tt, c') /\ wf_console c'.
Proof.
  intros Hc. unfold vga_print.
  destruct (shows_write_string (writer c) _ text (layout_of_shows _ Hc)) as (w & -> & _ & Hs).
  eexists. split; [done|]. by eapply shows_wf.
Qed.

Lemma serial_print_ok {UL : UartLaws U} text (c : Console U) :
  wf_console c -> exists c', serial_print text c = Ret (tt, c') /\ wf_console c'.
Proof.
  intros Hc. unfold serial_print. destruct (uart_write_total text (serial1 c)) as [u ->].
  eexists. by split.
Qed.

Lemma handler_print_ok b text : code_ok (Some b) false [] [] (println_code text ++ [Iret b]) = true.
Proof.
  apply code_ok_section; [apply not_elem_of_nil | done | by eexists; left | ].
  cbn. by rewrite bool_decide_true.
Qed.

Lemma panic_code_ok ctx b sv info k :
  code_ok ctx b sv [] (panic_code info ++ k) = true.
Proof.
  unfold panic_code. rewrite <-!app_assoc.
  apply code_ok_section; [apply not_elem_of_nil | done | by eexists; left |].
  apply code_ok_section; [apply not_elem_of_nil | done | by eexists; right |].
  by destruct b.
Qed.

(** The handlers keep the discipline. *)
Lemma exception_code_ok v info b :
  v < 32 -> code_ok (Some b) false [] [] (IDT v info ++ [Iret b]) = true.
Proof.
  intros Hv. unfold IDT, as_u8, PIC_1_OFFSET.
  destruct (Z.eqb_spec v 3); [apply handler_print_ok|].
  destruct (Z.eqb_spec v 14).
  { unfold page_fault_handler. rewrite <-!app_assoc.
    do 4 (apply code_ok_section; [apply not_elem_of_nil | done | by eexists; left |]). done. }
  destruct (Z.eqb_spec v 32); [lia|]. destruct (Z.eqb_spec v (32 + 1)); [lia|].
  apply panic_code_ok.
Qed.

Lemma irq_code_ok i : code_ok (Some true) false [] [] (IDT (as_u8 i) no_info ++ [Iret true]) = true.
Proof. by destruct i. Qed.

Lemma irq_eois i : eois (IDT (as_u8 i) no_info ++ [Iret true]) = 1%nat.
Proof. by destruct i. Qed.

Lemma eois_app k k' : eois (k ++ k') = (eois k + eois k')%nat.
Proof. unfold eois. by rewrite List.filter_app, length_app. Qed.

Lemma exception_eois v info b : v < 32 -> eois (IDT v info ++ [Iret b]) = 0%nat.
Proof.
  intros Hv. unfold IDT, as_u8, PIC_1_OFFSET.
  repeat (case_match; [try done; exfalso; lia|]). done.
Qed.

Lemma irq_inv_at i sc m m' :
  inv m -> irq i sc m = Some m' ->
  inv_at m' (Some true) (IDT (as_u8 i) no_info ++ [Iret true]) (frames m) [] (saved m) [] (held m).
Proof.
  intros (ctx & top & rest & sv' & sv & hs' & hs & I). unfold irq.
  case_match eqn:Hc; [|done]. intros [= <-].
  rewrite !andb_true_iff in Hc. destruct Hc as [[Hi Hp] Ha]. destruct I as [Hcon Hf Hs Hh Hok Hr Hsv Hhd].
  destruct ctx as [b|]; [by destruct (Hhd eq_refl) as [? _]; congruence|].
  destruct rest; simpl in Hr; [|done]. destruct Hr as [-> ->]. rewrite app_nil_r in Hs, Hh.
  simpl in Hsv. rewrite Hi in Hok.
  constructor; cbn [console frames saved held interrupts in_service]; try done.
  - apply irq_code_ok.
  - rewrite Hf, Hs, Hh. split; [done | by eapply code_ok_locks].
  - cbn [service_ok]. by rewrite irq_eois, Hsv.
  - intros _. split_and!; [done | constructor | apply not_elem_of_nil].
Qed.

Lemma irq_inv i sc m m' : inv m -> irq i sc m = Some m' -> inv m'.
Proof. intros I Hi. eexists _, _, _, _, _, _, _. by eapply irq_inv_at. Qed.

(** [exec] goes on: one action is done and the invariant holds again. *)
Definition progress (m : machine) : Prop := exists m', exec m = Step m' /\ inv m'.

(** It goes on with [k] in the place of the running code. *)
Definition advances (m : machine) (ctx : option bool) (k : list action) (rest : list (list action))
    (sv : list bool) (hs : list lock) : Prop :=
  exists m' sv' hs', exec m = Step m' /\ inv_at m' ctx k rest sv' sv hs' hs.

Lemma advances_progress m ctx k rest sv hs : advances m ctx k rest sv hs -> progress m.
Proof. intros (m' & sv' & hs' & He & I). exists m'. split; [done|]. by exists ctx, k, rest, sv', sv, hs', hs. Qed.

Ltac solve_inv :=
  constructor; cbn [console frames saved held interrupts in_service set_code set_interrupts set_saved
    set_held set_pics set_keyboard set_console]; try done.

Lemma exec_save m ctx k rest sv' sv hs' hs :
  inv_at m ctx (SaveAndDisable :: k) rest sv' sv hs' hs -> advances m ctx k rest sv hs.
Proof.
  intros [Hc Hf Hs Hh Hok Hr Hsv Hhd]. unfold advances, exec. rewrite Hf. eexists _, (interrupts m :: sv'), hs'.
  split; [done|]. simpl in Hok. apply andb_true_iff in Hok as [_ Hok].
  solve_inv; [by rewrite Hs|].
  intros Hx. destruct (Hhd Hx) as (-> & ? & ?). split_and!; [done | by constructor | done].
Qed.

Lemma exec_restore m ctx k rest sv' sv hs' hs :
  inv_at m ctx (Restore :: k) rest sv' sv hs' hs -> advances m ctx k rest sv hs.
Proof.
  intros [Hc Hf Hs Hh Hok Hr Hsv Hhd]. simpl in Hok. apply andb_true_iff in Hok as [_ Hok].
  destruct sv' as [|b sv']; [done|]. unfold advances, exec. rewrite Hf, Hs. eexists _, sv', hs'.
  split; [done|]. solve_inv.
  intros Hx. destruct (Hhd Hx) as (-> & Hall & ?). apply Forall_cons in Hall as [-> ?]. done.
Qed.

Lemma exec_lock m ctx k rest sv' sv hs' hs l :
  inv_at m ctx (Lock l :: k) rest sv' sv hs' hs -> advances m ctx k rest sv hs.
Proof.
  intros [Hc Hf Hs Hh Hok Hr Hsv Hhd]. simpl in Hok. rewrite !andb_true_iff in Hok.
  destruct Hok as [_ [[Hn%negb_true_iff%bool_decide_eq_false Hl] Hok]].
  unfold advances, exec. rewrite Hf, bool_decide_false by (rewrite Hh; by eapply lock_free).
  eexists _, sv', (l :: hs'). split; [done|].
  solve_inv; [by rewrite Hh|].
  intros Hx. destruct (Hhd Hx) as (? & ? & ?). split_and!; [done | done |].
  apply not_elem_of_cons. split; [|done]. intros <-. unfold lock_allowed in Hl. by rewrite Hx in Hl.
Qed.

Lemma exec_unlock m ctx k rest sv' sv hs' hs l :
  inv_at m ctx (Unlock l :: k) rest sv' sv hs' hs -> advances m ctx k rest sv hs.
Proof.
  intros [Hc Hf Hs Hh Hok Hr Hsv Hhd]. simpl in Hok. apply andb_true_iff in Hok as [_ Hok].
  destruct hs' as [|l' hs']; [done|]. rewrite !andb_true_iff in Hok.
  destruct Hok as [[[<-%bool_decide_eq_true Hn%negb_true_iff%bool_decide_eq_false] Hl] Hok].
  unfold advances, exec. rewrite Hf. eexists _, sv', hs'.
  split; [done|]. solve_inv.
  - rewrite Hh. apply unlock_first. by eapply lock_free.
  - intros Hx. destruct (Hhd Hx) as (? & ? & [_ ?]%not_elem_of_cons). done.
Qed.

Lemma exec_write {UL : UartLaws U} m ctx k rest sv' sv hs' hs a text :
  a = WriteVga text \/ a = WriteSerial text ->
  inv_at m ctx (a :: k) rest sv' sv hs' hs -> advances m ctx k rest sv hs.
Proof.
  intros Ha [Hc Hf Hs Hh Hok Hr Hsv Hhd]. unfold advances, exec. rewrite Hf.
  destruct (vga_print_ok text (console m) Hc) as (cv & Hv & Hcv).
  destruct (serial_print_ok text (console m) Hc) as (cs & Hss & Hcs).
  destruct Ha as [-> | ->]; simpl in Hok; apply andb_true_iff in Hok as [_ Hok];
    unfold output; cbn [console set_code]; rewrite ?Hv, ?Hss; eexists _, sv', hs';
    (split; [done|]); solve_inv.
Qed.

Lemma exec_pics m ctx k rest sv' sv hs' hs a :
  a = InitPics \/ a = Enable -> inv_at m ctx (a :: k) rest sv' sv hs' hs -> advances m ctx k rest sv hs.
Proof.
  intros Ha [Hc Hf Hs Hh Hok Hr Hsv Hhd]. unfold advances, exec. rewrite Hf.
  destruct ctx as [b|]; [destruct Ha as [-> | ->]; simpl in Hok; by rewrite andb_false_r in Hok|].
  destruct Ha as [-> | ->]; simpl in Hok; rewrite !andb_true_iff in Hok; destruct Hok as [_ Hok];
    eexists _, sv', hs'; (split; [done|]); solve_inv.
Qed.

Lemma exec_eoi m ctx k rest sv' sv hs' hs v :
  inv_at m ctx (EndOfInterrupt v :: k) rest sv' sv hs' hs -> advances m ctx k rest sv hs.
Proof.
  intros [Hc Hf Hs Hh Hok Hr Hsv Hhd]. simpl in Hok. rewrite !andb_true_iff in Hok.
  destruct Hok as [_ [[Hx Hv] Hok]]. unfold advances, exec. rewrite Hf, Hv. eexists _, sv', hs'.
  split; [done|]. solve_inv.
  destruct ctx as [b|]; [|done]. cbn [service_ok] in *. unfold eois in *. simpl in Hsv.
  destruct (in_service m); [done|]. simpl in *. congruence.
Qed.

Lemma exec_read_key m ctx k rest sv' sv hs' hs :
  inv_at m ctx (ReadKey :: k) rest sv' sv hs' hs ->
  advances m ctx k rest sv hs \/ exists text, advances m ctx (print_code text ++ k) rest sv hs.
Proof.
  intros [Hc Hf Hs Hh Hok Hr Hsv Hhd]. simpl in Hok. rewrite !andb_true_iff in Hok.
  destruct Hok as [_ [[[Hx Hb] Hw%negb_true_iff%bool_decide_eq_false] Hok]].
  unfold advances, exec. rewrite Hf. destruct (read_key m) as [print kb] eqn:Hk.
  assert (print = [] \/ exists text, print = print_code text) as [-> | [text ->]].
  { unfold read_key in Hk. repeat case_match; simplify_eq; eauto. }
  - left. eexists _, sv', hs'. split; [done|]. solve_inv.
  - right. exists text. eexists _, sv', hs'. split; [done|]. solve_inv.
    apply code_ok_section; [done | done | by eexists; left | done].
Qed.

Lemma exec_raise m ctx k rest sv' sv hs' hs v info :
  inv_at m ctx (Raise v info :: k) rest sv' sv hs' hs -> progress m.
Proof.
  intros [Hc Hf Hs Hh Hok Hr Hsv Hhd]. pose proof (code_ok_cons_locks _ _ _ _ _ _ Hok) as Hi.
  simpl in Hok. rewrite !andb_true_iff in Hok.
  destruct Hok as [_ [[[Hx ->%bool_decide_eq_true] Hv%bool_decide_eq_true] Hok]].
  destruct ctx as [b|]; [done|]. destruct rest; simpl in Hr; [|done]. destruct Hr as [-> ->].
  unfold progress, exec. rewrite Hf. eexists. split; [done|].
  exists (Some (interrupts m)), (IDT v info ++ [Iret (interrupts m)]), [k], [], (saved m), [], [].
  simpl in Hsv. rewrite app_nil_r in Hs. solve_inv.
  - by apply exception_code_ok.
  - rewrite Hs. by split.
  - cbn [service_ok]. by rewrite exception_eois, Hsv.
  - intros _. split_and!; [done | constructor | apply not_elem_of_nil].
Qed.

Lemma exec_iret m ctx k rest sv' sv hs' hs b :
  inv_at m ctx (Iret b :: k) rest sv' sv hs' hs ->
  ctx = Some b /\
  exists m', exec m = Step m' /\ inv m' /\ interrupts m' = b /\ frames m' = rest /\ saved m' = sv /\
    held m' = hs /\ in_service m' = [].
Proof.
  intros [Hc Hf Hs Hh Hok Hr Hsv Hhd]. simpl in Hok. apply andb_true_iff in Hok as [_ Hok].
  destruct k; [|done]. apply bool_decide_eq_true in Hok as (-> & -> & ->). split; [done|].
  destruct rest as [|code [|]]; simpl in Hr; [done| |done]. destruct Hr as [Hcode Hal].
  cbn [app] in Hs, Hh. assert (in_service m = []) as Hz by (by destruct (in_service m)).
  unfold exec. rewrite Hf. eexists. split; [done|]. split; [|done].
  exists None, code, [], sv, [], hs, []. rewrite <-(app_nil_r sv) in Hs.
  rewrite <-(app_nil_r hs) in Hh. solve_inv.
Qed.

(** The running code never waits for a lock and never fails. *)
Lemma exec_ok {UL : UartLaws U} m : inv m -> exec m = Halted \/ progress m.
Proof.
  intros (ctx & top & rest & sv' & sv & hs' & hs & I).
  destruct top as [|a k]; [by destruct I as [_ _ _ _ Hok]; simpl in Hok; rewrite andb_false_r in Hok|].
  destruct a.
  13: { left. unfold exec. by rewrite (inv_frames _ _ _ _ _ _ _ _ I). }
  7: { right. by destruct (exec_read_key _ _ _ _ _ _ _ _ I) as [? | [? ?]]; eapply advances_progress. }
  11: { right. destruct (exec_iret _ _ _ _ _ _ _ _ _ I) as [_ (m' & ? & ? & _)]. by exists m'. }
  all: right; eauto 6 using advances_progress, exec_save, exec_restore, exec_lock, exec_unlock,
    exec_write, exec_pics, exec_eoi, exec_raise.
Qed.

Lemma step_inv {UL : UartLaws U} m m' : inv m -> step m m' -> inv m'.
Proof.
  intros I [m1 He|i sc m1 Hi]; [|by eapply irq_inv].
  destruct (exec_ok m I) as [Hh | (m2 & He2 & I2)]; congruence.
Qed.

Lemma reachable_inv {UL : UartLaws U} m0 m : inv m0 -> reachable m0 m -> inv m.
Proof. intros I. induction 1; [done | by eapply step_inv]. Qed.

(** [init] is called once, before interrupts are enabled, and exceptions are
    exceptions of the processor. *)
Fixpoint calls_ok (enabled : bool) (calls : list call) : bool :=
  match calls with
  | [] => true
  | CallInit :: k => negb enabled && calls_ok true k
  | CallException v _ :: k => bool_decide (v < 32) && calls_ok enabled k
  | _ :: k => calls_ok enabled k
  end.

Lemma calls_code_ok b calls :
  calls_ok b calls = true -> code_ok None b [] [] (flat_map code_of calls ++ [HltLoop]) = true.
Proof.
  revert b. induction calls as [|c calls IH]; intros b Hc; [by destruct b|].
  cbn [flat_map]. rewrite <-app_assoc.
  destruct c; cbn [calls_ok code_of] in *.
  - apply code_ok_section; [apply not_elem_of_nil | done | by eexists; left | auto].
  - apply code_ok_section; [apply not_elem_of_nil | done | by eexists; right | auto].
  - destruct b; exact (IH _ Hc).
  - apply andb_true_iff in Hc as [Hv%bool_decide_eq_true Hc]. cbn.
    rewrite (bool_decide_true (_ < _)) by done. destruct b; exact (IH _ Hc).
  - apply andb_true_iff in Hc as [Hb Hc]. destruct b; [done|]. exact (IH _ Hc).
  - apply panic_code_ok.
Qed.

Lemma start_inv calls k c :
  wf_console c -> calls_ok false calls = true -> inv (start calls k c).
Proof.
  intros Hc Hk. exists None, (flat_map code_of calls ++ [HltLoop]), [], [], [], [], [].
  constructor; try done. by apply calls_code_ok.
Qed.

(** While interrupts are enabled the main code runs, no interrupt is in service
    and only the allocator's lock may be held. *)
Lemma inv_enabled m :
  inv m -> interrupts m = true -> in_service m = [] /\ only_allocator (held m) = true.
Proof.
  intros (ctx & top & rest & sv' & sv & hs' & hs & [_ _ _ Hh Hok Hr Hsv Hhd]) Hi.
  destruct ctx as [b|]; [by destruct (Hhd eq_refl); congruence|].
  destruct rest; [|done]. destruct Hr as [_ ->]. rewrite app_nil_r in Hh. split; [done|].
  rewrite Hh. rewrite Hi in Hok. by eapply code_ok_locks.
Qed.

(** [n] actions without an interrupt in between. *)
Fixpoint exec_n (n : nat) (m : machine) : option machine :=
  match n with
  | O => Some m
  | S n' => match exec m with Step m' => exec_n n' m' | _ => None end
  end.

Lemma reachable_front m m1 m' : step m m1 -> reachable m1 m' -> reachable m m'.
Proof. intros Hs. induction 1; eauto using reachable. Qed.

Lemma exec_n_reachable n m m' : exec_n n m = Some m' -> reachable m m'.
Proof.
  revert m. induction n as [|n IH]; intros m; simpl; [intros [= ->]; constructor|].
  destruct (exec m) as [m1| | |] eqn:He; try done. intros Hn.
  eapply reachable_front; [by constructor | by apply IH].
Qed.

(** Code that returns, and how many actions it takes at most: what is printed
    for a key takes five more. *)
Definition returning (code : list action) : bool :=
  forallb (fun a => match a with HltLoop | Raise _ _ => false | _ => true end) code.

Definition weight (code : list action) : nat :=
  list_sum (map (fun a => match a with ReadKey => 6 | _ => 1 end)%nat code).

(** The machine is back in the stopped code, as it was stopped. *)
Definition resumes (b : bool) (rest : list (list action)) (sv : list bool) (hs : list lock)
    (m : machine) : Prop :=
  interrupts m = b /\ frames m = rest /\ saved m = sv /\ held m = hs /\ in_service m = [].

(** A handler that neither halts nor faults runs to its end. *)
Lemma handler_runs {UL : UartLaws U} n m b top rest sv' sv hs' hs :
  inv_at m (Some b) top rest sv' sv hs' hs -> returning top = true -> (weight top <= n)%nat ->
  exists j m', (j <= n)%nat /\ exec_n j m = Some m' /\ resumes b rest sv hs m'.
Proof.
  revert m top sv' hs'. induction n as [|n IH]; intros m top sv' hs' I Hret Hw.
  all: destruct top as [|a k];
    [by destruct I as [_ _ _ _ Hok]; simpl in Hok; rewrite andb_false_r in Hok|].
  { destruct a; unfold weight in Hw; simpl in Hw; lia. }
  assert (forall k', advances m (Some b) k' rest sv hs -> returning k' = true ->
    (weight k' <= n)%nat ->
    exists j m', (j <= S n)%nat /\ exec_n j m = Some m' /\ resumes b rest sv hs m') as Hgo.
  { intros k' (m1 & sv1 & hs1 & He & I1) Hr1 Hw1.
    destruct (IH _ _ _ _ I1 Hr1 Hw1) as (j & m' & Hj & Hex & Hres).
    exists (S j), m'. split; [lia|]. split; [|done]. simpl. by rewrite He. }
  unfold returning in Hret. cbn [forallb] in Hret. apply andb_true_iff in Hret as [Ha Hret].
  destruct a; try discriminate Ha.
  7: { unfold weight in Hw. simpl in Hw. destruct (exec_read_key _ _ _ _ _ _ _ _ I) as [H | [text H]].
       - apply (Hgo k); [done | done | unfold weight; lia].
       - apply (Hgo _ H); [done | unfold weight; simpl; lia]. }
  10: { destruct (exec_iret _ _ _ _ _ _ _ _ _ I) as [[= <-] (m' & He & _ & ? & ? & ? & ? & ?)].
        exists 1%nat, m'. split; [lia|]. simpl. by rewrite He. }
  all: apply (Hgo k); [|done | unfold weight in *; simpl in Hw; lia].
  all: eauto using exec_save, exec_restore, exec_lock, exec_unlock, exec_write, exec_pics, exec_eoi.
Qed.
End machine.

Section properties.
Context {U : Uart} {UL : UartLaws U} {K : KeyboardDecoder}.

(** C10 (safety). No deadlock: whatever calls the kernel makes (with [init]
    called once, while interrupts are disabled) and whenever the timer and the
    keyboard interrupt it, the running code can always take its next action or
    is in [hlt_loop]; it never waits for a lock that the code it stopped holds,
    and never fails. *)
Theorem kernel_never_deadlocks calls k c m :
  wf_console c -> calls_ok false calls = true -> reachable (start calls k c) m ->
  exec m = Halted \/ exists m', exec m = Step m'.
Proof.
  intros Hc Hk Hr. destruct (exec_ok m) as [H | (m' & H & _)]; [|by left | right; by exists m'].
  eapply reachable_inv; [by apply start_inv | done].
Qed.

(** C27 (liveness). Every delivered interrupt is handled: within 12 actions, none
    of which another interrupt can come between, its handler has acknowledged it
    at the controller and returned to the stopped code with the locks, the saved
    flags and the interrupt flag as they were. *)
Theorem interrupts_are_handled calls k c m i sc m1 :
  wf_console c -> calls_ok false calls = true -> reachable (start calls k c) m ->
  irq i sc m = Some m1 ->
  exists n m2, (n <= 12)%nat /\ exec_n n m1 = Some m2 /\
    resumes true (frames m) (saved m) (held m) m2.
Proof.
  intros Hc Hk Hr Hi. eapply handler_runs.
  - eapply irq_inv_at; [|exact Hi]. eapply reachable_inv; [by apply start_inv | done].
  - by destruct i.
  - destruct i; vm_compute; lia.
Qed.

(** While interrupts are enabled no lock but the allocator's is
    held and no interrupt is in service, so once the controller is set up both
    the timer and the keyboard can always get through. *)
Theorem enabled_means_open calls k c m :
  wf_console c -> calls_ok false calls = true -> reachable (start calls k c) m ->
  interrupts m = true ->
  Forall (fun l => l = ALLOCATOR) (held m) /\ in_service m = [] /\
  (pics_ready m = true -> forall i sc, is_Some (irq i sc m)).
Proof.
  intros Hc Hk Hr Hi. destruct (inv_enabled m) as [Hs Ha]; [|done|].
  { eapply reachable_inv; [by apply start_inv | done]. }
  split_and!; [|done|].
  - apply List.Forall_forall. unfold only_allocator in Ha. rewrite forallb_forall in Ha.
    intros l Hl. by apply Ha, bool_decide_eq_true in Hl.
  - intros Hp i sc. unfold irq. rewrite Hi, Hp, Hs. by eexists.
Qed.
End properties.

(** ** A concrete machine *)

(** A keyboard whose scan codes are the characters. *)
#[local] Instance ascii_keyboard : KeyboardDecoder := {|
  keyboard_state := unit;
  key_event := Z;
  add_byte sc k := (Ok (Some sc), k);
  process_keyevent e k := (Some (String (Ascii.ascii_of_N (Z.to_N e)) ""), k);
|}.

Definition quiet_console : Console uart_log := {| serial1 := ""; writer := blank_writer |}.

Definition sample_calls : list call :=
  [CallPrint "booting"; CallInit; CallAlloc; CallPrint "ready"].

Definition sample_start : machine :=
  start sample_calls tt quiet_console.

(** The machine of [sample_start] after [n] actions without an interrupt. *)
Definition sample_after (n : nat) : machine :=
  match exec_n n sample_start with Some m => m | None => sample_start end.

Lemma sample_console_wf : wf_console quiet_console.
Proof. by_compute. Qed.

Lemma kernel_never_deadlocks_witness :
  exec (sample_after 11) = Halted \/ exists m', exec (sample_after 11) = Step m'.
Proof.
  apply (kernel_never_deadlocks (U := uart_log) (K := ascii_keyboard) sample_calls tt quiet_console);
    [apply sample_console_wf | reflexivity | apply (exec_n_reachable 11); vm_compute; reflexivity].
Defined.

Lemma interrupts_are_handled_witness :
  exists m1, irq Keyboard 65 (sample_after 10) = Some m1 /\
  exists n m2, (n <= 12)%nat /\ exec_n n m1 = Some m2 /\
    resumes true (frames (sample_after 10)) (saved (sample_after 10)) (held (sample_after 10)) m2.
Proof.
  eexists. split; [vm_compute; reflexivity|].
  apply (interrupts_are_handled (U := uart_log) (K := ascii_keyboard) sample_calls tt quiet_console
    (sample_after 10) Keyboard 65);
    [apply sample_console_wf | reflexivity | apply (exec_n_reachable 10); vm_compute; reflexivity
    | vm_compute; reflexivity].
Defined.

Lemma enabled_means_open_witness :
  Forall (fun l => l = ALLOCATOR) (held (sample_after 10)) /\ in_service (sample_after 10) = [] /\
  (pics_ready (sample_after 10) = true -> forall i sc, is_Some (irq i sc (sample_after 10))).
Proof.
  apply (enabled_means_open (U := uart_log) (K := ascii_keyboard) sample_calls tt quiet_console);
    [apply sample_console_wf | reflexivity | apply (exec_n_reachable 10); vm_compute; reflexivity
    | vm_compute; reflexivity].
Defined.

(** The order of [init] matters: set up again with interrupts enabled, the
    controller's lock is waited for by the handler that stopped its holder. *)
Lemma late_init_deadlocks :
  exists m, reachable (start (U := uart_log) (K := ascii_keyboard) [CallInit; CallInit] tt quiet_console) m /\
    exec m = Spin PICS.
Proof.
  eexists. split.
  - eapply reachable_step; [apply (exec_n_reachable 5); vm_compute; reflexivity|].
    apply (step_irq _ Timer 0). vm_compute. reflexivity.
  - vm_compute. reflexivity.
Qed.
