(* ===== verification/Kernel.v ===== *)
(** * The kernel's entry point and test runner (src/src/main.rs, src/src/lib.rs)

    [kernel_main] puts the parts together: it checks the boot information, sets
    up the frame allocator and the heap, boots the agent and enters the halt
    loop; the result here is the state it enters the loop with.  The set-up of the
    processor is the list of privileged operations in the order they are done;
    what it means for locks and interrupts is the subject of the file on
    interrupts.  The page table register is a parameter. *)

From Stdlib Require Import Lia Ascii.
From stdpp Require Import base decidable strings numbers gmap list.
From S2P Require Import Prelude RustStr Vga Console Context Tools Agent.
From S2P Require Import UnstableSort MemoryMap X86 FrameAllocator Memory Paging Heap BootInfo.

Open Scope Z_scope.

(** The operations [init] performs on the processor and the controller. *)
Inductive hardware_op :=
| LoadGdt | SetCodeSegment | LoadTss | LoadIdt | InitializePics | EnableInterrupts.

Definition gdt_init : list hardware_op := [LoadGdt; SetCodeSegment; LoadTss].
Definition init_idt : list hardware_op := [LoadIdt].
Definition init (hw : list hardware_op) : list hardware_op :=
  hw ++ gdt_init ++ init_idt ++ [InitializePics; EnableInterrupts].

Definition no_offset : string :=
  "Physical memory offset is 0! Bootloader failed to map memory.".

Section kernel.
Context {B : Build} {U : Uart} {X : X86Phys} {V : X86Virt} {M : Type} {MP : Mapper M}
  {OT : OffsetTable M}.

(** What the kernel holds when it enters the halt loop. *)
Record kernel_state := {
  k_hardware : list hardware_op;
  k_agent : Agent;
  k_mapper : M;
  k_frame_allocator : BootInfoFrameAllocator;
  k_heap : heap_state;
}.

Definition kernel_main (cr3 : PhysFrame) (boot_info : BootInfo) : io kernel_state :=
  _ ← println "==================================";
  _ ← println "  LLM OS v0.1.0";
  _ ← println "  An AI-First Operating System";
  _ ← println "==================================";
  _ ← serial_println "[kernel] Booting LLM OS...";
  let hardware := init [] in
  _ ← serial_println "[kernel] GDT, IDT, PIC initialized";
  _ ← lift (if physical_memory_offset boot_info =? 0 then Panic no_offset else Ret tt);
  phys_mem_offset ← lift (VirtAddr_new (physical_memory_offset boot_info));
  mapper ← lift (memory_init cr3 phys_mem_offset);
  let frame_allocator := BootInfoFrameAllocator_init (memory_map boot_info) in
  '(r, mapper, frame_allocator, heap) ← lift (init_heap mapper frame_allocator None);
  _ ← lift (expect_ok r "heap initialization failed");
  _ ← serial_println "[kernel] Heap allocator initialized";
  _ ← println "";
  _ ← println "Hardware initialized.";
  _ ← println "Starting Agent runtime...";
  _ ← serial_println "[kernel] Starting Agent runtime...";
  agent ← boot Agent_new;
  _ ← println "";
  _ ← println "Agent is alive. Entering run loop.";
  _ ← serial_println "[kernel] Agent run loop started";
  mret {| k_hardware := hardware; k_agent := agent; k_mapper := mapper;
          k_frame_allocator := frame_allocator; k_heap := heap |}.

(** The kernel's symbol [_start]. *)
Definition _start (cr3 : PhysFrame) : BootInfo -> io kernel_state := __impl_start (kernel_main cr3).

(** The panic handler: the report on both devices, then the halt loop. *)
Definition panic_handler (info : string) : io unit :=
  _ ← println ("KERNEL PANIC: " +:+ info);
  serial_println ("KERNEL PANIC: " +:+ info).
End kernel.

(** ** The test runner *)

Inductive QemuExitCode := Success | Failed.

Definition exit_code (c : QemuExitCode) : Z := match c with Success => 0x10 | Failed => 0x11 end.

Section tests.
Context {U : Uart}.

(** A test: its type name and what running it does. *)
Record Testable := { type_name : string; body : io unit }.

Definition tab : string := String "009"%char "".

Definition Testable_run (t : Testable) : io unit :=
  _ ← serial_print (type_name t +:+ "..." +:+ tab);
  _ ← body t;
  serial_println "[ok]".

Fixpoint run_all (tests : list Testable) : io unit :=
  match tests with
  | [] => mret tt
  | t :: tests' => _ ← Testable_run t; run_all tests'
  end.

(** The value [exit_qemu] writes to port 0xf4. *)
Definition test_runner (tests : list Testable) : io Z :=
  _ ← serial_println ("Running " +:+ display_uint (Z.of_nat (length tests)) +:+ " tests");
  _ ← run_all tests;
  mret (exit_code Success).

Definition test_panic_handler (info : string) : io Z :=
  _ ← serial_println ("[failed]" +:+ newline_str);
  _ ← serial_println ("Error: " +:+ info +:+ newline_str);
  mret (exit_code Failed).

(** [test_main] is generated by the test framework and hands the tests to
    [test_runner].  The result is what was done to the processor and what was
    written to the exit port, on which the emulator stops; on other machines the
    halt loop follows. *)
Definition test_kernel_main (tests : list Testable) (_boot_info : BootInfo) : io (list hardware_op * Z) :=
  let hardware := init [] in
  code ← test_runner tests;
  mret (hardware, code).

(** The symbol [_start] and the panic handler of a test kernel. *)
Definition test_start (tests : list Testable) : BootInfo -> io (list hardware_op * Z) :=
  __impl_start (test_kernel_main tests).
Definition test_panic (info : string) : io Z := test_panic_handler info.

(** A test run: a panic in it goes to the panic handler, which starts on the
    console [at_panic]. *)
Definition test_session (tests : list Testable) (boot_info : BootInfo) (c at_panic : Console U) : outcome Z :=
  match test_start tests boot_info c with
  | Ret ((_, code), _) => Ret code
  | Panic why => '(code, _) ← test_panic why at_panic; Ret code
  end.
End tests.

(** ** Proofs *)

Section proofs.
Context {B : Build} {U : Uart} {UL : UartLaws U} {X : X86Phys} {XL : X86PhysLaws X}.
Context {V : X86Virt} {VL : X86VirtLaws V} {M : Type} {MP : Mapper M} {ML : MapperLaws M} {OT : OffsetTable M}.

Lemma println_out text (c : Console U) :
  wf_console c ->
  exists c', println text c = Ret (tt, c') /\ wf_console c' /\ column_position (writer c') = 0%nat.
Proof.
  intros Hc. unfold println, vga_print.
  destruct (write_line_column (writer c) text Hc) as (w & -> & Hw & Hcol & _).
  eexists. split; [done|]. by split.
Qed.

Lemma serial_out text (c : Console U) :
  wf_console c ->
  exists c', serial_println text c = Ret (tt, c') /\ wf_console c' /\ writer c' = writer c.
Proof.
  intros Hc. destruct (serial_println_ok text c) as [u ->]. eexists. split; [done|]. by split.
Qed.

(** Runs the next output of the goal. *)
Ltac run_output :=
  match goal with
  | Hc : wf_console ?c |- context [println ?t ?c] =>
      let c' := fresh "c" in let H := fresh "Hwf" in let Hcol := fresh "Hcol" in
      destruct (println_out t c Hc) as (c' & -> & H & Hcol); clear Hc
  | Hc : wf_console ?c |- context [serial_println ?t ?c] =>
      let c' := fresh "c" in let H := fresh "Hwf" in let Hwr := fresh "Hwr" in
      destruct (serial_out t c Hc) as (c' & -> & H & Hwr); clear Hc
  end.

(** What the kernel needs of the machine it is started on. *)
Record bootable (cr3 : PhysFrame) (boot_info : BootInfo) : Prop := {
  ba_offset : physical_memory_offset boot_info <> 0;
  ba_canonical : canonical (physical_memory_offset boot_info);
  ba_map : wf_map (memory_map boot_info);
  ba_disjoint : disjoint_map (memory_map boot_info);
  ba_memory : (1024 < length (usable_numbers (memory_map boot_info)))%nat;
  ba_table : canonical (physical_memory_offset boot_info + 4096 * frame_number cr3);
  ba_unmapped : forall a (m : M), virt_as_u64 a = physical_memory_offset boot_info ->
    memory_init cr3 a = Ret m -> heap_unmapped m;
}.

(** The screen shows [text] on the row above the bottom one. *)
Definition shows_line (text : string) (c : Console U) : Prop :=
  forall i b, str_bytes text !! i = Some b ->
    exists color, read_char (BUFFER_HEIGHT - 2) i (writer c) =
      Ret {| ascii_character := b; color_code := color |}.

Lemma println_shows text c :
  wf_console c -> column_position (writer c) = 0%nat ->
  Forall (fun b => 32 <= b <= 126) (str_bytes text) -> (length (str_bytes text) <= BUFFER_WIDTH)%nat ->
  exists c', println text c = Ret (tt, c') /\ wf_console c' /\ shows_line text c'.
Proof.
  intros Hc Hcol Ht Hl. destruct (println_out text c Hc) as (c' & Hp & Hc' & _).
  exists c'. do 2 (split; [done|]). unfold println, vga_print in Hp.
  destruct (write_line_rows (writer c) text Hc Hcol Ht Hl) as (w & top & line & Hw & Hbuf & Htop & Hline).
  rewrite Hw in Hp. injection Hp as <-. intros i b Hi. exists (writer_color (writer c)).
  unfold read_char. cbn [writer]. rewrite Hbuf, <-Htop, list_lookup_middle by done.
  by rewrite (Hline i b Hi).
Qed.

Lemma memory_init_ok cr3 a :
  canonical (virt_as_u64 a + 4096 * frame_number cr3) -> exists m, memory_init (M := M) cr3 a = Ret m.
Proof.
  intros Hc. unfold memory_init, active_level_4_table. pose proof (frame_number_range cr3).
  rewrite frame_start_number. destruct (virt_add_ok a (4096 * frame_number cr3)) as (t & -> & _); [lia | done |].
  by eexists.
Qed.

(** The whole of [kernel_main]. *)
Lemma kernel_main_ok cr3 boot_info c :
  wf_console c -> bootable cr3 boot_info ->
  exists ks c' a m0 frames, kernel_main cr3 boot_info c = Ret (ks, c') /\ wf_console c' /\
    shows_line "Agent is alive. Entering run loop." c' /\
    k_hardware ks = init [] /\
    agent_ok (k_agent ks) /\ messages (context (k_agent ks)) = [prompt_message] /\
    tool_registry (k_agent ks) = builtin_registry ToolRegistry_new /\
    k_heap ks = Some (HEAP_START, HEAP_SIZE) /\ virt_as_u64 a = physical_memory_offset boot_info /\
    memory_init cr3 a = Ret m0 /\ heap_mapped frames m0 (k_mapper ks) /\
    map frame_number frames `sublist_of` usable_numbers (memory_map boot_info).
Proof.
  intros Hc [Ho Hca Hm Hd Hmem Htab Hun]. unfold kernel_main, mbind, io_bind, lift.
  do 6 run_output. rewrite (proj2 (Z.eqb_neq _ _) Ho).
  destruct (VirtAddr_new_canonical _ Hca) as (a & -> & Ha).
  destruct (memory_init_ok cr3 a) as [m0 Hm0]; [by rewrite Ha|]. rewrite Hm0.
  destruct (init_heap_boot_info m0 (memory_map boot_info) None Hm Hmem (Hun a m0 Ha Hm0))
    as (m' & fa & frames & -> & Hmap & Hsub). cbn [expect_ok].
  do 5 run_output.
  match goal with H : wf_console ?c |- context [boot Agent_new ?c] =>
    destruct (boot_ok c H) as (ag & cb & -> & Hwfb & Hag & Hms & _ & Hreg); clear H end.
  run_output.
  match goal with H : wf_console ?c |- context [println ?t ?c] =>
    destruct (println_shows t c H) as (cs & -> & Hwfs & Hshow); [done | by_compute | by_compute | clear H] end.
  run_output. eexists _, _, a, m0, frames. split; [done|]. split; [done|].
  split; [|by split_and!]. intros i b Hi.
  match goal with H : writer _ = writer cs |- _ => rewrite H end. by apply Hshow.
Qed.

(** Without a usable frame the heap cannot be set up. *)
Lemma init_heap_no_memory m mm heap :
  wf_map mm -> usable_numbers mm = [] ->
  exists e m' a', init_heap m (BootInfoFrameAllocator_init mm) heap = Ret (Err e, m', a', heap).
Proof.
  intros Hw Hno.
  destruct (init_heap_spec m (BootInfoFrameAllocator_init mm) heap 0)
    as (r & m' & a' & heap' & j & Heq & _ & _ & Hres); [split_and!; [done | simpl; lia | simpl; lia]|].
  destruct r as [[]|e].
  - exfalso. destruct Hres as (_ & frames & (Hlen & _) & Hsub). simpl in Hsub.
    rewrite Hno, drop_nil in Hsub. apply sublist_nil_r in Hsub.
    apply (f_equal length) in Hsub. rewrite length_map, Hlen in Hsub. done.
  - destruct Hres as [-> _]. by exists e, m', a'.
Qed.

Lemma run_all_ok tests c :
  Forall (fun t => forall c, returns (body t c)) tests -> returns (run_all tests c).
Proof.
  intros H. revert c. induction H as [|t tests Ht _ IH]; intros c; [by eexists|].
  cbn [run_all]. unfold Testable_run, mbind, io_bind, serial_print.
  destruct (uart_write_total (type_name t +:+ "..." +:+ tab) (serial1 c)) as [u ->].
  destruct (Ht {| serial1 := u; writer := writer c |}) as [[[] c1] ->].
  destruct (serial_println_ok "[ok]" c1) as [u1 ->]. apply IH.
Qed.

Lemma run_all_panics tests c t :
  t ∈ tests -> (forall c, panics (body t c)) -> panics (run_all tests c).
Proof.
  intros (pre & post & ->)%list_elem_of_split Hp. revert c.
  induction pre as [|t' pre IH]; intros c; cbn [app run_all]; unfold Testable_run, mbind, io_bind, serial_print.
  - destruct (uart_write_fmt _ (serial1 c)) as [u|]; [|by eexists].
    destruct (Hp {| serial1 := u; writer := writer c |}) as [why ->]. by eexists.
  - destruct (uart_write_fmt _ (serial1 c)) as [u|]; [|by eexists].
    destruct (body t' _) as [[[] c1]|why]; [|by eexists].
    destruct (serial_println "[ok]" c1) as [[[] c2]|why]; [apply IH | by eexists].
Qed.

(** C11 (functional). On a bootable machine the kernel reaches its run loop: the
    last line on the screen says so, the tables are loaded and the controller set
    up before interrupts are enabled, the agent holds the system prompt and the
    four tools, the global allocator has the heap, and every heap page is mapped
    to a frame of its own that the memory map calls usable, while the rest of the
    address space is as [memory::init] found it. *)
Theorem kernel_boots cr3 boot_info c :
  wf_console c -> bootable cr3 boot_info ->
  exists ks c' a m0 frames, kernel_main cr3 boot_info c = Ret (ks, c') /\ wf_console c' /\
    shows_line "Agent is alive. Entering run loop." c' /\
    k_hardware ks = [LoadGdt; SetCodeSegment; LoadTss; LoadIdt; InitializePics; EnableInterrupts] /\
    messages (context (k_agent ks)) = [new_message System system_prompt] /\
    tools (tool_registry (k_agent ks)) = builtin_tools /\
    k_heap ks = Some (HEAP_START, HEAP_SIZE) /\ virt_as_u64 a = physical_memory_offset boot_info /\
    memory_init cr3 a = Ret m0 /\ heap_mapped frames m0 (k_mapper ks) /\
    NoDup (map frame_number frames) /\
    (forall f, f ∈ map frame_number frames -> owners f (memory_map boot_info) = [Usable]).
Proof.
  intros Hc Hb. pose proof (ba_disjoint _ _ Hb) as Hd.
  destruct (kernel_main_ok cr3 boot_info c Hc Hb)
    as (ks & c' & a & m0 & frames & Heq & Hwf & Hsh & Hhw & Hag & Hms & Hreg & Hheap & Ha & Hm0 & Hmap & Hsub).
  exists ks, c', a, m0, frames. do 5 (split; [done|]). split; [apply Hag|]. do 4 (split; [done|]). split.
  - eapply sublist_NoDup; [by apply NoDup_usable_list | exact Hsub].
  - intros f Hf. apply singleton_usable; [apply Hd|]. apply elem_of_usable_numbers.
    by eapply elem_of_sublist.
Qed.

(** The kernel stops with a panic when the bootloader did not map
    the physical memory, and when there is no usable frame. *)
Theorem kernel_refuses cr3 boot_info c :
  wf_console c ->
  (physical_memory_offset boot_info = 0 -> kernel_main cr3 boot_info c = Panic no_offset) /\
  (physical_memory_offset boot_info <> 0 -> canonical (physical_memory_offset boot_info) ->
   canonical (physical_memory_offset boot_info + 4096 * frame_number cr3) ->
   wf_map (memory_map boot_info) -> usable_numbers (memory_map boot_info) = [] ->
   kernel_main cr3 boot_info c = Panic "heap initialization failed").
Proof.
  intros Hc. unfold kernel_main, mbind, io_bind, lift. do 6 run_output. split.
  - intros ->. done.
  - intros Ho Hca Htab Hm Hno. rewrite (proj2 (Z.eqb_neq _ _) Ho).
    destruct (VirtAddr_new_canonical _ Hca) as (a & -> & Ha).
    destruct (memory_init_ok cr3 a) as [m0 ->]; [by rewrite Ha|].
    by destruct (init_heap_no_memory m0 (memory_map boot_info) None Hm Hno)
      as (e & m' & a' & ->).
Qed.

(** The exit code of a test run tells whether it passed: 0x10
    when every test returns, 0x11 when one of them panics. *)
Theorem test_exit_code tests boot_info (c c' : Console U) :
  (Forall (fun t => forall c, returns (body t c)) tests -> test_session tests boot_info c c' = Ret 0x10) /\
  ((exists t, t ∈ tests /\ forall c, panics (body t c)) -> test_session tests boot_info c c' = Ret 0x11).
Proof.
  unfold test_session, test_start, __impl_start, test_kernel_main, test_runner, mbind, io_bind.
  destruct (serial_println_ok ("Running " +:+ display_uint (Z.of_nat (length tests)) +:+ " tests") c)
    as [u ->]. split.
  - intros H. by destruct (run_all_ok tests {| serial1 := u; writer := writer c |} H) as [[[] c1] ->].
  - intros (t & Hin & Hp).
    destruct (run_all_panics tests {| serial1 := u; writer := writer c |} t Hin Hp) as [why ->].
    unfold test_panic, test_panic_handler, mbind, io_bind.
    destruct (serial_println_ok ("[failed]" +:+ newline_str) c') as [u1 ->].
    by destruct (serial_println_ok ("Error: " +:+ why +:+ newline_str)
      {| serial1 := u1; writer := writer c' |}) as [u2 ->].
Qed.
End proofs.

(** ** A concrete boot *)

#[local] Instance checked : Build := true.

Definition sample_boot_info : BootInfo := BootInfo_new sample_map None 0 0x10000000000.

(** The table the register refers to is empty. *)
#[local] Instance empty_offset_table : OffsetTable (list (Z * (PhysFrame * Z))) := fun _ _ => empty_table.

Lemma sample_cr3_range : 0 <= 0x100 < 2 ^ 40.
Proof. lia. Qed.

Definition sample_cr3 : @PhysFrame phys_numbers := dexist 0x100 sample_cr3_range.

Lemma sample_bootable : bootable sample_cr3 sample_boot_info.
Proof.
  constructor; [done | by_compute | apply sample_map_wf | apply sample_map_disjoint
    | apply sample_map_usable | by_compute |].
  intros a m _ (t & _ & [= <-])%bind_Ret_inv. apply empty_table_unmapped.
Qed.

Lemma kernel_boots_witness :
  exists ks c' (a : VirtAddr) m0 frames,
    kernel_main sample_cr3 sample_boot_info sample_console = Ret (ks, c') /\
    wf_console c' /\ shows_line "Agent is alive. Entering run loop." c' /\
    k_hardware ks = [LoadGdt; SetCodeSegment; LoadTss; LoadIdt; InitializePics; EnableInterrupts] /\
    messages (context (k_agent ks)) = [new_message System system_prompt] /\
    tools (tool_registry (k_agent ks)) = builtin_tools /\
    k_heap ks = Some (HEAP_START, HEAP_SIZE) /\ virt_as_u64 a = physical_memory_offset sample_boot_info /\
    memory_init sample_cr3 a = Ret m0 /\ heap_mapped frames m0 (k_mapper ks) /\
    NoDup (map frame_number frames) /\
    (forall f, f ∈ map frame_number frames -> owners f (memory_map sample_boot_info) = [Usable]).
Proof.
  apply (kernel_boots sample_cr3 sample_boot_info sample_console);
    [by_compute | apply sample_bootable].
Defined.

Lemma kernel_refuses_witness :
  kernel_main sample_cr3 (BootInfo_new sample_map None 0 0) sample_console = Panic no_offset.
Proof.
  apply (kernel_refuses sample_cr3 (BootInfo_new sample_map None 0 0) sample_console);
    [by_compute | reflexivity].
Defined.

Lemma test_exit_code_witness :
  test_session [{| type_name := "llm_os::trivial"; body := mret tt |}] sample_boot_info
    sample_console sample_console = Ret 0x10.
Proof.
  apply (test_exit_code [{| type_name := "llm_os::trivial"; body := mret tt |}] sample_boot_info
    sample_console sample_console).
  repeat constructor. intros c. by eexists.
Defined.
