(* ===== verification/Handover.v ===== *)
(** * From the bootloader to the kernel

    The kernel's [OffsetPageTable] walks the page table the bootloader left.  The
    bootloader never changes which table is the active one, the whole memory of
    the firmware is mapped where the kernel looks for it, and so the kernel sees
    the mappings the bootloader made and, where the bootloader mapped nothing,
    pages for its heap. *)

From Stdlib Require Import Lia.
From stdpp Require Import base decidable strings numbers list.
From S2P Require Import Prelude UnstableSort MemoryMap X86 X86Huge FrameAllocator EntryCost BootRegions Level4.
From S2P Require Import Memory Paging Heap BuildConfig BootInfo PageTable BootPaging KernelLoad KernelMapping TableBudget.
From S2P Require Import Printer BootMain BootSteps Boot Bootloader BootTheorems.

Open Scope Z_scope.

(** ** The active table *)

Create HintDb keeps_root.

(** No operation on mappings moves the level 4 table. *)
Class RootLaws `{X86Huge} (M : Type) {MP : Mapper M} {RM : Recursive M} {BT : BootTable M} : Prop := {
  root_map_to A (FA : FrameAlloc A) page frame flags m (a : A) r m' a' :
    map_to page frame flags m a = Ret (r, m', a') -> root m' = root m;
  root_unmap page m : root (snd (unmap page m)) = root m;
  root_map_to2 A (FA : FrameAlloc A) page frame flags m (a : A) r m' a' :
    map_to2 page frame flags m a = Ret (r, m', a') -> root m' = root m;
  root_unmap2 page m : root (snd (unmap2 page m)) = root m;
  root_set_entry i addr flags m : root (set_level4_entry i addr flags m) = root m;
}.

Section active.
Context {B : Build} {SORT : UnstableSort} {X : X86Phys} {V : X86Virt} {HG : X86Huge X V} {ELF : XmasElf}.
Context {M : Type} {MP : Mapper M} {RM : Recursive M} {BT : BootTable M} {RL : RootLaws M}.
Context {ER : ElfReader} {BL : BootInfoLayout} {FT : Features}.

Definition keeps_root {E A} (c : loader M E A) : Prop :=
  forall s r s', c s = Ret (r, s') -> root (page_table s') = root (page_table s).

Lemma keeps_root_ret {E A} (a : A) : keeps_root (mret a : loader M E A).
Proof. by intros s r s' [= <- <-]. Qed.

Lemma keeps_root_fail {E A} (e : E) : keeps_root (fail e : loader M E A).
Proof. by intros s r s' [= <- <-]. Qed.

Lemma keeps_root_pure {E A} (o : outcome A) : keeps_root (pure o : loader M E A).
Proof. unfold pure. intros s r s' H. destruct o; [by injection H as <- <- | done]. Qed.

Lemma keeps_root_bind {E A C} (c : loader M E A) (k : A -> loader M E C) :
  keeps_root c -> (forall a, keeps_root (k a)) -> keeps_root (c ≫= k).
Proof.
  unfold mbind, loader_bind. intros Hc Hk s r s' H. destruct (c s) as [[[a|e] s1]|] eqn:Heq; [| |done].
  - by rewrite (Hk a s1 r s' H), (Hc s _ s1 Heq).
  - injection H as <- <-. by apply Hc in Heq.
Qed.

Lemma keeps_root_map_err {E E' A} (f : E -> E') (c : loader M E A) : keeps_root c -> keeps_root (map_err f c).
Proof.
  unfold map_err. intros Hc s r s' H. destruct (c s) as [[[a|e] s1]|] eqn:Heq; [| |done];
    injection H as <- <-; by apply Hc in Heq.
Qed.

Lemma keeps_root_expecting {E A} why (c : loader M E A) : keeps_root c -> keeps_root (expecting why c).
Proof.
  unfold expecting. intros Hc s r s' H. destruct (c s) as [[[a|e] s1]|] eqn:Heq; [|done|done].
  injection H as <- <-. by apply Hc in Heq.
Qed.

#[local] Hint Resolve keeps_root_ret keeps_root_fail keeps_root_pure keeps_root_bind keeps_root_map_err
  keeps_root_expecting : keeps_root.

Lemma keeps_root_for_all {E A} (l : list A) (body : A -> loader M E unit) :
  (forall x, keeps_root (body x)) -> keeps_root (for_all l body).
Proof. intros Hb. induction l; cbn [for_all]; auto with keeps_root. Qed.

Lemma keeps_root_allocate t : keeps_root (allocate_or_fail t).
Proof. unfold allocate_or_fail. intros s r s' ([f mm] & _ & H)%bind_Ret_inv. by injection H as <- <-. Qed.

Lemma keeps_root_map_page page frame flags : keeps_root (map_page page frame flags).
Proof.
  unfold map_page. intros s r s' ([[r1 m] mm] & Heq & H)%bind_Ret_inv. injection H as <- <-. exact (root_map_to _ _ _ _ _ _ _ _ _ _ Heq).
Qed.

Lemma keeps_root_map_page2 page frame flags : keeps_root (map_page2 page frame flags).
Proof.
  unfold map_page2. intros s r s' ([[r1 m] mm] & Heq & H)%bind_Ret_inv. injection H as <- <-. exact (root_map_to2 _ _ _ _ _ _ _ _ _ _ Heq).
Qed.

Lemma keeps_root_unmap_page page : keeps_root (unmap_page page).
Proof.
  intros s r s'. unfold unmap_page. pose proof (root_unmap page (page_table s)) as Hr.
  destruct (unmap page (page_table s)) as [[f|[]] m]; intros H; simplify_eq; done.
Qed.

Lemma keeps_root_unmap_page2 page : keeps_root (unmap_page2 page).
Proof.
  intros s r s'. unfold unmap_page2. pose proof (root_unmap2 page (page_table s)) as Hr.
  destruct (unmap2 page (page_table s)) as [r1 m]. by intros [= <- <-].
Qed.

Lemma keeps_root_read page : keeps_root (read_page page).
Proof. intros s r s'. unfold read_page. case_match; [|done]. case_match. by intros [= <- <-]. Qed.

Lemma keeps_root_write page bytes : keeps_root (write_page page bytes).
Proof. intros s r s'. unfold write_page. case_match; [|done]. case_match. by intros [= <- <-]. Qed.

Lemma keeps_root_write_byte addr b : keeps_root (write_byte addr b).
Proof. intros s r s'. unfold write_byte. case_match; [|done]. case_match. by intros [= <- <-]. Qed.

Lemma keeps_root_final : keeps_root final_memory_map.
Proof. by intros s r s' [= <- <-]. Qed.

Lemma keeps_root_drop addr : keeps_root (drop_recursive_entry addr).
Proof.
  intros s r s'. unfold drop_recursive_entry. destruct recursive_page_table; [by intros [= <- <-]|].
  pose proof (root_unmap (page_containing_address addr) (page_table s)) as Hr.
  destruct (unmap _ _) as [[f|e] m]; [|done]. by intros [= <- <-].
Qed.

#[local] Hint Resolve keeps_root_for_all keeps_root_allocate keeps_root_map_page keeps_root_map_page2
  keeps_root_unmap_page keeps_root_unmap_page2 keeps_root_read keeps_root_write keeps_root_write_byte
  keeps_root_final keeps_root_drop : keeps_root.

(** Goes through a computation by its structure. *)
Ltac root_steps :=
  repeat first
    [ progress intros
    | match goal with
      | |- keeps_root (mbind _ _) => apply keeps_root_bind
      | |- keeps_root (for_all _ _) => apply keeps_root_for_all
      | |- keeps_root (map_err _ _) => apply keeps_root_map_err
      | |- keeps_root (expecting _ _) => apply keeps_root_expecting
      | |- keeps_root (match ?x with _ => _ end) => destruct x
      end ];
  auto with keeps_root.

Lemma keeps_root_fresh t flags page : keeps_root (map_fresh_page t flags page).
Proof. unfold map_fresh_page. root_steps. Qed.

Lemma keeps_root_file_frame f p flags frame : keeps_root (map_file_frame f p flags frame).
Proof. unfold map_file_frame. root_steps. Qed.

Lemma keeps_root_bss a fs ms flags : keeps_root (map_bss a fs ms flags).
Proof. unfold map_bss, copy_last_page, map_fresh_page, zero_byte. root_steps. Qed.

#[local] Hint Resolve keeps_root_fresh keeps_root_file_frame keeps_root_bss : keeps_root.

Lemma keeps_root_segment seg ks : keeps_root (map_segment seg ks).
Proof. unfold map_segment. root_steps. Qed.

Lemma keeps_root_segments segs ks tls : keeps_root (map_segments segs ks tls).
Proof.
  revert tls. induction segs as [|seg segs IH]; intros tls; cbn [map_segments]; [auto with keeps_root|].
  pose proof keeps_root_segment. root_steps.
Qed.

#[local] Hint Resolve keeps_root_segments : keeps_root.

Lemma keeps_root_kernel ks st size segs : keeps_root (map_kernel ks st size segs).
Proof. unfold map_kernel. root_steps. Qed.

#[local] Hint Resolve keeps_root_kernel : keeps_root.

Lemma keeps_root_boot_kernel C ks size top segs rec used : keeps_root (boot_kernel C ks size top segs rec used).
Proof.
  unfold boot_kernel, unmap_elf_file, map_boot_info_page, provide_physical_memory, map_physical,
    map_physical_frame, write_object. root_steps.
Qed.

(** The kernel starts with the table the bootloader started with. *)
Lemma bootloader_keeps_root (k : Machine (M := M)) regs screen e :
  run_bootloader k regs screen = Ret e -> root (page_table (machine e)) = root (tables k).
Proof.
  unfold run_bootloader, bootloader_main. intros H.
  repeat match type of H with
  | mbind _ _ = Ret _ => apply bind_Ret_inv in H as (? & ? & H)
  | (let '(_, _) := ?x in _) = Ret _ => destruct x
  end.
  injection H as <-. cbn [machine].
  match goal with H : boot_kernel _ _ _ _ _ _ _ _ = Ret _ |- _ => apply keeps_root_boot_kernel in H as -> end.
  apply root_set_entry.
Qed.
End active.

(** ** What the kernel sees *)

Section view.
Context {X : X86Phys} {V : X86Virt} {HG : X86Huge X V}.
Context {M : Type} {MP : Mapper M} {RM : Recursive M} {BT : BootTable M}.
Context {K : Type} {KM : Mapper K}.

(** The virtual address [a] refers to the physical address [x]. *)
Definition refers (m : M) (a x : Z) : Prop :=
  exists q f fl, page2_addr q = base2 a /\ translate2 m q = Some (f, fl) /\ frame2_addr f + a mod SIZE_2M = x.

(** The crate's [OffsetPageTable::new] reads the memory it is called in. *)
Class KernelView := offset_table_in : LoadState M -> OffsetTable K.

(** What the crate asks of the caller: the complete memory is mapped at the
    offset, and the table is the active level 4 table.  The mapper then
    translates as the processor does. *)
Class KernelViewLaws (KV : KernelView) : Prop := {
  view_translates s table off :
    (forall x, 0 <= x -> owners (x / 4096) (frames s) <> [] ->
       refers (page_table s) (virt_as_u64 off + x) x) ->
    refers (page_table s) (virt_as_u64 table) (phys_as_u64 (root (page_table s))) ->
    forall p, reserved s p = false ->
      translate (offset_table_in s table off) p = tr s p /\
      huge_parent (offset_table_in s table off) p = huge_parent (page_table s) p;
}.
End view.
#[global] Arguments KernelView {_} M K.

(** ** The kernel on the bootloader's tables *)

Section handover.
Context {B : Build} {SORT : UnstableSort} {SL : UnstableSortLaws SORT}.
Context {X : X86Phys} {XL : X86PhysLaws X} {V : X86Virt} {VL : X86VirtLaws V}.
Context {HG : X86Huge X V} {HL : X86HugeLaws HG} {ELF : XmasElf}.
Context {M : Type} {MP : Mapper M} {RM : Recursive M} {RL : RecursiveLaws M}.
Context {BT : BootTable M} {BTL : BootTableLaws M} {RTL : RootLaws M}.
Context {ER : ElfReader} {L : BootInfoLayout} {LL : BootInfoLayoutLaws L} {FT : Features}.
Context {K : Type} {KM : Mapper K} {KV : KernelView M K} {KVL : KernelViewLaws KV}.

(** No page of the heap is mapped, or will be by the bootloader. *)
Definition heap_free (k : Machine (M := M)) (pl : Plan) : Prop :=
  forall p, in_heap p ->
    level4 p <> index_as_u64 (recursive pl) /\ translate (tables k) p = None /\
    huge_parent (tables k) p = false /\ ~ in_some (plan_areas k pl) p /\ p <> info_page pl /\
    (map_physical_memory = true -> ~ in_physical (offset pl) (top pl) (huge_of p)).

Lemma heap_still_free (k : Machine (M := M)) pl mm e p :
  entered k pl mm e -> heap_free k pl -> in_heap p ->
  reserved (machine e) p = false /\ tr (machine e) p = None /\ huge_parent (page_table (machine e)) p = false.
Proof.
  intros He Hf Hp. destruct (Hf p Hp) as (Hne & Ht & Hh & Harea & Hinfo & Hphys).
  destruct (recursive_new (recursive pl) (tables k)) as (_ & Hrec & Hsame & _). destruct (Hsame p Hne) as [Ht' Hh'].
  apply (bo_untouched _ _ _ _ _ _ _ _ _ _ _ (en_booted _ _ _ _ He)); unfold reserved, tr;
    cbn [page_table start_state]; try done.
  - rewrite (Hrec p). by apply Z.eqb_neq.
  - by rewrite Ht'.
  - by rewrite Hh'.
Qed.

(** Memory the final map knows is memory the firmware reported. *)
Lemma known_memory (k : Machine (M := M)) pl mm e n :
  memory_ok k pl -> (forall f, owners f mm = marked_owner (used_regions k) f (owners f (firmware_map pl))) ->
  entered k pl mm e -> owners n (frames (machine e)) <> [] -> owners n (firmware_map pl) <> [].
Proof.
  intros Hm Hown He Hn. assert (owners n mm <> []) as Hmm.
  { destruct (bo_frames _ _ _ _ _ _ _ _ _ _ _ (en_booted _ _ _ _ He) n) as [Heq | [Heq _]];
      cbn [frames start_state] in Heq; congruence. }
  rewrite Hown in Hmm. unfold marked_owner in Hmm. destruct (List.find (contains n) (used_regions k)) as [q|] eqn:Hq;
    [|done]. apply List.find_some in Hq as [Hin Hc]. by eapply used_in_memory.
Qed.

(** The processor's page table register and the offset are as the kernel needs
    them to find its table. *)
Record table_found (k : Machine (M := M)) (pl : Plan) (cr3 : PhysFrame) : Prop := {
  tf_root : frame_start_address cr3 = root (tables k);
  tf_range : phys_as_u64 (page_table_start k) <= phys_as_u64 (root (tables k)) < phys_as_u64 (page_table_end k);
  tf_aligned : offset pl mod SIZE_2M = 0;
}.

Lemma table_in_reach (k : Machine (M := M)) pl cr3 :
  bootable k pl -> map_physical_memory = true -> table_found k pl cr3 ->
  owners (frame_number cr3) (firmware_map pl) <> [] /\
  0 <= offset pl /\ offset pl + 4096 * frame_number cr3 < 2 ^ 47.
Proof.
  intros Hb Hm [Hcr Hrange _]. rewrite <-Hcr, frame_start_number in Hrange.
  pose proof (table_in_memory k pl _ (bt_memory _ _ Hb) Hrange) as Hin. split; [done|].
  destruct (memory_marked k pl (bt_memory _ _ Hb)) as [[_ Htop] _]. specialize (Htop _ Hin).
  destruct (ko_offset _ _ (bt_kernel _ _ Hb) Hm). lia.
Qed.

(** The kernel's mapper translates as the bootloader's table does. *)
Lemma kernel_view (k : Machine (M := M)) pl mm regs screen e cr3 off (m0 : K) :
  bootable k pl -> map_physical_memory = true -> table_found k pl cr3 ->
  (forall f, owners f mm = marked_owner (used_regions k) f (owners f (firmware_map pl))) ->
  run_bootloader k regs screen = Ret e -> entered k pl mm e -> virt_as_u64 off = offset pl ->
  memory_init (OT := offset_table_in (machine e)) cr3 off = Ret m0 ->
  forall p, reserved (machine e) p = false ->
    translate m0 p = tr (machine e) p /\ huge_parent m0 p = huge_parent (page_table (machine e)) p.
Proof.
  intros Hb Hm Hfound Hown Hrun He Hoff Hm0. pose proof Hfound as [Hcr _ Hal].
  destruct (physical_memory_spec k pl regs screen e Hb Hm Hrun) as (_ & Hphys & Htop).
  assert (forall x, 0 <= x -> owners (x / 4096) (firmware_map pl) <> [] ->
    refers (page_table (machine e)) (virt_as_u64 off + x) x) as Href.
  { intros x Hx Hn%Htop. destruct (Hphys x Hx) as (q & f & Hq & Ht & Hf).
    { unfold base2, SIZE_2M in *. dlia. }
    exists q, f, physical_flags. rewrite Hoff. split; [done|]. split; [done|]. lia. }
  unfold memory_init, active_level_4_table in Hm0. apply bind_Ret_inv in Hm0 as (t & Ht & Hm0). injection Hm0 as <-.
  pose proof (frame_number_range cr3). rewrite frame_start_number in Ht.
  destruct (table_in_reach k pl cr3 Hb Hm) as (Hin & Ho0 & Ho1); [done|].
  assert (virt_as_u64 t = virt_as_u64 off + 4096 * frame_number cr3) as Htv.
  { destruct (virt_add_ok off (4096 * frame_number cr3)) as (t' & Ht' & Hv); [lia | unfold canonical; lia|].
    rewrite Ht in Ht'. by injection Ht' as <-. }
  apply view_translates.
  - intros x Hx Hn. apply Href; [done|]. by eapply known_memory; [apply Hb | done..].
  - rewrite Htv, (bootloader_keeps_root k regs screen e Hrun), <-Hcr, frame_start_number. apply Href; [lia|].
    by rewrite (Z.mul_comm 4096), Z.div_mul by lia.
Qed.
End handover.

(** ** The page table of [BootPaging] *)

Section tables.
Context {X : X86Phys} {XL : X86PhysLaws X} {V : X86Virt} {VL : X86VirtLaws V}.
Context {HG : X86Huge X V} {HL : X86HugeLaws HG}.

#[export] Instance tables_root_laws : RootLaws Tables.
Proof.
  constructor; cbn.
  - intros A FA page frame flags m a r m' a'. unfold tables_map_to.
    destruct (tables_huge m page); [by intros [= <- <- <-]|]. destruct (table_find _ _) as [[f fl]|]; [by intros [= <- <- <-]|].
    intros ([[] a1] & _ & H)%bind_Ret_inv; by injection H as <- <- <-.
  - intros page m. case_bool_decide; [done|]. by destruct (tables_small m page) as [[f fl]|].
  - intros A FA page frame flags m a r m' a'. by destruct (tables_occupied m page); intros [= <- <- <-].
  - intros page m. by destruct (table_find _ _) as [[f fl]|].
  - done.
Qed.

(** The kernel's view of it is the table itself. *)
#[export] Instance tables_view : KernelView Tables Tables := fun s _ _ => page_table s.

#[export] Instance tables_view_laws : KernelViewLaws tables_view.
Proof. by constructor. Qed.
End tables.
