(* ===== verification/LowKernel.v ===== *)
(** * A kernel below 512 GiB

    Without configured addresses, and with a kernel that is linked into the first
    512 GiB, the bootloader's choice is known: entry 1 of the level 4 table for
    the recursive mapping, entry 2 for the boot information and the stack, and
    the entries from 3 on for the physical memory.  The sizes then fit, and the
    range of the kernel's heap stays free. *)

From Stdlib Require Import Lia.
From stdpp Require Import base decidable strings numbers list.
From S2P Require Import Prelude UnstableSort MemoryMap X86 X86Huge FrameAllocator EntryCost BootRegions Level4.
From S2P Require Import Memory Paging Heap BuildConfig BootInfo PageTable BootPaging KernelLoad KernelMapping TableBudget.
From S2P Require Import Printer BootMain BootSteps Boot Bootloader BootLayout BootTheorems Handover.

Open Scope Z_scope.

(** ** First fit, one after the other *)

(** Exactly the first [n] entries are in use. *)
Definition first_used (n : nat) (used : UsedLevel4Entries) : Prop :=
  wf_entries used /\ forall i, (i < LEVEL_4_ENTRIES)%nat -> is_used used i <-> (i < n)%nat.

Lemma first_used_free n used i : first_used n used -> (n <= i < LEVEL_4_ENTRIES)%nat -> is_free used i.
Proof.
  intros [Hw Hu] Hi. unfold is_free. destruct (lookup_lt_is_Some_2 (entry_state used) i) as [[] Hb];
    [by rewrite Hw; lia | |done]. apply Hu in Hb; lia.
Qed.

Definition low_segment (s : ProgramHeader64) : Prop :=
  0 <= virtual_addr s /\ 0 <= mem_size s /\ virtual_addr s + mem_size s < 2 ^ 39.

Lemma low_segment_valid s : low_segment s -> valid_segment s.
Proof. unfold low_segment, valid_segment. lia. Qed.

Lemma low_index s z : low_segment s -> virtual_addr s <= z <= virtual_addr s + mem_size s -> l4_index z = 0%nat.
Proof. unfold low_segment, l4_index. intros. rewrite Z.div_small by lia. done. Qed.

Section fit.
Context {B : Build} {V : X86Virt} {VL : X86VirtLaws V}.

Lemma low_entries_used segs used :
  Forall low_segment segs -> UsedLevel4Entries_new segs = Ret used -> first_used 1 used.
Proof.
  intros Hlow Heq. destruct (new_spec segs) as (u & Heq' & Hw & Hm).
  { eapply Forall_impl; [exact Hlow | apply low_segment_valid]. }
  rewrite Heq in Heq'. injection Heq' as <-. split; [done|]. intros i Hi. rewrite (Hm i Hi). split; [|lia].
  intros [-> | (s & Hs & Hr)]; [lia|]. rewrite Forall_forall in Hlow. specialize (Hlow s Hs).
  pose proof Hlow as (? & ? & ?). rewrite !(low_index s) in Hr by (done || lia). lia.
Qed.

Lemma first_used_next n num used index used' :
  first_used n used -> 0 < num -> (n + Z.to_nat num <= LEVEL_4_ENTRIES)%nat ->
  get_free_entries num used = Ret (index, used') ->
  index_as_u64 index = Z.of_nat n /\ first_used (n + Z.to_nat num) used'.
Proof.
  intros Hf Hnum Hle Heq. pose proof Hf as [Hw Hu].
  destruct (get_free_entries_spec num used Hw Hnum) as
    [(idx & index1 & used1 & Heq1 & Hi & Hl & Hrun & Hfirst & Hw' & Ht) | [[? ?] _]]; [|congruence].
  rewrite Heq in Heq1. injection Heq1 as <- <-.
  assert (idx = n) as ->.
  { destruct (Nat.lt_trichotomy idx n) as [Hlt | [-> | Hlt]]; [|done|].
    - exfalso. assert (is_used used idx) as H1 by (apply Hu; lia).
      specialize (Hrun idx ltac:(lia)). unfold is_used, is_free in *. congruence.
    - exfalso. apply (Hfirst n Hlt). intros j Hj. apply (first_used_free n); [done | lia]. }
  split; [done|]. split; [done|]. intros i Hil. destruct (Ht i) as [H1 H2].
  destruct (decide (n <= i < n + Z.to_nat num)%nat) as [Hin|Hout]; [split; [lia | auto]|].
  unfold is_used in *. rewrite H2 by done. rewrite (Hu i Hil). lia.
Qed.
End fit.

(** ** The plan *)

Section low.
Context {B : Build} {SORT : UnstableSort} {SL : UnstableSortLaws SORT}.
Context {X : X86Phys} {XL : X86PhysLaws X} {V : X86Virt} {VL : X86VirtLaws V}.
Context {HG : X86Huge X V} {HL : X86HugeLaws HG} {ELF : XmasElf}.
Context {M : Type} {MP : Mapper M} {RM : Recursive M} {BT : BootTable M}.
Context {ER : ElfReader} {L : BootInfoLayout} {FT : Features}.

(** The constants of a build that configures nothing. *)
Definition default_constants : Constants :=
  {| PHYSICAL_MEMORY_OFFSET := None; KERNEL_STACK_ADDRESS := None; KERNEL_STACK_SIZE := 512;
     BOOT_INFO_ADDRESS := None |}.

(** The firmware's memory, less than 14 TiB of it; the kernel file, all of whose
    segments are below 512 GiB; and the page table of the assembly stages, which
    maps nothing outside the first level 4 entry. *)
Record low_kernel (k : Machine (M := M)) (pl : Plan) : Prop := {
  lk_memory : memory_ok k pl;
  lk_elf : read_elf (kernel_start k) (kernel_size k) (memory k) = Ret (kernel_entry pl, segs pl);
  lk_entry : canonical (kernel_entry pl);
  lk_segments : segments_ok (kernel_start k) (segs pl);
  lk_inside : forall seg, In seg (segs pl) -> get_type seg = Ok Load ->
    ph_offset seg + file_size seg <= kernel_size k;
  lk_tls : (length (tls_templates (segs pl)) <= 1)%nat;
  lk_low : Forall low_segment (segs pl);
  lk_top : 0 < top pl < 28 * 2 ^ 39 /\ top pl mod 2 ^ 39 <> 0;
  lk_clean : clean_start k pl;
}.

(** The addresses chosen. *)
Record default_addresses (pl : Plan) : Prop := {
  da_recursive : index_as_u64 (recursive pl) = 1;
  da_info : page_addr (info_page pl) = 2 * 2 ^ 39;
  da_stack : page_addr (stack pl) = 2 * 2 ^ 39 + 4096;
  da_offset : map_physical_memory = true -> offset pl = 3 * 2 ^ 39;
}.

Lemma choose_defaults (k : Machine (M := M)) pl :
  config k = default_constants -> low_kernel k pl -> plan_chosen k pl -> default_addresses pl.
Proof.
  intros Hc Hk (used0 & used & used1 & used2 & H0 & H1 & H2 & H3 & H4). rewrite Hc in *.
  apply low_entries_used in H0; [|apply Hk].
  destruct (first_used_next 1 1 _ _ _ H0 ltac:(lia) ltac:(by_compute) H1) as [Hr Hu]. cbn [Nat.add] in Hu.
  apply bind_Ret_inv in H2 as ([bi ub] & Hgb & H2). destruct zero_index as (z & Hz & Hz0).
  rewrite Hz in H2. cbn in H2. injection H2 as Hinfo <-.
  destruct (first_used_next 2 1 _ _ _ Hu ltac:(lia) ltac:(by_compute) Hgb) as [Hb Hub].
  assert (page_addr (info_page pl) = 2 * 2 ^ 39) as Hia by (rewrite <-Hinfo, info_addr, Hb by done; done).
  cbn in H3. constructor; [done | done | |].
  - destruct (page_add_ok (info_page pl) 1) as (q & Hq & Hqa); [lia | fold (page_addr (info_page pl)); rewrite Hia; by_compute|].
    rewrite H3 in Hq. injection Hq as <-. fold (page_addr (stack pl)) (page_addr (info_page pl)) in Hqa. lia.
  - intros Hm. specialize (H4 Hm). unfold choose_offset in H4. cbn [PHYSICAL_MEMORY_OFFSET default_constants] in H4.
    destruct (lk_top _ _ Hk) as [Ht _].
    rewrite u64_add_ok in H4 by (unfold LEVEL_4_SIZE; arith). cbn [mbind outcome_bind] in H4.
    apply bind_Ret_inv in H4 as ([oi uo] & Hgo & H4). rewrite Hz in H4. cbn in H4. injection H4 as Hoff <-.
    assert (0 < (top pl + (LEVEL_4_SIZE - 1)) / LEVEL_4_SIZE <= 28) as Hn by (unfold LEVEL_4_SIZE; dlia).
    destruct (first_used_next 3 _ _ _ _ Hub (proj1 Hn) ltac:(unfold LEVEL_4_ENTRIES; lia) Hgo) as [Ho _].
    rewrite <-Hoff, from_indices_1gib. unfold index. by rewrite Hz0, Ho.
Qed.

Lemma page_number_of p n : page_addr p = 4096 * n -> page_number p = n.
Proof. rewrite page_addr_number. lia. Qed.

Section chosen.
Context (k : Machine (M := M)) (pl : Plan).
Hypothesis Hc : config k = default_constants.
Hypothesis Hk : low_kernel k pl.
Hypothesis Hd : default_addresses pl.

Lemma low_stack_number : page_number (stack pl) = 2 * 2 ^ 27 + 1.
Proof. apply page_number_of. rewrite (da_stack _ Hd). lia. Qed.

Lemma low_info_number : page_number (info_page pl) = 2 * 2 ^ 27.
Proof. apply page_number_of. rewrite (da_info _ Hd). lia. Qed.

Lemma low_kernel_ok : kernel_ok k pl.
Proof.
  constructor; try apply Hk.
  - rewrite Hc, low_stack_number. by_compute.
  - intros Hm. rewrite (da_offset _ Hd Hm). destruct (lk_top _ _ Hk). lia.
Qed.

Lemma low_sizes_ok : sizes_ok k pl.
Proof.
  destruct (lk_top _ _ Hk) as [Ht Hm]. constructor.
  - rewrite Hc. by_compute.
  - done.
  - rewrite (da_recursive _ Hd). split; [done|]. split.
    + rewrite level4_number, low_info_number; [done | rewrite low_info_number; lia].
    + intros Hp. rewrite (da_offset _ Hd Hp). intros [_ H]. dlia.
Qed.

Lemma low_bootable : plan_chosen k pl -> bootable k pl.
Proof.
  intros Hpl. destruct (lk_top _ _ Hk) as [Ht _]. constructor; [apply Hk | exact low_kernel_ok | done|].
  apply default_layout; [rewrite Hc; done | |lia | done | exact low_kernel_ok | apply Hk | exact low_sizes_ok].
  eapply Forall_impl; [apply Hk | apply low_segment_valid].
Qed.

(** Entry 136 holds the heap. *)
Lemma heap_level4 p : in_heap p -> 0 <= page_number p < 2 ^ 35 /\ level4 p = 136.
Proof.
  intros (i & Hi & Hp). unfold heap_page in Hp. fold (page_addr p) in Hp. rewrite page_addr_number in Hp.
  unfold HEAP_START in Hp. assert (0 <= page_number p < 2 ^ 35) as Hr by lia. split; [done|].
  rewrite level4_number by done. dlia.
Qed.

Lemma low_heap_free : heap_free k pl.
Proof.
  intros p Hp. pose proof (heap_level4 p Hp) as [Hr Hl]. destruct (cs_pages _ _ (lk_clean _ _ Hk) p) as [Ht Hh]; [lia|].
  pose proof low_kernel_ok as Hok. pose proof low_stack_number as Hst. pose proof low_info_number as Hin.
  split; [rewrite (da_recursive _ Hd); lia|]. do 2 (split; [done|]). split; [|split].
  - unfold plan_areas, kernel_areas. rewrite in_some_app, in_some_singleton. intros [Hs|Hs].
    + destruct Hs as (P & (seg & <- & Hseg)%in_map_iff & HP). apply List.filter_In in Hseg as [Hseg _].
      pose proof (lk_low _ _ Hk) as Hlow. rewrite List.Forall_forall in Hlow. specialize (Hlow seg Hseg).
      rewrite level4_number in Hl by done. unfold low_segment in Hlow. destruct HP as [HP | [_ HP]].
      * unfold segment_pages, in_pages in HP. clear - Hl Hlow HP. dlia.
      * unfold is_temp, temp_page_number in HP. rewrite HP in Hl. discriminate.
    + unfold stack_pages, in_pages in Hs. rewrite Hst, Hc in Hs. cbn in Hs.
      rewrite level4_number in Hl by done. clear - Hl Hs. dlia.
  - intros ->. rewrite level4_number, Hin in Hl by done. discriminate.
  - intros Hm [_ Hq]. rewrite (da_offset _ Hd Hm), huge_of_number in Hq. destruct (lk_top _ _ Hk) as [Htop _].
    rewrite level4_number in Hl by done. clear - Hl Hq Htop. unfold base2, SIZE_2M in Hq. dlia.
Qed.
End chosen.
End low.
