(* ===== verification/System.v ===== *)
(** * From power on to the agent

    The bootloader and the kernel together: the boot information
    [bootloader_main] leaves is one [kernel_main] can work with, and the page
    table it leaves is the one the kernel maps its heap in. *)

From Stdlib Require Import Lia.
From stdpp Require Import base decidable strings numbers list.
From S2P Require Import Prelude RustStr Vga Console Context Tools Agent.
From S2P Require Import BuildHost BuildScript ConfigFile BuildTheorems.
From S2P Require Import UnstableSort MemoryMap X86 X86Huge FrameAllocator EntryCost BootRegions Level4.
From S2P Require Import Memory Paging Heap Kernel BuildConfig BootInfo PageTable BootPaging KernelLoad KernelMapping TableBudget.
From S2P Require Import Printer BootMain BootSteps Boot Bootloader BootLayout BootTheorems Handover LowKernel.

Open Scope Z_scope.

Section system.
Context {B : Build} {SORT : UnstableSort} {SL : UnstableSortLaws SORT}.
Context {X : X86Phys} {XL : X86PhysLaws X} {V : X86Virt} {VL : X86VirtLaws V}.
Context {HG : X86Huge X V} {HL : X86HugeLaws HG} {ELF : XmasElf}.
Context {M : Type} {MP : Mapper M} {RM : Recursive M} {RL : RecursiveLaws M}.
Context {BT : BootTable M} {BTL : BootTableLaws M} {RTL : RootLaws M}.
Context {ER : ElfReader} {L : BootInfoLayout} {LL : BootInfoLayoutLaws L} {FT : Features}.
Context {U : Uart} {UL : UartLaws U}.
Context {K : Type} {KM : Mapper K} {KL : MapperLaws K} {KV : KernelView M K} {KVL : KernelViewLaws KV}.

(** Sorting neither adds nor removes usable frames. *)
Lemma usable_sorted mm :
  wf_map mm -> disjoint_map mm ->
  disjoint_map (sort mm) /\ (length (usable_numbers mm) <= length (usable_numbers (sort mm)))%nat.
Proof.
  intros Hw Hd. split.
  - intros f. rewrite (Permutation_length (sort_owners f mm Hw)). apply Hd.
  - apply submseteq_length, NoDup_submseteq; [by apply NoDup_usable_list|].
    intros n Hn%elem_of_usable_numbers. apply elem_of_usable_numbers. by rewrite (sort_owners n mm Hw).
Qed.

(** Entries of the memory map for the bootloader, and frames for both: 1024 for
    the kernel's heap. *)
Record enough_memory (k : Machine (M := M)) (pl : Plan) : Prop := {
  em_entries : (entries_used (firmware_map pl) + 12 + entry_room k pl <= MAX_MEMORY_MAP_SIZE)%nat;
  em_frames : (1024 + room k pl + frame_total (used_regions k) < length (usable_numbers (firmware_map pl)))%nat;
}.

(** What the kernel needs beside a bootable machine: the physical memory is
    mapped, the page table register holds the table the bootloader works on, and
    the range of the heap is free. *)
Record system_ok (k : Machine (M := M)) (pl : Plan) (cr3 : PhysFrame) : Prop := {
  sy_physical : map_physical_memory = true;
  sy_offset : offset pl <> 0;
  sy_table : table_found k pl cr3;
  sy_memory : enough_memory k pl;
  sy_heap : heap_free k pl;
}.

(** The heap of the kernel [ks] that was entered in [e]: its mapper, which is
    the page table of [e] but for the heap and what lies under the recursive entry,
    has page [i] of the heap at the
    [i]-th of 256 frames; those pages were not mapped before, and those frames
    were usable memory when the kernel was entered: none of them holds anything
    of the kernel or of what was in use before. *)
Record heap_in_place (k : Machine (M := M)) (pl : Plan) (e : Entered (M := M)) (ks : kernel_state (M := K))
    (heap_frames : list PhysFrame) : Prop := {
  hp_range : k_heap ks = Some (HEAP_START, HEAP_SIZE);
  hp_length : length heap_frames = 256%nat;
  hp_distinct : NoDup (map frame_number heap_frames);
  hp_mapped : forall i p f, heap_page i p -> heap_frames !! i = Some f ->
    translate (k_mapper ks) p = Some (f, heap_flags);
  hp_new : forall p, in_heap p -> tr (machine e) p = None;
  hp_others : forall p, ~ in_heap p -> level4 p <> index_as_u64 (recursive pl) ->
    translate (k_mapper ks) p = tr (machine e) p;
  hp_usable : forall n, n ∈ map frame_number heap_frames -> owners n (frames (machine e)) = [Usable];
  hp_unused : forall n, n ∈ map frame_number heap_frames -> ~ in_use k pl e n;
}.

(** From power on to the run loop: the bootloader enters the kernel, and the
    kernel's entry point, started in the memory and with the boot information it
    left, reaches the run loop. *)
Definition reaches_run_loop (k : Machine (M := M)) (pl : Plan) (regs : Registers) (screen : Screen)
    (cr3 : PhysFrame) (c : Console U) : Prop :=
  exists e ks c' heap_frames,
    run_bootloader k regs screen = Ret e /\
    _start (OT := offset_table_in (machine e)) cr3 (boot_info (handoff e)) c = Ret (ks, c') /\
    wf_console c' /\ shows_line "Agent is alive. Entering run loop." c' /\
    messages (context (k_agent ks)) = [new_message System system_prompt] /\
    tools (tool_registry (k_agent ks)) = builtin_tools /\
    heap_in_place k pl e ks heap_frames.

(** What the bootloader leaves is enough for the kernel. *)
Lemma entered_bootable (k : Machine (M := M)) pl mm regs screen e cr3 :
  bootable k pl -> system_ok k pl cr3 -> run_bootloader k regs screen = Ret e -> entered k pl mm e ->
  (forall f, owners f mm = marked_owner (used_regions k) f (owners f (firmware_map pl))) ->
  (1024 + room k pl < length (usable_numbers mm))%nat ->
  Kernel.bootable (OT := offset_table_in (machine e)) cr3 (boot_info (handoff e)).
Proof.
  intros Hb [Hm Hne Hfound _ Hheap] Hrun He Hown Hmem. pose proof (en_booted _ _ _ _ He) as Hbo.
  destruct (en_ready _ _ _ _ He) as [Hw Hd]. destruct (ko_offset _ _ (bt_kernel _ _ Hb) Hm) as [Ho0 Ho1].
  destruct (table_in_reach k pl cr3 Hb Hm Hfound) as (_ & _ & Htab).
  pose proof (frame_number_range cr3). pose proof (en_left _ _ _ _ He).
  destruct (usable_sorted _ Hw Hd) as [Hds Hlen].
  constructor; rewrite ?(bo_info_offset _ _ _ _ _ _ _ _ _ _ _ Hbo Hm), ?(bo_info_map _ _ _ _ _ _ _ _ _ _ _ Hbo);
    [done | unfold canonical; lia | by apply sort_wf | done | lia | unfold canonical; lia |].
  intros a m0 Ha Hm0 i p Hi Hp. destruct (heap_still_free k pl mm e p He Hheap) as (Hr & Ht & Hh); [by exists i|].
  destruct (kernel_view k pl mm regs screen e cr3 a m0 Hb Hm Hfound Hown Hrun He Ha Hm0 p Hr) as [-> ->]. done.
Qed.

Lemma heap_placed (k : Machine (M := M)) pl mm regs screen e cr3 a (m0 : K) (ks : kernel_state (M := K)) hf :
  bootable k pl -> system_ok k pl cr3 -> run_bootloader k regs screen = Ret e -> entered k pl mm e ->
  (forall f, owners f mm = marked_owner (used_regions k) f (owners f (firmware_map pl))) ->
  virt_as_u64 a = offset pl -> memory_init (OT := offset_table_in (machine e)) cr3 a = Ret m0 ->
  k_heap ks = Some (HEAP_START, HEAP_SIZE) -> heap_mapped hf m0 (k_mapper ks) ->
  map frame_number hf `sublist_of` usable_numbers (sort (frames (machine e))) ->
  heap_in_place k pl e ks hf.
Proof.
  intros Hb [Hm _ Hfound _ Hheap] Hrun He Hown Ha Hm0 Hrange (Hlen & Hmap & Hother) Hsub.
  destruct (en_ready _ _ _ _ He) as [Hw Hd]. destruct (usable_sorted _ Hw Hd) as [Hds _].
  assert (forall n, n ∈ map frame_number hf -> owners n (frames (machine e)) = [Usable]) as Hus.
  { intros n Hn. eapply elem_of_sublist in Hn; [|exact Hsub]. apply elem_of_usable_numbers in Hn.
    rewrite (sort_owners _ _ Hw) in Hn. apply singleton_usable; [apply Hd | done]. }
  constructor; try done.
  - eapply sublist_NoDup; [by apply NoDup_usable_list | exact Hsub].
  - intros p Hp. by apply (heap_still_free k pl mm e p He Hheap).
  - intros p Hp Hne. rewrite (Hother p Hp).
    apply (kernel_view k pl mm regs screen e cr3 a m0 Hb Hm Hfound Hown Hrun He Ha Hm0 p).
    apply (bo_reserved _ _ _ _ _ _ _ _ _ _ _ (en_booted _ _ _ _ He)).
    destruct (recursive_new (recursive pl) (tables k)) as (_ & Hrec & _). unfold reserved.
    cbn [page_table start_state]. rewrite (Hrec p). by apply Z.eqb_neq.
  - intros n Hn Huse. eapply in_use_not_usable in Huse; [|done..]. rewrite (Hus n Hn) in Huse.
    apply Huse. left.
Qed.

Lemma boots_to_run_loop (k : Machine (M := M)) pl regs screen cr3 c :
  bootable k pl -> system_ok k pl cr3 -> wf_console c -> reaches_run_loop k pl regs screen cr3 c.
Proof.
  intros Hb Hs Hc. pose proof Hs as [Hm _ _ [Hent Hmem] _].
  destruct (run_bootloader_spec k pl regs screen Hb) as (mm & Hn & Hown & Hrun).
  pose proof (marked_usable (used_regions k) (firmware_map pl) mm (mo_disjoint _ _ (bt_memory _ _ Hb)) Hown) as Hus.
  destruct (run_bootloader k regs screen) as [e|why] eqn:Heq; [|lia].
  pose proof (entered_bootable k pl mm regs screen e cr3 Hb Hs Heq Hrun Hown ltac:(lia)) as Hkb.
  destruct (kernel_main_ok (OT := offset_table_in (machine e)) cr3 (boot_info (handoff e)) c Hc Hkb)
    as (ks & c' & a & m0 & hf & Hks & Hwf & Hsh & _ & Hag & Hms & _ & Hheap & Ha & Hm0 & Hmap & Hsub).
  rewrite (bo_info_offset _ _ _ _ _ _ _ _ _ _ _ (en_booted _ _ _ _ Hrun) Hm) in Ha.
  rewrite (bo_info_map _ _ _ _ _ _ _ _ _ _ _ (en_booted _ _ _ _ Hrun)) in Hsub.
  exists e, ks, c', hf. do 5 (split; [done|]). split; [apply Hag|]. by eapply heap_placed.
Qed.

(** C2 (functional). The system boots: on a bootable machine with the physical
    memory mapped at a multiple of 2 MiB, with enough entries in the memory map
    and enough usable frames for the bootloader and 1024 more, and with the range
    of the heap free, the bootloader enters the kernel, and its entry point,
    started in the memory and with the boot information it left, reaches the run
    loop: the agent holds the system prompt and the four tools, and the kernel's
    page table is, outside the recursive entry, the one the bootloader left with
    the heap added, each of its 256 pages at a frame of its own that was still usable, so that none of them
    holds a byte of the kernel's segments, of its stack, of the boot information
    or of the ranges that were in use before. *)
Theorem system_boots (k : Machine (M := M)) pl regs screen cr3 c :
  bootable k pl -> system_ok k pl cr3 -> wf_console c -> reaches_run_loop k pl regs screen cr3 c.
Proof. apply boots_to_run_loop. Qed.

(** C3 (functional). The build configures a system that boots.  The build script
    accepts a manifest that configures nothing for the bootloader, and the
    bootloader is compiled with the constants it writes and with the physical
    memory mapped.  The machine ([low_kernel]) has less than 14 TiB of memory that
    does not end at a multiple of 512 GiB, in which the ranges in use can be
    marked; a kernel file that can be loaded, all of whose segments are below
    512 GiB; and, in the page table register, a table that maps nothing outside
    the first level 4 entry, has the kernel file, and leaves the pages of the
    segments free, each of which is needed once.  There are enough entries of the
    memory map and usable frames for the bootloader and 1024 frames more.  Then
    the bootloader chooses the level 4 entries 1, 2 and those from 3 on, nothing
    collides, the kernel's heap stays free, and the system reaches the run loop as
    above: nothing is assumed of the addresses that are chosen. *)
Theorem built_system_boots {BC : BuildCrates} {BL : BuildCratesLaws BC} (b : BuildRun)
    (k : Machine (M := M)) pl regs screen cr3 c :
  accepted map_physical_memory b -> bootloader_table (b_manifest b) = None ->
  read_constants (config_text (b_config b)) = Some (config k) ->
  low_kernel k pl -> plan_chosen k pl -> map_physical_memory = true ->
  frame_start_address cr3 = root (tables k) ->
  phys_as_u64 (page_table_start k) <= phys_as_u64 (root (tables k)) < phys_as_u64 (page_table_end k) ->
  enough_memory k pl -> wf_console c ->
  default_addresses pl /\ reaches_run_loop k pl regs screen cr3 c.
Proof.
  intros Hb Ht Hread Hk Hpl Hm Hcr Hrange Hmem Hc.
  destruct (config_file_read _ _ _ (a_config _ _ Hb)) as (_ & Hr & Hdef).
  rewrite Hr, (Hdef Ht) in Hread. injection Hread as Hcfg. symmetry in Hcfg.
  pose proof (choose_defaults k pl Hcfg Hk Hpl) as Hd. split; [done|].
  apply boots_to_run_loop; [by apply low_bootable | |done].
  pose proof (da_offset _ Hd Hm) as Ho. constructor; [done | lia | | done | by apply low_heap_free].
  constructor; [done | done |]. by rewrite Ho.
Qed.
End system.

(** ** The sample machine *)

#[local] Existing Instances BootTheorems.checked kernel_features elf64 elf_types info_layout info_layout_laws.

(** The register holds the level 4 table of the sample machine. *)
Definition boot_cr3 : PhysFrame := level4_table sample_tables.

Lemma sample_low_kernel : low_kernel sample_machine sample_plan.
Proof.
  destruct sample_kernel_ok as [H1 H2 H3 H4 H5 _ _].
  constructor; [exact sample_memory_ok | done.. | | by_compute | exact sample_clean].
  repeat constructor; by_compute.
Qed.

Lemma sample_system_memory : enough_memory sample_machine sample_plan.
Proof. constructor; [exact sample_entries_left|]. rewrite length_usable_numbers. by_compute. Qed.

Lemma sample_root_range :
  phys_as_u64 (page_table_start sample_machine) <= phys_as_u64 (root (tables sample_machine)) <
  phys_as_u64 (page_table_end sample_machine).
Proof. by_compute. Qed.

Lemma sample_system_ok : system_ok sample_machine sample_plan boot_cr3.
Proof.
  constructor; [reflexivity | discriminate | | exact sample_system_memory |].
  - constructor; [reflexivity | exact sample_root_range | reflexivity].
  - apply low_heap_free; [reflexivity | exact sample_low_kernel|].
    apply (choose_defaults sample_machine); [reflexivity | exact sample_low_kernel | exact sample_chosen].
Qed.

Lemma system_boots_witness :
  reaches_run_loop sample_machine sample_plan sample_registers sample_screen boot_cr3 sample_console.
Proof.
  pose proof (system_boots sample_machine sample_plan sample_registers sample_screen boot_cr3 sample_console
    sample_machine_bootable sample_system_ok ltac:(by_compute)) as H.
  exact H.
Defined.

(** The build of the sample machine's bootloader. *)
Definition sample_build : BuildRun :=
  {| b_target := "x86_64-bootloader.json"; b_out_dir := "out"; b_kernel := "target/llm-os";
     b_name := "llm-os"; b_llvm_size := "llvm-size";
     b_sizes := "text data" +:+ newline_str +:+ "40960 1024"; b_text_size := "40960";
     b_objcopy := "llvm-objcopy"; b_ar := "llvm-ar"; b_manifest_path := "Cargo.toml";
     b_contents := "plain"; b_manifest := plain_manifest; b_config := BuildConfig.default_config |}.

Lemma sample_build_accepted : accepted true sample_build.
Proof. constructor; try (vm_compute; reflexivity). discriminate. Qed.

Lemma built_system_boots_witness :
  default_addresses sample_plan /\
  reaches_run_loop sample_machine sample_plan sample_registers sample_screen boot_cr3 sample_console.
Proof.
  pose proof (built_system_boots sample_build sample_machine sample_plan sample_registers sample_screen
    boot_cr3 sample_console sample_build_accepted ltac:(vm_compute; reflexivity)
    ltac:(vm_compute; reflexivity) sample_low_kernel sample_chosen eq_refl eq_refl sample_root_range
    sample_system_memory ltac:(by_compute)) as H.
  exact H.
Defined.
